(** * speckit-status: the tasks.md parser and its dependency section

    A shallow embedding of [src/parser.ts], [src/dependency-parser.ts] and
    [getSpecName] of [src/git-utils.ts], with the properties of the
    specification stated and proved (or refuted) over it.

    Conventions of the embedding.
    - A JavaScript string is the list of its UTF-16 code units ([N]); the
      regular expressions of the program have no [u] flag, so they work on
      code units as well.
    - A JavaScript number is a [Z].  Every number of the program comes from
      [parseInt] on a run of decimal digits or from [i++]; both round to the
      nearest double, which [to_double] writes out (53 bits of mantissa, ties
      to even).  Digit runs of more than 308 digits (Infinity) are outside the
      model, and NaN is an explicit [None] where the program can meet it.
    - A [Map] is an association list in insertion order, [Map.set] keeping the
      position of a key that is already present.
    - Lengths and counters that are array lengths are [nat].
    - The formatter divides and multiplies; its doubles are mantissa and
      exponent ([Double.double]), each operation rounding the exact result
      to the nearest double.
    - A function that may return nothing has an [option] result: [None] is
      a loop that has not ended after [fuel] iterations, or a RangeError.
      Two limits of the engine that a short document or a single call can
      reach are written out: a [Set] holds at most 2^24 entries
      ([DependencyParser.maxSetSize]) and a string at most 2^29 - 24 code
      units ([Formatter.maxStringLength]).  The limits that only a document
      of hundreds of megabytes can reach (the sizes of the arrays and maps
      that grow with its lines, the depth of the call stack) are outside
      the model. *)

From Stdlib Require Import String Ascii.
From Stdlib Require Import List ZArith NArith Bool Lia.
From Stdlib Require Import Sorted Permutation DecimalString.
Import ListNotations.

Set Implicit Arguments.
Local Open Scope Z_scope.

(** ** JavaScript strings and numbers *)

Module JS.

Abbreviation char := N (only parsing).
Abbreviation jsstring := (list N) (only parsing).

(** The code units of an ASCII literal. *)
Definition js (s : String.string) : jsstring :=
  List.map Ascii.N_of_ascii (String.list_ascii_of_string s).
Arguments js s%_string.

Definition char_eqb (a b : char) : bool := N.eqb a b.

Fixpoint str_eqb (a b : jsstring) : bool :=
  match a, b with
  | [], [] => true
  | x :: a', y :: b' => char_eqb x y && str_eqb a' b'
  | _, _ => false
  end.

(** [l.length === 0] *)
Definition isEmpty (A : Type) (l : list A) : bool :=
  match l with [] => true | _ => false end.

(** WhiteSpace and LineTerminator of ECMAScript: what [\s] matches and what
    [trim] and [parseInt] strip. *)
Definition isLineTerminator (c : char) : bool :=
  (N.eqb c 10 || N.eqb c 13 || N.eqb c 8232 || N.eqb c 8233)%bool.

Definition isWhiteSpace (c : char) : bool :=
  (N.eqb c 9 || N.eqb c 11 || N.eqb c 12 || N.eqb c 32 || N.eqb c 160
   || N.eqb c 5760 || (N.leb 8192 c && N.leb c 8202) || N.eqb c 8239
   || N.eqb c 8287 || N.eqb c 12288 || N.eqb c 65279
   || isLineTerminator c)%bool.

Definition isDigit (c : char) : bool := (N.leb 48 c && N.leb c 57)%bool.

Fixpoint dropWhile (p : char -> bool) (s : jsstring) : jsstring :=
  match s with
  | [] => []
  | c :: s' => if p c then dropWhile p s' else s
  end.

Fixpoint takeWhile (p : char -> bool) (s : jsstring) : jsstring :=
  match s with
  | [] => []
  | c :: s' => if p c then c :: takeWhile p s' else []
  end.

Definition trimStart (s : jsstring) : jsstring := dropWhile isWhiteSpace s.
Definition trimEnd (s : jsstring) : jsstring :=
  rev (dropWhile isWhiteSpace (rev s)).
(** [String.prototype.trim] *)
Definition trim (s : jsstring) : jsstring := trimEnd (trimStart s).

(** [String.prototype.startsWith] *)
Fixpoint startsWith (pre s : jsstring) : bool :=
  match pre, s with
  | [], _ => true
  | p :: pre', c :: s' => char_eqb p c && startsWith pre' s'
  | _ :: _, [] => false
  end.

(** [String.prototype.includes] *)
Fixpoint includes (sub s : jsstring) : bool :=
  startsWith sub s ||
  match s with
  | [] => false
  | _ :: s' => includes sub s'
  end.

(** [String.prototype.split] for a separator that matches exactly one code
    unit: the strings ["\n"] and ["/"] and the class [/[/\\]/].  The empty
    string gives one empty piece. *)
Fixpoint split (sep : char -> bool) (s : jsstring) : list jsstring :=
  match s with
  | [] => [[]]
  | c :: s' =>
      if sep c then [] :: split sep s'
      else match split sep s' with
           | [] => [[c]]
           | piece :: rest => (c :: piece) :: rest
           end
  end.

Definition isLF (c : char) : bool := N.eqb c 10.
Definition isSlash (c : char) : bool := N.eqb c 47.

(** [Array.prototype.findIndex] with the callback's index argument;
    [None] is the -1 of JavaScript. *)
Fixpoint findIndexFrom (A : Type) (f : A -> nat -> bool) (i : nat)
  (l : list A) : option nat :=
  match l with
  | [] => None
  | x :: l' => if f x i then Some i else findIndexFrom f (S i) l'
  end.

Definition findIndex (A : Type) (f : A -> nat -> bool) (l : list A)
  : option nat := findIndexFrom f 0 l.

(** *** Numbers *)

Abbreviation number := Z (only parsing).

(** Rounding of a non-negative integer to the nearest double, ties to the
    even mantissa. *)
Definition round53 (n : Z) : Z :=
  let bits := Z.log2 n + 1 in
  if bits <=? 53 then n
  else
    let e := bits - 53 in
    let q := Z.shiftr n e in
    let r := n - Z.shiftl q e in
    let half := Z.shiftl 1 (e - 1) in
    let q' := if ((half <? r) || ((r =? half) && Z.odd q))%bool
              then q + 1 else q in
    Z.shiftl q' e.

Definition to_double (n : Z) : number :=
  if n <? 0 then - round53 (- n) else round53 n.

(** [i++] on a number. *)
Definition incr (i : number) : number := to_double (i + 1).

Definition digitValue (c : char) : Z := Z.of_N c - 48.

Definition digitsValue (ds : jsstring) : Z :=
  fold_left (fun acc c => 10 * acc + digitValue c) ds 0.

(** [parseInt(s, 10)]: leading white space is skipped, a sign is read, the
    longest run of decimal digits is taken; [None] is NaN. *)
Definition parseInt (s : jsstring) : option number :=
  let s1 := trimStart s in
  let '(neg, s2) :=
    match s1 with
    | c :: rest =>
        if N.eqb c 45 then (true, rest)
        else if N.eqb c 43 then (false, rest)
        else (false, s1)
    | [] => (false, s1)
    end in
  let ds := takeWhile isDigit s2 in
  if isEmpty ds then None
  else Some (to_double (if neg then - digitsValue ds else digitsValue ds)).

(** [parseInt] at the places where the argument is a capture of [\d+] (or
    the string ['0']): NaN cannot arise there, see [parseInt_digits]. *)
Definition parseIntDigits (s : jsstring) : number :=
  match parseInt s with
  | Some n => n
  | None => 0
  end.

(** [Number.prototype.toString] of a non-negative integer: its decimal
    digits.  This is exact for the safe integers; beyond them JavaScript
    prints the shortest digits that round to the double, which is not
    modelled. *)
Definition toString (i : number) : jsstring :=
  js (NilZero.string_of_uint (N.to_uint (Z.to_N i))).

(** [s.padStart(n, '0')] *)
Definition padStart (n : nat) (s : jsstring) : jsstring :=
  repeat 48%N (n - length s) ++ s.

(** *** Sorting

    [Array.prototype.sort] is a stable sort; on a total order whose
    equivalent elements are equal its result is the sorted permutation,
    which insertion sort computes. *)

Section Sort.
Variable A : Type.
Variable leb : A -> A -> bool.

Fixpoint insert (x : A) (l : list A) : list A :=
  match l with
  | [] => [x]
  | y :: l' => if leb x y then x :: l else y :: insert x l'
  end.

Fixpoint sort (l : list A) : list A :=
  match l with
  | [] => []
  | x :: l' => insert x (sort l')
  end.
End Sort.

(** [arr.sort((a, b) => a - b)] *)
Definition sortNumbers (l : list number) : list number := sort Z.leb l.

(** The default comparison of [sort()]: strings by code units. *)
Fixpoint str_leb (a b : jsstring) : bool :=
  match a, b with
  | [], _ => true
  | _ :: _, [] => false
  | x :: a', y :: b' =>
      if N.ltb x y then true
      else if N.ltb y x then false
      else str_leb a' b'
  end.

Definition sortStrings (l : list jsstring) : list jsstring := sort str_leb l.

(** [[...new Set(l)]]: the first occurrence of each element, in order. *)
Fixpoint dedupeFrom (A : Type) (eqb : A -> A -> bool) (seen l : list A)
  : list A :=
  match l with
  | [] => []
  | x :: l' =>
      if existsb (eqb x) seen then dedupeFrom eqb seen l'
      else x :: dedupeFrom eqb (x :: seen) l'
  end.

Definition dedupe (A : Type) (eqb : A -> A -> bool) (l : list A) : list A :=
  dedupeFrom eqb [] l.

End JS.

(** ** Regular expressions

    A backtracking matcher in continuation-passing style for the fragment
    of ECMAScript regular expressions that the program uses: literals,
    character classes, concatenation, alternation, greedy and lazy
    repetition, capture groups, [^] and [$] (no [m] flag), and the [i]
    flag. *)

Module Regex.
Import JS.

Record charset := { negated : bool; ranges : list (char * char) }.

Inductive regex :=
| Eps
| Chr (c : char)
| Cls (cs : charset)
| Cat (r1 r2 : regex)
| Alt (r1 r2 : regex)
| Star (greedy : bool) (r : regex)
| Grp (i : nat) (r : regex)
| Bol
| Eol.

(** [r+], [r+?], [r?] and a literal word. *)
Definition Plus (greedy : bool) (r : regex) : regex := Cat r (Star greedy r).
Definition Opt (r : regex) : regex := Alt r Eps.
Definition Lit (w : jsstring) : regex := fold_right (fun c r => Cat (Chr c) r) Eps w.
Definition Seq (rs : list regex) : regex := fold_right Cat Eps rs.

(** The classes of the program. *)
Definition cls_space : charset :=
  {| negated := false;
     ranges := [(9, 13); (32, 32); (160, 160); (5760, 5760); (8192, 8202);
                (8232, 8233); (8239, 8239); (8287, 8287); (12288, 12288);
                (65279, 65279)]%N |}.
Definition cls_digit : charset := {| negated := false; ranges := [(48, 57)]%N |}.
(** [.] without the [s] flag: anything but a line terminator. *)
Definition cls_dot : charset :=
  {| negated := true; ranges := [(10, 10); (13, 13); (8232, 8233)]%N |}.
Definition cls_of (cs : jsstring) : charset :=
  {| negated := false; ranges := List.map (fun c => (c, c)) cs |}.
Definition cls_not (cs : jsstring) : charset :=
  {| negated := true; ranges := List.map (fun c => (c, c)) cs |}.

Definition isLower (c : char) : bool := (N.leb 97 c && N.leb c 122)%bool.
Definition isUpper (c : char) : bool := (N.leb 65 c && N.leb c 90)%bool.
Definition toUpper (c : char) : char := if isLower c then (c - 32)%N else c.
Definition toLower (c : char) : char := if isUpper c then (c + 32)%N else c.

(** Canonicalize of the specification, without the [u] flag: the upper-case
    form under [i].  Only the ASCII letters are mapped here; a code unit
    above 127 is never mapped to one below 128 by ECMAScript, and the
    patterns with the [i] flag are ASCII, so the comparisons agree. *)
Definition canon (ic : bool) (c : char) : char := if ic then toUpper c else c.

Definition inRange (c : char) (r : char * char) : bool :=
  (N.leb (fst r) c && N.leb c (snd r))%bool.

Definition inRanges (rs : list (char * char)) (c : char) : bool :=
  existsb (inRange c) rs.

Definition cls_mem (ic : bool) (cs : charset) (c : char) : bool :=
  let found :=
    if ic then (inRanges (ranges cs) c || inRanges (ranges cs) (toUpper c)
                || inRanges (ranges cs) (toLower c))%bool
    else inRanges (ranges cs) c in
  if negated cs then negb found else found.

Definition captures := list (nat * jsstring).

Fixpoint capture_get (caps : captures) (i : nat) : option jsstring :=
  match caps with
  | [] => None
  | (j, v) :: caps' => if Nat.eqb i j then Some v else capture_get caps' i
  end.

(** The state of a match: the index reached, the input from there on, the
    captures so far. *)
Definition cont := nat -> jsstring -> captures -> option (nat * jsstring * captures).

(** The loop of a repetition [r*] or [r*?], [body] being the matcher of
    [r]: at most [fuel] iterations, each of which has to consume input. *)
Fixpoint starLoop (greedy : bool)
  (body : nat -> jsstring -> captures -> cont -> option (nat * jsstring * captures))
  (k : cont) (fuel : nat) (pos : nat) (s : jsstring) (caps : captures)
  {struct fuel} : option (nat * jsstring * captures) :=
  match fuel with
  | O => k pos s caps
  | S fuel' =>
      let again :=
        body pos s caps
          (fun pos' s' caps' =>
             (* an iteration that consumes nothing is rejected *)
             if Nat.eqb pos' pos then None
             else starLoop greedy body k fuel' pos' s' caps') in
      if greedy then
        match again with
        | Some res => Some res
        | None => k pos s caps
        end
      else
        match k pos s caps with
        | Some res => Some res
        | None => again
        end
  end.

Fixpoint run (ic : bool) (r : regex) (pos : nat) (s : jsstring)
  (caps : captures) (k : cont) {struct r} : option (nat * jsstring * captures) :=
  match r with
  | Eps => k pos s caps
  | Chr c =>
      match s with
      | x :: s' => if char_eqb (canon ic x) (canon ic c) then k (S pos) s' caps else None
      | [] => None
      end
  | Cls cs =>
      match s with
      | x :: s' => if cls_mem ic cs x then k (S pos) s' caps else None
      | [] => None
      end
  | Cat r1 r2 => run ic r1 pos s caps (fun pos' s' caps' => run ic r2 pos' s' caps' k)
  | Alt r1 r2 =>
      match run ic r1 pos s caps k with
      | Some res => Some res
      | None => run ic r2 pos s caps k
      end
  | Star greedy r1 => starLoop greedy (run ic r1) k (length s) pos s caps
  | Grp i r1 =>
      run ic r1 pos s caps
        (fun pos' s' caps' => k pos' s' ((i, firstn (pos' - pos) s) :: caps'))
  | Bol => if Nat.eqb pos 0 then k pos s caps else None
  | Eol => match s with [] => k pos s caps | _ => None end
  end.

Record RegExp := { source : regex; ignoreCase : bool }.

Record MatchResult := {
  index : nat;
  matched : jsstring;
  groups : captures;
  endIndex : nat;
  rest : jsstring
}.

(** [m[i]] *)
Definition capture (m : MatchResult) (i : nat) : option jsstring :=
  capture_get (groups m) i.

(** [m[i] ?? d] *)
Definition captureOr (m : MatchResult) (i : nat) (d : jsstring) : jsstring :=
  match capture m i with
  | Some v => v
  | None => d
  end.

Definition accept : cont := fun pos s caps => Some (pos, s, caps).

(** The match that starts at index [pos], if there is one. *)
Definition matchAt (R : RegExp) (pos : nat) (s : jsstring) : option MatchResult :=
  match run (ignoreCase R) (source R) pos s [] accept with
  | Some (e, s', caps) =>
      Some {| index := pos; matched := firstn (e - pos) s; groups := caps;
              endIndex := e; rest := s' |}
  | None => None
  end.

(** RegExpBuiltinExec from index [pos]: the leftmost match. *)
Fixpoint search (R : RegExp) (pos : nat) (s : jsstring) : option MatchResult :=
  match matchAt R pos s with
  | Some m => Some m
  | None =>
      match s with
      | [] => None
      | _ :: s' => search R (S pos) s'
      end
  end.

(** [s.match(R)] and [R.exec(s)] for a regular expression without the [g]
    flag, and [R.test(s)]. *)
Definition exec (R : RegExp) (s : jsstring) : option MatchResult := search R 0 s.

Definition test (R : RegExp) (s : jsstring) : bool :=
  match exec R s with
  | Some _ => true
  | None => false
  end.

(** [s.matchAll(R)] for a regular expression with the [g] flag: the matches
    from left to right, each search starting where the last match ended (one
    further after an empty match).  [fuel] bounds the number of matches; the
    length of the input plus one is enough. *)
Fixpoint matchAllFrom (fuel : nat) (R : RegExp) (pos : nat) (s : jsstring)
  : list MatchResult :=
  match fuel with
  | O => []
  | S fuel' =>
      match search R pos s with
      | None => []
      | Some m =>
          m :: (if Nat.eqb (endIndex m) (index m) then
                  match rest m with
                  | [] => []
                  | _ :: s' => matchAllFrom fuel' R (S (endIndex m)) s'
                  end
                else matchAllFrom fuel' R (endIndex m) (rest m))
      end
  end.

Definition matchAll (R : RegExp) (s : jsstring) : list MatchResult :=
  matchAllFrom (S (length s)) R 0 s.

End Regex.

(** ** [Map<number, V>]: an association list in insertion order *)

Module Map.
Import JS.

Section Ops.
Variable V : Type.

Definition t := list (number * V).

Fixpoint get (k : number) (m : t) : option V :=
  match m with
  | [] => None
  | (k', v) :: m' => if Z.eqb k k' then Some v else get k m'
  end.

(** [Map.prototype.set]: a present key keeps its place. *)
Fixpoint set (k : number) (v : V) (m : t) : t :=
  match m with
  | [] => [(k, v)]
  | (k', v') :: m' =>
      if Z.eqb k k' then (k, v) :: m' else (k', v') :: set k v m'
  end.

(** A mutation of the object stored under [k]. *)
Fixpoint update (k : number) (f : V -> V) (m : t) : t :=
  match m with
  | [] => []
  | (k', v') :: m' =>
      if Z.eqb k k' then (k', f v') :: m' else (k', v') :: update k f m'
  end.

Definition mapValues (f : V -> V) (m : t) : t :=
  List.map (fun kv => (fst kv, f (snd kv))) m.
End Ops.

End Map.

(** ** src/types.ts

    The records of the source.  [number_] is the field [number] of a phase
    and [phaseTitle] its field [title] (the names [number] and [title] are
    taken by the type of numbers and by the title of a task); an optional
    field is an [option]. *)

Module Types.
Import JS.

Record Task := {
  id : jsstring;
  completed : bool;
  title : jsstring
}.

Record PhaseDependency := {
  shortName : jsstring;
  dependsOn : list number;
  blocks : list number;
  canRunParallelWith : list number;
  parallelTasks : list jsstring;
  description : jsstring
}.

Record Phase := {
  number_ : number;
  phaseTitle : jsstring;
  priority : option jsstring;
  tasks : list Task;
  completedCount : nat;
  totalCount : nat;
  isComplete : bool;
  dependency : option PhaseDependency
}.

Record ParseResult := {
  specFolder : jsstring;
  specName : jsstring;
  phases : list Phase;
  totalTasks : nat;
  completedTasks : nat;
  nextPhase : option Phase;
  nextTask : option Task;
  availablePhases : list Phase
}.

End Types.

(** ** src/dependency-parser.ts *)

Module DependencyParser.
Import JS Regex Types.

Definition DEPENDENCIES_SECTION_START := js "## Dependencies & Execution Order".
Definition PHASE_DEPENDENCIES_HEADER := js "### Phase Dependencies".
Definition PARALLEL_OPPORTUNITIES_HEADER := js "### Parallel Opportunities".

Definition sp : regex := Cls cls_space.
Definition dg : regex := Cls cls_digit.

(** [/^-\s+\*\*Phase\s+(\d+)\s+\(([^)]+)\)\*\*:\s*(.+)$/] *)
Definition PHASE_DEP_LINE_REGEX : RegExp :=
  {| source :=
       Seq [Bol; Lit (js "-"); Plus true sp; Lit (js "**Phase"); Plus true sp;
            Grp 1 (Plus true dg); Plus true sp; Lit (js "(");
            Grp 2 (Plus true (Cls (cls_not (js ")")))); Lit (js ")**:");
            Star true sp; Grp 3 (Plus true (Cls cls_dot)); Eol];
     ignoreCase := false |}.

(** [/[Dd]epends on Phase (\d+)/g] *)
Definition DEPENDS_ON_REGEX : RegExp :=
  {| source := Seq [Cls (cls_of (js "Dd")); Lit (js "epends on Phase ");
                    Grp 1 (Plus true dg)];
     ignoreCase := false |}.

(** [/[Dd]epends on all/i] *)
Definition DEPENDS_ON_ALL_REGEX : RegExp :=
  {| source := Seq [Cls (cls_of (js "Dd")); Lit (js "epends on all")];
     ignoreCase := true |}.

(** [/BLOCKS all/i] *)
Definition BLOCKS_ALL_REGEX : RegExp :=
  {| source := Lit (js "BLOCKS all"); ignoreCase := true |}.

(** [/[Bb]locks Phase (\d+)/g] *)
Definition BLOCKS_PHASE_REGEX : RegExp :=
  {| source := Seq [Cls (cls_of (js "Bb")); Lit (js "locks Phase ");
                    Grp 1 (Plus true dg)];
     ignoreCase := false |}.

(** [/parallel to Phase[s]?\s*([\d/]+)/] *)
Definition PARALLEL_TO_REGEX : RegExp :=
  {| source := Seq [Lit (js "parallel to Phase"); Opt (Cls (cls_of (js "s")));
                    Star true sp;
                    Grp 1 (Plus true
                             (Cls {| negated := false;
                                     ranges := [(48, 57); (47, 47)]%N |}))];
     ignoreCase := false |}.

(** [/^\*\*Phase\s+(\d+)\s+\([^)]+\)\*\*:\s*(.+)$/] *)
Definition PARALLEL_OPP_LINE_REGEX : RegExp :=
  {| source :=
       Seq [Bol; Lit (js "**Phase"); Plus true sp; Grp 1 (Plus true dg);
            Plus true sp; Lit (js "("); Plus true (Cls (cls_not (js ")")));
            Lit (js ")**:"); Star true sp; Grp 2 (Plus true (Cls cls_dot)); Eol];
     ignoreCase := false |}.

(** [/T(\d+)/g] *)
Definition TASK_ID_REGEX : RegExp :=
  {| source := Seq [Lit (js "T"); Grp 1 (Plus true dg)]; ignoreCase := false |}.

(** [/T(\d+)-T(\d+)/g] *)
Definition TASK_RANGE_REGEX : RegExp :=
  {| source := Seq [Lit (js "T"); Grp 1 (Plus true dg); Lit (js "-T");
                    Grp 2 (Plus true dg)];
     ignoreCase := false |}.

(** [new Set<string>()] with [has] and [add].  A set of the engine holds
    at most 2^24 entries: [add] of a new entry to a full set throws a
    RangeError ("Set maximum size exceeded"), which is [None]. *)
Definition maxSetSize : Z := 16777216.

Definition setHas (x : jsstring) (s : list jsstring) : bool :=
  existsb (str_eqb x) s.
Definition setAdd (x : jsstring) (s : list jsstring)
  : option (list jsstring) :=
  if setHas x s then Some s
  else if maxSetSize <=? Z.of_nat (length s) then None
  else Some (s ++ [x]).

(** [new Set(tasks)]: the entries in the order of their first occurrence,
    with the same limit. *)
Definition newSet (tasks : list jsstring) : option (list jsstring) :=
  let entries := dedupe str_eqb tasks in
  if maxSetSize <? Z.of_nat (length entries) then None else Some entries.

(** [`T${digits.padStart(3, '0')}`] *)
Definition taskIdOf (digits : jsstring) : jsstring :=
  js "T" ++ padStart 3 digits.

(** [for (let i = start; i <= end; i++)] of [extractParallelTasks]: the
    state is the counter, [tasks] and [processedRanges]; [None] when the
    loop has not left after [fuel] iterations, or when [processedRanges.add]
    has thrown. *)
Fixpoint rangeLoop (fuel : nat) (i end_ : number)
  (tasks processedRanges : list jsstring)
  : option (list jsstring * list jsstring) :=
  match fuel with
  | O => None
  | S fuel' =>
      if i <=? end_ then
        let taskId := taskIdOf (toString i) in
        match setAdd taskId processedRanges with
        | None => None
        | Some processedRanges' =>
            rangeLoop fuel' (incr i) end_ (tasks ++ [taskId]) processedRanges'
        end
      else Some (tasks, processedRanges)
  end.

(** [for (const match of rangeMatches)] *)
Fixpoint rangesLoop (fuel : nat) (rangeMatches : list MatchResult)
  (tasks processedRanges : list jsstring)
  : option (list jsstring * list jsstring) :=
  match rangeMatches with
  | [] => Some (tasks, processedRanges)
  | m :: ms =>
      let start := parseIntDigits (captureOr m 1 (js "0")) in
      let end_ := parseIntDigits (captureOr m 2 (js "0")) in
      match rangeLoop fuel start end_ tasks processedRanges with
      | None => None
      | Some (tasks', processed') => rangesLoop fuel ms tasks' processed'
      end
  end.

(** The ID of one match of [TASK_ID_REGEX]. *)
Definition idOfMatch (m : MatchResult) : jsstring :=
  match capture m 1 with
  | Some d => taskIdOf d
  | None => js "Tundefined"
  end.

(** [for (const match of idMatches)] *)
Definition idsLoop (idMatches : list MatchResult)
  (tasks processedRanges : list jsstring) : list jsstring :=
  fold_left
    (fun tasks m =>
       let taskId := idOfMatch m in
       if negb (setHas taskId processedRanges) then tasks ++ [taskId]
       else tasks)
    idMatches tasks.

(** [extractParallelTasks]; [None] when a range loop has not ended after
    [fuel] iterations, or when one of the two sets has thrown. *)
Definition extractParallelTasks (fuel : nat) (description : jsstring)
  : option (list jsstring) :=
  match rangesLoop fuel (matchAll TASK_RANGE_REGEX description) [] [] with
  | None => None
  | Some (tasks, processedRanges) =>
      let tasks := idsLoop (matchAll TASK_ID_REGEX description) tasks
                     processedRanges in
      match newSet tasks with
      | None => None
      | Some entries => Some (sortStrings entries)
      end
  end.

(** The numbers captured by the matches of a [g] regular expression. *)
Definition capturedNumbers (R : RegExp) (description : jsstring) : list number :=
  List.map (fun m => parseIntDigits (captureOr m 1 (js "0")))
    (matchAll R description).

Definition parsePhaseDependencyLine (line : jsstring)
  (allPhaseNumbers : list number) : option (number * PhaseDependency) :=
  match exec PHASE_DEP_LINE_REGEX line with
  | None => None
  | Some m =>
      let phaseNumber := parseIntDigits (captureOr m 1 (js "0")) in
      let shortName := captureOr m 2 [] in
      let description := captureOr m 3 [] in
      let dependsOn :=
        if test DEPENDS_ON_ALL_REGEX description
        then filter (fun n => n <? phaseNumber) allPhaseNumbers
        else capturedNumbers DEPENDS_ON_REGEX description in
      let blocks :=
        if test BLOCKS_ALL_REGEX description
        then filter (fun n => phaseNumber <? n) allPhaseNumbers
        else capturedNumbers BLOCKS_PHASE_REGEX description in
      let canRunParallelWith :=
        match exec PARALLEL_TO_REGEX description with
        | Some pm =>
            let phases :=
              match capture pm 1 with
              | Some g => split isSlash g
              | None => []
              end in
            flat_map (fun p => match parseInt (trim p) with
                               | Some num => [num]
                               | None => []
                               end) phases
        | None => []
        end in
      Some (phaseNumber,
            {| shortName := shortName; dependsOn := dependsOn;
               blocks := blocks; canRunParallelWith := canRunParallelWith;
               parallelTasks := []; description := description |})
  end.

Fixpoint parseParallelOpportunities (fuel : nat) (lines : list jsstring)
  (result : Map.t (list jsstring)) : option (Map.t (list jsstring)) :=
  match lines with
  | [] => Some result
  | line :: lines' =>
      match exec PARALLEL_OPP_LINE_REGEX line with
      | Some m =>
          let phaseNumber := parseIntDigits (captureOr m 1 (js "0")) in
          let description := captureOr m 2 [] in
          match extractParallelTasks fuel description with
          | None => None
          | Some tasks =>
              parseParallelOpportunities fuel lines'
                (if isEmpty tasks then result
                 else Map.set phaseNumber tasks result)
          end
      | None => parseParallelOpportunities fuel lines' result
      end
  end.

(** The numbers of all the lines of the document that match
    [PHASE_DEP_LINE_REGEX]. *)
Definition collectPhaseNumbers (lines : list jsstring) : list number :=
  flat_map (fun line => match exec PHASE_DEP_LINE_REGEX line with
                        | Some m => [parseIntDigits (captureOr m 1 (js "0"))]
                        | None => []
                        end) lines.

(** The loop over the lines after the Phase Dependencies header. *)
Fixpoint phaseDepLoop (allPhaseNumbers : list number) (lines : list jsstring)
  (result : Map.t PhaseDependency) : Map.t PhaseDependency :=
  match lines with
  | [] => result
  | line :: lines' =>
      if (startsWith (js "###") line || startsWith (js "## ") line)%bool
      then result
      else if isEmpty (trim line)
      then phaseDepLoop allPhaseNumbers lines' result
      else match parsePhaseDependencyLine line allPhaseNumbers with
           | Some (phaseNumber, dep) =>
               phaseDepLoop allPhaseNumbers lines'
                 (Map.set phaseNumber dep result)
           | None => phaseDepLoop allPhaseNumbers lines' result
           end
  end.

(** The lines [lines[from] .. lines[to - 1]]. *)
Definition slice (A : Type) (l : list A) (from to : nat) : list A :=
  firstn (to - from) (skipn from l).

(** The loop that gathers [parallelLines]. *)
Fixpoint collectParallelLines (lines : list jsstring) : list jsstring :=
  match lines with
  | [] => []
  | line :: lines' =>
      if (startsWith (js "---") line || startsWith (js "## ") line)%bool
      then []
      else if isEmpty (trim line) then collectParallelLines lines'
      else line :: collectParallelLines lines'
  end.

Definition placeholder (tasks : list jsstring) : PhaseDependency :=
  {| shortName := []; dependsOn := []; blocks := []; canRunParallelWith := [];
     parallelTasks := tasks; description := [] |}.

Definition setParallelTasks (tasks : list jsstring) (d : PhaseDependency)
  : PhaseDependency :=
  {| shortName := shortName d; dependsOn := dependsOn d; blocks := blocks d;
     canRunParallelWith := canRunParallelWith d; parallelTasks := tasks;
     description := description d |}.

Definition setBlocks (bs : list number) (d : PhaseDependency)
  : PhaseDependency :=
  {| shortName := shortName d; dependsOn := dependsOn d; blocks := bs;
     canRunParallelWith := canRunParallelWith d;
     parallelTasks := parallelTasks d; description := description d |}.

(** Merge of the parallel tasks into the records. *)
Definition mergeParallel (parallelTasks : Map.t (list jsstring))
  (result : Map.t PhaseDependency) : Map.t PhaseDependency :=
  fold_left
    (fun result entry =>
       let '(phaseNum, tasks) := entry in
       match Map.get phaseNum result with
       | Some _ => Map.update phaseNum (setParallelTasks tasks) result
       | None => Map.set phaseNum (placeholder tasks) result
       end)
    parallelTasks result.

Definition numIncludes (n : number) (l : list number) : bool :=
  existsb (Z.eqb n) l.

(** One [dependsOnPhase] of the record of [phaseNum]. *)
Definition addBlock (phaseNum : number) (result : Map.t PhaseDependency)
  (dependsOnPhase : number) : Map.t PhaseDependency :=
  match Map.get dependsOnPhase result with
  | Some blocker =>
      if negb (numIncludes phaseNum (blocks blocker))
      then Map.update dependsOnPhase
             (fun b => setBlocks (blocks b ++ [phaseNum]) b) result
      else result
  | None => result
  end.

(** The reverse relationships.  The loop runs over the entries of [result]
    while it changes the [blocks] of the stored records; keys and
    [dependsOn] stay as they are, so the entries the loop visits are those
    of the map it starts from. *)
Definition buildReverse (result : Map.t PhaseDependency)
  : Map.t PhaseDependency :=
  fold_left
    (fun res entry => fold_left (addBlock (fst entry)) (dependsOn (snd entry)) res)
    result result.

Definition sortBlocks (result : Map.t PhaseDependency)
  : Map.t PhaseDependency :=
  Map.mapValues (fun d => setBlocks (sortNumbers (blocks d)) d) result.

(** The records as they are before the reverse relationships are built. *)
Definition collectRecords (fuel : nat) (lines : list jsstring)
  (depSectionStart : nat) : option (Map.t PhaseDependency) :=
  let phaseDepsStart :=
    findIndex (fun l i => (Nat.ltb depSectionStart i
                           && includes PHASE_DEPENDENCIES_HEADER l)%bool) lines in
  let parallelOppStart :=
    findIndex (fun l i => (Nat.ltb depSectionStart i
                           && includes PARALLEL_OPPORTUNITIES_HEADER l)%bool) lines in
  let allPhaseNumbers := collectPhaseNumbers lines in
  let result :=
    match phaseDepsStart with
    | Some pds =>
        let endIndex := match parallelOppStart with
                        | Some p => p
                        | None => length lines
                        end in
        phaseDepLoop allPhaseNumbers (slice lines (pds + 1) endIndex) []
    | None => []
    end in
  match parallelOppStart with
  | Some pos =>
      let parallelLines := collectParallelLines (skipn (pos + 1) lines) in
      match parseParallelOpportunities fuel parallelLines [] with
      | Some parallelTasks => Some (mergeParallel parallelTasks result)
      | None => None
      end
  | None => Some result
  end.

Definition parseDependencies (fuel : nat) (content : jsstring)
  : option (Map.t PhaseDependency) :=
  let lines := split isLF content in
  match findIndex (fun l _ => includes DEPENDENCIES_SECTION_START l) lines with
  | None => Some []
  | Some depSectionStart =>
      match collectRecords fuel lines depSectionStart with
      | Some result => Some (sortBlocks (buildReverse result))
      | None => None
      end
  end.

(** [calculateAvailablePhases] *)
Definition calculateAvailablePhases (phases : list Phase) : list number :=
  let completedPhases := List.map number_ (filter isComplete phases) in
  let available :=
    flat_map
      (fun phase =>
         if isComplete phase then []
         else match dependency phase with
              | None => [number_ phase]
              | Some dep =>
                  if isEmpty (dependsOn dep) then [number_ phase]
                  else if forallb (fun d => numIncludes d completedPhases)
                            (dependsOn dep)
                  then [number_ phase]
                  else []
              end)
      phases in
  sortNumbers available.

End DependencyParser.

(** ** src/git-utils.ts *)

Module GitUtils.
Import JS.

(** The separator class [/[/\\]/]. *)
Definition isSeparator (c : char) : bool := (N.eqb c 47 || N.eqb c 92)%bool.

Definition getSpecName (specFolder : jsstring) : jsstring :=
  let parts := split isSeparator specFolder in
  match nth_error parts (length parts - 1) with
  | Some name => name
  | None => js "unknown"
  end.

End GitUtils.

(** ** src/parser.ts *)

Module Parser.
Import JS Regex Types.

(** [/^##\s+Phase\s+(\d+):\s*(.+?)(?:\s*\(Priority:\s*(P\d)\))?$/] *)
Definition PHASE_HEADER_REGEX : RegExp :=
  {| source :=
       Seq [Bol; Lit (js "##"); Plus true (Cls cls_space); Lit (js "Phase");
            Plus true (Cls cls_space); Grp 1 (Plus true (Cls cls_digit));
            Lit (js ":"); Star true (Cls cls_space);
            Grp 2 (Plus false (Cls cls_dot));
            Opt (Seq [Star true (Cls cls_space); Lit (js "(Priority:");
                      Star true (Cls cls_space);
                      Grp 3 (Seq [Lit (js "P"); Cls cls_digit]); Lit (js ")")]);
            Eol];
     ignoreCase := false |}.

(** [/^-\s+\[(X| )\]\s+(T\d+)\s+(.{*})$/], where [{*}] is the star (which
    would close this comment). *)
Definition TASK_LINE_REGEX : RegExp :=
  {| source :=
       Seq [Bol; Lit (js "-"); Plus true (Cls cls_space); Lit (js "[");
            Grp 1 (Alt (Lit (js "X")) (Lit (js " "))); Lit (js "]");
            Plus true (Cls cls_space);
            Grp 2 (Seq [Lit (js "T"); Plus true (Cls cls_digit)]);
            Plus true (Cls cls_space); Grp 3 (Star true (Cls cls_dot)); Eol];
     ignoreCase := false |}.

Definition parseTaskLine (m : MatchResult) : Task :=
  {| id := captureOr m 2 [];
     completed := match capture m 1 with
                  | Some checkbox => str_eqb checkbox (js "X")
                  | None => false
                  end;
     title := match capture m 3 with
              | Some t => trim t
              | None => []
              end |}.

Definition finalizePhase (phase : Phase) : Phase :=
  let completedCount := length (filter completed (tasks phase)) in
  {| number_ := number_ phase; phaseTitle := phaseTitle phase;
     priority := priority phase; tasks := tasks phase;
     completedCount := completedCount;
     totalCount := length (tasks phase);
     isComplete := (Nat.eqb completedCount (length (tasks phase))
                    && Nat.ltb 0 (length (tasks phase)))%bool;
     dependency := dependency phase |}.

Definition pushTask (task : Task) (phase : Phase) : Phase :=
  {| number_ := number_ phase; phaseTitle := phaseTitle phase;
     priority := priority phase; tasks := tasks phase ++ [task];
     completedCount := completedCount phase; totalCount := totalCount phase;
     isComplete := isComplete phase; dependency := dependency phase |}.

Definition setDependency (dep : PhaseDependency) (phase : Phase) : Phase :=
  {| number_ := number_ phase; phaseTitle := phaseTitle phase;
     priority := priority phase; tasks := tasks phase;
     completedCount := completedCount phase; totalCount := totalCount phase;
     isComplete := isComplete phase; dependency := Some dep |}.

(** The state of the scan: [phases] and [currentPhase]. *)
Definition scanState := (list Phase * option Phase)%type.

Definition finishCurrent (st : scanState) : list Phase :=
  match snd st with
  | Some currentPhase => fst st ++ [finalizePhase currentPhase]
  | None => fst st
  end.

(** The body of [for (const line of lines)]. *)
Definition scanLine (st : scanState) (line : jsstring) : scanState :=
  match exec PHASE_HEADER_REGEX line with
  | Some phaseMatch =>
      (finishCurrent st,
       Some {| number_ := parseIntDigits (captureOr phaseMatch 1 (js "0"));
               phaseTitle := match capture phaseMatch 2 with
                             | Some t => trim t
                             | None => []
                             end;
               priority := capture phaseMatch 3;
               tasks := [];
               completedCount := 0;
               totalCount := 0;
               isComplete := false;
               dependency := None |})
  | None =>
      match exec TASK_LINE_REGEX line, snd st with
      | Some taskMatch, Some currentPhase =>
          (fst st, Some (pushTask (parseTaskLine taskMatch) currentPhase))
      | _, _ => st
      end
  end.

Definition scanPhases (lines : list jsstring) : list Phase :=
  finishCurrent (fold_left scanLine lines ([], None)).

Definition attachDependencies (dependencies : Map.t PhaseDependency)
  (phases : list Phase) : list Phase :=
  List.map (fun phase => match Map.get (number_ phase) dependencies with
                         | Some dep => setDependency dep phase
                         | None => phase
                         end) phases.

(** [parseTasksFile]; [None] when a range loop of the dependency section
    does not end within [fuel] iterations or a set of [extractParallelTasks]
    overflows.  The field [nextTask] of the result is never assigned. *)
Definition parseTasksFile (fuel : nat) (content specFolder : jsstring)
  : option ParseResult :=
  let lines := split isLF content in
  let phases := scanPhases lines in
  match DependencyParser.parseDependencies fuel content with
  | None => None
  | Some dependencies =>
      let phases := attachDependencies dependencies phases in
      let totalTasks := fold_left (fun sum p => sum + totalCount p)%nat phases 0%nat in
      let completedTasks :=
        fold_left (fun sum p => sum + completedCount p)%nat phases 0%nat in
      let nextPhase := find (fun p => negb (isComplete p)) phases in
      let availablePhaseNumbers :=
        DependencyParser.calculateAvailablePhases phases in
      let availablePhases :=
        filter (fun p => (DependencyParser.numIncludes (number_ p)
                            availablePhaseNumbers
                          && negb (isComplete p))%bool) phases in
      Some {| specFolder := specFolder;
              specName := GitUtils.getSpecName specFolder;
              phases := phases;
              totalTasks := totalTasks;
              completedTasks := completedTasks;
              nextPhase := nextPhase;
              nextTask := None;
              availablePhases := availablePhases |}
  end.

End Parser.

(** * Specification-side definitions *)

Module Spec.
Import JS Regex Types DependencyParser.

(** §4.3 in the words of the specification: a phase is available when it
    is not complete and every number in its [dependsOn] (if any) is the
    number of a complete phase. *)
Definition isCompleteNumber (phases : list Phase) (d : number) : bool :=
  existsb (fun q => (isComplete q && Z.eqb (number_ q) d)%bool) phases.

Definition available (phases : list Phase) (p : Phase) : bool :=
  (negb (isComplete p) &&
   match dependency p with
   | None => true
   | Some dep => forallb (isCompleteNumber phases) (dependsOn dep)
   end)%bool.

(** A string without separator. *)
Definition noSep (sep : char -> bool) (s : jsstring) : bool :=
  forallb (fun c => negb (sep c)) s.

(** The map [result] of [parseDependencies] just before the reverse
    relationships are built. *)
Definition recordsBeforeReverse (fuel : nat) (content : jsstring)
  : option (Map.t PhaseDependency) :=
  let lines := split isLF content in
  match findIndex (fun l _ => includes DEPENDENCIES_SECTION_START l) lines with
  | None => Some []
  | Some depSectionStart => collectRecords fuel lines depSectionStart
  end.

(** A line at which the loop over the Phase Dependencies block stops. *)
Definition isBoundary (line : jsstring) : bool :=
  (startsWith (js "###") line || startsWith (js "## ") line)%bool.

Fixpoint untilBoundary (lines : list jsstring) : list jsstring :=
  match lines with
  | [] => []
  | line :: lines' =>
      if isBoundary line then [] else line :: untilBoundary lines'
  end.

(** The lines of the Phase Dependencies block of a document: those after
    the header, up to the Parallel Opportunities header or the next [###] or
    [## ] line. *)
Definition phaseDependencyLines (content : jsstring) : list jsstring :=
  let lines := split isLF content in
  match findIndex (fun l _ => includes DEPENDENCIES_SECTION_START l) lines with
  | None => []
  | Some depSectionStart =>
      match findIndex (fun l i => (Nat.ltb depSectionStart i
                                   && includes PHASE_DEPENDENCIES_HEADER l)%bool)
              lines with
      | None => []
      | Some pds =>
          let endIndex :=
            match findIndex (fun l i => (Nat.ltb depSectionStart i
                                         && includes PARALLEL_OPPORTUNITIES_HEADER l)%bool)
                    lines with
            | Some p => p
            | None => length lines
            end in
          untilBoundary (slice lines (pds + 1) endIndex)
      end
  end.

(** The master list: the numbers of all the well-formed phase-dependency
    lines of the document. *)
Definition masterList (content : jsstring) : list number :=
  collectPhaseNumbers (split isLF content).

(** A phrase occurs in a string, the ASCII letters compared without
    regard to case. *)
Definition includesNoCase (phrase s : jsstring) : bool :=
  includes (map toUpper phrase) (map toUpper s).

(** The first integer that [i++] cannot leave: 2^53. *)
Definition maxSafe : number := 9007199254740992.

(** §4.2 step 5 in the words of the specification: the IDs of a range, the
    IDs of all the ranges of a description, the single IDs, and the list
    made of them. *)
Definition idsBetween (start end_ : number) : list jsstring :=
  map (fun k => taskIdOf (toString (start + Z.of_nat k)))
    (seq 0 (Z.to_nat (end_ - start + 1))).

Definition rangeStart (m : MatchResult) : number :=
  parseIntDigits (captureOr m 1 (js "0")).
Definition rangeEnd (m : MatchResult) : number :=
  parseIntDigits (captureOr m 2 (js "0")).

(** A range match [T<a>-T<b>] with [a > b], the numbers as they are
    written. *)
Definition reversedRange (m : MatchResult) : Prop :=
  exists a b,
    capture m 1 = Some a /\ capture m 2 = Some b /\
    digitsValue b < digitsValue a.

Definition expandedRanges (description : jsstring) : list jsstring :=
  flat_map (fun m => idsBetween (rangeStart m) (rangeEnd m))
    (matchAll TASK_RANGE_REGEX description).

Definition bareIds (description : jsstring) : list jsstring :=
  map idOfMatch (matchAll TASK_ID_REGEX description).

Definition parallelTasksSpec (description : jsstring) : list jsstring :=
  let fromRanges := expandedRanges description in
  sortStrings
    (dedupe str_eqb
       (fromRanges ++
        filter (fun taskId => negb (setHas taskId fromRanges))
          (bareIds description))).

(** The number of IDs that a description names: those of its ranges,
    expanded, and the single ones. *)
Definition idCount (description : jsstring) : Z :=
  Z.of_nat (length (expandedRanges description) +
            length (bareIds description)).

(** The fuel that the range loops of a description need. *)
Definition rangeFuel (description : jsstring) : nat :=
  S (list_max (map (fun m => Z.to_nat (rangeEnd m - rangeStart m + 1))
                 (matchAll TASK_RANGE_REGEX description))).

(** Every range of the Parallel Opportunities lines of a document ends
    below 2^53, and no line names more IDs than a set holds. *)
Definition safeRanges (content : jsstring) : Prop :=
  forall line m,
    In line (split isLF content) ->
    exec PARALLEL_OPP_LINE_REGEX line = Some m ->
    (forall rm, In rm (matchAll TASK_RANGE_REGEX (captureOr m 2 [])) ->
                rangeEnd rm < maxSafe) /\
    idCount (captureOr m 2 []) <= maxSetSize.

End Spec.

(** * Definitions used in the proofs *)

Module Aux.
Import JS Regex Types DependencyParser.

(** The dependency edges (phase, prerequisite) in the order in which the
    loop of the reverse relationships visits them, and one step of that
    loop. *)
Definition edges (result : Map.t PhaseDependency) : list (number * number) :=
  flat_map (fun entry => map (fun d => (fst entry, d)) (dependsOn (snd entry)))
    result.

Definition edgeStep (res : Map.t PhaseDependency) (e : number * number) :=
  addBlock (fst e) res (snd e).

(** What the loop has established once the edges [done] are processed. *)
Definition reverseInv (R0 : Map.t PhaseDependency) (done : list (number * number))
  (m : Map.t PhaseDependency) : Prop :=
  forall k,
    match Map.get k R0 with
    | None => Map.get k m = None
    | Some r0 =>
        exists bs,
          Map.get k m = Some (setBlocks bs r0) /\
          (forall x, In x bs <-> In x (blocks r0) \/ In (x, k) done) /\
          (forall x, (count_occ Z.eq_dec bs x <=
                      Nat.max 1 (count_occ Z.eq_dec (blocks r0) x))%nat)
    end.

(** A property of every record of a map. *)
Definition allRecords (P : number -> PhaseDependency -> Prop)
  (m : Map.t PhaseDependency) : Prop :=
  forall k r, Map.get k m = Some r -> P k r.

(** The greedy repetition of a one-character test, written by recursion on
    the input: the longest run is tried first, then the shorter ones. *)
Fixpoint starClass (p : char -> bool) (k : cont) (pos : nat) (s : jsstring)
  (caps : captures) : option (nat * jsstring * captures) :=
  match s with
  | x :: s' =>
      if p x then
        match starClass p k (S pos) s' caps with
        | Some res => Some res
        | None => k pos s caps
        end
      else k pos s caps
  | [] => k pos s caps
  end.

Definition startsWithDigit (s : jsstring) : bool :=
  match s with
  | c :: _ => isDigit c
  | [] => false
  end.

(** The digit runs that follow a [T], from left to right. *)
Fixpoint scanIds (s : jsstring) : list jsstring :=
  match s with
  | [] => []
  | c :: s' =>
      if (N.eqb c 84 && startsWithDigit s')%bool
      then takeWhile isDigit s' :: scanIds s'
      else scanIds s'
  end.

(** The range expression [T<a>-T<b>] occurs in [s], [b] being followed by
    no further digit. *)
Definition rangeOccurs (a b s : jsstring) : Prop :=
  exists pre rest,
    s = pre ++ 84%N :: a ++ 45%N :: 84%N :: b ++ rest /\
    a <> [] /\ forallb isDigit a = true /\
    b <> [] /\ forallb isDigit b = true /\
    startsWithDigit rest = false.

End Aux.

(** * Documents and values used in the examples *)

Module Examples.
Import JS Regex Types DependencyParser Spec.

(** The lines of a document joined by line feeds. *)
Fixpoint document (lines : list string) : jsstring :=
  match lines with
  | [] => []
  | [l] => js l
  | l :: ls => js l ++ [10%N] ++ document ls
  end.

Local Open Scope string_scope.

(** A phase with the fields the availability engine reads. *)
Definition mkPhase (n : number) (complete : bool) (deps : option (list number)) : Phase :=
  {| number_ := n; phaseTitle := []; priority := None; tasks := [];
     completedCount := 0; totalCount := 0; isComplete := complete;
     dependency := match deps with
                   | Some ds => Some {| shortName := []; dependsOn := ds; blocks := [];
                                        canRunParallelWith := []; parallelTasks := [];
                                        description := [] |}
                   | None => None
                   end |}.

Definition folder : jsstring := js "specs/001-demo".

Definition docNextTask : jsstring :=
  document ["## Phase 1: Setup";
            "- [X] T001 Create the project";
            "- [ ] T002 Install the tools";
            "- [ ] T003 Configure the linter"].

Definition docUnordered : jsstring :=
  document ["## Phase 2: Second";
            "- [ ] T001 Later work";
            "## Phase 1: First";
            "- [ ] T002 Earlier work"].

Definition docDuplicateBlocks : jsstring :=
  document ["## Dependencies & Execution Order";
            "";
            "### Phase Dependencies";
            "";
            "- **Phase 1 (Setup)**: Blocks Phase 2 and again blocks Phase 2";
            "- **Phase 2 (Core)**: Depends on Phase 1"].

Definition docReverse : jsstring :=
  document ["## Dependencies & Execution Order";
            "";
            "### Phase Dependencies";
            "";
            "- **Phase 1 (Setup)**: No dependencies";
            "- **Phase 3 (Third)**: Depends on Phase 1";
            "- **Phase 2 (Second)**: Depends on Phase 1"].

Definition docDependsOnAll : jsstring :=
  document ["## Dependencies & Execution Order";
            "";
            "### Phase Dependencies";
            "";
            "- **Phase 1 (Setup)**: No dependencies";
            "- **Phase 2 (Core)**: Depends on Phase 1";
            "- **Phase 4 (Polish)**: DEPENDS ON ALL earlier phases, depends on Phase 9";
            "";
            "### Notes";
            "";
            "- **Phase 3 (Extra)**: Depends on Phase 2"].

Definition docTwoLines : jsstring :=
  document ["## Dependencies & Execution Order";
            "";
            "### Phase Dependencies";
            "";
            "- **Phase 1 (Setup)**: No dependencies";
            "- **Phase 2 (Old name)**: Depends on Phase 1, blocks Phase 5";
            "- **Phase 3 (Tests)**: Depends on Phase 2";
            "- **Phase 2 (New name)**: Blocks Phase 4"].


Definition exampleFour : jsstring := js "T002-T018 can mostly run in parallel".

Definition exampleFourIds : list jsstring :=
  [js "T002"; js "T003"; js "T004"; js "T005"; js "T006"; js "T007";
   js "T008"; js "T009"; js "T010"; js "T011"; js "T012"; js "T013";
   js "T014"; js "T015"; js "T016"; js "T017"; js "T018"].

Definition hangingDescription : jsstring :=
  js "T9007199254740992-T9007199254740992 can run in parallel".

Definition hangingLine : jsstring :=
  js "**Phase 1 (Setup)**: T9007199254740992-T9007199254740992 can run in parallel".

Definition docHang : jsstring :=
  document ["## Phase 1: Setup";
            "- [ ] T001 Create the project";
            "";
            "## Dependencies & Execution Order";
            "";
            "### Parallel Opportunities";
            "";
            "**Phase 1 (Setup)**: T9007199254740992-T9007199254740992 can run in parallel"].

Definition docRealWorld : jsstring :=
  document ["";
            "## Dependencies & Execution Order";
            "";
            "### Phase Dependencies";
            "";
            "- **Phase 1 (Setup)**: No dependencies, BLOCKS all other phases";
            "- **Phase 2 (US9 Navigation)**: Depends on Phase 1, Can run parallel to Phase 3/4";
            "- **Phase 3 (US10 Listings)**: Depends on Phase 1, Can run parallel to Phase 2/4";
            "- **Phase 4 (US11 Details)**: Depends on Phase 1, Can run parallel to Phase 2/3";
            "";
            "### Parallel Opportunities";
            "";
            "**Phase 1 (Setup)**: T002-T018 can mostly run in parallel after T001";
            "**Phase 2 (US9 Navigation)**: T019-T033 can run in any order";
            ""].

Definition docExampleOne : jsstring :=
  document ["## Phase 1: Setup (Priority: P1)";
            "";
            "- [X] T001 Create the project";
            "- [ ] T002 [P] Install the tools";
            "-[X]T002 Missing space";
            "- [X] T003    Configure the linter  "].

Definition docExampleSix : jsstring :=
  document ["## Phase 1: Setup";
            "- [X] T001 Done";
            "## Phase 2: Core";
            "- [ ] T002 Open";
            "## Phase 3: Polish";
            "- [ ] T003 Open";
            "";
            "## Dependencies & Execution Order";
            "";
            "### Phase Dependencies";
            "";
            "- **Phase 1 (Setup)**: No dependencies";
            "- **Phase 2 (Core)**: No dependencies";
            "- **Phase 3 (Polish)**: Depends on Phase 1, Depends on Phase 2"].

Definition docDigitCounts : jsstring :=
  document ["";
            "## Phase 10: Test";
            "";
            "- [ ] T1 Single digit";
            "- [ ] T01 Two digits";
            "- [X] T001 Three digits";
            "- [X] T1234 Four digits"].

End Examples.

(** * The formatter and the command line (formatter.ts, cli.ts) *)

(** [CLIOptions] of types.ts.  A field that is absent is [None]; [phase]
    is a number or NaN (the inner [None]) when present. *)
Module Options.
Import JS.

Record CLIOptions := {
  specFolder : option jsstring;
  json : option bool;
  showAll : option bool;
  phase : option (option number);
  help : option bool;
  next : option bool
}.

End Options.

(** ** Arithmetic on doubles

    The finite doubles that are not negative, as a mantissa and an
    exponent: [mant * 2 ^ expo].  Division and multiplication round the
    exact result to the nearest double (53 bits, ties to the even
    mantissa); the operands of the formatter are far from the subnormal
    range and from overflow. *)

Module Double.

Record double := { mant : Z; expo : Z }.

Definition zero : double := {| mant := 0; expo := 0 |}.

(** The quotient [n / d] rounded to the nearest integer, ties to even. *)
Definition roundHalfEven (n d : Z) : Z :=
  let q := n / d in
  let r := n mod d in
  if 2 * r <? d then q
  else if d <? 2 * r then q + 1
  else if Z.even q then q else q + 1.

(** The double nearest to the ratio [n / d] of two integers, [n >= 0] and
    [d > 0]: with [2 ^ e <= n / d < 2 ^ (e + 1)] the ratio is rounded to a
    multiple of [2 ^ (e - 52)]. *)
Definition roundRatio (n d : Z) : double :=
  if n =? 0 then zero
  else
    let k := Z.log2 n - Z.log2 d in
    let e := if n * 2 ^ Z.max 0 (- k) <? d * 2 ^ Z.max 0 k then k - 1 else k in
    let sh := 52 - e in
    {| mant := roundHalfEven (n * 2 ^ Z.max 0 sh) (d * 2 ^ Z.max 0 (- sh));
       expo := - sh |}.

(** [a / b] for two integers below 2^53, [b] positive. *)
Definition div (a b : Z) : double := roundRatio a b.

(** [x * w] for a double and an integer below 2^53. *)
Definition mulInt (x : double) (w : Z) : double :=
  roundRatio (mant x * w * 2 ^ Z.max 0 (expo x)) (2 ^ Z.max 0 (- expo x)).

(** [Math.round]: the nearest integer, the greater one of two that are
    equally near. *)
Definition mathRound (x : double) : Z :=
  if 0 <=? expo x then mant x * 2 ^ expo x
  else (2 * mant x + 2 ^ (- expo x)) / 2 ^ (1 - expo x).

End Double.

Module Formatter.
Import JS Types.

(** ANSI color codes. *)
Definition esc (code : jsstring) : jsstring := 27%N :: code.
Definition green : jsstring := esc (js "[32m").
Definition yellow : jsstring := esc (js "[33m").
Definition red : jsstring := esc (js "[31m").
Definition dim : jsstring := esc (js "[2m").
Definition reset : jsstring := esc (js "[0m").

(** [BOX.check], U+2713. *)
Definition check : jsstring := [10003%N].

(** [Array.prototype.join] *)
Fixpoint join (sep : jsstring) (l : list jsstring) : jsstring :=
  match l with
  | [] => []
  | [x] => x
  | x :: l' => x ++ sep ++ join sep l'
  end.

Section Status.

(** The conversion of a number to a string in a template literal. *)
Variable numberToString : number -> jsstring.

(** The filter of [formatPhaseStatus]: the entries of [dependsOn] whose
    phase (the first one with that number) is found and is not complete. *)
Definition blockedBy (dep : PhaseDependency) (phases : list Phase)
  : list number :=
  filter (fun d =>
            match find (fun p => Z.eqb (number_ p) d) phases with
            | Some depPhase => negb (isComplete depPhase)
            | None => false
            end)
    (dependsOn dep).

(** The variable [depIndicator] of [formatPhaseStatus] when the function
    returns. *)
Definition depIndicator (phase : Phase) (phases : list Phase)
  (showDeps : bool) : jsstring :=
  match dependency phase with
  | Some dep =>
      if (showDeps && negb (isComplete phase))%bool then
        if negb (isEmpty (dependsOn dep)) then
          let blocked := blockedBy dep phases in
          if negb (isEmpty blocked) then
            js " " ++ red ++ js "[blocked by " ++
            join (js ", ")
              (List.map (fun d => js "P" ++ numberToString d) blocked) ++
            js "]" ++ reset
          else []
        else []
      else []
  | None => []
  end.

Definition formatPhaseStatus (phase : Phase) (phases : list Phase)
  (showDeps : bool) : jsstring :=
  let statusColor := if isComplete phase then green else yellow in
  let checkmark := if isComplete phase then js " " ++ check else [] in
  statusColor ++ js "Phase " ++ numberToString (number_ phase) ++ js ":" ++
  reset ++ js " " ++ phaseTitle phase ++ js " " ++ dim ++ js "[" ++
  numberToString (Z.of_nat (completedCount phase)) ++ js "/" ++
  numberToString (Z.of_nat (totalCount phase)) ++ js "]" ++ reset ++
  statusColor ++ checkmark ++ reset ++ depIndicator phase phases showDeps.

End Status.

Definition cyan : jsstring := esc (js "[36m").

Definition formatTaskLine (task : Task) : jsstring :=
  let checkbox := if completed task then green ++ js "[" ++ check ++ js "]" ++ reset
                  else dim ++ js "[ ]" ++ reset in
  let titleColor := if completed task then dim else [] in
  let titleReset := if completed task then reset else [] in
  js "  " ++ checkbox ++ js " " ++ cyan ++ id task ++ reset ++ js " " ++
  titleColor ++ title task ++ titleReset.

(** The lines that [formatOutput] prints for the tasks of the phase chosen
    with [options.phase]: [phase.tasks.forEach] with the test
    [options.showAll ?? !task.completed]. *)
Definition detailTaskLines (options : Options.CLIOptions) (phase : Phase)
  : list jsstring :=
  List.map formatTaskLine
    (filter (fun task => match Options.showAll options with
                         | Some showAll => showAll
                         | None => negb (completed task)
                         end)
       (tasks phase)).

(** [BOX.full] and [BOX.empty], U+2588 and U+2591. *)
Definition full : jsstring := [9608%N].
Definition empty : jsstring := [9617%N].

(** The longest string of the engine, 2^29 - 24 code units: a longer
    result is a RangeError ("Invalid string length"). *)
Definition maxStringLength : Z := 536870888.

(** [String.prototype.repeat]: a RangeError ([None]) for a negative count
    and for a result that is too long. *)
Definition repeat (s : jsstring) (count : Z) : option jsstring :=
  if count <? 0 then None
  else if maxStringLength <? Z.of_nat (length s) * count then None
  else Some (List.concat (List.repeat s (Z.to_nat count))).

(** [a + b] on strings. *)
Definition concatStrings (a b : jsstring) : option jsstring :=
  if maxStringLength <? Z.of_nat (length a + length b) then None
  else Some (a ++ b).

Definition formatProgressBar (completed total width : Z) : option jsstring :=
  let percentage :=
    if 0 <? total then Double.div completed total else Double.zero in
  let filled := Double.mathRound (Double.mulInt percentage width) in
  let empty_ := width - filled in
  match repeat full filled, repeat empty empty_ with
  | Some a, Some b => concatStrings a b
  | _, _ => None
  end.

(** The variables [percentage] and [progressColor] of [formatOutput]. *)
Definition percentage (completedTasks totalTasks : Z) : Z :=
  if 0 <? totalTasks
  then Double.mathRound (Double.mulInt (Double.div completedTasks totalTasks) 100)
  else 0.

Definition progressColor (percentage : Z) : jsstring :=
  if percentage =? 100 then green
  else if 50 <=? percentage then yellow else red.

End Formatter.

Module Cli.
Import JS.

(** ['phase' | 'task' | false] *)
Inductive NextType := NextPhase | NextTask | NextFalse.

(** [ParsedArgs]; [phase] is the result of [parseInt], a number or NaN
    (the inner [None]), when the option is given. *)
Record ParsedArgs := {
  specFolder : option jsstring;
  json : bool;
  all : bool;
  phase : option (option number);
  next : NextType;
  help : bool;
  version : bool
}.

(** The options that [main] builds for the formatter. *)
Definition buildOptions (args : ParsedArgs) : Options.CLIOptions :=
  {| Options.json := Some (json args);
     Options.showAll := Some (all args);
     Options.specFolder := specFolder args;
     Options.phase := phase args;
     Options.help := None;
     Options.next := None |}.

End Cli.

(** * Further definitions: what the remaining properties speak of *)

Module Extra.
Import JS Regex Types DependencyParser Spec Aux.

(** The numbers of the phase headers of a document, in order. *)
Definition headerNumbers (lines : list jsstring) : list number :=
  flat_map (fun line => match exec Parser.PHASE_HEADER_REGEX line with
                        | Some m => [parseIntDigits (captureOr m 1 (js "0"))]
                        | None => []
                        end) lines.

(** The tasks of the task lines of a document that come after a phase
    header ([inPhase] tells whether one was seen), in order. *)
Fixpoint tasksFrom (inPhase : bool) (lines : list jsstring) : list Task :=
  match lines with
  | [] => []
  | line :: lines' =>
      match exec Parser.PHASE_HEADER_REGEX line with
      | Some _ => tasksFrom true lines'
      | None =>
          match exec Parser.TASK_LINE_REGEX line with
          | Some m =>
              if inPhase then Parser.parseTaskLine m :: tasksFrom inPhase lines'
              else tasksFrom inPhase lines'
          | None => tasksFrom inPhase lines'
          end
      end
  end.

(** The counts of a finalized phase agree with its tasks. *)
Definition countsOk (p : Phase) : Prop :=
  totalCount p = length (tasks p) /\
  completedCount p = length (filter completed (tasks p)) /\
  isComplete p = (forallb completed (tasks p) && negb (isEmpty (tasks p)))%bool.

(** The phase that a header line opens. *)
Definition headerPhase (m : MatchResult) : Phase :=
  {| number_ := parseIntDigits (captureOr m 1 (js "0"));
     phaseTitle := match capture m 2 with
                   | Some t => trim t
                   | None => []
                   end;
     priority := capture m 3;
     tasks := [];
     completedCount := 0;
     totalCount := 0;
     isComplete := false;
     dependency := None |}.

(** The phases that the scan adds from a state with current phase [cur]. *)
Fixpoint phasesFrom (cur : option Phase) (lines : list jsstring) : list Phase :=
  match lines with
  | [] => Parser.finishCurrent ([], cur)
  | line :: lines' =>
      match exec Parser.PHASE_HEADER_REGEX line with
      | Some m =>
          Parser.finishCurrent ([], cur) ++ phasesFrom (Some (headerPhase m)) lines'
      | None =>
          match exec Parser.TASK_LINE_REGEX line, cur with
          | Some tm, Some c =>
              phasesFrom (Some (Parser.pushTask (Parser.parseTaskLine tm) c)) lines'
          | _, _ => phasesFrom cur lines'
          end
      end
  end.

Definition currentNumber (cur : option Phase) : list number :=
  match cur with Some c => [number_ c] | None => [] end.
Definition currentTasks (cur : option Phase) : list Task :=
  match cur with Some c => tasks c | None => [] end.
Definition isSome (A : Type) (o : option A) : bool :=
  match o with Some _ => true | None => false end.

(** What a match of a regular expression consumes: [matches ic r pos w s' c]
    says that [r] can match the word [w] at index [pos] when [s'] follows
    it, recording the captures [c] (the latest first). *)
Inductive matches (ic : bool)
  : regex -> nat -> jsstring -> jsstring -> captures -> Prop :=
| M_Eps pos s' : matches ic Eps pos [] s' []
| M_Chr c x pos s' :
    char_eqb (canon ic x) (canon ic c) = true -> matches ic (Chr c) pos [x] s' []
| M_Cls cs x pos s' :
    cls_mem ic cs x = true -> matches ic (Cls cs) pos [x] s' []
| M_Cat r1 r2 pos w1 w2 s' c1 c2 :
    matches ic r1 pos w1 (w2 ++ s') c1 ->
    matches ic r2 (pos + length w1) w2 s' c2 ->
    matches ic (Cat r1 r2) pos (w1 ++ w2) s' (c2 ++ c1)
| M_AltL r1 r2 pos w s' c :
    matches ic r1 pos w s' c -> matches ic (Alt r1 r2) pos w s' c
| M_AltR r1 r2 pos w s' c :
    matches ic r2 pos w s' c -> matches ic (Alt r1 r2) pos w s' c
| M_StarNil g r pos s' : matches ic (Star g r) pos [] s' []
| M_StarCons g r pos w1 w2 s' c1 c2 :
    w1 <> [] ->
    matches ic r pos w1 (w2 ++ s') c1 ->
    matches ic (Star g r) (pos + length w1) w2 s' c2 ->
    matches ic (Star g r) pos (w1 ++ w2) s' (c2 ++ c1)
| M_Grp i r pos w s' c :
    matches ic r pos w s' c -> matches ic (Grp i r) pos w s' ((i, w) :: c)
| M_Bol s' : matches ic Bol 0 [] s' []
| M_Eol pos : matches ic Eol pos [] [] [].

(** A non-empty run of white space, and of decimal digits. *)
Definition spaces (w : jsstring) : Prop :=
  w <> [] /\ forallb isWhiteSpace w = true.
Definition digits (w : jsstring) : Prop :=
  w <> [] /\ forallb isDigit w = true.

Definition noLineTerminator (w : jsstring) : Prop :=
  forallb (fun c => negb (isLineTerminator c)) w = true.

Definition startsWithSpace (s : jsstring) : bool :=
  match s with
  | c :: _ => isWhiteSpace c
  | [] => false
  end.

(** The task [t] is read off the line [line]: a dash, a box that holds [X]
    or a space, the ID and the rest of the line [u], which begins with
    white space. *)
Definition taskOfLine (line : jsstring) (t : Task) : Prop :=
  exists ws1 box ws2 ds u,
    line = js "-" ++ ws1 ++ js "[" ++ [box] ++ js "]" ++ ws2 ++ js "T" ++ ds ++ u /\
    spaces ws1 /\ spaces ws2 /\ digits ds /\
    (box = 88%N \/ box = 32%N) /\
    startsWithSpace u = true /\
    noLineTerminator (trimStart u) /\
    id t = js "T" ++ ds /\
    completed t = N.eqb box 88 /\
    title t = trim u.

(** The header fields of the phase [p] are read off the line [line]:
    [## Phase <digits>: <title>], with a priority marker at the end or
    none. *)
Definition headerOfLine (line : jsstring) (p : Phase) : Prop :=
  exists ws1 ws2 ds ws3 g tail,
    line = js "##" ++ ws1 ++ js "Phase" ++ ws2 ++ ds ++ js ":" ++ ws3 ++ g ++ tail /\
    spaces ws1 /\ spaces ws2 /\ digits ds /\
    forallb isWhiteSpace ws3 = true /\
    g <> [] /\ noLineTerminator g /\
    number_ p = to_double (digitsValue ds) /\
    phaseTitle p = trim g /\
    ((tail = [] /\ priority p = None) \/
     exists ws4 ws5 d,
       tail = ws4 ++ js "(Priority:" ++ ws5 ++ js "P" ++ [d] ++ js ")" /\
       forallb isWhiteSpace ws4 = true /\ forallb isWhiteSpace ws5 = true /\
       isDigit d = true /\
       priority p = Some (js "P" ++ [d])).

(** Two phases with the same header fields. *)
Definition sameHeader (p q : Phase) : Prop :=
  number_ p = number_ q /\ phaseTitle p = phaseTitle q /\
  priority p = priority q.

(** A line that is empty or ends in a carriage return, as every line of a
    document with CRLF line endings is once the document is split at the
    line feeds. *)
Definition endsInCR (line : jsstring) : Prop :=
  line = [] \/ exists body, line = body ++ [13%N].

(** The lines of the Parallel Opportunities block of a document: those
    after the header that are not blank, up to the next [---] or [## ]
    line. *)
Definition parallelOpportunityLines (content : jsstring) : list jsstring :=
  let lines := split isLF content in
  match findIndex (fun l _ => includes DEPENDENCIES_SECTION_START l) lines with
  | None => []
  | Some depSectionStart =>
      match findIndex (fun l i => (Nat.ltb depSectionStart i
                                   && includes PARALLEL_OPPORTUNITIES_HEADER l)%bool)
              lines with
      | Some pos => collectParallelLines (skipn (pos + 1) lines)
      | None => []
      end
  end.

(** The line [line] gives the phase [n] the parallel tasks [ts]. *)
Definition tasksOfLine (fuel : nat) (line : jsstring) (n : number)
  (ts : list jsstring) : Prop :=
  exists m,
    exec PARALLEL_OPP_LINE_REGEX line = Some m /\
    parseIntDigits (captureOr m 1 (js "0")) = n /\
    extractParallelTasks fuel (captureOr m 2 []) = Some ts /\
    ts <> [].

(** Where a record comes from, before the reverse relationships: from a
    line of [L], with the parallel tasks of an entry of [done] or none, or
    from an entry of [done] alone. *)
Definition recordInv (L : list jsstring) (all : list number)
  (done : list (number * list jsstring)) (n : number) (r : PhaseDependency)
  : Prop :=
  (exists line d,
     In line L /\ parsePhaseDependencyLine line all = Some (n, d) /\
     (r = d \/ exists ts, In (n, ts) done /\ r = setParallelTasks ts d)) \/
  (exists ts, In (n, ts) done /\ r = placeholder ts).

(** A task ID as the parser writes it: [T] and at least three digits. *)
Definition isTaskId (x : jsstring) : Prop :=
  exists ds, x = js "T" ++ ds /\ (3 <= length ds)%nat /\ forallb isDigit ds = true.

(** The order of [sort()] on strings. *)
Definition str_le (a b : jsstring) : Prop := str_leb a b = true.

(** The indices [phaseDepsStart] and [parallelOppStart] of
    [parseDependencies]: the first line after the start of the section that
    contains the heading of the subsection. *)
Definition subsectionStart (header content : jsstring) : option nat :=
  let lines := split isLF content in
  match findIndex (fun l _ => includes DEPENDENCIES_SECTION_START l) lines with
  | None => None
  | Some depSectionStart =>
      findIndex (fun l i => (Nat.ltb depSectionStart i
                             && includes header l)%bool) lines
  end.

Definition phaseDepsStart (content : jsstring) : option nat :=
  subsectionStart PHASE_DEPENDENCIES_HEADER content.
Definition parallelOppStart (content : jsstring) : option nat :=
  subsectionStart PARALLEL_OPPORTUNITIES_HEADER content.

(** The record [d] for the phase [n] is read off the line [line]:
    [- **Phase <digits> (<name>)**: <description>]. *)
Definition recordOfLine (line : jsstring) (n : number) (d : PhaseDependency)
  : Prop :=
  exists ws1 ws2 ds ws3 name ws4 desc,
    line = js "-" ++ ws1 ++ js "**Phase" ++ ws2 ++ ds ++ ws3 ++ js "(" ++
           name ++ js ")**:" ++ ws4 ++ desc /\
    spaces ws1 /\ spaces ws2 /\ digits ds /\ spaces ws3 /\
    name <> [] /\ forallb (fun c => negb (N.eqb c 41)) name = true /\
    forallb isWhiteSpace ws4 = true /\
    desc <> [] /\ noLineTerminator desc /\
    n = to_double (digitsValue ds) /\
    shortName d = name /\ description d = desc.

(** The priority marker of a phase header,
    [\s*\(Priority:\s*(P\d)\)], and what follows the colon of a header:
    [\s*(.+?)(?:<marker>)?$]. *)
Definition priorityMarker : regex :=
  Seq [Star true (Cls cls_space); Lit (js "(Priority:");
       Star true (Cls cls_space);
       Grp 3 (Seq [Lit (js "P"); Cls cls_digit]); Lit (js ")")].

Definition afterTitle : regex := Seq [Opt priorityMarker; Eol].

(** The value of a double as a fraction: [2 ^ s] is [pw s / pw (- s)]. *)
Definition pw (s : Z) : Z := 2 ^ Z.max 0 s.
Definition num (x : Double.double) : Z := Double.mant x * pw (Double.expo x).
Definition den (x : Double.double) : Z := pw (- Double.expo x).

(** [x <= y] on the values. *)
Definition dle (x y : Double.double) : Prop := num x * den y <= num y * den x.

(** The exponent that [Double.roundRatio] chooses. *)
Definition expOf (n d : Z) : Z :=
  let k := Z.log2 n - Z.log2 d in
  if n * 2 ^ Z.max 0 (- k) <? d * 2 ^ Z.max 0 k then k - 1 else k.

(** The number of filled cells of the progress bar. *)
Definition filledCells (completed total width : Z) : Z :=
  Double.mathRound
    (Double.mulInt
       (if 0 <? total then Double.div completed total else Double.zero) width).

(** The ratios [29/200], [57/200], [113/200] and [115/200]: the product
    with 100 ends in [.5] and the doubles fall below it. *)
Definition exceptional (completed total : Z) : bool :=
  (200 * completed =? 29 * total) || (200 * completed =? 57 * total) ||
  (200 * completed =? 113 * total) || (200 * completed =? 115 * total).

End Extra.

Module ExtraExamples.
Import JS Regex Types DependencyParser Spec Aux Examples Extra.
Local Open Scope string_scope.

Definition docPlain : jsstring :=
  document ["- [ ] T000 Before any phase";
            "## Phase 1: Setup";
            "- [X] T001 Create the project";
            "## Phase 2: Core";
            "- [X] T002 Write the parser";
            "- [ ] T003 Write the tests";
            "## Phase 3: Empty"].

Definition docAllDone : jsstring :=
  document ["## Phase 1: Setup";
            "- [X] T001 Create the project";
            "## Phase 2: Core";
            "- [X] T002 Write the parser";
            "- [X] T003 Write the tests"].

Definition docSameNumber : jsstring :=
  document ["## Phase 2: Core";
            "- [ ] T001 Write the parser";
            "## Phase 1: Setup";
            "## Phase 2: Core again";
            "- [X] T002 Write the tests"].

Definition docFull : jsstring :=
  document ["## Phase 1: Setup";
            "- [X] T001 Create the project";
            "## Phase 2: Core";
            "- [ ] T002 Write the parser";
            "## Phase 3: Polish";
            "- [ ] T003 Write the manual";
            "## Dependencies & Execution Order";
            "### Phase Dependencies";
            "- **Phase 1 (Setup)**: No dependencies, BLOCKS all other phases";
            "- **Phase 2 (Core)**: Depends on Phase 1";
            "- **Phase 3 (Polish)**: Depends on Phase 2";
            "### Parallel Opportunities";
            "**Phase 2 (Core)**: T002 and T004-T005 can run together"].

(** A document with CRLF line endings. *)
Definition docCRLF : jsstring :=
  js "## Phase 1: Setup" ++ [13; 10]%N ++
  js "- [X] T001 Create the project" ++ [13; 10]%N ++
  js "- [ ] T002 Install the tools" ++ [13; 10]%N.

(** Two phases bear the number 1, the first one incomplete, the second one
    complete; phase 2 depends on phase 1. *)
Definition phasesTwice : list Phase :=
  [mkPhase 1 false None; mkPhase 1 true None; mkPhase 2 false (Some [1])].

(** Phase 2 depends on a phase 9 that the list does not have. *)
Definition phasesMissing : list Phase :=
  [mkPhase 1 true None; mkPhase 2 false (Some [9])].

Definition phasesChain : list Phase :=
  [mkPhase 1 false None; mkPhase 2 false (Some [1])].

(** The phase that the header [## Phase 1: Setup] opens. *)
Definition phaseSetup : Phase :=
  {| number_ := 1; phaseTitle := js "Setup"; priority := None; tasks := [];
     completedCount := 0; totalCount := 0; isComplete := false;
     dependency := None |}.

(** The two subsections in the other order. *)
Definition docSwapped : jsstring :=
  document ["## Dependencies & Execution Order";
            "### Parallel Opportunities";
            "**Phase 2 (Core)**: T002 and T004-T005 can run together";
            "### Phase Dependencies";
            "- **Phase 1 (Setup)**: No dependencies";
            "- **Phase 2 (Core)**: Depends on Phase 1"].

(** Three lines for phase 2 in the Parallel Opportunities block; the last
    one names no task. *)
Definition docParallelTwice : jsstring :=
  document ["## Dependencies & Execution Order";
            "### Parallel Opportunities";
            "**Phase 2 (Core)**: T002 first";
            "**Phase 2 (Core)**: T007-T008 later";
            "**Phase 2 (Core)**: nothing to run in parallel"].

(** The phase that the header [## Phase 1: Setup (Priority: P1)] opens. *)
Definition phaseSetupP1 : Phase :=
  {| number_ := 1; phaseTitle := js "Setup"; priority := Some (js "P1");
     tasks := []; completedCount := 0; totalCount := 0; isComplete := false;
     dependency := None |}.

End ExtraExamples.

Import JS Regex Types DependencyParser Spec Aux Examples Extra ExtraExamples.

(** * Properties *)

Unset Implicit Arguments.

(** ** Sorting *)

Section SortFacts.
Variable A : Type.
Variable leb : A -> A -> bool.

Lemma insert_perm (x : A) (l : list A) : Permutation (insert leb x l) (x :: l).
Proof.
  induction l as [|y l IH]; simpl; [reflexivity|].
  destruct (leb x y); [reflexivity|].
  rewrite IH. apply perm_swap.
Qed.

Lemma sort_perm (l : list A) : Permutation (sort leb l) l.
Proof.
  induction l as [|x l IH]; simpl; [constructor|].
  rewrite insert_perm. now constructor.
Qed.

Lemma sort_In (l : list A) (x : A) : In x (sort leb l) <-> In x l.
Proof.
  split; apply Permutation_in; [|symmetry]; apply sort_perm.
Qed.

Variable le : A -> A -> Prop.
Hypothesis leb_le : forall x y, leb x y = true -> le x y.
Hypothesis leb_total : forall x y, leb x y = false -> le y x.

Lemma insert_sorted (x : A) (l : list A) :
  Sorted le l -> Sorted le (insert leb x l).
Proof.
  induction 1 as [|y l Hs IH Hd]; simpl.
  - repeat constructor.
  - destruct (leb x y) eqn:E.
    + constructor; [now constructor|]. constructor. now apply leb_le.
    + constructor; [exact IH|].
      destruct Hd as [|z l Hyz]; simpl.
      * constructor. now apply leb_total.
      * destruct (leb x z); constructor; auto.
Qed.

Lemma sort_sorted (l : list A) : Sorted le (sort leb l).
Proof.
  induction l as [|x l IH]; simpl; [constructor|].
  now apply insert_sorted.
Qed.
End SortFacts.

Lemma sortNumbers_sorted (l : list number) : Sorted Z.le (sortNumbers l).
Proof.
  apply sort_sorted; intros x y H.
  - now apply Z.leb_le.
  - apply Z.leb_gt in H. lia.
Qed.

(** ** Maps *)

Section MapFacts.
Variable V : Type.
Implicit Types (m : Map.t V) (k : number) (v : V).

Lemma get_set_same k v m : Map.get k (Map.set k v m) = Some v.
Proof.
  induction m as [|[k' v'] m IH]; simpl.
  - now rewrite Z.eqb_refl.
  - destruct (Z.eqb k k') eqn:E; simpl.
    + now rewrite Z.eqb_refl.
    + now rewrite E.
Qed.

Lemma get_set_other k k' v m :
  k <> k' -> Map.get k' (Map.set k v m) = Map.get k' m.
Proof.
  intros Hne. induction m as [|[k2 v2] m IH]; simpl.
  - destruct (Z.eqb k' k) eqn:E; [apply Z.eqb_eq in E; congruence|reflexivity].
  - destruct (Z.eqb k k2) eqn:E; simpl.
    + apply Z.eqb_eq in E. subst k2.
      destruct (Z.eqb k' k) eqn:E'; [apply Z.eqb_eq in E'; congruence|reflexivity].
    + now rewrite IH.
Qed.

Lemma get_update_same k f m :
  Map.get k (Map.update k f m) = option_map f (Map.get k m).
Proof.
  induction m as [|[k' v'] m IH]; simpl; [reflexivity|].
  rewrite (Z.eqb_sym k k').
  destruct (Z.eqb k' k) eqn:E; simpl.
  - rewrite Z.eqb_sym, E. reflexivity.
  - rewrite Z.eqb_sym, E. exact IH.
Qed.

Lemma get_update_other k k' f m :
  k <> k' -> Map.get k' (Map.update k f m) = Map.get k' m.
Proof.
  intros Hne. induction m as [|[k2 v2] m IH]; simpl; [reflexivity|].
  destruct (Z.eqb k k2) eqn:E; simpl.
  - apply Z.eqb_eq in E. subst k2.
    destruct (Z.eqb k' k) eqn:E'; [apply Z.eqb_eq in E'; congruence|reflexivity].
  - now rewrite IH.
Qed.

Lemma get_mapValues k f m :
  Map.get k (Map.mapValues f m) = option_map f (Map.get k m).
Proof.
  induction m as [|[k' v'] m IH]; simpl; [reflexivity|].
  destruct (Z.eqb k k'); [reflexivity|exact IH].
Qed.

Lemma get_In k v m : Map.get k m = Some v -> In (k, v) m.
Proof.
  induction m as [|[k' v'] m IH]; simpl; [discriminate|].
  destruct (Z.eqb k k') eqn:E.
  - apply Z.eqb_eq in E. intros H. injection H as ->. subst. now left.
  - intros H. right. now apply IH.
Qed.

Lemma In_get k v m : In (k, v) m -> exists v', Map.get k m = Some v'.
Proof.
  induction m as [|[k' v'] m IH]; simpl; [tauto|].
  intros [H|H].
  - injection H as -> ->. rewrite Z.eqb_refl. now exists v.
  - destruct (Z.eqb k k'); [now exists v'|now apply IH].
Qed.
End MapFacts.

(** ** Sets of strings and of numbers *)

Lemma str_eqb_eq (a b : jsstring) : str_eqb a b = true <-> a = b.
Proof.
  revert b. induction a as [|x a IH]; intros [|y b]; cbn [str_eqb];
    try (split; [discriminate|discriminate]); [tauto|].
  unfold char_eqb. rewrite andb_true_iff, N.eqb_eq, IH.
  split; [intros [-> ->]; reflexivity|intros H; injection H; tauto].
Qed.

Lemma setHas_In (x : jsstring) (s : list jsstring) :
  setHas x s = true <-> In x s.
Proof.
  unfold setHas. rewrite existsb_exists. split.
  - intros [y [Hy E]]. apply str_eqb_eq in E. now subst.
  - intros H. exists x. split; [exact H|]. now apply str_eqb_eq.
Qed.

Lemma setAdd_In (x y : jsstring) (s s' : list jsstring) :
  setAdd x s = Some s' -> (In y s' <-> y = x \/ In y s).
Proof.
  unfold setAdd. destruct (setHas x s) eqn:E.
  - intros H. injection H as <-. apply setHas_In in E.
    split; [tauto|]. intros [->|H]; assumption.
  - destruct (maxSetSize <=? _); [discriminate|]. intros H. injection H as <-.
    rewrite in_app_iff. simpl. split; [intros [H|[H|[]]]|intros [H|H]]; auto.
Qed.

Lemma setAdd_room (x : jsstring) (s : list jsstring) :
  Z.of_nat (length s) < maxSetSize ->
  exists s', setAdd x s = Some s' /\ (length s' <= S (length s))%nat.
Proof.
  intros H. unfold setAdd. destruct (setHas x s).
  - exists s. split; [reflexivity|lia].
  - destruct (Z.leb_spec maxSetSize (Z.of_nat (length s))); [lia|].
    exists (s ++ [x]). split; [reflexivity|]. rewrite length_app. simpl. lia.
Qed.

Lemma setHas_ext (x : jsstring) (s s' : list jsstring) :
  (forall y, In y s <-> In y s') -> setHas x s = setHas x s'.
Proof.
  intros H. apply eq_true_iff_eq. now rewrite !setHas_In.
Qed.

Lemma dedupeFrom_In (x : jsstring) (l : list jsstring) :
  forall seen, In x (dedupeFrom str_eqb seen l) <-> In x l /\ ~ In x seen.
Proof.
  induction l as [|y l IH]; intros seen; cbn [dedupeFrom]; [simpl; tauto|].
  fold (setHas y seen). destruct (setHas y seen) eqn:E.
  - apply setHas_In in E. rewrite IH. simpl. split; [tauto|].
    intros [[->|H] Hn]; tauto.
  - assert (Hy : ~ In y seen) by (rewrite <- setHas_In; congruence).
    simpl. rewrite IH. simpl. split.
    + intros [->|[H1 H2]]; tauto.
    + intros [[->|H] Hn]; [now left|].
      destruct (list_eq_dec N.eq_dec y x) as [->|Hne]; [now left|right]. tauto.
Qed.

Lemma dedupe_In (x : jsstring) (l : list jsstring) :
  In x (dedupe str_eqb l) <-> In x l.
Proof. unfold dedupe. rewrite dedupeFrom_In. simpl. tauto. Qed.

Lemma numIncludes_In (n : number) (l : list number) :
  DependencyParser.numIncludes n l = true <-> In n l.
Proof.
  unfold DependencyParser.numIncludes. rewrite existsb_exists. split.
  - intros [x [Hx E]]. apply Z.eqb_eq in E. now subst.
  - intros H. exists n. split; [exact H|apply Z.eqb_refl].
Qed.

(** ** Literal patterns *)

Lemma run_Lit_ignoreCase (w : jsstring) :
  forall pos s caps k,
    run true (Lit w) pos s caps k =
    if startsWith (map toUpper w) (map toUpper s)
    then k (pos + length w)%nat (skipn (length w) s) caps
    else None.
Proof.
  induction w as [|c w IH]; intros pos s caps k.
  - simpl. now rewrite Nat.add_0_r.
  - change (Lit (c :: w)) with (Cat (Chr c) (Lit w)).
    cbn [run]. destruct s as [|x s]; [reflexivity|].
    cbn [map startsWith canon skipn length]. unfold char_eqb.
    rewrite (N.eqb_sym (toUpper x)).
    destruct (N.eqb (toUpper c) (toUpper x)); [|reflexivity].
    cbn [andb]. rewrite IH. now rewrite Nat.add_succ_r.
Qed.

Lemma cls_Dd_ignoreCase (x : char) :
  cls_mem true (cls_of (js "Dd")) x = N.eqb (toUpper 100) (toUpper x).
Proof.
  unfold cls_mem, cls_of, inRanges, inRange, toUpper, toLower, isLower, isUpper.
  change (js "Dd") with [68%N; 100%N].
  cbn [negated ranges map existsb fst snd].
  change ((97 <=? 100)%N && (100 <=? 122)%N)%bool with true. cbv iota.
  change (100 - 32)%N with 68%N.
  repeat (match goal with
          | |- context [N.leb ?a ?b] => destruct (N.leb_spec a b)
          | |- context [N.eqb ?a ?b] => destruct (N.eqb_spec a b)
          | H : context [N.leb ?a ?b] |- _ => destruct (N.leb_spec a b)
          end; cbn [andb orb negb] in *);
    try reflexivity; try lia.
Qed.

Lemma matchAt_DEPENDS_ON_ALL (pos : nat) (s : jsstring) :
  match matchAt DEPENDS_ON_ALL_REGEX pos s with
  | Some _ => true
  | None => false
  end = startsWith (map toUpper (js "depends on all")) (map toUpper s).
Proof.
  unfold matchAt, DEPENDS_ON_ALL_REGEX. cbn [source ignoreCase Seq fold_right].
  cbn [run]. destruct s as [|x s]; [reflexivity|].
  rewrite cls_Dd_ignoreCase.
  change (map toUpper (js "depends on all"))
    with (toUpper 100 :: map toUpper (js "epends on all")).
  cbn [map startsWith]. unfold char_eqb.
  destruct (N.eqb (toUpper 100) (toUpper x)); [|reflexivity].
  rewrite run_Lit_ignoreCase. cbn [andb].
  destruct (startsWith _ _); reflexivity.
Qed.

Lemma test_DEPENDS_ON_ALL (description : jsstring) :
  test DEPENDS_ON_ALL_REGEX description =
  includesNoCase (js "depends on all") description.
Proof.
  unfold test, exec, includesNoCase. generalize 0%nat as pos.
  induction description as [|x d IH]; intros pos.
  - reflexivity.
  - cbn [search map includes].
    pose proof (matchAt_DEPENDS_ON_ALL pos (x :: d)) as M. cbn [map] in M.
    rewrite <- M.
    destruct (matchAt DEPENDS_ON_ALL_REGEX pos (x :: d)); [reflexivity|].
    cbn [orb]. apply IH.
Qed.

(** ** Repetition of a character class *)

Lemma eqb_succ_self (n : nat) : Nat.eqb (S n) n = false.
Proof. induction n; [reflexivity|exact IHn]. Qed.

Lemma starLoop_class (ic : bool) (cs : charset) (k : cont) :
  forall s fuel pos caps,
    (length s <= fuel)%nat ->
    starLoop true (run ic (Cls cs)) k fuel pos s caps =
    starClass (cls_mem ic cs) k pos s caps.
Proof.
  induction s as [|x s IH]; intros fuel pos caps Hf.
  - destruct fuel; reflexivity.
  - destruct fuel as [|fuel]; [simpl in Hf; lia|].
    cbn [starLoop run starClass].
    destruct (cls_mem ic cs x); [|reflexivity].
    rewrite eqb_succ_self, IH by (simpl in Hf; lia). reflexivity.
Qed.

Lemma run_Plus_class (ic : bool) (cs : charset) (k : cont)
  (pos : nat) (s : jsstring) (caps : captures) :
  run ic (Plus true (Cls cs)) pos s caps k =
  match s with
  | x :: s' =>
      if cls_mem ic cs x then starClass (cls_mem ic cs) k (S pos) s' caps
      else None
  | [] => None
  end.
Proof.
  unfold Plus. cbn [run]. destruct s as [|x s]; [reflexivity|].
  destruct (cls_mem ic cs x); [|reflexivity].
  now apply starLoop_class.
Qed.

(** If the continuation accepts after the longest run, that is the
    result. *)
Lemma starClass_longest (p : char -> bool) (k : cont)
  (res : nat * jsstring * captures) :
  forall s pos caps,
    k (pos + length (takeWhile p s))%nat (dropWhile p s) caps = Some res ->
    starClass p k pos s caps = Some res.
Proof.
  induction s as [|x s IH]; intros pos caps; cbn [starClass takeWhile dropWhile].
  - cbn [length]. now rewrite Nat.add_0_r.
  - destruct (p x).
    + cbn [length]. rewrite Nat.add_succ_r. intros H.
      now rewrite (IH (S pos) caps H).
    + cbn [length]. now rewrite Nat.add_0_r.
Qed.

(** If the continuation fails whenever a character of the class comes
    next, only the longest run can succeed. *)
Lemma starClass_only_longest (p : char -> bool) (k : cont) :
  (forall pos x s caps, p x = true -> k pos (x :: s) caps = None) ->
  forall s pos caps,
    starClass p k pos s caps =
    k (pos + length (takeWhile p s))%nat (dropWhile p s) caps.
Proof.
  intros Hk. induction s as [|x s IH]; intros pos caps;
    cbn [starClass takeWhile dropWhile].
  - cbn [length]. now rewrite Nat.add_0_r.
  - destruct (p x) eqn:E.
    + cbn [length]. rewrite Nat.add_succ_r, IH.
      destruct (k _ _ _); [reflexivity|]. now apply Hk.
    + cbn [length]. now rewrite Nat.add_0_r.
Qed.

Lemma cls_digit_mem (x : char) : cls_mem false cls_digit x = isDigit x.
Proof.
  unfold cls_mem, cls_digit, inRanges, inRange, isDigit. simpl.
  apply orb_false_r.
Qed.

Lemma firstn_takeWhile (p : char -> bool) (s : jsstring) :
  firstn (length (takeWhile p s)) s = takeWhile p s.
Proof.
  induction s as [|x s IH]; [reflexivity|]. simpl.
  destruct (p x); [|reflexivity]. simpl. now rewrite IH.
Qed.

Lemma takeWhile_dropWhile (p : char -> bool) (s : jsstring) :
  takeWhile p s ++ dropWhile p s = s.
Proof.
  induction s as [|x s IH]; [reflexivity|]. simpl.
  destruct (p x); [|reflexivity]. simpl. now rewrite IH.
Qed.

Lemma dropWhile_head (p : char -> bool) (s : jsstring) (x : char) (s' : jsstring) :
  dropWhile p s = x :: s' -> p x = false.
Proof.
  induction s as [|y s IH]; [discriminate|]. simpl.
  destruct (p y) eqn:E; [exact IH|]. intros H. injection H as -> _. exact E.
Qed.

Lemma takeWhile_ext (p q : char -> bool) (s : jsstring) :
  (forall x, p x = q x) -> takeWhile p s = takeWhile q s.
Proof.
  intros H. induction s as [|y s IH]; [reflexivity|]. cbn [takeWhile].
  rewrite H, IH. reflexivity.
Qed.

Lemma dropWhile_ext (p q : char -> bool) (s : jsstring) :
  (forall x, p x = q x) -> dropWhile p s = dropWhile q s.
Proof.
  intros H. induction s as [|y s IH]; [reflexivity|]. cbn [dropWhile].
  rewrite H, IH. reflexivity.
Qed.

(** The white space of [\s] is the white space of [trim]. *)
Lemma cls_space_mem (x : char) : cls_mem false cls_space x = isWhiteSpace x.
Proof.
  unfold cls_mem, cls_space, inRanges, inRange, isWhiteSpace, isLineTerminator.
  cbn [negated ranges existsb fst snd].
  repeat match goal with
         | |- context [N.eqb ?a ?b] => destruct (N.eqb_spec a b); [subst; reflexivity|]
         end.
  repeat (match goal with
          | |- context [N.leb ?a ?b] => destruct (N.leb_spec a b)
          end; cbn [andb orb]); try reflexivity; lia.
Qed.

(** ** A run of digits, captured *)

(** The matcher of [(\d+)] followed by [k]. *)
Lemma run_digits_group (i : nat) (k : cont) (pos : nat) (s : jsstring)
  (caps : captures) :
  (forall pos' x s' caps', isDigit x = true -> k pos' (x :: s') caps' = None) ->
  run false (Grp i (Plus true (Cls cls_digit))) pos s caps k =
  if startsWithDigit s
  then k (pos + length (takeWhile isDigit s))%nat (dropWhile isDigit s)
         ((i, takeWhile isDigit s) :: caps)
  else None.
Proof.
  intros Hk. cbn [run]. rewrite run_Plus_class.
  destruct s as [|x s]; [reflexivity|]. cbn [startsWithDigit].
  rewrite cls_digit_mem. destruct (isDigit x) eqn:E; [|reflexivity].
  rewrite (starClass_only_longest _ _)
    by (intros pos' y s' caps' Hy; rewrite cls_digit_mem in Hy; now apply Hk).
  rewrite (takeWhile_ext _ isDigit s cls_digit_mem),
          (dropWhile_ext _ isDigit s cls_digit_mem).
  cbn [takeWhile dropWhile]. rewrite E. cbn [length].
  replace (S pos + length (takeWhile isDigit s) - pos)%nat
    with (length (takeWhile isDigit (x :: s)))
    by (cbn [takeWhile]; rewrite E; cbn [length]; lia).
  rewrite firstn_takeWhile. cbn [takeWhile]. rewrite E.
  now rewrite Nat.add_succ_r.
Qed.

(** The same when [k] accepts everything: the longest run is taken. *)
Lemma run_digits_group_accept (i : nat) (pos : nat) (s : jsstring)
  (caps : captures) :
  run false (Grp i (Plus true (Cls cls_digit))) pos s caps accept =
  if startsWithDigit s
  then Some ((pos + length (takeWhile isDigit s))%nat, dropWhile isDigit s,
             (i, takeWhile isDigit s) :: caps)
  else None.
Proof.
  cbn [run]. rewrite run_Plus_class.
  destruct s as [|x s]; [reflexivity|]. cbn [startsWithDigit].
  rewrite cls_digit_mem. destruct (isDigit x) eqn:E; [|reflexivity].
  apply starClass_longest. unfold accept.
  rewrite (takeWhile_ext _ isDigit s cls_digit_mem),
          (dropWhile_ext _ isDigit s cls_digit_mem).
  cbn [takeWhile dropWhile]. rewrite E. cbn [length].
  replace (S pos + length (takeWhile isDigit s) - pos)%nat
    with (length (takeWhile isDigit (x :: s)))
    by (cbn [takeWhile]; rewrite E; cbn [length]; lia).
  rewrite firstn_takeWhile. cbn [takeWhile]. rewrite E.
  now rewrite Nat.add_succ_r.
Qed.

(** ** The task-ID patterns *)

Lemma matchAt_TASK_ID (pos : nat) (s : jsstring) :
  matchAt TASK_ID_REGEX pos s =
  match s with
  | x :: s1 =>
      if (N.eqb x 84 && startsWithDigit s1)%bool then
        let e := (S pos + length (takeWhile isDigit s1))%nat in
        Some {| index := pos; matched := firstn (e - pos) s;
                groups := [(1%nat, takeWhile isDigit s1)];
                endIndex := e; rest := dropWhile isDigit s1 |}
      else None
  | [] => None
  end.
Proof.
  unfold matchAt, TASK_ID_REGEX. cbn [source ignoreCase].
  unfold Seq. cbn [fold_right]. change (Lit (js "T")) with (Cat (Chr 84%N) Eps).
  set (G := Grp 1 (Plus true dg)).
  cbn [run canon]. destruct s as [|x s1]; [reflexivity|].
  unfold char_eqb. destruct (N.eqb x 84); [|reflexivity].
  subst G. unfold dg.
  change (fun pos' s' caps' => accept pos' s' caps') with accept.
  rewrite run_digits_group_accept. cbn [andb].
  destruct (startsWithDigit s1); reflexivity.
Qed.

Lemma digit_not_dash (x : char) : isDigit x = true -> N.eqb x 45 = false.
Proof.
  unfold isDigit. intros H. apply andb_true_iff in H. destruct H as [H _].
  apply N.leb_le in H. apply N.eqb_neq. lia.
Qed.

Lemma matchAt_TASK_RANGE (pos : nat) (s : jsstring) :
  matchAt TASK_RANGE_REGEX pos s =
  match s with
  | x :: s1 =>
      if (N.eqb x 84 && startsWithDigit s1)%bool then
        match dropWhile isDigit s1 with
        | y :: z :: s2 =>
            if (N.eqb y 45 && N.eqb z 84 && startsWithDigit s2)%bool then
              let e := (S (S (S pos + length (takeWhile isDigit s1)))
                        + length (takeWhile isDigit s2))%nat in
              Some {| index := pos; matched := firstn (e - pos) s;
                      groups := [(2%nat, takeWhile isDigit s2);
                                 (1%nat, takeWhile isDigit s1)];
                      endIndex := e; rest := dropWhile isDigit s2 |}
            else None
        | _ => None
        end
      else None
  | [] => None
  end.
Proof.
  unfold matchAt, TASK_RANGE_REGEX. cbn [source ignoreCase].
  unfold Seq. cbn [fold_right]. change (Lit (js "T")) with (Cat (Chr 84%N) Eps).
  change (Lit (js "-T")) with (Cat (Chr 45%N) (Cat (Chr 84%N) Eps)).
  set (G1 := Grp 1 (Plus true dg)). set (G2 := Grp 2 (Plus true dg)).
  cbn [run canon]. destruct s as [|x s1]; [reflexivity|].
  unfold char_eqb. destruct (N.eqb x 84); [|reflexivity].
  subst G1. unfold dg. rewrite run_digits_group.
  2:{ intros pos' d s' caps' Hd. now rewrite (digit_not_dash d Hd). }
  cbn [andb]. destruct (startsWithDigit s1); [|reflexivity].
  destruct (dropWhile isDigit s1) as [|y [|z s2]]; [reflexivity| |].
  - destruct (N.eqb y 45); reflexivity.
  - destruct (N.eqb y 45); [|reflexivity].
    destruct (N.eqb z 84); [|reflexivity].
    subst G2. unfold dg.
    change (fun pos' s' caps' => accept pos' s' caps') with accept.
    rewrite run_digits_group_accept. cbn [andb].
    destruct (startsWithDigit s2); reflexivity.
Qed.

(** ** [matchAll] *)

Lemma matchAllFrom_skip (R : RegExp) (fuel pos : nat) (c : char) (s : jsstring) :
  matchAt R pos (c :: s) = None ->
  matchAllFrom fuel R pos (c :: s) = matchAllFrom fuel R (S pos) s.
Proof.
  intros H. destruct fuel; [reflexivity|].
  cbn [matchAllFrom search]. now rewrite H.
Qed.

Lemma search_hit (R : RegExp) (pos : nat) (s : jsstring) (m : MatchResult) :
  matchAt R pos s = Some m -> search R pos s = Some m.
Proof. intros H. destruct s; cbn [search]; now rewrite H. Qed.

Lemma matchAllFrom_hit (R : RegExp) (fuel pos : nat) (s : jsstring)
  (m : MatchResult) :
  matchAt R pos s = Some m -> Nat.eqb (endIndex m) (index m) = false ->
  matchAllFrom (S fuel) R pos s = m :: matchAllFrom fuel R (endIndex m) (rest m).
Proof.
  intros H E. cbn [matchAllFrom]. now rewrite (search_hit _ _ _ _ H), E.
Qed.

Lemma search_sound (R : RegExp) (s : jsstring) :
  forall pos m,
    search R pos s = Some m ->
    exists pre suf,
      s = pre ++ suf /\ matchAt R (pos + length pre) suf = Some m.
Proof.
  induction s as [|c s IH]; intros pos m; cbn [search].
  - destruct (matchAt R pos []) eqn:E; [|discriminate].
    intros H. injection H as <-. exists [], []. now rewrite Nat.add_0_r.
  - destruct (matchAt R pos (c :: s)) eqn:E.
    + intros H. injection H as <-. exists [], (c :: s). now rewrite Nat.add_0_r.
    + intros H. destruct (IH _ _ H) as [pre [suf [-> Hm]]].
      exists (c :: pre), suf. split; [reflexivity|].
      cbn [length]. now rewrite Nat.add_succ_r.
Qed.

(** ** The scan for task IDs *)

Lemma digit_not_T (x : char) : isDigit x = true -> N.eqb x 84 = false.
Proof.
  unfold isDigit. intros H. apply andb_true_iff in H. destruct H as [_ H].
  apply N.leb_le in H. apply N.eqb_neq. lia.
Qed.

Lemma scanIds_dropWhile (s : jsstring) :
  scanIds (dropWhile isDigit s) = scanIds s.
Proof.
  induction s as [|x s IH]; [reflexivity|]. cbn [dropWhile].
  destruct (isDigit x) eqn:E; [|reflexivity].
  cbn [scanIds]. now rewrite (digit_not_T x E).
Qed.

Lemma length_dropWhile (p : char -> bool) (s : jsstring) :
  (length (dropWhile p s) <= length s)%nat.
Proof.
  induction s as [|x s IH]; [reflexivity|]. cbn [dropWhile].
  destruct (p x); simpl; lia.
Qed.

Lemma matchAllFrom_TASK_ID (n : nat) :
  forall s fuel pos,
    (length s <= n)%nat -> (length s < fuel)%nat ->
    map (fun m => capture m 1) (matchAllFrom fuel TASK_ID_REGEX pos s) =
    map Some (scanIds s).
Proof.
  induction n as [|n IH]; intros s fuel pos Hn Hf.
  - destruct s; [|simpl in Hn; lia]. destruct fuel; reflexivity.
  - destruct s as [|x s1]; [destruct fuel; reflexivity|].
    cbn [length] in Hn, Hf.
    pose proof (matchAt_TASK_ID pos (x :: s1)) as M. cbv beta iota zeta in M.
    cbn [scanIds]. destruct (N.eqb x 84 && startsWithDigit s1)%bool.
    + destruct fuel as [|fuel]; [lia|].
      rewrite (matchAllFrom_hit _ _ _ _ _ M)
        by (cbn [endIndex index]; apply Nat.eqb_neq; lia).
      cbn [map endIndex rest]. f_equal.
      rewrite IH, scanIds_dropWhile; [reflexivity| |];
        pose proof (length_dropWhile isDigit s1); lia.
    + rewrite (matchAllFrom_skip _ _ _ _ _ M). apply IH; lia.
Qed.

Lemma matchAll_TASK_ID (s : jsstring) :
  map idOfMatch (matchAll TASK_ID_REGEX s) = map taskIdOf (scanIds s).
Proof.
  unfold matchAll.
  pose proof (matchAllFrom_TASK_ID (length s) s (S (length s)) 0%nat
                (Nat.le_refl _) (Nat.lt_succ_diag_r _)) as H.
  revert H. generalize (matchAllFrom (S (length s)) TASK_ID_REGEX 0 s) as ms.
  generalize (scanIds s) as ds.
  induction ds as [|d ds IH]; intros [|m ms] H; try discriminate; [reflexivity|].
  cbn [map] in *. injection H as H1 H2.
  unfold idOfMatch at 1. rewrite H1. f_equal. now apply IH.
Qed.

Lemma takeWhile_app_run (p : char -> bool) (ds rest : jsstring) :
  forallb p ds = true ->
  match rest with c :: _ => p c | [] => false end = false ->
  takeWhile p (ds ++ rest) = ds.
Proof.
  intros Hd Hr. induction ds as [|d ds IH]; cbn [app takeWhile].
  - destruct rest as [|c rest]; [reflexivity|]. cbn [takeWhile]. now rewrite Hr.
  - cbn [forallb] in Hd. apply andb_true_iff in Hd. destruct Hd as [H1 H2].
    now rewrite H1, (IH H2).
Qed.

(** A [T] with a run of digits after it is found by the scan. *)
Lemma scanIds_occurrence (pre ds rest : jsstring) :
  ds <> [] -> forallb isDigit ds = true -> startsWithDigit rest = false ->
  In ds (scanIds (pre ++ 84%N :: ds ++ rest)).
Proof.
  intros Hne Hd Hr. induction pre as [|c pre IH]; cbn [app scanIds].
  - replace (startsWithDigit (ds ++ rest)) with true.
    + cbn [N.eqb Pos.eqb andb]. left. now apply takeWhile_app_run.
    + destruct ds as [|d ds]; [contradiction|]. cbn [forallb] in Hd.
      apply andb_true_iff in Hd. symmetry. apply Hd.
  - destruct (_ && _)%bool; [right|]; exact IH.
Qed.

(** ** The scan for ranges *)

Lemma forallb_takeWhile (p : char -> bool) (s : jsstring) :
  forallb p (takeWhile p s) = true.
Proof.
  induction s as [|x s IH]; [reflexivity|]. cbn [takeWhile].
  destruct (p x) eqn:E; [|reflexivity]. cbn [forallb]. now rewrite E, IH.
Qed.

Lemma startsWithDigit_dropWhile (s : jsstring) :
  startsWithDigit (dropWhile isDigit s) = false.
Proof.
  destruct (dropWhile isDigit s) as [|x s'] eqn:E; [reflexivity|].
  exact (dropWhile_head _ _ _ _ E).
Qed.

Lemma takeWhile_nonempty (s : jsstring) :
  startsWithDigit s = true -> takeWhile isDigit s <> [].
Proof.
  destruct s as [|x s]; [discriminate|]. cbn [startsWithDigit takeWhile].
  now intros ->.
Qed.

Lemma matchAt_TASK_RANGE_sound (pos : nat) (s : jsstring) (m : MatchResult) :
  matchAt TASK_RANGE_REGEX pos s = Some m ->
  exists a b,
    capture m 1 = Some a /\ capture m 2 = Some b /\
    s = 84%N :: a ++ 45%N :: 84%N :: b ++ rest m /\
    a <> [] /\ forallb isDigit a = true /\
    b <> [] /\ forallb isDigit b = true /\
    startsWithDigit (rest m) = false.
Proof.
  rewrite matchAt_TASK_RANGE. destruct s as [|x s1]; [discriminate|].
  destruct (N.eqb_spec x 84) as [->|]; [|discriminate]. cbn [andb].
  destruct (startsWithDigit s1) eqn:E1; [|discriminate].
  destruct (dropWhile isDigit s1) as [|y [|z s2]] eqn:D1; try discriminate.
  destruct (N.eqb_spec y 45) as [->|]; [|discriminate].
  destruct (N.eqb_spec z 84) as [->|]; [|discriminate]. cbn [andb].
  destruct (startsWithDigit s2) eqn:E2; [|discriminate].
  cbv zeta. intros H. injection H as <-.
  exists (takeWhile isDigit s1), (takeWhile isDigit s2).
  split; [reflexivity|]. split; [reflexivity|]. cbn [rest]. split.
  - rewrite (takeWhile_dropWhile isDigit s2), <- D1.
    now rewrite (takeWhile_dropWhile isDigit s1).
  - split; [now apply takeWhile_nonempty|]. split; [apply forallb_takeWhile|].
    split; [now apply takeWhile_nonempty|]. split; [apply forallb_takeWhile|].
    apply startsWithDigit_dropWhile.
Qed.

Lemma rangeOccurs_suffix (a b pre s : jsstring) :
  rangeOccurs a b s -> rangeOccurs a b (pre ++ s).
Proof.
  intros [p [r [-> H]]]. exists (pre ++ p), r. split; [|exact H].
  now rewrite <- app_assoc.
Qed.

Lemma matchAllFrom_TASK_RANGE (fuel : nat) :
  forall s pos m,
    In m (matchAllFrom fuel TASK_RANGE_REGEX pos s) ->
    exists a b,
      capture m 1 = Some a /\ capture m 2 = Some b /\ rangeOccurs a b s.
Proof.
  induction fuel as [|fuel IH]; intros s pos m; cbn [matchAllFrom]; [intros []|].
  destruct (search TASK_RANGE_REGEX pos s) as [m0|] eqn:E; [|intros []].
  destruct (search_sound _ _ _ _ E) as [pre [suf [-> Hm]]].
  destruct (matchAt_TASK_RANGE_sound _ _ _ Hm)
    as [a [b [C1 [C2 [Es [Ha1 [Ha2 [Hb1 [Hb2 Hr]]]]]]]]].
  intros [<-|Hin].
  - exists a, b. split; [exact C1|]. split; [exact C2|].
    apply rangeOccurs_suffix. exists [], (rest m0). now rewrite Es at 1.
  - assert (Hrest : forall tl pos', In m (matchAllFrom fuel TASK_RANGE_REGEX pos' tl) ->
                      (exists hd, rest m0 = hd ++ tl) ->
                      exists a b, capture m 1 = Some a /\ capture m 2 = Some b /\
                                  rangeOccurs a b (pre ++ suf)).
    { intros tl pos' H [hd Ehd]. destruct (IH _ _ _ H) as [a' [b' [D1 [D2 Ho]]]].
      exists a', b'. split; [exact D1|]. split; [exact D2|].
      rewrite Es, Ehd.
      replace (pre ++ 84%N :: a ++ 45%N :: 84%N :: b ++ hd ++ tl)
        with ((pre ++ 84%N :: a ++ 45%N :: 84%N :: b ++ hd) ++ tl).
      - now apply rangeOccurs_suffix.
      - rewrite <- !app_assoc. cbn [app]. rewrite <- !app_assoc. cbn [app].
        now rewrite <- !app_assoc. }
    destruct (Nat.eqb (endIndex m0) (index m0)).
    + destruct (rest m0) as [|c tl] eqn:Er; [destruct Hin|].
      apply (Hrest tl _ Hin). now exists [c].
    + apply (Hrest (rest m0) _ Hin). now exists [].
Qed.

(** ** Numbers *)

Lemma round53_small (n : Z) : 0 <= n < maxSafe -> round53 n = n.
Proof.
  intros [H0 H1]. unfold round53.
  assert (L : Z.log2 n + 1 <= 53).
  { destruct (Z.eq_dec n 0) as [->|Hn]; [simpl; lia|].
    assert (Z.log2 n < 53); [|lia].
    apply Z.log2_lt_pow2; [lia|]. exact H1. }
  apply Z.leb_le in L. now rewrite L.
Qed.

Lemma to_double_safe (n : Z) : 0 <= n <= maxSafe -> to_double n = n.
Proof.
  intros [H0 H1]. unfold to_double.
  destruct (Z.ltb_spec n 0); [lia|].
  destruct (Z.eq_dec n maxSafe) as [->|Hn]; [vm_compute; reflexivity|].
  apply round53_small. lia.
Qed.

Lemma incr_safe (i : Z) : 0 <= i < maxSafe -> incr i = i + 1.
Proof. intros H. unfold incr. apply to_double_safe. lia. Qed.

Lemma incr_maxSafe : incr maxSafe = maxSafe.
Proof. vm_compute. reflexivity. Qed.

Lemma round53_nonneg (n : Z) : 0 <= n -> 0 <= round53 n.
Proof.
  intros H. unfold round53. destruct (_ <=? _); [exact H|].
  apply Z.shiftl_nonneg.
  assert (0 <= Z.shiftr n (Z.log2 n + 1 - 53)) by now apply Z.shiftr_nonneg.
  destruct (_ || _)%bool; lia.
Qed.

Lemma to_double_nonneg (n : Z) : 0 <= n -> 0 <= to_double n.
Proof.
  intros H. unfold to_double. destruct (Z.ltb_spec n 0); [lia|].
  now apply round53_nonneg.
Qed.

Lemma digitsValue_nonneg (ds : jsstring) :
  forallb isDigit ds = true -> 0 <= digitsValue ds.
Proof.
  unfold digitsValue.
  assert (G : forall acc, 0 <= acc -> forallb isDigit ds = true ->
                0 <= fold_left (fun acc c => 10 * acc + digitValue c) ds acc).
  { induction ds as [|d ds IH]; intros a Ha Hd; [exact Ha|].
    cbn [forallb] in Hd. apply andb_true_iff in Hd. destruct Hd as [H1 H2].
    cbn [fold_left]. apply IH; [|exact H2].
    unfold isDigit in H1. apply andb_true_iff in H1. destruct H1 as [H1 _].
    apply N.leb_le in H1. unfold digitValue. lia. }
  intros Hd. apply G; [|exact Hd]. reflexivity.
Qed.

Lemma digit_not_space (x : char) : isDigit x = true -> isWhiteSpace x = false.
Proof.
  unfold isDigit, isWhiteSpace, isLineTerminator. intros H.
  apply andb_true_iff in H. destruct H as [H1 H2].
  apply N.leb_le in H1, H2.
  repeat match goal with
         | |- context [N.eqb ?a ?b] =>
             destruct (N.eqb_spec a b); [lia|]
         | |- context [N.leb ?a ?b] =>
             destruct (N.leb_spec a b); cbn [andb orb]
         end; try reflexivity; lia.
Qed.

(** [parseInt] on a capture of [\d+]: never NaN, never negative. *)
Lemma parseInt_digits (ds : jsstring) :
  ds <> [] -> forallb isDigit ds = true ->
  parseInt ds = Some (to_double (digitsValue ds)) /\ 0 <= parseIntDigits ds.
Proof.
  intros Hne Hd. destruct ds as [|d ds]; [contradiction|].
  assert (E : parseInt (d :: ds) = Some (to_double (digitsValue (d :: ds)))).
  { pose proof Hd as Hd'. cbn [forallb] in Hd'. apply andb_true_iff in Hd'.
    destruct Hd' as [H1 H2].
    unfold parseInt, trimStart. cbn [dropWhile].
    rewrite (digit_not_space d H1), (digit_not_dash d H1).
    assert (N.eqb d 43 = false) as ->.
    { unfold isDigit in H1. apply andb_true_iff in H1. destruct H1 as [H1 _].
      apply N.leb_le in H1. apply N.eqb_neq. lia. }
    replace (takeWhile isDigit (d :: ds)) with (d :: ds); [reflexivity|].
    symmetry. rewrite <- (app_nil_r (d :: ds)) at 1.
    now apply takeWhile_app_run. }
  split; [exact E|]. unfold parseIntDigits. rewrite E.
  apply to_double_nonneg. now apply digitsValue_nonneg.
Qed.

(** ** The loops of [extractParallelTasks] *)

(** A reversed range adds nothing. *)
Lemma rangeLoop_reversed (fuel : nat) (i e : number) (t p : list jsstring) :
  e < i -> rangeLoop (S fuel) i e t p = Some (t, p).
Proof.
  intros H. cbn [rangeLoop]. destruct (Z.leb_spec i e); [lia|reflexivity].
Qed.

(** The loops only add, and what is in [processedRanges] is in [tasks]. *)
Lemma rangeLoop_grows (fuel : nat) :
  forall i e t p t' p',
    rangeLoop fuel i e t p = Some (t', p') ->
    (forall x, In x t -> In x t') /\
    ((forall x, In x p -> In x t) -> forall x, In x p' -> In x t').
Proof.
  induction fuel as [|fuel IH]; intros i e t p t' p'; cbn [rangeLoop];
    [discriminate|].
  destruct (i <=? e).
  - destruct (setAdd _ p) as [p1|] eqn:A; [|discriminate].
    intros H. destruct (IH _ _ _ _ _ _ H) as [H1 H2]. split.
    + intros x Hx. apply H1. apply in_or_app. now left.
    + intros Hp. apply H2. intros x Hx. apply (setAdd_In _ x _ _ A) in Hx.
      apply in_or_app. destruct Hx as [->|Hx]; [right; now left|left; auto].
  - intros H. injection H as <- <-. auto.
Qed.

Lemma rangesLoop_grows (fuel : nat) (ms : list MatchResult) :
  forall t p t' p',
    rangesLoop fuel ms t p = Some (t', p') ->
    (forall x, In x t -> In x t') /\
    ((forall x, In x p -> In x t) -> forall x, In x p' -> In x t').
Proof.
  induction ms as [|m ms IH]; intros t p t' p'; cbn [rangesLoop].
  - intros H. injection H as <- <-. auto.
  - destruct (rangeLoop fuel _ _ t p) as [[t1 p1]|] eqn:E; [|discriminate].
    intros H. destruct (rangeLoop_grows _ _ _ _ _ _ _ E) as [A1 A2].
    destruct (IH _ _ _ _ H) as [B1 B2]. split; auto.
Qed.

Lemma idsLoop_filter (p : list jsstring) (ms : list MatchResult) :
  forall t,
    idsLoop ms t p =
    t ++ filter (fun taskId => negb (setHas taskId p)) (map idOfMatch ms).
Proof.
  unfold idsLoop. induction ms as [|m ms IH]; intros t; cbn [fold_left map filter].
  - now rewrite app_nil_r.
  - rewrite IH. destruct (negb (setHas (idOfMatch m) p)); [|reflexivity].
    now rewrite <- app_assoc.
Qed.

(** Every ID of the second scan ends up in [tasks]. *)
Lemma idsLoop_has (p t : list jsstring) (ms : list MatchResult) (x : jsstring) :
  (forall y, In y p -> In y t) ->
  In x (map idOfMatch ms) -> In x (idsLoop ms t p).
Proof.
  intros Hp Hx. rewrite idsLoop_filter. apply in_or_app.
  destruct (setHas x p) eqn:E.
  - left. apply Hp. now apply setHas_In.
  - right. apply filter_In. split; [exact Hx|]. now rewrite E.
Qed.

(** ** C1 and C6: the result of [parseTasksFile] *)

Lemma parseTasksFile_fields (fuel : nat) (content specFolder : jsstring)
  (r : ParseResult) :
  Parser.parseTasksFile fuel content specFolder = Some r ->
  exists dependencies,
    DependencyParser.parseDependencies fuel content = Some dependencies /\
    phases r = Parser.attachDependencies dependencies
                 (Parser.scanPhases (split isLF content)) /\
    nextPhase r = find (fun p => negb (isComplete p)) (phases r) /\
    nextTask r = None /\
    availablePhases r =
      filter (fun p => (DependencyParser.numIncludes (number_ p)
                          (DependencyParser.calculateAvailablePhases (phases r))
                        && negb (isComplete p))%bool) (phases r) /\
    specName r = GitUtils.getSpecName specFolder.
Proof.
  unfold Parser.parseTasksFile. cbv zeta.
  destruct (DependencyParser.parseDependencies fuel content) as [deps|];
    [|discriminate].
  intros H. injection H as <-. exists deps. simpl. repeat split.
Qed.

(** C1 (fails on the code). [parseTasksFile] never assigns [nextTask]: for
    the document below the next phase is phase 1, its first task that is not
    completed is T002, and the result has no [nextTask]. *)
Theorem parseTasksFile_nextTask_unset :
  exists r p t,
    Parser.parseTasksFile 1 docNextTask folder = Some r /\
    nextPhase r = Some p /\ number_ p = 1 /\
    find (fun t => negb (completed t)) (tasks p) = Some t /\
    id t = js "T002" /\
    nextTask r = None.
Proof.
  destruct (Parser.parseTasksFile 1 docNextTask folder) as [r|] eqn:E;
    [|vm_compute in E; discriminate].
  vm_compute in E. injection E as <-.
  eexists. eexists. eexists.
  split; [reflexivity|]. split; [reflexivity|]. split; [reflexivity|].
  split; [reflexivity|]. split; reflexivity.
Qed.

Lemma Sorted_filter_map (A : Type) (f : A -> Z) (g : A -> bool) (l : list A) :
  Sorted Z.le (map f l) -> Sorted Z.le (map f (filter g l)).
Proof.
  intros H. apply Sorted_StronglySorted in H; [|intros x y z; apply Z.le_trans].
  apply StronglySorted_Sorted.
  induction l as [|a l IH]; simpl; [constructor|].
  simpl in H. inversion H as [|? ? Hs Hall]; subst.
  destruct (g a); simpl; [|now apply IH].
  constructor; [now apply IH|].
  rewrite Forall_forall in *. intros y Hy. apply Hall.
  rewrite in_map_iff in *. destruct Hy as [x [E Hx]]. exists x.
  apply filter_In in Hx. now split.
Qed.

(** C6, the counterexample: with phase 2 before phase 1 in the document
    the available phases come out as 2, 1. *)
Lemma availablePhases_not_sorted :
  exists r,
    Parser.parseTasksFile 1 docUnordered folder = Some r /\
    map number_ (availablePhases r) = [2; 1] /\
    ~ Sorted Z.le (map number_ (availablePhases r)).
Proof.
  destruct (Parser.parseTasksFile 1 docUnordered folder) as [r|] eqn:E;
    [|vm_compute in E; discriminate].
  vm_compute in E. injection E as <-.
  eexists. split; [reflexivity|]. split; [reflexivity|].
  simpl. intros H. inversion H as [|? ? _ Hd]; subst.
  inversion Hd; subst. lia.
Qed.

(** C6, as amended. [availablePhases] holds exactly the phases of the main
    list that are not complete and whose number is in the result of the
    availability computation, in the order of the main list (the document
    order); it is ascending by number when the main list is. *)
Theorem availablePhases_document_order (fuel : nat)
  (content specFolder : jsstring) (r : ParseResult) :
  Parser.parseTasksFile fuel content specFolder = Some r ->
  let numbers := DependencyParser.calculateAvailablePhases (phases r) in
  availablePhases r =
    filter (fun p => (negb (isComplete p) &&
                      DependencyParser.numIncludes (number_ p) numbers)%bool)
      (phases r) /\
  (forall p, In p (availablePhases r) <->
             In p (phases r) /\ isComplete p = false /\ In (number_ p) numbers) /\
  (Sorted Z.le (map number_ (phases r)) ->
   Sorted Z.le (map number_ (availablePhases r))).
Proof.
  intros H. destruct (parseTasksFile_fields _ _ _ _ H) as [deps [_ [_ [_ [_ [E _]]]]]].
  cbv zeta.
  assert (E' : availablePhases r =
               filter (fun p => (negb (isComplete p) &&
                  DependencyParser.numIncludes (number_ p)
                    (DependencyParser.calculateAvailablePhases (phases r)))%bool)
                 (phases r)).
  { rewrite E. apply filter_ext. intros p. apply andb_comm. }
  split; [exact E'|]. split.
  - intros p. rewrite E', filter_In, andb_true_iff, negb_true_iff, numIncludes_In.
    tauto.
  - rewrite E'. apply Sorted_filter_map.
Qed.

Lemma availablePhases_document_order_witness :
  exists r,
    Parser.parseTasksFile 1 docUnordered folder = Some r /\
    availablePhases r =
      filter (fun p => (negb (isComplete p) &&
                        DependencyParser.numIncludes (number_ p)
                          (DependencyParser.calculateAvailablePhases (phases r)))%bool)
        (phases r).
Proof.
  destruct (Parser.parseTasksFile 1 docUnordered folder) as [r|] eqn:E;
    [|vm_compute in E; discriminate].
  exists r. split; [reflexivity|].
  exact (proj1 (availablePhases_document_order 1 docUnordered folder r E)).
Defined.

(** ** C2: the availability engine *)

Lemma isCompleteNumber_spec (phases : list Phase) (d : number) :
  Spec.isCompleteNumber phases d = true <->
  exists q, In q phases /\ isComplete q = true /\ number_ q = d.
Proof.
  unfold Spec.isCompleteNumber. rewrite existsb_exists. split.
  - intros [q [Hq E]]. apply andb_true_iff in E. destruct E as [E1 E2].
    apply Z.eqb_eq in E2. now exists q.
  - intros [q [Hq [E1 E2]]]. exists q. split; [exact Hq|].
    rewrite E1. simpl. now apply Z.eqb_eq.
Qed.

Lemma completedPhases_has (phases : list Phase) (d : number) :
  DependencyParser.numIncludes d (map number_ (filter isComplete phases)) =
  Spec.isCompleteNumber phases d.
Proof.
  apply eq_true_iff_eq. rewrite numIncludes_In, isCompleteNumber_spec, in_map_iff.
  split.
  - intros [q [E H]]. apply filter_In in H. destruct H as [H1 H2]. now exists q.
  - intros [q [H1 [H2 E]]]. exists q. split; [exact E|]. apply filter_In. now split.
Qed.

Lemma flat_map_filter (A B : Type) (g : A -> bool) (h : A -> B) (l : list A) :
  flat_map (fun x => if g x then [h x] else []) l = map h (filter g l).
Proof.
  induction l as [|x l IH]; simpl; [reflexivity|].
  destruct (g x); simpl; now rewrite IH.
Qed.

Lemma calculateAvailablePhases_unfold (phases : list Phase) :
  DependencyParser.calculateAvailablePhases phases =
  sortNumbers (map number_ (filter (Spec.available phases) phases)).
Proof.
  unfold DependencyParser.calculateAvailablePhases.
  rewrite <- (flat_map_filter _ _ (Spec.available phases) number_ phases). f_equal.
  apply flat_map_ext. intros p. unfold Spec.available.
  destruct (isComplete p); simpl; [reflexivity|].
  destruct (dependency p) as [dep|]; [|reflexivity].
  destruct (dependsOn dep) as [|d ds] eqn:E; [reflexivity|].
  cbv [isEmpty].
  replace (forallb _ (d :: ds)) with (forallb (Spec.isCompleteNumber phases) (d :: ds)).
  - now destruct (forallb _ _).
  - clear E. induction (d :: ds) as [|x l IH]; simpl; [reflexivity|].
    now rewrite IH, completedPhases_has.
Qed.

Lemma available_spec (phases : list Phase) (p : Phase) :
  Spec.available phases p = true <->
  isComplete p = false /\
  forall dep d, dependency p = Some dep -> In d (dependsOn dep) ->
    exists q, In q phases /\ isComplete q = true /\ number_ q = d.
Proof.
  unfold Spec.available. rewrite andb_true_iff, negb_true_iff.
  split; intros [H1 H2]; (split; [exact H1|]).
  - intros dep d E Hd. rewrite E in H2. rewrite forallb_forall in H2.
    apply isCompleteNumber_spec. now apply H2.
  - destruct (dependency p) as [dep|]; [|reflexivity].
    apply forallb_forall. intros d Hd. apply isCompleteNumber_spec.
    now apply (H2 dep).
Qed.

(** C2. [calculateAvailablePhases] returns, sorted ascending, exactly the
    numbers of the phases that are not complete and whose every [dependsOn]
    entry is the number of a complete phase of the input list; a phase
    without a dependency record, or with an empty [dependsOn], is available
    iff it is not complete. *)
Theorem calculateAvailablePhases_correct (phases : list Phase) :
  let result := DependencyParser.calculateAvailablePhases phases in
  Permutation result (map number_ (filter (Spec.available phases) phases)) /\
  Sorted Z.le result /\
  (forall n, In n result <->
     exists p, In p phases /\ number_ p = n /\ isComplete p = false /\
       forall dep d, dependency p = Some dep -> In d (dependsOn dep) ->
         exists q, In q phases /\ isComplete q = true /\ number_ q = d) /\
  (forall p, dependency p = None -> Spec.available phases p = negb (isComplete p)) /\
  (forall p dep, dependency p = Some dep -> dependsOn dep = [] ->
     Spec.available phases p = negb (isComplete p)).
Proof.
  cbv zeta. rewrite calculateAvailablePhases_unfold.
  split; [apply sort_perm|]. split; [apply sortNumbers_sorted|].
  split; [|split].
  - intros n. unfold sortNumbers. rewrite sort_In, in_map_iff. split.
    + intros [p [E H]]. apply filter_In in H. destruct H as [H1 H2].
      apply available_spec in H2. destruct H2 as [H2 H3]. now exists p.
    + intros [p [H1 [E [H2 H3]]]]. exists p. split; [exact E|].
      apply filter_In. split; [exact H1|]. now apply available_spec.
  - intros p E. unfold Spec.available. rewrite E. apply andb_true_r.
  - intros p dep E1 E2. unfold Spec.available. rewrite E1, E2. apply andb_true_r.
Qed.

Example calculateAvailablePhases_example :
  DependencyParser.calculateAvailablePhases
    [mkPhase 3 false (Some [1; 2]); mkPhase 2 false None; mkPhase 1 true None;
     mkPhase 5 false (Some []); mkPhase 4 false (Some [1])] = [2; 4; 5].
Proof. reflexivity. Qed.

(** ** The reverse relationships of [parseDependencies] *)

Lemma setBlocks_id (r : PhaseDependency) : setBlocks (blocks r) r = r.
Proof. now destruct r. Qed.

Lemma setBlocks_setBlocks (bs bs' : list number) (r : PhaseDependency) :
  setBlocks bs (setBlocks bs' r) = setBlocks bs r.
Proof. reflexivity. Qed.

Lemma buildReverse_edges (result : Map.t PhaseDependency) :
  buildReverse result = fold_left edgeStep (edges result) result.
Proof.
  unfold buildReverse. generalize result at 1 3 as entries.
  intros entries. revert result.
  induction entries as [|[k dep] entries IH]; intros m; simpl; [reflexivity|].
  unfold edges in *. simpl. rewrite fold_left_app, IH. f_equal.
  clear IH. generalize (dependsOn dep) as ds. intros ds. revert m.
  induction ds as [|d ds IH]; intros m; simpl; [reflexivity|]. apply IH.
Qed.

Lemma reverseInv_init (R0 : Map.t PhaseDependency) : reverseInv R0 [] R0.
Proof.
  intros k. destruct (Map.get k R0) as [r0|] eqn:E; [|reflexivity].
  exists (blocks r0). rewrite setBlocks_id. split; [reflexivity|]. split.
  - intros x. simpl. tauto.
  - intros x. lia.
Qed.

Lemma reverseInv_step (R0 : Map.t PhaseDependency) (done : list (number * number))
  (m : Map.t PhaseDependency) (e : number * number) :
  reverseInv R0 done m -> reverseInv R0 (done ++ [e]) (edgeStep m e).
Proof.
  destruct e as [x d]. intros Inv k. unfold edgeStep, addBlock. cbn [fst snd].
  pose proof (Inv k) as Hk. pose proof (Inv d) as Hd.
  assert (Hin : forall y k', In (y, k') (done ++ [(x, d)]) <->
                             In (y, k') done \/ (y = x /\ k' = d)).
  { intros y k'. rewrite in_app_iff. simpl. split.
    - intros [H|[H|[]]]; [now left|]. injection H as -> ->. now right.
    - intros [H|[-> ->]]; [now left|]. right. now left. }
  destruct (Map.get d m) as [blocker|] eqn:Ed.
  - destruct (numIncludes x (blocks blocker)) eqn:Ex; cbn [negb].
    + (* already there *)
      destruct (Map.get k R0) as [r0|]; [|exact Hk].
      destruct Hk as [bs [E1 [E2 E3]]]. exists bs. split; [exact E1|].
      split; [|exact E3]. intros y. rewrite Hin, E2.
      split; [tauto|]. intros [H|[H|[-> ->]]]; [tauto|tauto|].
      apply numIncludes_In in Ex. rewrite Ed in E1.
      assert (Eb : blocker = setBlocks bs r0) by congruence.
      rewrite Eb in Ex. simpl in Ex. apply E2 in Ex. exact Ex.
    + (* pushed *)
      destruct (Z.eq_dec d k) as [->|Hne].
      * rewrite get_update_same, Ed. cbn [option_map].
        destruct (Map.get k R0) as [r0|]; [|discriminate].
        destruct Hk as [bs [E1 [E2 E3]]].
        assert (Eb : blocker = setBlocks bs r0) by congruence.
        subst blocker. simpl in Ex.
        exists (bs ++ [x]). split; [reflexivity|].
        assert (Hx : ~ In x bs).
        { intros H. apply numIncludes_In in H. congruence. }
        split.
        -- intros y. rewrite Hin, in_app_iff, E2. simpl. split.
           ++ intros [H|[H|[]]]; [tauto|]. subst y. tauto.
           ++ intros [H|[H|[-> _]]]; tauto.
        -- intros y. rewrite count_occ_app. specialize (E3 y).
           destruct (Z.eq_dec x y) as [->|Hxy].
           ++ apply (count_occ_not_In Z.eq_dec) in Hx.
              rewrite Hx, count_occ_cons_eq, count_occ_nil by reflexivity. lia.
           ++ rewrite count_occ_cons_neq, count_occ_nil by exact Hxy. lia.
      * rewrite get_update_other by exact Hne.
        destruct (Map.get k R0) as [r0|]; [|exact Hk].
        destruct Hk as [bs [E1 [E2 E3]]]. exists bs. split; [exact E1|].
        split; [|exact E3]. intros y. rewrite Hin, E2.
        split; [tauto|]. intros [H|[H|[_ H]]]; [tauto|tauto|congruence].
  - destruct (Map.get k R0) as [r0|] eqn:Ek; [|exact Hk].
    destruct Hk as [bs [E1 [E2 E3]]]. exists bs. split; [exact E1|].
    split; [|exact E3]. intros y. rewrite Hin, E2.
    split; [tauto|]. intros [H|[H|[_ ->]]]; [tauto|tauto|].
    destruct (Map.get d R0); [|discriminate].
    destruct Hd as [bs' [H _]]. discriminate.
Qed.

Lemma reverseInv_fold (R0 : Map.t PhaseDependency) (es : list (number * number)) :
  reverseInv R0 es (fold_left edgeStep es R0).
Proof.
  induction es as [|e es IH] using rev_ind; [apply reverseInv_init|].
  rewrite fold_left_app. simpl. now apply reverseInv_step.
Qed.

Lemma In_edges (R0 : Map.t PhaseDependency) (x k : number) :
  In (x, k) (edges R0) <-> exists rx, In (x, rx) R0 /\ In k (dependsOn rx).
Proof.
  unfold edges. rewrite in_flat_map. split.
  - intros [[x' rx] [H1 H2]]. simpl in H2. apply in_map_iff in H2.
    destruct H2 as [d [E Hd]]. injection E as -> ->. now exists rx.
  - intros [rx [H1 H2]]. exists (x, rx). split; [exact H1|]. simpl.
    apply in_map_iff. now exists k.
Qed.

(** The records after the reverse relationships and the sort, in terms of
    the records before. *)
Lemma sortBlocks_buildReverse_get (R0 : Map.t PhaseDependency) (k : number) :
  match Map.get k R0 with
  | None => Map.get k (sortBlocks (buildReverse R0)) = None
  | Some r0 =>
      exists bs,
        Map.get k (sortBlocks (buildReverse R0)) = Some (setBlocks bs r0) /\
        Sorted Z.le bs /\
        (forall x, In x bs <->
                   In x (blocks r0) \/
                   exists rx, In (x, rx) R0 /\ In k (dependsOn rx)) /\
        (forall x, (count_occ Z.eq_dec bs x <=
                    Nat.max 1 (count_occ Z.eq_dec (blocks r0) x))%nat)
  end.
Proof.
  unfold sortBlocks. rewrite get_mapValues, buildReverse_edges.
  pose proof (reverseInv_fold R0 (edges R0) k) as H.
  destruct (Map.get k R0) as [r0|].
  - destruct H as [bs [E1 [E2 E3]]]. rewrite E1. simpl.
    exists (sortNumbers bs). split; [reflexivity|].
    split; [apply sortNumbers_sorted|]. split.
    + intros x. unfold sortNumbers. rewrite sort_In, E2, In_edges. reflexivity.
    + intros x. unfold sortNumbers.
      rewrite (proj1 (Permutation_count_occ Z.eq_dec (sort Z.leb bs) bs)
                 (sort_perm _ Z.leb bs) x).
      apply E3.
  - now rewrite H.
Qed.

(** ** C3: the reverse-edge law *)

Lemma parseDependencies_stages (fuel : nat) (content : jsstring)
  (deps : Map.t PhaseDependency) :
  parseDependencies fuel content = Some deps ->
  exists before,
    recordsBeforeReverse fuel content = Some before /\
    deps = sortBlocks (buildReverse before).
Proof.
  unfold parseDependencies, recordsBeforeReverse. cbv zeta.
  destruct (findIndex _ _) as [dss|].
  - destruct (collectRecords fuel _ dss) as [before|]; [|discriminate].
    intros H. injection H as <-. now exists before.
  - intros H. injection H as <-. now exists [].
Qed.

(** The record of a key after the last two stages. *)
Lemma parseDependencies_get (fuel : nat) (content : jsstring)
  (deps before : Map.t PhaseDependency) (k : number) (r : PhaseDependency) :
  recordsBeforeReverse fuel content = Some before ->
  deps = sortBlocks (buildReverse before) ->
  Map.get k deps = Some r ->
  exists r0,
    Map.get k before = Some r0 /\ r = setBlocks (blocks r) r0 /\
    Sorted Z.le (blocks r) /\
    (forall x, In x (blocks r) <->
               In x (blocks r0) \/
               exists rx, In (x, rx) before /\ In k (dependsOn rx)) /\
    (forall x, (count_occ Z.eq_dec (blocks r) x <=
                Nat.max 1 (count_occ Z.eq_dec (blocks r0) x))%nat).
Proof.
  intros _ -> H. pose proof (sortBlocks_buildReverse_get before k) as L.
  destruct (Map.get k before) as [r0|]; [|congruence].
  destruct L as [bs [E L]]. rewrite E in H. injection H as <-.
  exists r0. split; [reflexivity|]. split; [reflexivity|]. exact L.
Qed.

(** C3, the counterexample: a line that states the same blocked phase
    twice keeps both entries. *)
Lemma blocks_with_duplicates :
  exists deps r,
    parseDependencies 1 docDuplicateBlocks = Some deps /\
    Map.get 1 deps = Some r /\
    blocks r = [2; 2] /\
    ~ NoDup (blocks r).
Proof.
  destruct (parseDependencies 1 docDuplicateBlocks) as [deps|] eqn:E;
    [|vm_compute in E; discriminate].
  vm_compute in E. injection E as <-.
  eexists. eexists. split; [reflexivity|]. split; [reflexivity|].
  split; [reflexivity|]. simpl. intros H. inversion H as [|? ? Hn _]; subst.
  apply Hn. now left.
Qed.

(** C3, as amended. In the map returned by [parseDependencies]: if the
    record of B has A in [dependsOn] and A has a record, then B is in the
    [blocks] of A; every [blocks] list is sorted ascending; and the reverse
    relationships add a number only where it is missing, so that a number
    occurs in a [blocks] list once, or as often as the record's own line
    put it there: a list that had no duplicate before has none after. *)
Theorem parseDependencies_reverse_edges (fuel : nat) (content : jsstring)
  (deps : Map.t PhaseDependency) :
  parseDependencies fuel content = Some deps ->
  (forall a b ra rb,
     Map.get b deps = Some rb -> In a (dependsOn rb) ->
     Map.get a deps = Some ra -> In b (blocks ra)) /\
  (forall k r, Map.get k deps = Some r -> Sorted Z.le (blocks r)) /\
  (exists before,
     recordsBeforeReverse fuel content = Some before /\
     forall k r, Map.get k deps = Some r ->
       exists r0,
         Map.get k before = Some r0 /\
         (forall x, (count_occ Z.eq_dec (blocks r) x <=
                     Nat.max 1 (count_occ Z.eq_dec (blocks r0) x))%nat) /\
         (NoDup (blocks r0) -> NoDup (blocks r))).
Proof.
  intros H. destruct (parseDependencies_stages _ _ _ H) as [before [Hb Hd]].
  split; [|split].
  - intros a b ra rb Hgb Hin Hga.
    destruct (parseDependencies_get _ _ _ _ _ _ Hb Hd Hgb)
      as [rb0 [Eb [Erb _]]].
    destruct (parseDependencies_get _ _ _ _ _ _ Hb Hd Hga)
      as [ra0 [Ea [_ [_ [Hbl _]]]]].
    apply Hbl. right. exists rb0. split; [now apply get_In|].
    rewrite Erb in Hin. exact Hin.
  - intros k r Hg.
    now destruct (parseDependencies_get _ _ _ _ _ _ Hb Hd Hg) as [r0 [_ [_ [Hs _]]]].
  - exists before. split; [exact Hb|]. intros k r Hg.
    destruct (parseDependencies_get _ _ _ _ _ _ Hb Hd Hg)
      as [r0 [E0 [_ [_ [_ Hc]]]]].
    exists r0. split; [exact E0|]. split; [exact Hc|].
    intros Hnd. apply (NoDup_count_occ Z.eq_dec). intros x.
    specialize (Hc x). apply (proj1 (NoDup_count_occ Z.eq_dec _)) with (x := x) in Hnd.
    lia.
Qed.

Lemma parseDependencies_reverse_edges_witness :
  exists deps r,
    parseDependencies 1 docReverse = Some deps /\
    Map.get 1 deps = Some r /\ blocks r = [2; 3] /\
    Sorted Z.le (blocks r).
Proof.
  destruct (parseDependencies 1 docReverse) as [deps|] eqn:E;
    [|vm_compute in E; discriminate].
  destruct (Map.get 1 deps) as [r|] eqn:G;
    [|vm_compute in E; injection E as <-; vm_compute in G; discriminate].
  exists deps, r. split; [reflexivity|]. split; [exact G|].
  split.
  - vm_compute in E. injection E as <-. vm_compute in G. injection G as <-.
    reflexivity.
  - exact (proj1 (proj2 (parseDependencies_reverse_edges 1 docReverse deps E)) 1 r G).
Defined.

(** ** The records before the reverse relationships *)

Lemma allRecords_set (P : number -> PhaseDependency -> Prop)
  (m : Map.t PhaseDependency) (k : number) (v : PhaseDependency) :
  allRecords P m -> P k v -> allRecords P (Map.set k v m).
Proof.
  intros Hm Hv k' r. destruct (Z.eq_dec k k') as [<-|Hne].
  - rewrite get_set_same. intros H. injection H as <-. exact Hv.
  - rewrite get_set_other by exact Hne. apply Hm.
Qed.

Lemma allRecords_update (P : number -> PhaseDependency -> Prop)
  (m : Map.t PhaseDependency) (k : number) (f : PhaseDependency -> PhaseDependency) :
  allRecords P m -> (forall r, P k r -> P k (f r)) ->
  allRecords P (Map.update k f m).
Proof.
  intros Hm Hf k' r. destruct (Z.eq_dec k k') as [<-|Hne].
  - rewrite get_update_same. destruct (Map.get k m) as [r0|] eqn:E; [|discriminate].
    intros H. injection H as <-. apply Hf. now apply Hm.
  - rewrite get_update_other by exact Hne. apply Hm.
Qed.

Lemma allRecords_phaseDepLoop (P : number -> PhaseDependency -> Prop)
  (all : list number) (lines : list jsstring) :
  (forall line n d, parsePhaseDependencyLine line all = Some (n, d) -> P n d) ->
  forall m, allRecords P m -> allRecords P (phaseDepLoop all lines m).
Proof.
  intros Hp. induction lines as [|line lines IH]; intros m Hm; simpl; [exact Hm|].
  destruct (_ || _)%bool; [exact Hm|].
  destruct (isEmpty (trim line)); [now apply IH|].
  destruct (parsePhaseDependencyLine line all) as [[n d]|] eqn:E; [|now apply IH].
  apply IH. apply allRecords_set; [exact Hm|]. now apply (Hp line).
Qed.

Lemma allRecords_mergeParallel (P : number -> PhaseDependency -> Prop)
  (pt : Map.t (list jsstring)) :
  (forall k r t, P k r -> P k (setParallelTasks t r)) ->
  (forall k t, P k (placeholder t)) ->
  forall m, allRecords P m -> allRecords P (mergeParallel pt m).
Proof.
  intros Hs Hp. unfold mergeParallel.
  induction pt as [|[k t] pt IH]; intros m Hm; simpl; [exact Hm|].
  apply IH. destruct (Map.get k m).
  - apply allRecords_update; [exact Hm|]. intros r. apply Hs.
  - apply allRecords_set; [exact Hm|]. apply Hp.
Qed.

Lemma allRecords_before (P : number -> PhaseDependency -> Prop)
  (fuel : nat) (content : jsstring) (before : Map.t PhaseDependency) :
  (forall line n d,
     parsePhaseDependencyLine line (masterList content) = Some (n, d) -> P n d) ->
  (forall k r t, P k r -> P k (setParallelTasks t r)) ->
  (forall k t, P k (placeholder t)) ->
  recordsBeforeReverse fuel content = Some before ->
  allRecords P before.
Proof.
  intros Hp Hs Hh. unfold recordsBeforeReverse, collectRecords. cbv zeta.
  destruct (findIndex _ _) as [dss|];
    [|intros H; injection H as <-; intros k r; discriminate].
  fold (masterList content).
  set (pds := findIndex (fun l i => (_ && includes PHASE_DEPENDENCIES_HEADER l)%bool) _).
  set (pos := findIndex (fun l i => (_ && includes PARALLEL_OPPORTUNITIES_HEADER l)%bool) _).
  set (result := match pds with Some _ => _ | None => _ end).
  assert (Hr : allRecords P result).
  { subst result. destruct pds.
    - apply allRecords_phaseDepLoop; [exact Hp|]. intros k r. discriminate.
    - intros k r. discriminate. }
  destruct pos as [p|].
  - destruct (parseParallelOpportunities _ _ _) as [pt|]; [|discriminate].
    intros H. injection H as <-. now apply allRecords_mergeParallel.
  - intros H. injection H as <-. exact Hr.
Qed.

(** ** C4: the expansion of "depends on all" *)

Lemma parsePhaseDependencyLine_dependsOn_all (line : jsstring)
  (all : list number) (n : number) (d : PhaseDependency) :
  parsePhaseDependencyLine line all = Some (n, d) ->
  test DEPENDS_ON_ALL_REGEX (description d) = true ->
  dependsOn d = filter (fun m => m <? n) all.
Proof.
  unfold parsePhaseDependencyLine.
  destruct (exec PHASE_DEP_LINE_REGEX line) as [m|]; [|discriminate].
  cbv zeta. intros H. injection H as <- <-. cbn [description dependsOn].
  now intros ->.
Qed.

(** C4. A record of the returned map whose description contains "depends
    on all" in any letter case has as [dependsOn] the numbers of the master
    list (all the well-formed phase-dependency lines of the whole document)
    that are strictly less than its phase number, in the order of the master
    list: the "depends on Phase N" phrases of the description add nothing. *)
Theorem dependsOn_all_expansion (fuel : nat) (content : jsstring)
  (deps : Map.t PhaseDependency) (n : number) (r : PhaseDependency) :
  parseDependencies fuel content = Some deps ->
  Map.get n deps = Some r ->
  includesNoCase (js "depends on all") (description r) = true ->
  dependsOn r = filter (fun m => m <? n) (masterList content).
Proof.
  intros H Hg Hc. rewrite <- test_DEPENDS_ON_ALL in Hc.
  destruct (parseDependencies_stages _ _ _ H) as [before [Hb Hd]].
  destruct (parseDependencies_get _ _ _ _ _ _ Hb Hd Hg) as [r0 [E0 [Er _]]].
  rewrite Er in Hc |- *. cbn [setBlocks description dependsOn] in *.
  clear Hg Er Hd H. revert n r0 E0 Hc.
  change (allRecords (fun n r0 =>
            test DEPENDS_ON_ALL_REGEX (description r0) = true ->
            dependsOn r0 = filter (fun m => m <? n) (masterList content)) before).
  apply (allRecords_before _ fuel content before); [| | |exact Hb].
  - intros line n d. apply parsePhaseDependencyLine_dependsOn_all.
  - intros k r0 t Hr. exact Hr.
  - intros k t. cbn [placeholder description]. discriminate.
Qed.

Lemma dependsOn_all_expansion_witness :
  exists deps r,
    parseDependencies 1 docDependsOnAll = Some deps /\
    Map.get 4 deps = Some r /\
    masterList docDependsOnAll = [1; 2; 4; 3] /\
    dependsOn r = filter (fun m => m <? 4) (masterList docDependsOnAll).
Proof.
  destruct (parseDependencies 1 docDependsOnAll) as [deps|] eqn:E;
    [|vm_compute in E; discriminate].
  destruct (Map.get 4 deps) as [r|] eqn:G;
    [|vm_compute in E; injection E as <-; vm_compute in G; discriminate].
  exists deps, r. split; [reflexivity|]. split; [exact G|].
  split; [vm_compute; reflexivity|].
  apply (dependsOn_all_expansion 1 docDependsOnAll deps 4 r E G).
  vm_compute in E. injection E as <-. vm_compute in G. injection G as <-.
  vm_compute. reflexivity.
Defined.

Example dependsOn_all_example :
  option_map (fun deps => option_map dependsOn (Map.get 4 deps))
    (parseDependencies 1 docDependsOnAll) = Some (Some [1; 2; 3]).
Proof. vm_compute. reflexivity. Qed.

(** ** C5: the parallel tasks of a description *)

Lemma idsBetween_nil (i e : number) : e < i -> idsBetween i e = [].
Proof.
  intros H. unfold idsBetween.
  replace (Z.to_nat (e - i + 1)) with 0%nat by lia. reflexivity.
Qed.

Lemma idsBetween_cons (i e : number) :
  i <= e -> idsBetween i e = taskIdOf (toString i) :: idsBetween (i + 1) e.
Proof.
  intros H. unfold idsBetween.
  replace (Z.to_nat (e - i + 1)) with (S (Z.to_nat (e - (i + 1) + 1))) by lia.
  cbn [seq map]. rewrite Z.add_0_r. f_equal.
  rewrite <- seq_shift, map_map. apply map_ext. intros k.
  do 2 f_equal. lia.
Qed.

Lemma idsBetween_length (i e : number) :
  length (idsBetween i e) = Z.to_nat (e - i + 1).
Proof. unfold idsBetween. now rewrite length_map, length_seq. Qed.

Lemma rangeLoop_safe (n : nat) :
  forall i e t p fuel,
    0 <= i -> e < maxSafe -> Z.to_nat (e - i + 1) = n -> (n < fuel)%nat ->
    Z.of_nat (length p + n) <= maxSetSize ->
    exists p',
      rangeLoop fuel i e t p = Some (t ++ idsBetween i e, p') /\
      (forall x, In x p' <-> In x p \/ In x (idsBetween i e)) /\
      (length p' <= length p + n)%nat.
Proof.
  induction n as [|n IH]; intros i e t p fuel H0 He Hn Hf Hs;
    (destruct fuel as [|fuel]; [lia|]); cbn [rangeLoop].
  - destruct (Z.leb_spec i e); [lia|].
    rewrite idsBetween_nil by lia. exists p. rewrite app_nil_r.
    split; [reflexivity|]. split; [simpl; tauto|lia].
  - destruct (Z.leb_spec i e); [|lia].
    destruct (setAdd_room (taskIdOf (toString i)) p ltac:(lia)) as [p1 [A L1]].
    rewrite A, incr_safe by lia.
    destruct (IH (i + 1) e (t ++ [taskIdOf (toString i)]) p1 fuel)
      as [p' [E [Hp L]]]; try lia.
    exists p'. rewrite E, (idsBetween_cons i e) by lia.
    rewrite <- app_assoc. split; [reflexivity|]. split; [|lia].
    intros x. rewrite Hp, (setAdd_In _ x _ _ A). simpl. intuition congruence.
Qed.

Lemma rangesLoop_safe (fuel : nat) (ms : list MatchResult) :
  (forall m, In m ms ->
     0 <= rangeStart m /\ rangeEnd m < maxSafe /\
     (Z.to_nat (rangeEnd m - rangeStart m + 1) < fuel)%nat) ->
  forall t p,
    Z.of_nat
      (length p +
       length (flat_map (fun m => idsBetween (rangeStart m) (rangeEnd m)) ms))
    <= maxSetSize ->
    exists p',
      rangesLoop fuel ms t p =
      Some (t ++ flat_map (fun m => idsBetween (rangeStart m) (rangeEnd m)) ms, p') /\
      (forall x, In x p' <->
                 In x p \/
                 In x (flat_map (fun m => idsBetween (rangeStart m) (rangeEnd m)) ms)) /\
      (length p' <=
       length p +
       length (flat_map (fun m => idsBetween (rangeStart m) (rangeEnd m)) ms))%nat.
Proof.
  induction ms as [|m ms IH]; intros Hs t p Hc; cbn [rangesLoop flat_map] in *.
  - exists p. rewrite app_nil_r. split; [reflexivity|].
    split; [simpl; tauto|simpl; lia].
  - fold (rangeStart m). fold (rangeEnd m).
    rewrite length_app, idsBetween_length in Hc.
    destruct (Hs m (or_introl eq_refl)) as [H0 [He Hf]].
    destruct (rangeLoop_safe _ (rangeStart m) (rangeEnd m) t p fuel H0 He eq_refl Hf)
      as [p1 [E1 [Hp1 L1]]]; [lia|].
    rewrite E1.
    destruct (IH (fun m' Hm' => Hs m' (or_intror Hm'))
                (t ++ idsBetween (rangeStart m) (rangeEnd m)) p1) as [p2 [E2 [Hp2 L2]]];
      [lia|].
    exists p2. rewrite E2, <- app_assoc. split; [reflexivity|].
    split; [|rewrite length_app, idsBetween_length; lia].
    intros x. rewrite Hp2, Hp1, in_app_iff. tauto.
Qed.

Lemma dedupeFrom_length (l : list jsstring) :
  forall seen, (length (dedupeFrom str_eqb seen l) <= length l)%nat.
Proof.
  induction l as [|x l IH]; intros seen; cbn [dedupeFrom]; [lia|].
  destruct (existsb _ seen); cbn [length]; [specialize (IH seen)|
                                            specialize (IH (x :: seen))]; lia.
Qed.

Lemma newSet_room (l : list jsstring) :
  Z.of_nat (length l) <= maxSetSize -> newSet l = Some (dedupe str_eqb l).
Proof.
  intros H. unfold newSet. cbv zeta.
  pose proof (dedupeFrom_length l []) as L. fold (dedupe str_eqb l) in L.
  destruct (Z.ltb_spec maxSetSize (Z.of_nat (length (dedupe str_eqb l))));
    [lia|reflexivity].
Qed.

Lemma newSet_dedupe (l entries : list jsstring) :
  newSet l = Some entries -> entries = dedupe str_eqb l.
Proof.
  unfold newSet. cbv zeta. destruct (_ <? _); [discriminate|].
  intros H. now injection H as <-.
Qed.

Lemma rangeStart_nonneg (description : jsstring) (m : MatchResult) :
  In m (matchAll TASK_RANGE_REGEX description) -> 0 <= rangeStart m.
Proof.
  intros Hm. unfold matchAll in Hm.
  destruct (matchAllFrom_TASK_RANGE _ _ _ _ Hm)
    as [a [b [Ca [_ [pre [rest [_ [Ha1 [Ha2 _]]]]]]]]].
  unfold rangeStart, captureOr. rewrite Ca.
  now apply parseInt_digits.
Qed.

(** C5, the counterexample: numbers from 1000 on keep their four
    digits. *)
Lemma ids_with_four_digits :
  exists result,
    extractParallelTasks 4 (js "T999-T1001, T1234") = Some result /\
    result = [js "T1000"; js "T1001"; js "T1234"; js "T999"] /\
    ~ Forall (fun taskId => length taskId = 4%nat) result.
Proof.
  eexists. split; [vm_compute; reflexivity|]. split; [reflexivity|].
  intros H. inversion H as [|? ? Hl _]. discriminate.
Qed.

(** With enough fuel, ranges that end below 2^53 and no more IDs than a
    set holds, the loops compute the list of the specification. *)
Lemma extractParallelTasks_safe (description : jsstring) :
  (forall m, In m (matchAll TASK_RANGE_REGEX description) ->
             rangeEnd m < maxSafe) ->
  idCount description <= maxSetSize ->
  forall fuel, (rangeFuel description <= fuel)%nat ->
    extractParallelTasks fuel description =
    Some (parallelTasksSpec description).
Proof.
  intros Hsafe Hcount fuel Hfuel.
  unfold idCount in Hcount.
  unfold extractParallelTasks, parallelTasksSpec, expandedRanges, bareIds in *.
  destruct (rangesLoop_safe fuel (matchAll TASK_RANGE_REGEX description))
    with (t := @nil (list N)) (p := @nil (list N)) as [p [E [Hp _]]];
    [|cbn [length]; lia|].
  { intros m Hm. split; [now apply (rangeStart_nonneg description)|].
    split; [now apply Hsafe|].
    unfold rangeFuel in Hfuel.
    assert (Hmax : (Z.to_nat (rangeEnd m - rangeStart m + 1) <=
                    list_max (map (fun m => Z.to_nat (rangeEnd m - rangeStart m + 1))
                                (matchAll TASK_RANGE_REGEX description)))%nat).
    { pose proof (proj1 (list_max_le _ _) (Nat.le_refl
        (list_max (map (fun m => Z.to_nat (rangeEnd m - rangeStart m + 1))
                     (matchAll TASK_RANGE_REGEX description))))) as F.
      rewrite Forall_forall in F. apply F.
      apply (in_map (fun m => Z.to_nat (rangeEnd m - rangeStart m + 1))).
      exact Hm. }
    lia. }
  rewrite E. cbn [app]. cbv zeta. rewrite idsLoop_filter.
  rewrite newSet_room.
  - do 4 f_equal. apply filter_ext. intros x. f_equal.
    apply setHas_ext. intros y. rewrite Hp. simpl. tauto.
  - rewrite length_app.
    pose proof (filter_length_le
                  (fun taskId => negb (setHas taskId p))
                  (map idOfMatch (matchAll TASK_ID_REGEX description))).
    lia.
Qed.

(** C5, as amended. When every range of the description ends below 2^53
    and the description names at most 2^24 IDs in all (those of the ranges,
    expanded, and the single ones), [extractParallelTasks] returns (with the
    fuel of the ranges) the list of the specification: the ranges expanded
    to [T<start>] .. [T<end>], then the single IDs that no range produced,
    each number padded with zeros to at least three digits, deduplicated
    and sorted by code units.  The description of Example 4 gives the 17
    IDs T002 .. T018. *)
Theorem extractParallelTasks_refines :
  (forall description,
     (forall m, In m (matchAll TASK_RANGE_REGEX description) ->
                rangeEnd m < maxSafe) ->
     idCount description <= maxSetSize ->
     forall fuel, (rangeFuel description <= fuel)%nat ->
       extractParallelTasks fuel description =
       Some (parallelTasksSpec description)) /\
  extractParallelTasks (rangeFuel exampleFour) exampleFour = Some exampleFourIds /\
  length exampleFourIds = 17%nat.
Proof.
  split; [exact extractParallelTasks_safe|].
  split; [vm_compute; reflexivity|reflexivity].
Qed.

Lemma extractParallelTasks_refines_witness :
  extractParallelTasks 4 (js "T008-T010, T003 and T1") =
  Some [js "T001"; js "T003"; js "T008"; js "T009"; js "T010"].
Proof.
  rewrite (proj1 extractParallelTasks_refines (js "T008-T010, T003 and T1")).
  - vm_compute. reflexivity.
  - intros m Hm. vm_compute in Hm. destruct Hm as [<-|[]]. vm_compute. reflexivity.
  - vm_compute. discriminate.
  - vm_compute. lia.
Defined.

(** ** C7: termination *)

(** At 2^53 the counter of the range loop no longer moves. *)
Lemma rangeLoop_stuck (fuel : nat) :
  forall t p, rangeLoop fuel maxSafe maxSafe t p = None.
Proof.
  induction fuel as [|fuel IH]; intros t p; cbn [rangeLoop]; [reflexivity|].
  rewrite Z.leb_refl, incr_maxSafe.
  destruct (setAdd _ p); [apply IH|reflexivity].
Qed.

Lemma extractParallelTasks_hangs (fuel : nat) :
  extractParallelTasks fuel hangingDescription = None.
Proof.
  unfold extractParallelTasks.
  destruct (matchAll TASK_RANGE_REGEX hangingDescription) as [|m ms] eqn:M;
    [vm_compute in M; discriminate|].
  assert (Es : rangeStart m = maxSafe)
    by (vm_compute in M; injection M as <- <-; vm_compute; reflexivity).
  assert (Ee : rangeEnd m = maxSafe)
    by (vm_compute in M; injection M as <- <-; vm_compute; reflexivity).
  cbn [rangesLoop]. fold (rangeStart m). fold (rangeEnd m).
  now rewrite Es, Ee, rangeLoop_stuck.
Qed.

Lemma parseParallelOpportunities_hangs (fuel : nat) :
  parseParallelOpportunities fuel [hangingLine] [] = None.
Proof.
  cbn [parseParallelOpportunities].
  destruct (exec PARALLEL_OPP_LINE_REGEX hangingLine) as [m|] eqn:X;
    [|vm_compute in X; discriminate].
  assert (E : captureOr m 2 [] = hangingDescription)
    by (vm_compute in X; injection X as <-; reflexivity).
  now rewrite E, extractParallelTasks_hangs.
Qed.

Lemma parseDependencies_hangs (fuel : nat) :
  parseDependencies fuel docHang = None.
Proof.
  unfold parseDependencies, collectRecords. cbv zeta.
  replace (findIndex (fun l _ => includes DEPENDENCIES_SECTION_START l)
             (split isLF docHang)) with (Some 3%nat)
    by (vm_compute; reflexivity).
  replace (findIndex (fun l i => (Nat.ltb 3 i
                                  && includes PARALLEL_OPPORTUNITIES_HEADER l)%bool)
             (split isLF docHang)) with (Some 5%nat)
    by (vm_compute; reflexivity).
  replace (collectParallelLines (skipn (5 + 1) (split isLF docHang)))
    with [hangingLine] by (vm_compute; reflexivity).
  now rewrite parseParallelOpportunities_hangs.
Qed.

(** C7 (fails on the code). For the document below, whose Parallel
    Opportunities line has the range T9007199254740992-T9007199254740992,
    the range loop of [extractParallelTasks] never ends: whatever the
    fuel, [parseTasksFile] returns no result. *)
Theorem parseTasksFile_hangs (fuel : nat) :
  Parser.parseTasksFile fuel docHang folder = None.
Proof.
  unfold Parser.parseTasksFile. cbv zeta.
  now rewrite parseDependencies_hangs.
Qed.

(** The empty document. *)
Lemma parseTasksFile_empty (fuel : nat) (specFolder : jsstring) :
  Parser.parseTasksFile fuel [] specFolder =
  Some {| specFolder := specFolder;
          specName := GitUtils.getSpecName specFolder;
          phases := []; totalTasks := 0; completedTasks := 0;
          nextPhase := None; nextTask := None; availablePhases := [] |}.
Proof. reflexivity. Qed.

(** Outside of such ranges the parse ends. *)
Lemma In_collectParallelLines (line : jsstring) (lines : list jsstring) :
  In line (collectParallelLines lines) -> In line lines.
Proof.
  induction lines as [|l lines IH]; cbn [collectParallelLines]; [tauto|].
  destruct (_ || _)%bool; [intros []|].
  destruct (isEmpty (trim l)); [right; now apply IH|].
  intros [->|H]; [now left|right; now apply IH].
Qed.

Lemma In_skipn (A : Type) (x : A) (n : nat) (l : list A) :
  In x (skipn n l) -> In x l.
Proof.
  revert l. induction n as [|n IH]; intros [|y l]; cbn [skipn]; try tauto.
  intros H. right. now apply IH.
Qed.

Lemma parseParallelOpportunities_ends (lines : list jsstring) :
  (forall line m,
     In line lines -> exec PARALLEL_OPP_LINE_REGEX line = Some m ->
     (forall rm, In rm (matchAll TASK_RANGE_REGEX (captureOr m 2 [])) ->
                 rangeEnd rm < maxSafe) /\
     idCount (captureOr m 2 []) <= maxSetSize) ->
  exists fuel0,
    forall fuel result, (fuel0 <= fuel)%nat ->
      exists r, parseParallelOpportunities fuel lines result = Some r.
Proof.
  induction lines as [|line lines IH]; intros Hs.
  - exists 0%nat. intros fuel result _. now exists result.
  - destruct IH as [f0 IH].
    { intros l m Hl. apply Hs. now right. }
    destruct (exec PARALLEL_OPP_LINE_REGEX line) as [m|] eqn:X.
    + exists (Nat.max f0 (rangeFuel (captureOr m 2 []))).
      intros fuel result Hf. cbn [parseParallelOpportunities]. rewrite X.
      destruct (Hs line m (or_introl eq_refl) X) as [Hr Hc].
      rewrite (extractParallelTasks_safe (captureOr m 2 []) Hr Hc); [|lia].
      apply IH. lia.
    + exists f0. intros fuel result Hf. cbn [parseParallelOpportunities].
      rewrite X. now apply IH.
Qed.

Theorem parseTasksFile_ends_when_safe (content specFolder : jsstring) :
  safeRanges content ->
  exists fuel0,
    forall fuel, (fuel0 <= fuel)%nat ->
      exists r, Parser.parseTasksFile fuel content specFolder = Some r.
Proof.
  intros Hs.
  assert (D : exists fuel0, forall fuel, (fuel0 <= fuel)%nat ->
                exists deps, parseDependencies fuel content = Some deps).
  { unfold parseDependencies, collectRecords. cbv zeta.
    destruct (findIndex _ _) as [dss|]; [|exists 0%nat; intros; now eexists].
    set (pos := findIndex (fun l i => (_ && includes PARALLEL_OPPORTUNITIES_HEADER l)%bool) _).
    destruct pos as [p|]; [|exists 0%nat; intros; now eexists].
    destruct (parseParallelOpportunities_ends
                (collectParallelLines (skipn (p + 1) (split isLF content))))
      as [f0 Hf0].
    { intros line m Hl. apply Hs.
      apply In_skipn with (n := (p + 1)%nat). now apply In_collectParallelLines. }
    exists f0. intros fuel Hf. destruct (Hf0 fuel [] Hf) as [pt ->]. now eexists. }
  destruct D as [f0 D]. exists f0. intros fuel Hf.
  destruct (D fuel Hf) as [deps E].
  unfold Parser.parseTasksFile. cbv zeta. rewrite E. now eexists.
Qed.

(** ** C8: the spec name *)

Section SplitFacts.
Variable sep : char -> bool.

Lemma split_nonempty (s : jsstring) : split sep s <> [].
Proof.
  destruct s as [|c s]; simpl; [discriminate|].
  destruct (sep c); [discriminate|]. now destruct (split sep s).
Qed.

Lemma split_noSep (s : jsstring) : Spec.noSep sep s = true -> split sep s = [s].
Proof.
  induction s as [|c s IH]; simpl; [reflexivity|].
  intros H. apply andb_true_iff in H. destruct H as [H1 H2].
  apply negb_true_iff in H1. rewrite H1, (IH H2). reflexivity.
Qed.

Lemma last_cons_nonempty (A : Type) (x d : A) (l : list A) :
  l <> [] -> last (x :: l) d = last l d.
Proof. destruct l; [congruence|reflexivity]. Qed.

Lemma split_two_pieces (p q : jsstring) (c : char) :
  sep c = true -> exists x y l, split sep (p ++ c :: q) = x :: y :: l.
Proof.
  intros Hc. induction p as [|a p IH]; simpl.
  - rewrite Hc. destruct (split sep q) as [|y l] eqn:E.
    + now apply split_nonempty in E.
    + now exists [], y, l.
  - destruct IH as [x [y [l E]]]. rewrite E.
    destruct (sep a); [now exists [], x, (y :: l)|now exists (a :: x), y, l].
Qed.

Lemma split_last_after_sep (p q : jsstring) (c : char) :
  sep c = true ->
  last (split sep (p ++ c :: q)) [] = last (split sep q) [].
Proof.
  intros Hc. induction p as [|a p IH]; simpl.
  - rewrite Hc. apply last_cons_nonempty, split_nonempty.
  - destruct (split_two_pieces p q c Hc) as [x [y [l E]]].
    destruct (sep a).
    + rewrite last_cons_nonempty; [exact IH|apply split_nonempty].
    + rewrite E in *. simpl in *. exact IH.
Qed.

(** Every string is free of separators or has a last one. *)
Lemma last_separator (s : jsstring) :
  Spec.noSep sep s = true \/
  exists p c q, s = p ++ c :: q /\ sep c = true /\ Spec.noSep sep q = true.
Proof.
  induction s as [|a s IH]; [now left|].
  destruct IH as [H|[p [c [q [E [Hc Hq]]]]]].
  - destruct (sep a) eqn:Ha.
    + right. now exists [], a, s.
    + left. simpl. now rewrite Ha.
  - right. exists (a :: p), c, q. subst. now repeat split.
Qed.

Lemma nth_error_last (A : Type) (l : list A) (d : A) :
  l <> [] -> nth_error l (length l - 1) = Some (last l d).
Proof.
  induction l as [|x l IH]; [congruence|]. intros _.
  destruct l as [|y l]; [reflexivity|].
  specialize (IH ltac:(discriminate)).
  replace (length (x :: y :: l) - 1)%nat with (S (length (y :: l) - 1))
    by (simpl; lia).
  change (nth_error (y :: l) (length (y :: l) - 1) = Some (last (y :: l) d)).
  exact IH.
Qed.
End SplitFacts.

Lemma getSpecName_last (path : jsstring) :
  nth_error (split GitUtils.isSeparator path)
    (length (split GitUtils.isSeparator path) - 1) =
  Some (GitUtils.getSpecName path) /\
  GitUtils.getSpecName path = last (split GitUtils.isSeparator path) [].
Proof.
  unfold GitUtils.getSpecName. cbv zeta.
  rewrite (nth_error_last jsstring _ [] (split_nonempty GitUtils.isSeparator path)).
  now split.
Qed.

Lemma getSpecName_noSep (path : jsstring) :
  Spec.noSep GitUtils.isSeparator path = true -> GitUtils.getSpecName path = path.
Proof.
  intros H. destruct (getSpecName_last path) as [_ E].
  rewrite E, (split_noSep _ _ H). reflexivity.
Qed.

Lemma getSpecName_after_sep (p q : jsstring) (c : char) :
  GitUtils.isSeparator c = true -> Spec.noSep GitUtils.isSeparator q = true ->
  GitUtils.getSpecName (p ++ c :: q) = q.
Proof.
  intros Hc Hq. destruct (getSpecName_last (p ++ c :: q)) as [_ E].
  rewrite E, (split_last_after_sep _ p q c Hc), (split_noSep _ _ Hq). reflexivity.
Qed.

(** C8. [getSpecName] returns the part of the path after its last [/] or
    [\]: a separator-free suffix that is the whole path or is preceded by a
    separator.  It is the last element of the split, which always exists, so
    the ['unknown'] branch is never taken; the empty path and a path that
    ends in a separator give the empty string, and a path without separator
    is returned unchanged. *)
Theorem getSpecName_spec :
  (forall path,
     exists pre,
       path = pre ++ GitUtils.getSpecName path /\
       (pre = [] \/ exists pre' c, pre = pre' ++ [c] /\ GitUtils.isSeparator c = true) /\
       Spec.noSep GitUtils.isSeparator (GitUtils.getSpecName path) = true /\
       nth_error (split GitUtils.isSeparator path)
         (length (split GitUtils.isSeparator path) - 1) =
       Some (GitUtils.getSpecName path)) /\
  GitUtils.getSpecName [] = [] /\
  (forall p, GitUtils.getSpecName (p ++ js "/") = [] /\
             GitUtils.getSpecName (p ++ js "\") = []) /\
  (forall name, Spec.noSep GitUtils.isSeparator name = true ->
                GitUtils.getSpecName name = name).
Proof.
  split; [|split; [reflexivity|split]].
  - intros path. destruct (getSpecName_last path) as [L _].
    destruct (last_separator GitUtils.isSeparator path)
      as [H|[p [c [q [E [Hc Hq]]]]]].
    + rewrite (getSpecName_noSep _ H) in L |- *. exists []. auto.
    + subst path. rewrite (getSpecName_after_sep p q c Hc Hq) in L |- *.
      exists (p ++ [c]). repeat split; auto.
      * now rewrite <- app_assoc.
      * right. now exists p, c.
  - intros p. split; now apply getSpecName_after_sep.
  - exact getSpecName_noSep.
Qed.

Example getSpecName_examples :
  GitUtils.getSpecName (js "specs/001-portfolio-website") = js "001-portfolio-website" /\
  GitUtils.getSpecName (js "C:\work\specs\002-api") = js "002-api" /\
  GitUtils.getSpecName (js "specs/001-x/") = [] /\
  GitUtils.getSpecName (js "001-x") = js "001-x".
Proof. repeat split. Qed.

(** ** C9: two lines for one phase *)

Lemma search_Bol (R : RegExp) (r : regex) :
  source R = Cat Bol r ->
  forall s pos, search R (S pos) s = None.
Proof.
  intros E. induction s as [|c s IH]; intros pos; cbn [search];
    unfold matchAt; rewrite E; cbn [run Nat.eqb]; [reflexivity|apply IH].
Qed.









(** The keys of a map built with [set] and [update] are distinct. *)
Lemma keys_set (V : Type) (k : number) (v : V) (m : Map.t V) :
  NoDup (map fst m) -> NoDup (map fst (Map.set k v m)).
Proof.
  induction m as [|[k' v'] m IH]; simpl; intros H.
  - constructor; [tauto|constructor].
  - inversion H as [|? ? Hn Hd]; subst.
    destruct (Z.eqb_spec k k') as [->|Hne]; simpl; [exact H|].
    constructor; [|now apply IH].
    intros Hin. apply Hn. clear IH H Hn Hd.
    induction m as [|[k2 v2] m IH]; simpl in *.
    + destruct Hin as [E|[]]. congruence.
    + destruct (Z.eqb_spec k k2); simpl in *; tauto.
Qed.

Lemma keys_update (V : Type) (k : number) (f : V -> V) (m : Map.t V) :
  map fst (Map.update k f m) = map fst m.
Proof.
  induction m as [|[k' v'] m IH]; simpl; [reflexivity|].
  destruct (Z.eqb k k'); simpl; [reflexivity|now rewrite IH].
Qed.

Lemma keys_phaseDepLoop (all : list number) (lines : list jsstring) :
  forall m, NoDup (map fst m) -> NoDup (map fst (phaseDepLoop all lines m)).
Proof.
  induction lines as [|line lines IH]; intros m H; simpl; [exact H|].
  destruct (_ || _)%bool; [exact H|].
  destruct (isEmpty (trim line)); [now apply IH|].
  destruct (parsePhaseDependencyLine line all) as [[n d]|]; [|now apply IH].
  apply IH. now apply keys_set.
Qed.

Lemma keys_mergeParallel (pt : Map.t (list jsstring)) :
  forall m, NoDup (map fst m) -> NoDup (map fst (mergeParallel pt m)).
Proof.
  unfold mergeParallel.
  induction pt as [|[k t] pt IH]; intros m H; simpl; [exact H|].
  apply IH. destruct (Map.get k m).
  - now rewrite keys_update.
  - now apply keys_set.
Qed.

Lemma In_get_unique (V : Type) (k : number) (v : V) (m : Map.t V) :
  NoDup (map fst m) -> In (k, v) m -> Map.get k m = Some v.
Proof.
  induction m as [|[k' v'] m IH]; simpl; [tauto|].
  intros H [E|Hin]; inversion H as [|? ? Hn Hd]; subst.
  - injection E as -> ->. now rewrite Z.eqb_refl.
  - destruct (Z.eqb_spec k k') as [->|Hne]; [|now apply IH].
    exfalso. apply Hn. apply in_map_iff. now exists (k', v).
Qed.




Example later_line_example :
  option_map (fun deps => (option_map blocks (Map.get 1 deps),
                           option_map blocks (Map.get 2 deps)))
    (parseDependencies 1 docTwoLines) = Some (Some [], Some [3; 4]).
Proof. vm_compute. reflexivity. Qed.

(** ** C10: a reversed range *)

Lemma rangesLoop_all_reversed (fuel : nat) (ms : list MatchResult) :
  (forall m, In m ms -> rangeEnd m < rangeStart m) ->
  forall t p, rangesLoop (S fuel) ms t p = Some (t, p).
Proof.
  induction ms as [|m ms IH]; intros Hr t p; [reflexivity|].
  cbn [rangesLoop]. fold (rangeStart m). fold (rangeEnd m).
  rewrite rangeLoop_reversed by (apply Hr; now left).
  apply IH. intros m' Hm'. apply Hr. now right.
Qed.

(** The endpoints of a range match are found again by the scan for single
    IDs. *)
Lemma range_endpoints_scanned (description : jsstring) (m : MatchResult)
  (a b : jsstring) :
  In m (matchAll TASK_RANGE_REGEX description) ->
  capture m 1 = Some a -> capture m 2 = Some b ->
  In (taskIdOf a) (bareIds description) /\
  In (taskIdOf b) (bareIds description) /\
  a <> [] /\ forallb isDigit a = true /\ b <> [] /\ forallb isDigit b = true.
Proof.
  intros Hm Ca Cb. unfold matchAll in Hm.
  destruct (matchAllFrom_TASK_RANGE _ _ _ _ Hm)
    as [a' [b' [Ca' [Cb' [pre [rest [E [Ha1 [Ha2 [Hb1 [Hb2 Hr]]]]]]]]]]].
  assert (a' = a) by congruence. assert (b' = b) by congruence. subst a' b'.
  unfold bareIds. rewrite matchAll_TASK_ID.
  repeat split; try assumption; apply in_map; rewrite E.
  - apply scanIds_occurrence; [exact Ha1|exact Ha2|reflexivity].
  - replace (pre ++ 84%N :: a ++ 45%N :: 84%N :: b ++ rest)
      with ((pre ++ 84%N :: a ++ [45%N]) ++ 84%N :: b ++ rest).
    + now apply scanIds_occurrence.
    + rewrite <- app_assoc. cbn [app]. now rewrite <- app_assoc.
Qed.

(** A number from 2^53 on is read as a double from 2^53 on. *)
Lemma round53_large (n : Z) : maxSafe <= n -> maxSafe <= round53 n.
Proof.
  intros H. unfold round53.
  assert (P : 0 < n) by (unfold maxSafe in H; lia).
  assert (L : 53 <= Z.log2 n) by (apply Z.log2_le_pow2; assumption).
  destruct (Z.leb_spec (Z.log2 n + 1) 53) as [|_]; [lia|]. cbv zeta.
  set (e := Z.log2 n + 1 - 53).
  assert (E : 1 <= e) by (unfold e; lia).
  assert (Q : 2 ^ 52 <= Z.shiftr n e).
  { rewrite Z.shiftr_div_pow2 by lia.
    apply Z.div_le_lower_bound; [apply Z.pow_pos_nonneg; lia|].
    rewrite <- Z.pow_add_r by lia.
    replace (e + 52) with (Z.log2 n) by (unfold e; lia).
    apply (Z.log2_spec n P). }
  set (q := Z.shiftr n e) in *. clearbody q.
  set (q' := if (_ || _)%bool then q + 1 else q).
  assert (Q' : 2 ^ 52 <= q') by (unfold q'; destruct (_ || _)%bool; lia).
  clearbody q'. rewrite Z.shiftl_mul_pow2 by lia.
  assert (T : 2 ^ 1 <= 2 ^ e) by (apply Z.pow_le_mono_r; lia).
  change maxSafe with (2 ^ 52 * 2 ^ 1).
  apply Z.mul_le_mono_nonneg; lia.
Qed.

(** Below 2^53 the order of the numbers read is the order of the numbers
    written. *)
Lemma reversed_as_read (a b : jsstring) :
  0 <= digitsValue b -> digitsValue b < digitsValue a ->
  to_double (digitsValue b) < maxSafe ->
  to_double (digitsValue b) < to_double (digitsValue a).
Proof.
  intros H0 H Hb.
  assert (B : digitsValue b < maxSafe).
  { destruct (Z_lt_ge_dec (digitsValue b) maxSafe) as [|G]; [assumption|exfalso].
    unfold to_double in Hb. destruct (Z.ltb_spec (digitsValue b) 0); [lia|].
    pose proof (round53_large (digitsValue b) ltac:(lia)). lia. }
  rewrite (to_double_safe (digitsValue b)) by lia.
  destruct (Z_le_gt_dec (digitsValue a) maxSafe) as [A|A].
  - rewrite to_double_safe by lia. exact H.
  - unfold to_double. destruct (Z.ltb_spec (digitsValue a) 0); [lia|].
    pose proof (round53_large (digitsValue a) ltac:(lia)). lia.
Qed.

Lemma reversedRange_read (description : jsstring) (m : MatchResult) :
  In m (matchAll TASK_RANGE_REGEX description) ->
  rangeEnd m < maxSafe -> reversedRange m -> rangeEnd m < rangeStart m.
Proof.
  intros Hm He [a [b [Ca [Cb H]]]].
  destruct (range_endpoints_scanned _ _ _ _ Hm Ca Cb)
    as [_ [_ [Ha1 [Ha2 [Hb1 Hb2]]]]].
  unfold rangeStart, rangeEnd, captureOr, parseIntDigits in *.
  rewrite Ca, Cb in *.
  rewrite (proj1 (parseInt_digits a Ha1 Ha2)).
  rewrite (proj1 (parseInt_digits b Hb1 Hb2)) in *.
  apply reversed_as_read; [now apply digitsValue_nonneg|exact H|exact He].
Qed.

Lemma expandedRanges_reversed (ms : list MatchResult) :
  (forall m, In m ms -> rangeEnd m < rangeStart m) ->
  flat_map (fun m => idsBetween (rangeStart m) (rangeEnd m)) ms = [].
Proof.
  induction ms as [|m ms IH]; intros H; cbn [flat_map]; [reflexivity|].
  rewrite idsBetween_nil by (apply H; now left).
  apply IH. intros m' Hm'. apply H. now right.
Qed.

(** C10, the counterexamples.  The IDs of a reversed range keep the four
    digits of a number from 1000 on.  And the range
    [T9007199254740993-T9007199254740992] is reversed as it is written,
    but both numbers are read as 2^53: the loop runs and does not end. *)
Lemma reversed_range_counterexamples :
  (exists result,
     extractParallelTasks 1 (js "T1234-T1000") = Some result /\
     result = [js "T1000"; js "T1234"] /\
     ~ Forall (fun taskId => length taskId = 4%nat) result) /\
  digitsValue (js "9007199254740992") < digitsValue (js "9007199254740993") /\
  (forall fuel,
     extractParallelTasks fuel (js "T9007199254740993-T9007199254740992") = None).
Proof.
  split; [|split].
  - eexists. split; [vm_compute; reflexivity|]. split; [reflexivity|].
    intros H. inversion H as [|? ? Hl _]. discriminate.
  - vm_compute. reflexivity.
  - intros fuel. unfold extractParallelTasks.
    destruct (matchAll TASK_RANGE_REGEX
                (js "T9007199254740993-T9007199254740992")) as [|m ms] eqn:M;
      [vm_compute in M; discriminate|].
    assert (Es : rangeStart m = maxSafe)
      by (vm_compute in M; injection M as <- <-; vm_compute; reflexivity).
    assert (Ee : rangeEnd m = maxSafe)
      by (vm_compute in M; injection M as <- <-; vm_compute; reflexivity).
    cbn [rangesLoop]. fold (rangeStart m). fold (rangeEnd m).
    now rewrite Es, Ee, rangeLoop_stuck.
Qed.

(** C10, as amended.  In a description whose ranges end below 2^53 and
    that names at most 2^24 IDs in all, a range [T<a>-T<b>] with [a > b]
    makes the range loop add nothing, and the function returns a result in
    which both endpoints are, as [T] followed by the digits padded with
    zeros to at least three places; when every range of the description
    is reversed, [processedRanges] stays empty and the result is the
    sorted, deduplicated list of the single IDs. *)
Theorem reversed_range_endpoints (description : jsstring) (m : MatchResult)
  (a b : jsstring) :
  (forall m', In m' (matchAll TASK_RANGE_REGEX description) ->
              rangeEnd m' < maxSafe) ->
  idCount description <= maxSetSize ->
  In m (matchAll TASK_RANGE_REGEX description) ->
  capture m 1 = Some a -> capture m 2 = Some b ->
  digitsValue b < digitsValue a ->
  exists result,
    (forall fuel, (rangeFuel description <= fuel)%nat ->
       extractParallelTasks fuel description = Some result) /\
    (forall fuel tasks processedRanges,
       rangeLoop (S fuel) (rangeStart m) (rangeEnd m) tasks processedRanges =
       Some (tasks, processedRanges)) /\
    In (js "T" ++ padStart 3 a) result /\
    In (js "T" ++ padStart 3 b) result /\
    ((forall m', In m' (matchAll TASK_RANGE_REGEX description) ->
                 reversedRange m') ->
     (forall fuel,
        rangesLoop (S fuel) (matchAll TASK_RANGE_REGEX description) [] [] =
        Some ([], [])) /\
     result = sortStrings (dedupe str_eqb (bareIds description))).
Proof.
  intros Hsafe Hcount Hm Ca Cb Hab. fold (taskIdOf a). fold (taskIdOf b).
  destruct (range_endpoints_scanned _ _ _ _ Hm Ca Cb) as [Ia [Ib _]].
  assert (Hrev : rangeEnd m < rangeStart m).
  { apply (reversedRange_read description); [exact Hm|now apply Hsafe|].
    now exists a, b. }
  exists (parallelTasksSpec description).
  split; [intros fuel Hf; now apply extractParallelTasks_safe|].
  split; [intros; now apply rangeLoop_reversed|].
  assert (I : forall x, In x (bareIds description) ->
                        In x (parallelTasksSpec description)).
  { intros x Hx. unfold parallelTasksSpec. cbv zeta. unfold sortStrings.
    rewrite sort_In, dedupe_In, in_app_iff.
    destruct (setHas x (expandedRanges description)) eqn:E.
    - left. now apply setHas_In.
    - right. apply filter_In. split; [exact Hx|]. now rewrite E. }
  split; [now apply I|]. split; [now apply I|].
  intros Hall.
  assert (R : forall m', In m' (matchAll TASK_RANGE_REGEX description) ->
                         rangeEnd m' < rangeStart m').
  { intros m' Hm'. apply (reversedRange_read description);
      [exact Hm'|now apply Hsafe|now apply Hall]. }
  split; [intros fuel; now apply rangesLoop_all_reversed|].
  unfold parallelTasksSpec, expandedRanges. cbv zeta.
  rewrite (expandedRanges_reversed _ R). cbn [app].
  assert (F : forall l : list jsstring,
                filter (fun taskId => negb (setHas taskId [])) l = l).
  { induction l as [|x l IH]; cbn; [reflexivity|now f_equal]. }
  now rewrite F.
Qed.

Lemma reversed_range_endpoints_witness :
  exists result,
    extractParallelTasks 1 (js "T018-T2 are done last") = Some result /\
    In (js "T018") result /\ In (js "T002") result /\
    result = [js "T002"; js "T018"].
Proof.
  destruct (matchAll TASK_RANGE_REGEX (js "T018-T2 are done last"))
    as [|m ms] eqn:M; [vm_compute in M; discriminate|].
  assert (Hm : In m (matchAll TASK_RANGE_REGEX (js "T018-T2 are done last")))
    by (rewrite M; now left).
  assert (Ca : capture m 1 = Some (js "018"))
    by (vm_compute in M; injection M as <- <-; reflexivity).
  assert (Cb : capture m 2 = Some (js "2"))
    by (vm_compute in M; injection M as <- <-; reflexivity).
  assert (Hs : forall m', In m' (matchAll TASK_RANGE_REGEX
                                   (js "T018-T2 are done last")) ->
                          rangeEnd m' < maxSafe).
  { intros m' Hm'. rewrite M in Hm'. vm_compute in M. injection M as <- <-.
    destruct Hm' as [<-|[]]. vm_compute. reflexivity. }
  assert (Hc : idCount (js "T018-T2 are done last") <= maxSetSize)
    by (vm_compute; discriminate).
  assert (Hab : digitsValue (js "2") < digitsValue (js "018"))
    by (vm_compute; reflexivity).
  destruct (reversed_range_endpoints _ m _ _ Hs Hc Hm Ca Cb Hab)
    as [result [E [_ [Ia [Ib _]]]]].
  specialize (E 1%nat ltac:(vm_compute; lia)).
  exists result. split; [exact E|]. split; [exact Ia|]. split; [exact Ib|].
  vm_compute in E. injection E as <-. reflexivity.
Defined.

(** ** The examples of the specification and of the test suite *)

Example realWorld_dependencies :
  option_map
    (fun deps =>
       (length deps,
        option_map (fun d => (shortName d, blocks d, length (parallelTasks d)))
          (Map.get 1 deps),
        option_map (fun d => (dependsOn d, canRunParallelWith d,
                              length (parallelTasks d)))
          (Map.get 2 deps)))
    (parseDependencies 20 docRealWorld) =
  Some (4%nat, Some (js "Setup", [2; 3; 4], 18%nat), Some ([1], [3; 4], 15%nat)).
Proof. vm_compute. reflexivity. Qed.

(** Examples 1 and 5 of the specification: three tasks, the middle one open,
    and a malformed line that is skipped. *)
Example exampleOne_counts :
  option_map
    (fun r => (totalTasks r, completedTasks r,
               map (fun p => (number_ p, phaseTitle p, priority p, isComplete p,
                              map (fun t => (id t, completed t, title t)) (tasks p)))
                 (phases r),
               option_map number_ (nextPhase r)))
    (Parser.parseTasksFile 1 docExampleOne folder) =
  Some (3%nat, 2%nat,
        [(1, js "Setup", Some (js "P1"), false,
          [(js "T001", true, js "Create the project");
           (js "T002", false, js "[P] Install the tools");
           (js "T003", true, js "Configure the linter")])],
        Some 1).
Proof. vm_compute. reflexivity. Qed.

(** Example 6 of the specification: phase 3 waits for phase 2. *)
Example exampleSix_available :
  option_map (fun r => map number_ (availablePhases r))
    (Parser.parseTasksFile 1 docExampleSix folder) = Some [2].
Proof. vm_compute. reflexivity. Qed.

Example digitCounts_ids :
  option_map (fun r => map (fun p => (number_ p, map id (tasks p))) (phases r))
    (Parser.parseTasksFile 1 docDigitCounts folder) =
  Some [(10, [js "T1"; js "T01"; js "T001"; js "T1234"])].
Proof. vm_compute. reflexivity. Qed.

(** * Further properties *)

(** ** The scan of [parseTasksFile] *)

Lemma filter_length_forallb (A : Type) (f : A -> bool) (l : list A) :
  Nat.eqb (length (filter f l)) (length l) = forallb f l.
Proof.
  induction l as [|x l IH]; [reflexivity|]. cbn [filter forallb].
  destruct (f x); cbn [length andb].
  - exact IH.
  - apply Nat.eqb_neq. pose proof (filter_length_le f l). lia.
Qed.

Lemma finalizePhase_countsOk (p : Phase) : countsOk (Parser.finalizePhase p).
Proof.
  unfold countsOk, Parser.finalizePhase.
  cbn [totalCount completedCount isComplete tasks].
  split; [reflexivity|]. split; [reflexivity|].
  rewrite filter_length_forallb. f_equal. now destruct (tasks p).
Qed.

Lemma scan_phasesFrom (lines : list jsstring) :
  forall done cur,
    Parser.finishCurrent (fold_left Parser.scanLine lines (done, cur)) =
    done ++ phasesFrom cur lines.
Proof.
  induction lines as [|line lines IH]; intros done cur; cbn [fold_left phasesFrom].
  - unfold Parser.finishCurrent. cbn [fst snd]. destruct cur; [reflexivity|].
    now rewrite app_nil_r.
  - unfold Parser.scanLine. cbn [fst snd].
    destruct (exec Parser.PHASE_HEADER_REGEX line) as [m|].
    + fold (headerPhase m). rewrite IH. unfold Parser.finishCurrent. cbn [fst snd].
      destruct cur; cbn [app]; [|reflexivity]. now rewrite <- app_assoc.
    + destruct (exec Parser.TASK_LINE_REGEX line) as [tm|]; [|apply IH].
      destruct cur; apply IH.
Qed.

Lemma scanPhases_phasesFrom (lines : list jsstring) :
  Parser.scanPhases lines = phasesFrom None lines.
Proof. unfold Parser.scanPhases. now rewrite scan_phasesFrom. Qed.

Lemma phasesFrom_countsOk (lines : list jsstring) :
  forall cur, Forall countsOk (phasesFrom cur lines).
Proof.
  assert (F : forall cur, Forall countsOk (Parser.finishCurrent ([], cur))).
  { intros [c|]; cbn; repeat constructor. apply finalizePhase_countsOk. }
  induction lines as [|line lines IH]; intros cur; cbn [phasesFrom]; [apply F|].
  destruct (exec Parser.PHASE_HEADER_REGEX line) as [m|].
  - apply Forall_app. split; [apply F|apply IH].
  - destruct (exec Parser.TASK_LINE_REGEX line) as [tm|]; [|apply IH].
    destruct cur; apply IH.
Qed.

Lemma phasesFrom_numbers (lines : list jsstring) :
  forall cur,
    map number_ (phasesFrom cur lines) = currentNumber cur ++ headerNumbers lines.
Proof.
  induction lines as [|line lines IH]; intros cur;
    cbn [phasesFrom headerNumbers flat_map].
  - destruct cur; reflexivity.
  - fold (headerNumbers lines).
    destruct (exec Parser.PHASE_HEADER_REGEX line) as [m|].
    + rewrite map_app, IH. destruct cur; reflexivity.
    + destruct (exec Parser.TASK_LINE_REGEX line) as [tm|]; [|apply IH].
      destruct cur; rewrite IH; reflexivity.
Qed.

Lemma phasesFrom_tasks (lines : list jsstring) :
  forall cur,
    flat_map tasks (phasesFrom cur lines) =
    currentTasks cur ++ tasksFrom (isSome cur) lines.
Proof.
  induction lines as [|line lines IH]; intros cur; cbn [phasesFrom tasksFrom].
  - destruct cur; cbn; now rewrite ?app_nil_r.
  - destruct (exec Parser.PHASE_HEADER_REGEX line) as [m|].
    + rewrite flat_map_app, IH. destruct cur; cbn; now rewrite ?app_nil_r.
    + destruct (exec Parser.TASK_LINE_REGEX line) as [tm|]; [|apply IH].
      destruct cur as [c|]; rewrite IH; cbn [currentTasks isSome]; [|reflexivity].
      cbn [Parser.pushTask tasks]. now rewrite <- app_assoc.
Qed.

Lemma phasesFrom_no_dependency (lines : list jsstring) :
  forall cur,
    (forall c, cur = Some c -> dependency c = None) ->
    Forall (fun p => dependency p = None) (phasesFrom cur lines).
Proof.
  assert (F : forall cur, (forall c, cur = Some c -> dependency c = None) ->
                Forall (fun p => dependency p = None) (Parser.finishCurrent ([], cur))).
  { intros [c|] H; cbn; repeat constructor. cbn. now apply H. }
  induction lines as [|line lines IH]; intros cur H; cbn [phasesFrom]; [now apply F|].
  destruct (exec Parser.PHASE_HEADER_REGEX line) as [m|].
  - apply Forall_app. split; [now apply F|]. apply IH. intros c E.
    injection E as <-. reflexivity.
  - destruct (exec Parser.TASK_LINE_REGEX line) as [tm|]; [|now apply IH].
    destruct cur as [c|]; [|now apply IH]. apply IH. intros c' E.
    injection E as <-. cbn. now apply H.
Qed.

(** The phases of a result are the scanned phases with their dependency
    records attached. *)
Lemma attachDependencies_fields (deps : Map.t PhaseDependency) (ps : list Phase) :
  map number_ (Parser.attachDependencies deps ps) = map number_ ps /\
  map tasks (Parser.attachDependencies deps ps) = map tasks ps /\
  map isComplete (Parser.attachDependencies deps ps) = map isComplete ps /\
  (Forall countsOk ps -> Forall countsOk (Parser.attachDependencies deps ps)).
Proof.
  unfold Parser.attachDependencies.
  induction ps as [|p ps [IH1 [IH2 [IH3 IH4]]]]; [now repeat split|].
  cbn [map]. rewrite IH1, IH2, IH3.
  repeat split; try (destruct (Map.get (number_ p) deps); reflexivity).
  intros H. inversion H as [|? ? Hp Hps]; subst. constructor; [|now apply IH4].
  destruct (Map.get (number_ p) deps); exact Hp.
Qed.

(** ** The result of [parseTasksFile] *)

Lemma parseTasksFile_parts (fuel : nat) (content specFolder : jsstring)
  (r : ParseResult) :
  Parser.parseTasksFile fuel content specFolder = Some r ->
  exists deps,
    parseDependencies fuel content = Some deps /\
    phases r = Parser.attachDependencies deps
                 (phasesFrom None (split isLF content)) /\
    totalTasks r = fold_left (fun sum p => sum + totalCount p)%nat (phases r) 0%nat /\
    completedTasks r =
      fold_left (fun sum p => sum + completedCount p)%nat (phases r) 0%nat /\
    nextPhase r = find (fun p => negb (isComplete p)) (phases r).
Proof.
  unfold Parser.parseTasksFile. cbv zeta.
  destruct (parseDependencies fuel content) as [deps|]; [|discriminate].
  intros H. injection H as <-. exists deps. cbn.
  rewrite scanPhases_phasesFrom. repeat split.
Qed.

Lemma parseTasksFile_countsOk (fuel : nat) (content specFolder : jsstring)
  (r : ParseResult) :
  Parser.parseTasksFile fuel content specFolder = Some r ->
  Forall countsOk (phases r).
Proof.
  intros H. destruct (parseTasksFile_parts _ _ _ _ H) as [deps [_ [E _]]].
  rewrite E. apply attachDependencies_fields, phasesFrom_countsOk.
Qed.

Lemma forallb_In_true (A : Type) (f : A -> bool) (l : list A) :
  forallb f l = true <-> forall x, In x l -> f x = true.
Proof. apply forallb_forall. Qed.

(** X1. Every phase of the result carries the counts of its own tasks and
    is complete exactly when it has at least one task and all its tasks
    are completed. *)
Theorem phase_counts (fuel : nat) (content specFolder : jsstring)
  (r : ParseResult) (p : Phase) :
  Parser.parseTasksFile fuel content specFolder = Some r ->
  In p (phases r) ->
  totalCount p = length (tasks p) /\
  completedCount p = length (filter completed (tasks p)) /\
  (completedCount p <= totalCount p)%nat /\
  (isComplete p = true <->
   tasks p <> [] /\ forall t, In t (tasks p) -> completed t = true).
Proof.
  intros H Hp. pose proof (parseTasksFile_countsOk _ _ _ _ H) as F.
  rewrite Forall_forall in F. destruct (F p Hp) as [E1 [E2 E3]].
  split; [exact E1|]. split; [exact E2|]. split.
  - rewrite E1, E2. apply filter_length_le.
  - rewrite E3, andb_true_iff, forallb_forall, negb_true_iff.
    destruct (tasks p); cbn; split; intros [A B]; split; congruence || auto.
Qed.

Lemma phase_counts_witness :
  exists r p,
    Parser.parseTasksFile 0 docPlain folder = Some r /\
    In p (phases r) /\ number_ p = 2 /\
    totalCount p = length (tasks p) /\ completedCount p = 1%nat.
Proof.
  destruct (Parser.parseTasksFile 0 docPlain folder) as [r|] eqn:E;
    [|vm_compute in E; discriminate].
  destruct (nth_error (phases r) 1) as [p|] eqn:G;
    [|vm_compute in E; injection E as <-; vm_compute in G; discriminate].
  exists r, p. split; [reflexivity|].
  assert (Hp : In p (phases r)) by (apply nth_error_In with (n := 1%nat); exact G).
  destruct (phase_counts 0 docPlain folder r p E Hp) as [E1 [E2 _]].
  split; [exact Hp|].
  split; [vm_compute in E; injection E as <-; vm_compute in G;
          injection G as <-; reflexivity|].
  split; [exact E1|].
  rewrite E2. vm_compute in E. injection E as <-. vm_compute in G.
  injection G as <-. reflexivity.
Defined.

Lemma fold_sum_length (A B : Type) (count : A -> nat) (items : A -> list B)
  (l : list A) :
  (forall x, In x l -> count x = length (items x)) ->
  forall acc,
    fold_left (fun sum p => sum + count p)%nat l acc =
    (acc + length (flat_map items l))%nat.
Proof.
  induction l as [|x l IH]; intros H acc; cbn [fold_left flat_map].
  - cbn. lia.
  - rewrite IH by (intros y Hy; apply H; now right).
    rewrite length_app, (H x (or_introl eq_refl)). lia.
Qed.

Lemma filter_flat_map (A B : Type) (f : B -> bool) (g : A -> list B) (l : list A) :
  filter f (flat_map g l) = flat_map (fun x => filter f (g x)) l.
Proof.
  induction l as [|x l IH]; [reflexivity|]. cbn [flat_map].
  now rewrite filter_app, IH.
Qed.

(** X2. The totals of the result count the tasks of its phases: all of them
    and the completed ones, so that [completedTasks] never exceeds
    [totalTasks]. *)
Theorem totals_count_tasks (fuel : nat) (content specFolder : jsstring)
  (r : ParseResult) :
  Parser.parseTasksFile fuel content specFolder = Some r ->
  totalTasks r = length (flat_map tasks (phases r)) /\
  completedTasks r = length (filter completed (flat_map tasks (phases r))) /\
  (completedTasks r <= totalTasks r)%nat.
Proof.
  intros H. pose proof (parseTasksFile_countsOk _ _ _ _ H) as F.
  rewrite Forall_forall in F.
  destruct (parseTasksFile_parts _ _ _ _ H) as [deps [_ [_ [Et [Ec _]]]]].
  assert (T : totalTasks r = length (flat_map tasks (phases r))).
  { rewrite Et, (fold_sum_length _ _ totalCount tasks); [reflexivity|].
    intros p Hp. apply (F p Hp). }
  assert (C : completedTasks r = length (filter completed (flat_map tasks (phases r)))).
  { rewrite Ec, filter_flat_map,
      (fold_sum_length _ _ completedCount (fun p => filter completed (tasks p)));
      [reflexivity|].
    intros p Hp. apply (F p Hp). }
  split; [exact T|]. split; [exact C|]. rewrite T, C. apply filter_length_le.
Qed.

Lemma totals_count_tasks_witness :
  exists r,
    Parser.parseTasksFile 0 docPlain folder = Some r /\
    totalTasks r = 3%nat /\ completedTasks r = 2%nat /\
    (completedTasks r <= totalTasks r)%nat.
Proof.
  destruct (Parser.parseTasksFile 0 docPlain folder) as [r|] eqn:E;
    [|vm_compute in E; discriminate].
  exists r. split; [reflexivity|].
  destruct (totals_count_tasks 0 docPlain folder r E) as [_ [_ L]].
  split; [vm_compute in E; injection E as <-; reflexivity|].
  split; [vm_compute in E; injection E as <-; reflexivity|exact L].
Defined.

Lemma find_first (A : Type) (f : A -> bool) (l : list A) (x : A) :
  find f l = Some x ->
  exists before after,
    l = before ++ x :: after /\ f x = true /\
    forall y, In y before -> f y = false.
Proof.
  induction l as [|a l IH]; cbn [find]; [discriminate|].
  destruct (f a) eqn:E.
  - intros H. injection H as <-. exists [], l. repeat split; [exact E|].
    intros y [].
  - intros H. destruct (IH H) as [before [after [E1 [E2 E3]]]].
    exists (a :: before), after. rewrite E1. repeat split; [exact E2|].
    intros y [<-|Hy]; [exact E|now apply E3].
Qed.

Lemma find_none_all (A : Type) (f : A -> bool) (l : list A) :
  find f l = None <-> forall x, In x l -> f x = false.
Proof.
  split.
  - intros H x Hx. exact (find_none f l H x Hx).
  - induction l as [|a l IH]; intros H; cbn [find]; [reflexivity|].
    rewrite (H a (or_introl eq_refl)). apply IH. intros x Hx. apply H. now right.
Qed.

Lemma countsOk_complete (p : Phase) :
  countsOk p ->
  (isComplete p = true <->
   tasks p <> [] /\ forall t, In t (tasks p) -> completed t = true).
Proof.
  intros [_ [_ E3]].
  rewrite E3, andb_true_iff, forallb_forall, negb_true_iff.
  destruct (tasks p); cbn; split; intros [A B]; split; congruence || auto.
Qed.

Lemma countsOk_pending (p : Phase) :
  countsOk p -> isComplete p = false -> tasks p <> [] ->
  exists t, find (fun t => negb (completed t)) (tasks p) = Some t.
Proof.
  intros C E N.
  destruct (find (fun t => negb (completed t)) (tasks p)) as [t|] eqn:F;
    [now exists t|].
  exfalso. assert (isComplete p = true); [|congruence].
  apply (countsOk_complete p C). split; [exact N|].
  intros t Ht. pose proof (find_none _ _ F t Ht) as G. cbn in G.
  now destruct (completed t).
Qed.

(** X3. The next phase is the first phase of the result that is not
    finished: every phase before it has at least one task and only
    completed tasks, and it has itself no task at all or a first task that
    is not completed. *)
Theorem nextPhase_first_unfinished (fuel : nat) (content specFolder : jsstring)
  (r : ParseResult) (p : Phase) :
  Parser.parseTasksFile fuel content specFolder = Some r ->
  nextPhase r = Some p ->
  exists before after,
    phases r = before ++ p :: after /\
    (forall q, In q before ->
       tasks q <> [] /\ forall t, In t (tasks q) -> completed t = true) /\
    (tasks p = [] \/
     exists done t rest,
       tasks p = done ++ t :: rest /\ completed t = false /\
       forall u, In u done -> completed u = true).
Proof.
  intros H N. pose proof (parseTasksFile_countsOk _ _ _ _ H) as F.
  rewrite Forall_forall in F.
  destruct (parseTasksFile_parts _ _ _ _ H) as [deps [_ [_ [_ [_ En]]]]].
  rewrite En in N. destruct (find_first _ _ _ _ N) as [before [after [E1 [E2 E3]]]].
  exists before, after. split; [exact E1|]. split.
  - intros q Hq. apply countsOk_complete.
    + apply F. rewrite E1. apply in_or_app. now left.
    + specialize (E3 q Hq). now destruct (isComplete q).
  - destruct (tasks p) as [|t0 ts] eqn:T; [now left|right].
    assert (Hp : In p (phases r)) by (rewrite E1; apply in_or_app; right; now left).
    destruct (countsOk_pending p (F p Hp)) as [t Ft].
    + now destruct (isComplete p).
    + rewrite T. discriminate.
    + rewrite T in Ft.
      destruct (find_first _ _ _ _ Ft) as [done [rest [G1 [G2 G3]]]].
      exists done, t, rest. split; [exact G1|]. split.
      * now destruct (completed t).
      * intros u Hu. specialize (G3 u Hu). cbn in G3. now destruct (completed u).
Qed.

Lemma nextPhase_first_unfinished_witness :
  exists r p,
    Parser.parseTasksFile 0 docPlain folder = Some r /\
    nextPhase r = Some p /\ number_ p = 2 /\
    exists before after,
      phases r = before ++ p :: after /\
      forall q, In q before -> tasks q <> [].
Proof.
  destruct (Parser.parseTasksFile 0 docPlain folder) as [r|] eqn:E;
    [|vm_compute in E; discriminate].
  destruct (nextPhase r) as [p|] eqn:N;
    [|vm_compute in E; injection E as <-; vm_compute in N; discriminate].
  exists r, p. split; [reflexivity|]. split; [exact N|].
  destruct (nextPhase_first_unfinished 0 docPlain folder r p E N)
    as [before [after [E1 [E2 _]]]].
  split; [vm_compute in E; injection E as <-; vm_compute in N;
          injection N as <-; reflexivity|].
  exists before, after. split; [exact E1|].
  intros q Hq. exact (proj1 (E2 q Hq)).
Defined.

Lemma filter_all_false (A : Type) (f : A -> bool) (l : list A) :
  (forall x, In x l -> f x = false) -> filter f l = [].
Proof.
  induction l as [|x l IH]; intros H; [reflexivity|]. cbn [filter].
  rewrite (H x (or_introl eq_refl)). apply IH. intros y Hy. apply H. now right.
Qed.

(** X4. The result names no next phase exactly when every phase has at
    least one task and only completed tasks; the two totals are then
    equal and no phase is available. *)
Theorem nextPhase_none_all_done (fuel : nat) (content specFolder : jsstring)
  (r : ParseResult) :
  Parser.parseTasksFile fuel content specFolder = Some r ->
  (nextPhase r = None <->
   forall q, In q (phases r) ->
     tasks q <> [] /\ forall t, In t (tasks q) -> completed t = true) /\
  (nextPhase r = None ->
   completedTasks r = totalTasks r /\ availablePhases r = []).
Proof.
  intros H. pose proof (parseTasksFile_countsOk _ _ _ _ H) as F.
  rewrite Forall_forall in F.
  destruct (parseTasksFile_parts _ _ _ _ H) as [deps [_ [_ [Et [Ec En]]]]].
  assert (A : nextPhase r = None <->
              forall q, In q (phases r) ->
                tasks q <> [] /\ forall t, In t (tasks q) -> completed t = true).
  { rewrite En, find_none_all. split; intros G q Hq.
    - apply (countsOk_complete q (F q Hq)). specialize (G q Hq). cbn in G.
      now destruct (isComplete q).
    - apply (countsOk_complete q (F q Hq)) in G; [|exact Hq]. now rewrite G. }
  split; [exact A|]. intros N. split.
  - rewrite Et, Ec.
    rewrite (fold_sum_length _ _ completedCount tasks),
            (fold_sum_length _ _ totalCount tasks); [reflexivity| |].
    + intros q Hq. apply (F q Hq).
    + intros q Hq. destruct (F q Hq) as [_ [E2 _]]. rewrite E2. f_equal.
      destruct (proj1 A N q Hq) as [_ G]. clear E2.
      induction (tasks q) as [|t ts IH]; [reflexivity|]. cbn [filter].
      rewrite (G t (or_introl eq_refl)). f_equal. apply IH. intros u Hu. apply G.
      now right.
  - destruct (parseTasksFile_fields _ _ _ _ H) as [deps' [_ [_ [_ [_ [Ea _]]]]]].
    rewrite Ea. rewrite En in N.
    apply filter_all_false. intros q Hq.
    rewrite (find_none _ _ N q Hq). apply andb_false_r.
Qed.

Lemma nextPhase_none_all_done_witness :
  exists r,
    Parser.parseTasksFile 0 docAllDone folder = Some r /\
    nextPhase r = None /\ completedTasks r = totalTasks r /\
    availablePhases r = [].
Proof.
  destruct (Parser.parseTasksFile 0 docAllDone folder) as [r|] eqn:E;
    [|vm_compute in E; discriminate].
  exists r. split; [reflexivity|].
  assert (N : nextPhase r = None)
    by (vm_compute in E; injection E as <-; reflexivity).
  split; [exact N|].
  exact (proj2 (nextPhase_none_all_done 0 docAllDone folder r E) N).
Defined.

(** X5. The phases of the result are the phase headers of the document,
    one phase for each header line and in the order of the lines, numbered
    as the headers are (also when two headers bear the same number). *)
Theorem phases_follow_headers (fuel : nat) (content specFolder : jsstring)
  (r : ParseResult) :
  Parser.parseTasksFile fuel content specFolder = Some r ->
  map number_ (phases r) = headerNumbers (split isLF content).
Proof.
  intros H. destruct (parseTasksFile_parts _ _ _ _ H) as [deps [_ [E _]]].
  rewrite E. replace (map number_ (Parser.attachDependencies deps _))
    with (map number_ (phasesFrom None (split isLF content))).
  - exact (phasesFrom_numbers (split isLF content) None).
  - unfold Parser.attachDependencies. rewrite map_map. apply map_ext.
    intros p. now destruct (Map.get (number_ p) deps).
Qed.

Lemma phases_follow_headers_witness :
  exists r,
    Parser.parseTasksFile 0 docSameNumber folder = Some r /\
    map number_ (phases r) = [2; 1; 2].
Proof.
  destruct (Parser.parseTasksFile 0 docSameNumber folder) as [r|] eqn:E;
    [|vm_compute in E; discriminate].
  exists r. split; [reflexivity|].
  rewrite (phases_follow_headers 0 docSameNumber folder r E). reflexivity.
Defined.

(** X6. The tasks of the phases, taken together, are the task lines of the
    document that come after the first phase header, in the order of the
    lines; a task line before the first header belongs to no phase. *)
Theorem tasks_follow_lines (fuel : nat) (content specFolder : jsstring)
  (r : ParseResult) :
  Parser.parseTasksFile fuel content specFolder = Some r ->
  flat_map tasks (phases r) = tasksFrom false (split isLF content) /\
  totalTasks r = length (tasksFrom false (split isLF content)).
Proof.
  intros H. pose proof (parseTasksFile_countsOk _ _ _ _ H) as F.
  rewrite Forall_forall in F.
  destruct (parseTasksFile_parts _ _ _ _ H) as [deps [_ [E [Et _]]]].
  assert (T : flat_map tasks (phases r) = tasksFrom false (split isLF content)).
  { rewrite E. replace (flat_map tasks (Parser.attachDependencies deps _))
      with (flat_map tasks (phasesFrom None (split isLF content))).
    - exact (phasesFrom_tasks (split isLF content) None).
    - unfold Parser.attachDependencies. rewrite !flat_map_concat_map, map_map.
      f_equal. apply map_ext. intros p. now destruct (Map.get (number_ p) deps). }
  split; [exact T|]. rewrite <- T, Et.
  rewrite (fold_sum_length _ _ totalCount tasks); [reflexivity|].
  intros q Hq. apply (F q Hq).
Qed.

Lemma tasks_follow_lines_witness :
  exists r,
    Parser.parseTasksFile 0 docPlain folder = Some r /\
    map id (flat_map tasks (phases r)) = [js "T001"; js "T002"; js "T003"] /\
    totalTasks r = 3%nat.
Proof.
  destruct (Parser.parseTasksFile 0 docPlain folder) as [r|] eqn:E;
    [|vm_compute in E; discriminate].
  exists r. split; [reflexivity|].
  destruct (tasks_follow_lines 0 docPlain folder r E) as [T L].
  rewrite T, L. split; reflexivity.
Defined.

(** ** The dependencies of the phases *)

(** X7. Every phase of the result carries the dependency record that
    [parseDependencies] has under the phase's number, and none when there
    is no such record; two phases with the same number share one record. *)
Theorem phases_carry_their_records (fuel : nat) (content specFolder : jsstring)
  (r : ParseResult) :
  Parser.parseTasksFile fuel content specFolder = Some r ->
  exists deps,
    parseDependencies fuel content = Some deps /\
    forall p, In p (phases r) -> dependency p = Map.get (number_ p) deps.
Proof.
  intros H. destruct (parseTasksFile_parts _ _ _ _ H) as [deps [D [E _]]].
  exists deps. split; [exact D|]. intros p Hp. rewrite E in Hp.
  unfold Parser.attachDependencies in Hp. apply in_map_iff in Hp.
  destruct Hp as [q [<- Hq]].
  pose proof (phasesFrom_no_dependency (split isLF content) None) as N.
  assert (Q : dependency q = None).
  { rewrite Forall_forall in N. apply N; [|exact Hq]. intros c Hc. discriminate. }
  destruct (Map.get (number_ q) deps) as [dep|] eqn:G; cbn.
  - now rewrite G.
  - now rewrite G, Q.
Qed.

Lemma phases_carry_their_records_witness :
  exists r deps,
    Parser.parseTasksFile 5 docFull folder = Some r /\
    parseDependencies 5 docFull = Some deps /\
    map number_ (phases r) = [1; 2; 3] /\
    forall p, In p (phases r) -> dependency p = Map.get (number_ p) deps.
Proof.
  destruct (Parser.parseTasksFile 5 docFull folder) as [r|] eqn:E;
    [|vm_compute in E; discriminate].
  destruct (phases_carry_their_records 5 docFull folder r E) as [deps [D P]].
  exists r, deps. split; [reflexivity|]. split; [exact D|].
  split; [|exact P]. vm_compute in E. injection E as <-. reflexivity.
Defined.
Lemma findIndexFrom_none (A : Type) (f : A -> nat -> bool) (l : list A) :
  (forall x i, In x l -> f x i = false) ->
  forall i, findIndexFrom f i l = None.
Proof.
  induction l as [|x l IH]; intros H i; cbn [findIndexFrom]; [reflexivity|].
  rewrite (H x i (or_introl eq_refl)). apply IH. intros y j Hy. apply H. now right.
Qed.

Lemma parseDependencies_no_section (fuel : nat) (content : jsstring) :
  (forall line, In line (split isLF content) ->
     includes DEPENDENCIES_SECTION_START line = false) ->
  parseDependencies fuel content = Some [].
Proof.
  intros H. unfold parseDependencies. cbv zeta. unfold findIndex.
  rewrite findIndexFrom_none; [reflexivity|].
  intros x i Hx. now apply H.
Qed.

(** X8. A document none of whose lines contains the heading of the
    dependencies section is parsed whatever the bound on the range loops:
    [parseDependencies] returns the empty map, no phase carries a
    dependency record, and the available phases are exactly the phases
    that are not complete. *)
Theorem without_dependencies_section (fuel : nat)
  (content specFolder : jsstring) :
  (forall line, In line (split isLF content) ->
     includes DEPENDENCIES_SECTION_START line = false) ->
  parseDependencies fuel content = Some [] /\
  exists r,
    Parser.parseTasksFile fuel content specFolder = Some r /\
    (forall p, In p (phases r) -> dependency p = None) /\
    availablePhases r = filter (fun p => negb (isComplete p)) (phases r).
Proof.
  intros H. pose proof (parseDependencies_no_section fuel content H) as D.
  split; [exact D|].
  destruct (Parser.parseTasksFile fuel content specFolder) as [r|] eqn:E.
  2:{ unfold Parser.parseTasksFile in E. cbv zeta in E. rewrite D in E.
      discriminate. }
  exists r. split; [reflexivity|].
  destruct (parseTasksFile_parts _ _ _ _ E) as [deps [D' [Ep _]]].
  assert (deps = []) by congruence. subst deps.
  assert (N : forall p, In p (phases r) -> dependency p = None).
  { intros p Hp. rewrite Ep in Hp. unfold Parser.attachDependencies in Hp.
    apply in_map_iff in Hp. destruct Hp as [q [<- Hq]]. cbn.
    pose proof (phasesFrom_no_dependency (split isLF content) None) as F.
    rewrite Forall_forall in F. apply F; [|exact Hq]. intros c Hc. discriminate. }
  split; [exact N|].
  destruct (parseTasksFile_fields _ _ _ _ E) as [deps [_ [_ [_ [_ [Ea _]]]]]].
  rewrite Ea. apply filter_ext_in. intros p Hp.
  destruct (isComplete p) eqn:C; cbn; [apply andb_false_r|].
  rewrite andb_true_r. apply numIncludes_In.
  rewrite calculateAvailablePhases_unfold. unfold sortNumbers.
  apply sort_In. apply in_map. apply filter_In. split; [exact Hp|].
  unfold Spec.available. now rewrite C, (N p Hp).
Qed.

Lemma without_dependencies_section_witness :
  (forall line, In line (split isLF docPlain) ->
     includes DEPENDENCIES_SECTION_START line = false) /\
  exists r,
    Parser.parseTasksFile 0 docPlain folder = Some r /\
    map number_ (availablePhases r) = [2; 3].
Proof.
  assert (H : forall line, In line (split isLF docPlain) ->
                includes DEPENDENCIES_SECTION_START line = false).
  { apply Forall_forall. vm_compute. repeat constructor. }
  split; [exact H|].
  destruct (without_dependencies_section 0 docPlain folder H) as [_ [r [E [_ A]]]].
  exists r. split; [exact E|]. rewrite A.
  vm_compute in E. injection E as <-. reflexivity.
Defined.

(** ** What a match consumes *)

Lemma firstn_consumed (pos : nat) (w s' : jsstring) :
  firstn (pos + length w - pos) (w ++ s') = w.
Proof.
  replace (pos + length w - pos)%nat with (length w + 0)%nat by lia.
  rewrite firstn_app_2. cbn. apply app_nil_r.
Qed.

Lemma starLoop_sound (ic g : bool) (r : regex) (k : cont)
  (res : nat * jsstring * captures) :
  (forall pos s caps k',
     run ic r pos s caps k' = Some res ->
     exists w s' c,
       s = w ++ s' /\ matches ic r pos w s' c /\
       k' (pos + length w)%nat s' (c ++ caps) = Some res) ->
  forall fuel pos s caps,
    starLoop g (run ic r) k fuel pos s caps = Some res ->
    exists w s' c,
      s = w ++ s' /\ matches ic (Star g r) pos w s' c /\
      k (pos + length w)%nat s' (c ++ caps) = Some res.
Proof.
  intros IH. induction fuel as [|fuel IHf]; intros pos s caps H.
  - cbn in H. exists [], s, []. cbn. rewrite Nat.add_0_r.
    repeat split; [constructor|exact H].
  - cbn [starLoop] in H.
    assert (Stop : k pos s caps = Some res ->
            exists w s' c, s = w ++ s' /\ matches ic (Star g r) pos w s' c /\
              k (pos + length w)%nat s' (c ++ caps) = Some res).
    { intros Hk. exists [], s, []. cbn. rewrite Nat.add_0_r.
      repeat split; [constructor|exact Hk]. }
    assert (Again :
      run ic r pos s caps
        (fun pos' s' caps' =>
           if Nat.eqb pos' pos then None
           else starLoop g (run ic r) k fuel pos' s' caps') = Some res ->
      exists w s' c, s = w ++ s' /\ matches ic (Star g r) pos w s' c /\
        k (pos + length w)%nat s' (c ++ caps) = Some res).
    { intros Ha. destruct (IH _ _ _ _ Ha) as [w1 [s1 [c1 [E1 [M1 K1]]]]].
      destruct (Nat.eqb (pos + length w1) pos) eqn:Z; [discriminate|].
      apply Nat.eqb_neq in Z.
      destruct (IHf _ _ _ K1) as [w2 [s' [c2 [E2 [M2 K2]]]]].
      exists (w1 ++ w2), s', (c2 ++ c1). subst s s1.
      rewrite <- app_assoc. split; [reflexivity|]. split.
      - apply M_StarCons; [|exact M1|exact M2].
        intros ->. cbn in Z. lia.
      - rewrite length_app, Nat.add_assoc, <- app_assoc. exact K2. }
    destruct g.
    + destruct (run ic r pos s caps _) as [res'|] eqn:Ha.
      * apply Again. now rewrite <- H.
      * now apply Stop.
    + destruct (k pos s caps) as [res'|] eqn:Hk.
      * apply Stop. now rewrite <- H.
      * now apply Again.
Qed.

Lemma run_sound (ic : bool) (r : regex) :
  forall res pos s caps k,
    run ic r pos s caps k = Some res ->
    exists w s' c,
      s = w ++ s' /\ matches ic r pos w s' c /\
      k (pos + length w)%nat s' (c ++ caps) = Some res.
Proof.
  induction r as [|ch|cs|r1 IH1 r2 IH2|r1 IH1 r2 IH2|g r1 IH1|i r1 IH1| |];
    intros res pos s caps k H; cbn [run] in H.
  - exists [], s, []. cbn. rewrite Nat.add_0_r. repeat split; [constructor|exact H].
  - destruct s as [|x s']; [discriminate|].
    destruct (char_eqb (canon ic x) (canon ic ch)) eqn:E; [|discriminate].
    exists [x], s', []. cbn. rewrite Nat.add_1_r.
    repeat split; [now constructor|exact H].
  - destruct s as [|x s']; [discriminate|].
    destruct (cls_mem ic cs x) eqn:E; [|discriminate].
    exists [x], s', []. cbn. rewrite Nat.add_1_r.
    repeat split; [now constructor|exact H].
  - destruct (IH1 _ _ _ _ _ H) as [w1 [s1 [c1 [E1 [M1 K1]]]]].
    destruct (IH2 _ _ _ _ _ K1) as [w2 [s' [c2 [E2 [M2 K2]]]]].
    exists (w1 ++ w2), s', (c2 ++ c1). subst s s1. rewrite <- app_assoc.
    split; [reflexivity|]. split; [now constructor|].
    rewrite length_app, Nat.add_assoc, <- app_assoc. exact K2.
  - destruct (run ic r1 pos s caps k) as [res'|] eqn:E.
    + rewrite H in E. destruct (IH1 _ _ _ _ _ E) as [w [s' [c [E1 [M1 K1]]]]].
      exists w, s', c. repeat split; [exact E1|now apply M_AltL|exact K1].
    + destruct (IH2 _ _ _ _ _ H) as [w [s' [c [E1 [M1 K1]]]]].
      exists w, s', c. repeat split; [exact E1|now apply M_AltR|exact K1].
  - apply (starLoop_sound ic g r1 k res) with (fuel := length s); [|exact H].
    intros pos0 s0 caps0 k' H0. exact (IH1 _ _ _ _ _ H0).
  - destruct (IH1 _ _ _ _ _ H) as [w [s' [c [E1 [M1 K1]]]]].
    exists w, s', ((i, w) :: c). subst s. rewrite firstn_consumed in K1.
    repeat split; [now constructor|exact K1].
  - destruct (Nat.eqb pos 0) eqn:E; [|discriminate]. apply Nat.eqb_eq in E.
    subst pos. exists [], s, []. cbn. repeat split; [constructor|exact H].
  - destruct s; [|discriminate]. exists [], [], []. cbn. rewrite Nat.add_0_r.
    repeat split; [constructor|exact H].
Qed.

Lemma matchAt_sound (R : RegExp) (pos : nat) (s : jsstring) (m : MatchResult) :
  matchAt R pos s = Some m ->
  s = matched m ++ rest m /\
  matches (ignoreCase R) (source R) pos (matched m) (rest m) (groups m) /\
  index m = pos /\ endIndex m = (pos + length (matched m))%nat.
Proof.
  unfold matchAt.
  destruct (run (ignoreCase R) (source R) pos s [] accept) as [[[e s1] caps]|] eqn:E;
    [|discriminate].
  intros H. injection H as <-. cbn.
  destruct (run_sound _ _ _ _ _ _ _ E) as [w [s' [c [E1 [M1 K1]]]]].
  unfold accept in K1. injection K1 as <- <- <-. subst s.
  rewrite firstn_consumed, app_nil_r. repeat split. exact M1.
Qed.

Lemma search_matches (R : RegExp) (s : jsstring) :
  forall pos m,
    search R pos s = Some m ->
    exists pre,
      s = pre ++ matched m ++ rest m /\
      matches (ignoreCase R) (source R) (pos + length pre) (matched m) (rest m)
        (groups m).
Proof.
  induction s as [|x s IH]; intros pos m H; cbn [search] in H.
  - destruct (matchAt R pos []) as [m'|] eqn:E; [|discriminate].
    injection H as ->. destruct (matchAt_sound _ _ _ _ E) as [E1 [M1 _]].
    exists []. cbn. rewrite Nat.add_0_r. now split.
  - destruct (matchAt R pos (x :: s)) as [m'|] eqn:E.
    + injection H as ->. destruct (matchAt_sound _ _ _ _ E) as [E1 [M1 _]].
      exists []. cbn. rewrite Nat.add_0_r. now split.
    + destruct (IH _ _ H) as [pre [E1 M1]]. exists (x :: pre). cbn.
      rewrite <- E1. split; [reflexivity|].
      now rewrite Nat.add_succ_r.
Qed.

Lemma matches_Bol_first (ic : bool) (r : regex) (pos : nat) (w s' : jsstring)
  (c : captures) :
  matches ic (Cat Bol r) pos w s' c -> pos = 0%nat.
Proof.
  intros H. inversion H as [| | |? ? ? ? ? ? ? ? HB _| | | | | | |]; subst.
  now inversion HB.
Qed.

Lemma exec_Bol_matches (R : RegExp) (r : regex) (line : jsstring)
  (m : MatchResult) :
  source R = Cat Bol r ->
  exec R line = Some m ->
  line = matched m ++ rest m /\
  matches (ignoreCase R) r 0 (matched m) (rest m) (groups m).
Proof.
  intros ER H. destruct (search_matches _ _ _ _ H) as [pre [E1 M1]].
  rewrite ER in M1. pose proof (matches_Bol_first _ _ _ _ _ _ M1) as Z.
  destruct pre; [|discriminate]. cbn in E1, M1. split; [exact E1|].
  inversion M1 as [| | |? ? ? w1 w2 ? c1 c2 HB HR| | | | | | |]; subst.
  inversion HB; subst. cbn in HR. rewrite app_nil_r. exact HR.
Qed.

(** ** The shape of the lines that match *)

Lemma matches_Cat_inv (ic : bool) (r1 r2 : regex) (pos : nat) (w s' : jsstring)
  (c : captures) :
  matches ic (Cat r1 r2) pos w s' c ->
  exists w1 w2 c1 c2,
    w = w1 ++ w2 /\ c = c2 ++ c1 /\
    matches ic r1 pos w1 (w2 ++ s') c1 /\
    matches ic r2 (pos + length w1) w2 s' c2.
Proof.
  intros H. inversion H as [| | |? ? ? w1 w2 ? c1 c2 H1 H2| | | | | | |]; subst.
  now exists w1, w2, c1, c2.
Qed.

Lemma matches_Grp_inv (ic : bool) (i : nat) (r : regex) (pos : nat)
  (w s' : jsstring) (c : captures) :
  matches ic (Grp i r) pos w s' c ->
  exists c0, c = (i, w) :: c0 /\ matches ic r pos w s' c0.
Proof.
  intros H. inversion H; subst. now eexists.
Qed.

Lemma matches_Alt_inv (ic : bool) (r1 r2 : regex) (pos : nat) (w s' : jsstring)
  (c : captures) :
  matches ic (Alt r1 r2) pos w s' c ->
  matches ic r1 pos w s' c \/ matches ic r2 pos w s' c.
Proof.
  intros H. inversion H; subst; [now left|now right].
Qed.

Lemma matches_Eps_inv (ic : bool) (pos : nat) (w s' : jsstring) (c : captures) :
  matches ic Eps pos w s' c -> w = [] /\ c = [].
Proof.
  intros H. inversion H; subst. now split.
Qed.

Lemma matches_Eol_inv (ic : bool) (pos : nat) (w s' : jsstring) (c : captures) :
  matches ic Eol pos w s' c -> w = [] /\ s' = [] /\ c = [].
Proof.
  intros H. inversion H; subst. now repeat split.
Qed.

Lemma matches_Cls_inv (ic : bool) (cs : charset) (pos : nat) (w s' : jsstring)
  (c : captures) :
  matches ic (Cls cs) pos w s' c ->
  exists x, w = [x] /\ cls_mem ic cs x = true /\ c = [].
Proof.
  intros H. inversion H; subst. now eexists.
Qed.

Lemma matches_Lit_inv (l : jsstring) :
  forall pos w s' c, matches false (Lit l) pos w s' c -> w = l /\ c = [].
Proof.
  induction l as [|a l IH]; intros pos w s' c H.
  - now apply matches_Eps_inv in H.
  - change (Lit (a :: l)) with (Cat (Chr a) (Lit l)) in H.
    apply matches_Cat_inv in H.
    destruct H as [w1 [w2 [c1 [c2 [-> [-> [H1 H2]]]]]]].
    destruct (IH _ _ _ _ H2) as [-> ->].
    inversion H1 as [|? x ? ? E| | | | | | | | |]; subst.
    cbn in E. apply N.eqb_eq in E. now subst.
Qed.

Lemma matches_Star_Cls (ic g : bool) (cs : charset) (pos : nat) (w s' : jsstring)
  (c : captures) :
  matches ic (Star g (Cls cs)) pos w s' c ->
  forallb (cls_mem ic cs) w = true /\ c = [].
Proof.
  intros H. remember (Star g (Cls cs)) as r eqn:Er.
  induction H as [| | | | | | |g0 r0 pos w1 w2 s' c1 c2 N H1 _ H2 IH2| | |];
    try discriminate.
  - now split.
  - injection Er as -> ->. destruct (IH2 eq_refl) as [F ->].
    apply matches_Cls_inv in H1. destruct H1 as [x [-> [Hx ->]]].
    cbn. now rewrite Hx, F.
Qed.

Lemma matches_Plus_Cls (ic g : bool) (cs : charset) (pos : nat) (w s' : jsstring)
  (c : captures) :
  matches ic (Plus g (Cls cs)) pos w s' c ->
  w <> [] /\ forallb (cls_mem ic cs) w = true /\ c = [].
Proof.
  unfold Plus. intros H. apply matches_Cat_inv in H.
  destruct H as [w1 [w2 [c1 [c2 [-> [-> [H1 H2]]]]]]].
  apply matches_Cls_inv in H1. destruct H1 as [x [-> [Hx ->]]].
  apply matches_Star_Cls in H2. destruct H2 as [F ->].
  cbn. rewrite Hx, F. repeat split. discriminate.
Qed.

Lemma forallb_ext_eq (A : Type) (f g : A -> bool) (l : list A) :
  (forall x, f x = g x) -> forallb f l = forallb g l.
Proof.
  intros E. induction l as [|x l IH]; cbn; [reflexivity|]. now rewrite E, IH.
Qed.

Lemma matches_spaces (g : bool) (pos : nat) (w s' : jsstring) (c : captures) :
  matches false (Plus g (Cls cls_space)) pos w s' c -> spaces w /\ c = [].
Proof.
  intros H. apply matches_Plus_Cls in H. destruct H as [N [F ->]].
  rewrite (forallb_ext_eq _ _ isWhiteSpace w cls_space_mem) in F.
  now repeat split.
Qed.

Lemma matches_digits (g : bool) (pos : nat) (w s' : jsstring) (c : captures) :
  matches false (Plus g (Cls cls_digit)) pos w s' c -> digits w /\ c = [].
Proof.
  intros H. apply matches_Plus_Cls in H. destruct H as [N [F ->]].
  rewrite (forallb_ext_eq _ _ isDigit w cls_digit_mem) in F.
  now repeat split.
Qed.

Lemma cls_dot_mem (x : char) :
  cls_mem false cls_dot x = negb (isLineTerminator x).
Proof.
  unfold cls_mem, cls_dot, inRanges, inRange, isLineTerminator.
  cbn [negated ranges existsb fst snd]. f_equal.
  rewrite orb_false_r.
  destruct (N.eqb_spec x 10) as [->|N1]; [reflexivity|].
  destruct (N.eqb_spec x 13) as [->|N2]; [reflexivity|].
  destruct (N.eqb_spec x 8232) as [->|N3]; [reflexivity|].
  destruct (N.eqb_spec x 8233) as [->|N4]; [reflexivity|].
  cbn [orb].
  destruct (N.leb_spec 10 x), (N.leb_spec x 10), (N.leb_spec 13 x),
    (N.leb_spec x 13), (N.leb_spec 8232 x), (N.leb_spec x 8233);
    cbn; try reflexivity; lia.
Qed.

Lemma trimStart_spaces (ws u : jsstring) :
  forallb isWhiteSpace ws = true -> trimStart (ws ++ u) = trimStart u.
Proof.
  unfold trimStart. induction ws as [|x ws IH]; cbn; [reflexivity|].
  intros H. apply andb_true_iff in H. destruct H as [Hx H].
  rewrite Hx. now apply IH.
Qed.

Lemma noLineTerminator_dropWhile (p : char -> bool) (w : jsstring) :
  noLineTerminator w -> noLineTerminator (dropWhile p w).
Proof.
  unfold noLineTerminator. induction w as [|x w IH]; cbn; [trivial|].
  intros H. destruct (p x); [|exact H].
  apply andb_true_iff in H. now apply IH.
Qed.

Lemma exec_TASK_LINE_shape (line : jsstring) (m : MatchResult) :
  exec Parser.TASK_LINE_REGEX line = Some m ->
  taskOfLine line (Parser.parseTaskLine m).
Proof.
  intros H.
  destruct (exec_Bol_matches Parser.TASK_LINE_REGEX _ line m eq_refl H) as [E M].
  cbn [Parser.TASK_LINE_REGEX ignoreCase] in M. clear H.
  unfold Parser.parseTaskLine, captureOr, capture.
  destruct m as [ix w gs ei rs]. cbn [matched rest groups] in *.
  repeat (apply matches_Cat_inv in M;
          let w1 := fresh "w" in let c1 := fresh "c" in let H1 := fresh "M" in
          destruct M as [w1 [? [c1 [? [-> [-> [H1 M]]]]]]]).
  apply matches_Eps_inv in M. destruct M as [-> ->].
  match goal with H : matches _ Eol _ _ _ _ |- _ =>
    apply matches_Eol_inv in H; destruct H as [-> [Er ->]]; cbn in Er; subst rs end.
  repeat match goal with H : matches _ (Lit _) _ _ _ _ |- _ =>
    apply matches_Lit_inv in H; destruct H as [-> ->] end.
  repeat match goal with H : matches _ (Plus _ (Cls cls_space)) _ _ _ _ |- _ =>
    apply matches_spaces in H; destruct H as [? ->] end.
  apply matches_Grp_inv in M3. destruct M3 as [c0 [-> M3]].
  assert (B : (w2 = js "X" \/ w2 = js " ") /\ c0 = []).
  { apply matches_Alt_inv in M3. destruct M3 as [M3|M3];
      apply matches_Lit_inv in M3; destruct M3 as [-> ->]; split; auto. }
  destruct B as [B ->].
  apply matches_Grp_inv in M6. destruct M6 as [c0 [-> M6]].
  cbn [Seq fold_right] in M6. apply matches_Cat_inv in M6.
  destruct M6 as [t [ds0 [ca [cb [-> [-> [MT M6]]]]]]].
  apply matches_Lit_inv in MT. destruct MT as [-> ->].
  apply matches_Cat_inv in M6.
  destruct M6 as [ds [e [cc [cd [-> [-> [MD M6]]]]]]].
  apply matches_Eps_inv in M6. destruct M6 as [-> ->].
  apply matches_digits in MD. destruct MD as [D ->].
  apply matches_Grp_inv in M8. destruct M8 as [c0 [-> M8]].
  apply matches_Star_Cls in M8. destruct M8 as [F ->].
  rewrite (forallb_ext_eq _ _ _ w7 cls_dot_mem) in F.
  rewrite !app_nil_r in *. cbn [app capture_get Nat.eqb].
  exists w, (match w2 with x :: _ => x | [] => 0%N end), w4, ds, (w6 ++ w7).
  assert (Bx : [match w2 with x :: _ => x | [] => 0%N end] = w2)
    by (destruct B as [->| ->]; reflexivity).
  rewrite Bx. split; [rewrite E, <- !app_assoc; reflexivity|].
  split; [exact H1|]. split; [exact H0|]. split; [exact D|].
  split; [destruct B as [->| ->]; [now left|now right]|].
  destruct H as [N6 F6]. split.
  { destruct w6 as [|x w6]; [congruence|]. cbn in F6 |- *.
    apply andb_true_iff in F6. now destruct F6 as [Fx _]. }
  unfold trim. rewrite (trimStart_spaces w6 w7 F6).
  split; [now apply noLineTerminator_dropWhile|].
  split; [reflexivity|]. split; [|reflexivity].
  destruct B as [->| ->]; reflexivity.
Qed.

Lemma matches_star_spaces (g : bool) (pos : nat) (w s' : jsstring) (c : captures) :
  matches false (Star g (Cls cls_space)) pos w s' c ->
  forallb isWhiteSpace w = true /\ c = [].
Proof.
  intros H. apply matches_Star_Cls in H. destruct H as [F ->].
  rewrite (forallb_ext_eq _ _ isWhiteSpace w cls_space_mem) in F. now split.
Qed.

Lemma exec_PHASE_HEADER_shape (line : jsstring) (m : MatchResult) :
  exec Parser.PHASE_HEADER_REGEX line = Some m ->
  headerOfLine line (headerPhase m).
Proof.
  intros H.
  destruct (exec_Bol_matches Parser.PHASE_HEADER_REGEX _ line m eq_refl H) as [E M].
  cbn [Parser.PHASE_HEADER_REGEX ignoreCase] in M. clear H.
  unfold headerPhase, captureOr, capture.
  destruct m as [ix w gs ei rs]. cbn [matched rest groups] in *.
  repeat (apply matches_Cat_inv in M;
          let w1 := fresh "w" in let c1 := fresh "c" in let H1 := fresh "M" in
          destruct M as [w1 [? [c1 [? [-> [-> [H1 M]]]]]]]).
  apply matches_Eps_inv in M. destruct M as [-> ->].
  match goal with H : matches _ Eol _ _ _ _ |- _ =>
    apply matches_Eol_inv in H; destruct H as [-> [Er ->]]; cbn in Er; subst rs end.
  repeat match goal with H : matches _ (Lit _) _ _ _ _ |- _ =>
    apply matches_Lit_inv in H; destruct H as [-> ->] end.
  repeat match goal with H : matches _ (Plus _ (Cls cls_space)) _ _ _ _ |- _ =>
    apply matches_spaces in H; destruct H as [? ->] end.
  repeat match goal with H : matches _ (Star _ (Cls cls_space)) _ _ _ _ |- _ =>
    apply matches_star_spaces in H; destruct H as [? ->] end.
  apply matches_Grp_inv in M4. destruct M4 as [c0 [-> M4]].
  apply matches_digits in M4. destruct M4 as [D ->].
  apply matches_Grp_inv in M7. destruct M7 as [c0 [-> M7]].
  apply matches_Plus_Cls in M7. destruct M7 as [N6 [F6 ->]].
  rewrite (forallb_ext_eq _ _ _ w6 cls_dot_mem) in F6.
  rewrite !app_nil_r in *.
  assert (P : parseIntDigits w3 = to_double (digitsValue w3)).
  { destruct D as [Dn Df]. unfold parseIntDigits.
    now rewrite (proj1 (parseInt_digits w3 Dn Df)). }
  unfold Opt in M8. apply matches_Alt_inv in M8. destruct M8 as [M8|M8].
  - cbn [Seq fold_right] in M8.
    repeat (apply matches_Cat_inv in M8;
            let w1 := fresh "v" in let c1 := fresh "d" in let H1 := fresh "M" in
            destruct M8 as [w1 [? [c1 [? [-> [-> [H1 M8]]]]]]]).
    apply matches_Eps_inv in M8. destruct M8 as [-> ->].
    repeat match goal with H : matches _ (Lit _) _ _ _ _ |- _ =>
      apply matches_Lit_inv in H; destruct H as [-> ->] end.
    repeat match goal with H : matches _ (Star _ (Cls cls_space)) _ _ _ _ |- _ =>
      apply matches_star_spaces in H; destruct H as [? ->] end.
    match goal with H : matches _ (Grp 3 _) _ _ _ _ |- _ =>
      apply matches_Grp_inv in H; destruct H as [c0 [-> MG]] end.
    cbn [Seq fold_right] in MG. apply matches_Cat_inv in MG.
    destruct MG as [p1 [p2 [ca [cb [-> [-> [MP MG]]]]]]].
    apply matches_Lit_inv in MP. destruct MP as [-> ->].
    apply matches_Cat_inv in MG.
    destruct MG as [p3 [p4 [cc [cd [-> [-> [MD MG]]]]]]].
    apply matches_Eps_inv in MG. destruct MG as [-> ->].
    apply matches_Cls_inv in MD. destruct MD as [d [-> [Hd ->]]].
    rewrite cls_digit_mem in Hd.
    rewrite !app_nil_r in *. cbn [app capture_get Nat.eqb].
    exists w, w2, w3, w5, w6,
      (v ++ js "(Priority:" ++ v1 ++ js "P" ++ [d] ++ js ")").
    split; [rewrite E, <- !app_assoc; reflexivity|].
    repeat (split; [assumption|]). split; [reflexivity|].
    right. do 3 eexists. split; [reflexivity|]. now repeat split.
  - apply matches_Eps_inv in M8. destruct M8 as [-> ->].
    rewrite !app_nil_r in *. cbn [app capture_get Nat.eqb].
    exists w, w2, w3, w5, w6, [].
    split; [rewrite E, ?app_nil_r; reflexivity|].
    repeat (split; [assumption|]). split; [reflexivity|].
    left. now split.
Qed.

(** ** The fields of the tasks and of the phases *)

Lemma In_tasksFrom (lines : list jsstring) (t : Task) :
  forall inPhase,
    In t (tasksFrom inPhase lines) ->
    exists line, In line lines /\ taskOfLine line t.
Proof.
  induction lines as [|line lines IH]; intros inPhase H; cbn [tasksFrom] in H;
    [destruct H|].
  assert (Later : forall b, In t (tasksFrom b lines) ->
            exists l, In l (line :: lines) /\ taskOfLine l t).
  { intros b Hb. destruct (IH b Hb) as [l [Hl Tl]]. exists l. split; [now right|exact Tl]. }
  destruct (exec Parser.PHASE_HEADER_REGEX line); [now apply (Later true)|].
  destruct (exec Parser.TASK_LINE_REGEX line) as [m|] eqn:E; [|now apply (Later inPhase)].
  destruct inPhase; [|now apply (Later false)].
  destruct H as [<-|H]; [|now apply (Later true)].
  exists line. split; [now left|]. now apply exec_TASK_LINE_shape.
Qed.

Lemma attachDependencies_tasks (deps : Map.t PhaseDependency) (ps : list Phase) :
  flat_map tasks (Parser.attachDependencies deps ps) = flat_map tasks ps.
Proof.
  unfold Parser.attachDependencies. rewrite !flat_map_concat_map, map_map.
  f_equal. apply map_ext. intros p. now destruct (Map.get (number_ p) deps).
Qed.

Lemma attachDependencies_numbers (deps : Map.t PhaseDependency) (ps : list Phase) :
  map number_ (Parser.attachDependencies deps ps) = map number_ ps.
Proof.
  unfold Parser.attachDependencies. rewrite map_map. apply map_ext.
  intros p. now destruct (Map.get (number_ p) deps).
Qed.

(** X9. Every task of the result is read off a line of the document of the
    form [- [c] T<digits><rest>], where [c] is [X] or a space and [rest]
    begins with white space: its ID is [T<digits>], it is completed exactly
    when [c] is [X] (a lower-case [x] makes no task line), and its title is
    [rest] trimmed. *)
Theorem tasks_read_off_lines (fuel : nat) (content specFolder : jsstring)
  (r : ParseResult) (p : Phase) (t : Task) :
  Parser.parseTasksFile fuel content specFolder = Some r ->
  In p (phases r) -> In t (tasks p) ->
  exists line, In line (split isLF content) /\ taskOfLine line t.
Proof.
  intros H Hp Ht. destruct (parseTasksFile_parts _ _ _ _ H) as [deps [_ [E _]]].
  assert (A : In t (flat_map tasks (phases r)))
    by (apply in_flat_map; now exists p).
  rewrite E, attachDependencies_tasks in A.
  rewrite (phasesFrom_tasks (split isLF content) None) in A.
  exact (In_tasksFrom _ _ _ A).
Qed.

Lemma tasks_read_off_lines_witness :
  exists r p t line,
    Parser.parseTasksFile 0 docPlain folder = Some r /\
    In p (phases r) /\ In t (tasks p) /\ id t = js "T003" /\
    In line (split isLF docPlain) /\ taskOfLine line t.
Proof.
  destruct (Parser.parseTasksFile 0 docPlain folder) as [r|] eqn:E;
    [|vm_compute in E; discriminate].
  destruct (nth_error (phases r) 1) as [p|] eqn:G;
    [|vm_compute in E; injection E as <-; vm_compute in G; discriminate].
  destruct (nth_error (tasks p) 1) as [t|] eqn:T;
    [|vm_compute in E; injection E as <-; vm_compute in G; injection G as <-;
      vm_compute in T; discriminate].
  assert (Hp : In p (phases r)) by (exact (nth_error_In _ _ G)).
  assert (Ht : In t (tasks p)) by (exact (nth_error_In _ _ T)).
  destruct (tasks_read_off_lines 0 docPlain folder r p t E Hp Ht) as [line [L S]].
  exists r, p, t, line. repeat (split; [assumption || reflexivity|]).
  split; [|now split].
  vm_compute in E. injection E as <-. vm_compute in G. injection G as <-.
  vm_compute in T. injection T as <-. reflexivity.
Defined.

Lemma headerOfLine_same (line : jsstring) (p q : Phase) :
  sameHeader p q -> headerOfLine line q -> headerOfLine line p.
Proof.
  intros [E1 [E2 E3]] H. unfold headerOfLine in *.
  rewrite E1, E2, E3. exact H.
Qed.

Lemma In_phasesFrom_header (lines : list jsstring) (p : Phase) :
  forall cur,
    In p (phasesFrom cur lines) ->
    (exists c, cur = Some c /\ sameHeader p c) \/
    exists line m,
      In line lines /\ exec Parser.PHASE_HEADER_REGEX line = Some m /\
      sameHeader p (headerPhase m).
Proof.
  assert (F : forall cur, In p (Parser.finishCurrent ([], cur)) ->
            exists c, cur = Some c /\ sameHeader p c).
  { intros [c|] H; cbn in H; [|destruct H]. destruct H as [<-|[]].
    exists c. split; [reflexivity|]. now repeat split. }
  induction lines as [|line lines IH]; intros cur H; cbn [phasesFrom] in H.
  - left. now apply F.
  - assert (Later : forall cur',
              In p (phasesFrom cur' lines) ->
              (forall c', cur' = Some c' -> exists c, cur = Some c /\ sameHeader c' c) ->
              (exists c, cur = Some c /\ sameHeader p c) \/
              exists l m, In l (line :: lines) /\
                exec Parser.PHASE_HEADER_REGEX l = Some m /\
                sameHeader p (headerPhase m)).
    { intros cur' H' K. destruct (IH cur' H') as [[c' [-> S]]|[l [m [Hl [E S]]]]].
      - left. destruct (K c' eq_refl) as [c [-> [S1 [S2 S3]]]].
        exists c. split; [reflexivity|]. destruct S as [T1 [T2 T3]].
        repeat split; congruence.
      - right. exists l, m. split; [now right|]. now split. }
    destruct (exec Parser.PHASE_HEADER_REGEX line) as [m|] eqn:E.
    + apply in_app_or in H. destruct H as [H|H]; [left; now apply F|].
      destruct (IH _ H) as [[c' [Ec S]]|[l [m' [Hl [E' S]]]]].
      * right. injection Ec as <-. exists line, m. split; [now left|]. now split.
      * right. exists l, m'. split; [now right|]. now split.
    + destruct (exec Parser.TASK_LINE_REGEX line) as [tm|], cur as [c|];
        apply (Later _ H); intros c' Ec;
        first [discriminate
              |injection Ec as <-; eexists; split; [reflexivity|];
               now repeat split].
Qed.

Lemma In_attachDependencies (deps : Map.t PhaseDependency) (ps : list Phase)
  (p : Phase) :
  In p (Parser.attachDependencies deps ps) ->
  exists q, In q ps /\ sameHeader p q /\ tasks p = tasks q.
Proof.
  unfold Parser.attachDependencies. intros H. apply in_map_iff in H.
  destruct H as [q [<- Hq]]. exists q. split; [exact Hq|].
  destruct (Map.get (number_ q) deps); now repeat split.
Qed.

Lemma parseTasksFile_header (fuel : nat) (content specFolder : jsstring)
  (r : ParseResult) (p : Phase) :
  Parser.parseTasksFile fuel content specFolder = Some r ->
  In p (phases r) ->
  exists line, In line (split isLF content) /\ headerOfLine line p.
Proof.
  intros H Hp. destruct (parseTasksFile_parts _ _ _ _ H) as [deps [_ [E _]]].
  rewrite E in Hp. destruct (In_attachDependencies _ _ _ Hp) as [q [Hq [S _]]].
  destruct (In_phasesFrom_header _ _ _ Hq) as [[c [Ec _]]|[line [m [Hl [Em Sm]]]]];
    [discriminate|].
  exists line. split; [exact Hl|].
  apply (headerOfLine_same line p q S), (headerOfLine_same line q _ Sm).
  now apply exec_PHASE_HEADER_shape.
Qed.

(** X10. Every phase of the result is read off a line of the document of
    the form [## Phase <digits>:<title>], with or without a priority marker
    [(Priority: P<digit>)] at its end: its number is the value of the
    digits as a double (so never negative), its title is the title text
    trimmed, and its priority is the marker's [P<digit>] if it has one. *)
Theorem phases_read_off_headers (fuel : nat) (content specFolder : jsstring)
  (r : ParseResult) (p : Phase) :
  Parser.parseTasksFile fuel content specFolder = Some r ->
  In p (phases r) ->
  0 <= number_ p /\
  exists line, In line (split isLF content) /\ headerOfLine line p.
Proof.
  intros H Hp. destruct (parseTasksFile_header _ _ _ _ _ H Hp) as [line [Hl S]].
  split; [|now exists line].
  destruct S as [ws1 [ws2 [ds [ws3 [g [tail [_ [_ [_ [[_ D] [_ [_ [_ [N _]]]]]]]]]]]]]].
  rewrite N. apply to_double_nonneg. now apply digitsValue_nonneg.
Qed.

Lemma phases_read_off_headers_witness :
  exists r p line,
    Parser.parseTasksFile 0 docExampleOne folder = Some r /\
    In p (phases r) /\ priority p = Some (js "P1") /\
    0 <= number_ p /\
    In line (split isLF docExampleOne) /\ headerOfLine line p.
Proof.
  destruct (Parser.parseTasksFile 0 docExampleOne folder) as [r|] eqn:E;
    [|vm_compute in E; discriminate].
  destruct (nth_error (phases r) 0) as [p|] eqn:G;
    [|vm_compute in E; injection E as <-; vm_compute in G; discriminate].
  assert (Hp : In p (phases r)) by (exact (nth_error_In _ _ G)).
  destruct (phases_read_off_headers 0 docExampleOne folder r p E Hp)
    as [N [line [L S]]].
  exists r, p, line. repeat (split; [assumption || reflexivity|]).
  split; [|now repeat split].
  vm_compute in E. injection E as <-. vm_compute in G. injection G as <-.
  reflexivity.
Defined.

(** ** Documents with CRLF line endings *)

Lemma last_app_nonempty (A : Type) (l1 l2 : list A) (d : A) :
  l2 <> [] -> last (l1 ++ l2) d = last l2 d.
Proof.
  intros N. induction l1 as [|x l1 IH]; [reflexivity|].
  cbn [app]. rewrite <- IH. cbn [last].
  destruct (l1 ++ l2) eqn:E; [|reflexivity].
  apply app_eq_nil in E. destruct E as [_ E]. contradiction.
Qed.

Lemma last_noLineTerminator (g : jsstring) :
  g <> [] -> noLineTerminator g -> isLineTerminator (last g 0%N) = false.
Proof.
  unfold noLineTerminator. induction g as [|x g IH]; [congruence|].
  intros _ H. cbn [forallb] in H. apply andb_true_iff in H. destruct H as [Hx H].
  destruct g as [|y g]; [cbn; now destruct (isLineTerminator x)|].
  change (last (x :: y :: g) 0%N) with (last (y :: g) 0%N).
  apply IH; [discriminate|exact H].
Qed.

Lemma headerOfLine_last (line : jsstring) (p : Phase) :
  headerOfLine line p -> line <> [] /\ isLineTerminator (last line 0%N) = false.
Proof.
  intros [ws1 [ws2 [ds [ws3 [g [tail [E [_ [_ [_ [_ [Ng [Fg [_ [_ T]]]]]]]]]]]]]]].
  split; [rewrite E; discriminate|].
  rewrite E. rewrite !app_assoc.
  destruct T as [[-> _]|[ws4 [ws5 [d [-> _]]]]].
  - rewrite app_nil_r, last_app_nonempty by exact Ng.
    now apply last_noLineTerminator.
  - rewrite !app_assoc. rewrite last_app_nonempty by discriminate. reflexivity.
Qed.

Lemma header_not_endsInCR (line : jsstring) :
  endsInCR line -> exec Parser.PHASE_HEADER_REGEX line = None.
Proof.
  intros C. destruct (exec Parser.PHASE_HEADER_REGEX line) as [m|] eqn:E;
    [|reflexivity].
  exfalso. destruct (headerOfLine_last _ _ (exec_PHASE_HEADER_shape _ _ E)) as [N L].
  destruct C as [->|[body ->]]; [congruence|].
  rewrite last_last in L. discriminate.
Qed.

Lemma headerNumbers_endsInCR (lines : list jsstring) :
  (forall line, In line lines -> endsInCR line) -> headerNumbers lines = [].
Proof.
  unfold headerNumbers. induction lines as [|line lines IH]; intros C;
    [reflexivity|].
  cbn [flat_map]. rewrite (header_not_endsInCR line) by (apply C; now left).
  apply IH. intros l Hl. apply C. now right.
Qed.

(** X11. In a document with CRLF line endings no line is a phase header:
    when every line (the document split at the line feeds) is empty or ends
    in a carriage return, the result has no phase, no task and no next
    phase. *)
Theorem crlf_document_has_no_phases (fuel : nat) (content specFolder : jsstring)
  (r : ParseResult) :
  (forall line, In line (split isLF content) -> endsInCR line) ->
  Parser.parseTasksFile fuel content specFolder = Some r ->
  phases r = [] /\ totalTasks r = 0%nat /\ completedTasks r = 0%nat /\
  nextPhase r = None /\ availablePhases r = [].
Proof.
  intros C H.
  destruct (parseTasksFile_parts _ _ _ _ H) as [deps [_ [E [Et [Ec En]]]]].
  assert (P : phases r = []).
  { apply map_eq_nil with (f := number_).
    rewrite E, attachDependencies_numbers.
    rewrite (phasesFrom_numbers (split isLF content) None). cbn [currentNumber app].
    now apply headerNumbers_endsInCR. }
  destruct (parseTasksFile_fields _ _ _ _ H) as [deps' [_ [_ [_ [_ [Ea _]]]]]].
  rewrite Et, Ec, En, Ea, P. now repeat split.
Qed.

Lemma crlf_document_has_no_phases_witness :
  (forall line, In line (split isLF docCRLF) -> endsInCR line) /\
  exists r,
    Parser.parseTasksFile 0 docCRLF folder = Some r /\
    phases r = [] /\ totalTasks r = 0%nat.
Proof.
  assert (C : forall line, In line (split isLF docCRLF) -> endsInCR line).
  { intros line H. vm_compute in H.
    destruct H as [<-|[<-|[<-|[<-|[]]]]];
      [right; exists (js "## Phase 1: Setup")
      |right; exists (js "- [X] T001 Create the project")
      |right; exists (js "- [ ] T002 Install the tools")
      |left]; reflexivity. }
  split; [exact C|].
  destruct (Parser.parseTasksFile 0 docCRLF folder) as [r|] eqn:E;
    [|vm_compute in E; discriminate].
  exists r. split; [reflexivity|].
  destruct (crlf_document_has_no_phases 0 docCRLF folder r C E) as [P [T _]].
  now split.
Defined.

(** ** "BLOCKS all" *)

Lemma test_BLOCKS_ALL (description : jsstring) :
  test BLOCKS_ALL_REGEX description =
  includesNoCase (js "BLOCKS all") description.
Proof.
  unfold test, exec, includesNoCase. generalize 0%nat as pos.
  induction description as [|x d IH]; intros pos.
  - reflexivity.
  - cbn [search map includes].
    assert (M : match matchAt BLOCKS_ALL_REGEX pos (x :: d) with
                | Some _ => true
                | None => false
                end = startsWith (map toUpper (js "BLOCKS all"))
                        (map toUpper (x :: d))).
    { unfold matchAt, BLOCKS_ALL_REGEX. cbn [source ignoreCase].
      rewrite run_Lit_ignoreCase. now destruct (startsWith _ _). }
    cbn [map] in M. rewrite <- M.
    destruct (matchAt BLOCKS_ALL_REGEX pos (x :: d)); [reflexivity|].
    cbn [orb]. apply IH.
Qed.

Lemma parsePhaseDependencyLine_blocks_all (line : jsstring)
  (all : list number) (n : number) (d : PhaseDependency) :
  parsePhaseDependencyLine line all = Some (n, d) ->
  test BLOCKS_ALL_REGEX (description d) = true ->
  blocks d = filter (fun m => n <? m) all.
Proof.
  unfold parsePhaseDependencyLine.
  destruct (exec PHASE_DEP_LINE_REGEX line) as [m|]; [|discriminate].
  cbv zeta. intros H. injection H as <- <-. cbn [description blocks].
  now intros ->.
Qed.

Lemma keys_before (fuel : nat) (content : jsstring)
  (before : Map.t PhaseDependency) :
  recordsBeforeReverse fuel content = Some before -> NoDup (map fst before).
Proof.
  unfold recordsBeforeReverse, collectRecords. cbv zeta.
  destruct (findIndex _ _) as [dss|];
    [|intros H; injection H as <-; constructor].
  set (pds := findIndex (fun l i => (_ && includes PHASE_DEPENDENCIES_HEADER l)%bool) _).
  set (pos := findIndex (fun l i => (_ && includes PARALLEL_OPPORTUNITIES_HEADER l)%bool) _).
  set (result := match pds with Some _ => _ | None => _ end).
  assert (K : NoDup (map fst result)).
  { subst result. destruct pds; [|constructor].
    apply keys_phaseDepLoop. constructor. }
  destruct pos as [p|].
  - destruct (parseParallelOpportunities _ _ _) as [pt|]; [|discriminate].
    intros H. injection H as <-. now apply keys_mergeParallel.
  - intros H. injection H as <-. exact K.
Qed.

(** The [blocks] of a record of the result: those of the record before the
    reverse relationships, and the phases that depend on it. *)
Lemma blocks_after_reverse (fuel : nat) (content : jsstring)
  (deps : Map.t PhaseDependency) (n : number) (r : PhaseDependency) :
  parseDependencies fuel content = Some deps ->
  Map.get n deps = Some r ->
  exists before r0,
    recordsBeforeReverse fuel content = Some before /\
    Map.get n before = Some r0 /\ r = setBlocks (blocks r) r0 /\
    Sorted Z.le (blocks r) /\
    forall x, In x (blocks r) <->
              In x (blocks r0) \/
              exists rx, Map.get x deps = Some rx /\ In n (dependsOn rx).
Proof.
  intros H Hg. destruct (parseDependencies_stages _ _ _ H) as [before [Hb Hd]].
  destruct (parseDependencies_get _ _ _ _ _ _ Hb Hd Hg)
    as [r0 [E0 [Er [Hs [Hbl _]]]]].
  exists before, r0. repeat (split; [assumption|]).
  pose proof (keys_before _ _ _ Hb) as K.
  intros x. rewrite Hbl.
  split; (intros [Hx|[rx [H1 H2]]]; [now left|right]).
  - pose proof (In_get_unique _ _ _ _ K H1) as Gx.
    pose proof (sortBlocks_buildReverse_get before x) as Lx. rewrite Gx in Lx.
    destruct Lx as [bsx [Ex _]]. rewrite <- Hd in Ex.
    exists (setBlocks bsx rx). now split.
  - destruct (parseDependencies_get _ _ _ _ _ _ Hb Hd H1) as [rx0 [G0 [Erx _]]].
    exists rx0. split; [now apply get_In|]. rewrite Erx in H2. exact H2.
Qed.

(** X12. A record whose description contains "blocks all" (in any case)
    blocks, in ascending order, the numbers of the master list that are
    greater than its own, together with the phases whose [dependsOn] names
    it. *)
Theorem blocks_all_expansion (fuel : nat) (content : jsstring)
  (deps : Map.t PhaseDependency) (n : number) (r : PhaseDependency) :
  parseDependencies fuel content = Some deps ->
  Map.get n deps = Some r ->
  includesNoCase (js "BLOCKS all") (description r) = true ->
  Sorted Z.le (blocks r) /\
  forall x, In x (blocks r) <->
            (In x (masterList content) /\ n < x) \/
            exists rx, Map.get x deps = Some rx /\ In n (dependsOn rx).
Proof.
  intros H Hg Hc. rewrite <- test_BLOCKS_ALL in Hc.
  destruct (blocks_after_reverse _ _ _ _ _ H Hg)
    as [before [r0 [Hb [E0 [Er [Hs Hbl]]]]]].
  split; [exact Hs|]. intros x. rewrite Hbl.
  rewrite Er in Hc. cbn [setBlocks description] in Hc.
  assert (B : blocks r0 = filter (fun m => n <? m) (masterList content)).
  { clear Hg Er Hs Hbl H. revert n r0 E0 Hc.
    change (allRecords (fun n r0 =>
              test BLOCKS_ALL_REGEX (description r0) = true ->
              blocks r0 = filter (fun m => n <? m) (masterList content)) before).
    apply (allRecords_before _ fuel content before); [| | |exact Hb].
    - intros line k d. apply parsePhaseDependencyLine_blocks_all.
    - intros k r1 t Hr. exact Hr.
    - intros k t. cbn [placeholder description]. discriminate. }
  rewrite B, filter_In, Z.ltb_lt. reflexivity.
Qed.

Lemma blocks_all_expansion_witness :
  exists deps r,
    parseDependencies 5 docFull = Some deps /\
    Map.get 1 deps = Some r /\
    masterList docFull = [1; 2; 3] /\
    blocks r = [2; 3] /\
    forall x, In x (blocks r) <->
              (In x (masterList docFull) /\ 1 < x) \/
              exists rx, Map.get x deps = Some rx /\ In 1 (dependsOn rx).
Proof.
  destruct (parseDependencies 5 docFull) as [deps|] eqn:E;
    [|vm_compute in E; discriminate].
  destruct (Map.get 1 deps) as [r|] eqn:G;
    [|vm_compute in E; injection E as <-; vm_compute in G; discriminate].
  exists deps, r. split; [reflexivity|]. split; [exact G|].
  split; [vm_compute; reflexivity|].
  split; [vm_compute in E; injection E as <-; vm_compute in G;
          injection G as <-; reflexivity|].
  apply (blocks_all_expansion 5 docFull deps 1 r E G).
  vm_compute in E. injection E as <-. vm_compute in G. injection G as <-.
  vm_compute. reflexivity.
Defined.

(** ** Where the records come from *)

Lemma allRecords_weaken (P Q : number -> PhaseDependency -> Prop)
  (m : Map.t PhaseDependency) :
  (forall k r, P k r -> Q k r) -> allRecords P m -> allRecords Q m.
Proof. intros H Hm k r G. apply H. now apply Hm. Qed.

Lemma phaseDepLoop_lines (all : list number) (lines : list jsstring) :
  forall (Q : number -> PhaseDependency -> Prop) m,
    allRecords Q m ->
    allRecords (fun n r => Q n r \/
                  exists line, In line (untilBoundary lines) /\
                    parsePhaseDependencyLine line all = Some (n, r))
      (phaseDepLoop all lines m).
Proof.
  induction lines as [|line lines IH]; intros Q m Hm;
    cbn [phaseDepLoop untilBoundary].
  - apply (allRecords_weaken Q); [|exact Hm]. intros k r H. now left.
  - unfold isBoundary.
    destruct (startsWith (js "###") line || startsWith (js "## ") line)%bool.
    + apply (allRecords_weaken Q); [|exact Hm]. intros k r H. now left.
    + assert (Later : forall Q' m',
                allRecords Q' m' ->
                (forall k r, Q' k r -> Q k r \/
                   parsePhaseDependencyLine line all = Some (k, r)) ->
                allRecords (fun n r => Q n r \/
                   exists l, In l (line :: untilBoundary lines) /\
                     parsePhaseDependencyLine l all = Some (n, r))
                  (phaseDepLoop all lines m')).
      { intros Q' m' Hm' HQ. intros k r G.
        destruct (IH Q' m' Hm' k r G) as [H|[l [Hl E]]].
        - destruct (HQ k r H) as [H'|H']; [now left|right].
          exists line. split; [now left|exact H'].
        - right. exists l. split; [now right|exact E]. }
      destruct (isEmpty (trim line)).
      * apply (Later Q m Hm). intros k r H. now left.
      * destruct (parsePhaseDependencyLine line all) as [[n d]|] eqn:E.
        -- apply (Later (fun k r => Q k r \/ (k = n /\ r = d))).
           ++ apply allRecords_set.
              ** apply (allRecords_weaken Q); [|exact Hm]. intros k r H. now left.
              ** right. now split.
           ++ intros k r [H|[-> ->]]; [now left|now right].
        -- apply (Later Q m Hm). intros k r H. now left.
Qed.

Lemma In_set (V : Type) (k k' : number) (v v' : V) (m : Map.t V) :
  In (k, v) (Map.set k' v' m) -> (k = k' /\ v = v') \/ In (k, v) m.
Proof.
  induction m as [|[k0 v0] m IH]; cbn [Map.set].
  - intros [H|[]]. injection H as <- <-. now left.
  - destruct (Z.eqb k' k0).
    + intros [H|H]; [injection H as <- <-; now left|right; now right].
    + intros [H|H]; [right; now left|].
      destruct (IH H) as [H'|H']; [now left|right; now right].
Qed.

Lemma parseParallelOpportunities_entries (fuel : nat) (lines : list jsstring) :
  forall acc pt,
    parseParallelOpportunities fuel lines acc = Some pt ->
    forall n ts, In (n, ts) pt ->
      In (n, ts) acc \/
      exists line, In line lines /\ tasksOfLine fuel line n ts.
Proof.
  induction lines as [|line lines IH]; intros acc pt H n ts Hin;
    cbn [parseParallelOpportunities] in H.
  - injection H as <-. now left.
  - assert (Later : forall acc',
              parseParallelOpportunities fuel lines acc' = Some pt ->
              (In (n, ts) acc' -> In (n, ts) acc \/ tasksOfLine fuel line n ts) ->
              In (n, ts) acc \/
              exists l, In l (line :: lines) /\ tasksOfLine fuel l n ts).
    { intros acc' H' K. destruct (IH _ _ H' n ts Hin) as [G|[l [Hl T]]].
      - destruct (K G) as [G'|G']; [now left|right].
        exists line. split; [now left|exact G'].
      - right. exists l. split; [now right|exact T]. }
    destruct (exec PARALLEL_OPP_LINE_REGEX line) as [m|] eqn:E;
      [|apply (Later acc H); now left].
    cbv zeta in H.
    destruct (extractParallelTasks fuel (captureOr m 2 [])) as [tasks|] eqn:X;
      [|discriminate].
    apply (Later _ H). destruct tasks as [|t0 tasks]; cbn [isEmpty]; [now left|].
    intros G. apply In_set in G. destruct G as [[-> ->]|G]; [right|now left].
    exists m. repeat split; [exact E|exact X|discriminate].
Qed.

Lemma recordInv_more (L : list jsstring) (all : list number)
  (done done' : list (number * list jsstring)) (n : number) (r : PhaseDependency) :
  (forall e, In e done -> In e done') ->
  recordInv L all done n r -> recordInv L all done' n r.
Proof.
  intros S [[line [d [Hl [E [->|[ts [Ht ->]]]]]]]|[ts [Ht ->]]].
  - left. exists line, d. repeat split; [exact Hl|exact E|now left].
  - left. exists line, d. repeat split; [exact Hl|exact E|].
    right. exists ts. split; [now apply S|reflexivity].
  - right. exists ts. split; [now apply S|reflexivity].
Qed.

Lemma mergeParallel_records (L : list jsstring) (all : list number)
  (pt : Map.t (list jsstring)) :
  forall done m,
    allRecords (recordInv L all done) m ->
    allRecords (recordInv L all (done ++ pt)) (mergeParallel pt m).
Proof.
  unfold mergeParallel.
  induction pt as [|[k t] pt IH]; intros done m Hm; cbn [fold_left].
  - now rewrite app_nil_r.
  - replace (done ++ (k, t) :: pt) with ((done ++ [(k, t)]) ++ pt)
      by (now rewrite <- app_assoc).
    apply IH.
    assert (W : allRecords (recordInv L all (done ++ [(k, t)])) m).
    { apply (allRecords_weaken (recordInv L all done)); [|exact Hm].
      intros n r. apply recordInv_more. intros e He. apply in_or_app. now left. }
    assert (Here : In (k, t) (done ++ [(k, t)]))
      by (apply in_or_app; right; now left).
    destruct (Map.get k m).
    + apply allRecords_update; [exact W|].
      intros r [[line [d [Hl [E [->|[ts [Ht ->]]]]]]]|[ts [Ht ->]]].
      * left. exists line, d. repeat split; [exact Hl|exact E|].
        right. exists t. now split.
      * left. exists line, d. repeat split; [exact Hl|exact E|].
        right. exists t. now split.
      * right. exists t. now split.
    + apply allRecords_set; [exact W|]. right. exists t. now split.
Qed.

Lemma before_records (fuel : nat) (content : jsstring)
  (before : Map.t PhaseDependency) :
  recordsBeforeReverse fuel content = Some before ->
  exists pt,
    (forall n ts, In (n, ts) pt ->
       exists line,
         In line (parallelOpportunityLines content) /\
         tasksOfLine fuel line n ts) /\
    allRecords (recordInv (phaseDependencyLines content) (masterList content) pt)
      before.
Proof.
  unfold recordsBeforeReverse, phaseDependencyLines, parallelOpportunityLines,
    collectRecords.
  cbv zeta.
  destruct (findIndex _ _) as [dss|].
  2:{ intros H. injection H as <-. exists []. split; [intros n ts []|].
      intros k r. discriminate. }
  fold (masterList content).
  set (pds := findIndex (fun l i => (_ && includes PHASE_DEPENDENCIES_HEADER l)%bool) _).
  set (pos := findIndex (fun l i => (_ && includes PARALLEL_OPPORTUNITIES_HEADER l)%bool) _).
  set (L := match pds with Some _ => _ | None => [] end).
  set (result := match pds with Some _ => _ | None => _ end).
  assert (Hr : allRecords (recordInv L (masterList content) []) result).
  { subst result L. destruct pds as [p|]; [|intros k r; discriminate].
    intros k r G.
    assert (B : allRecords (fun (_ : number) (_ : PhaseDependency) => False) [])
      by (intros k0 r0; discriminate).
    destruct (phaseDepLoop_lines (masterList content) _ _ [] B k r G)
      as [[]|[line [Hl E]]].
    left. exists line, r. repeat split; [exact Hl|exact E|now left]. }
  clearbody result L. destruct pos as [q|].
  - destruct (parseParallelOpportunities fuel _ []) as [pt|] eqn:P; [|discriminate].
    intros H. injection H as <-. exists pt. split.
    + intros n ts Hin.
      destruct (parseParallelOpportunities_entries _ _ _ _ P n ts Hin)
        as [[]|[line [Hl T]]].
      now exists line.
    + exact (mergeParallel_records L (masterList content) pt [] result Hr).
  - intros H. injection H as <-. exists []. split; [intros n ts []|exact Hr].
Qed.

(** X13. Every record of the result comes from the document: from a line of
    the Phase Dependencies block that parses to its number, whose
    [shortName], [dependsOn], [canRunParallelWith] and [description] it
    keeps, or from a line of the Parallel Opportunities block alone, those
    fields being empty.  Its
    [parallelTasks], unless empty, are the tasks of a line of the Parallel
    Opportunities block for its number. *)
Theorem records_come_from_lines (fuel : nat) (content : jsstring)
  (deps : Map.t PhaseDependency) (n : number) (r : PhaseDependency) :
  parseDependencies fuel content = Some deps ->
  Map.get n deps = Some r ->
  (exists line d,
     In line (phaseDependencyLines content) /\
     parsePhaseDependencyLine line (masterList content) = Some (n, d) /\
     shortName r = shortName d /\ dependsOn r = dependsOn d /\
     canRunParallelWith r = canRunParallelWith d /\
     description r = description d /\
     (parallelTasks r = [] \/
      exists pline,
        In pline (parallelOpportunityLines content) /\
        tasksOfLine fuel pline n (parallelTasks r))) \/
  (shortName r = [] /\ dependsOn r = [] /\ canRunParallelWith r = [] /\
   description r = [] /\
   exists pline,
     In pline (parallelOpportunityLines content) /\
     tasksOfLine fuel pline n (parallelTasks r)).
Proof.
  intros H Hg.
  destruct (blocks_after_reverse _ _ _ _ _ H Hg)
    as [before [r0 [Hb [E0 [Er _]]]]].
  destruct (before_records _ _ _ Hb) as [pt [Hpt Hall]].
  rewrite Er. cbn [setBlocks shortName dependsOn canRunParallelWith description
                   parallelTasks].
  destruct (Hall n r0 E0) as [[line [d [Hl [E [->|[ts [Ht ->]]]]]]]|[ts [Ht ->]]].
  - left. exists line, d. repeat (split; [assumption || reflexivity|]).
    left. unfold parsePhaseDependencyLine in E.
    destruct (exec PHASE_DEP_LINE_REGEX line); [|discriminate].
    cbv zeta in E. injection E as _ <-. reflexivity.
  - left. exists line, d. repeat (split; [assumption || reflexivity|]).
    right. apply Hpt. exact Ht.
  - right. repeat (split; [reflexivity|]). apply Hpt. exact Ht.
Qed.

Lemma records_come_from_lines_witness :
  exists deps r line d pline,
    parseDependencies 5 docFull = Some deps /\
    Map.get 2 deps = Some r /\
    In line (phaseDependencyLines docFull) /\
    parsePhaseDependencyLine line (masterList docFull) = Some (2, d) /\
    dependsOn r = dependsOn d /\
    In pline (parallelOpportunityLines docFull) /\
    tasksOfLine 5 pline 2 (parallelTasks r).
Proof.
  destruct (parseDependencies 5 docFull) as [deps|] eqn:E;
    [|vm_compute in E; discriminate].
  destruct (Map.get 2 deps) as [r|] eqn:G;
    [|vm_compute in E; injection E as <-; vm_compute in G; discriminate].
  assert (T : parallelTasks r <> []).
  { vm_compute in E. injection E as <-. vm_compute in G. injection G as <-.
    discriminate. }
  assert (S : shortName r <> []).
  { vm_compute in E. injection E as <-. vm_compute in G. injection G as <-.
    discriminate. }
  destruct (records_come_from_lines 5 docFull deps 2 r E G)
    as [[line [d [Hl [Ep [_ [Ed [_ [_ [Hn|[pline [Hp Ht]]]]]]]]]]]|[Hs _]];
    [contradiction| |contradiction].
  exists deps, r, line, d, pline. repeat (split; [assumption || reflexivity|]).
  exact Ht.
Defined.

(** ** The parallel tasks of a record *)

Lemma str_leb_total (x y : jsstring) : str_leb x y = false -> str_le y x.
Proof.
  unfold str_le. revert y. induction x as [|a x IH]; intros [|b y]; cbn;
    try discriminate; try reflexivity.
  destruct (N.ltb_spec a b); [discriminate|].
  destruct (N.ltb_spec b a); [reflexivity|].
  destruct (N.ltb_spec b a); [lia|].
  destruct (N.ltb_spec a b); [lia|]. apply IH.
Qed.

Lemma sortStrings_sorted (l : list jsstring) : Sorted str_le (sortStrings l).
Proof.
  unfold sortStrings. apply sort_sorted.
  - intros x y H. exact H.
  - exact str_leb_total.
Qed.

Lemma NoDup_dedupeFrom (l : list jsstring) :
  forall seen, NoDup (dedupeFrom str_eqb seen l).
Proof.
  induction l as [|x l IH]; intros seen; cbn [dedupeFrom]; [constructor|].
  destruct (existsb (str_eqb x) seen); [apply IH|].
  constructor; [|apply IH].
  intros H. apply dedupeFrom_In in H. destruct H as [_ H]. apply H. now left.
Qed.

Lemma string_of_uint_digits (u : Decimal.uint) :
  forallb isDigit (js (NilZero.string_of_uint u)) = true.
Proof.
  assert (A : forall v, forallb isDigit (js (NilEmpty.string_of_uint v)) = true).
  { induction v; [reflexivity| | | | | | | | | |];
      (change (forallb isDigit (js (NilEmpty.string_of_uint v)) = true) in IHv;
       cbn [NilEmpty.string_of_uint]; unfold js in *; cbn [list_ascii_of_string map forallb];
       rewrite IHv; reflexivity). }
  destruct u; try reflexivity; apply A.
Qed.

Lemma isTaskId_taskIdOf (ds : jsstring) :
  forallb isDigit ds = true -> isTaskId (taskIdOf ds).
Proof.
  intros H. exists (padStart 3 ds). split; [reflexivity|]. unfold padStart. split.
  - rewrite length_app, repeat_length. lia.
  - rewrite forallb_app, H, andb_true_r.
    induction (3 - length ds)%nat as [|k IH]; [reflexivity|]. cbn. exact IH.
Qed.

Lemma rangeLoop_ids (fuel : nat) :
  forall i e t p t' p',
    rangeLoop fuel i e t p = Some (t', p') ->
    Forall isTaskId t -> Forall isTaskId t'.
Proof.
  induction fuel as [|fuel IH]; intros i e t p t' p' H Ht; cbn [rangeLoop] in H;
    [discriminate|].
  destruct (i <=? e).
  - cbv zeta in H. destruct (setAdd _ p) as [p1|]; [|discriminate].
    apply (IH _ _ _ _ _ _ H). apply Forall_app. split; [exact Ht|].
    constructor; [|constructor]. apply isTaskId_taskIdOf.
    apply string_of_uint_digits.
  - injection H as <- _. exact Ht.
Qed.

Lemma rangesLoop_ids (fuel : nat) (ms : list MatchResult) :
  forall t p t' p',
    rangesLoop fuel ms t p = Some (t', p') ->
    Forall isTaskId t -> Forall isTaskId t'.
Proof.
  induction ms as [|m ms IH]; intros t p t' p' H Ht; cbn [rangesLoop] in H.
  - injection H as <- _. exact Ht.
  - cbv zeta in H.
    destruct (rangeLoop fuel _ _ t p) as [[t1 p1]|] eqn:E; [|discriminate].
    apply (IH _ _ _ _ H). exact (rangeLoop_ids _ _ _ _ _ _ _ E Ht).
Qed.

Lemma scanIds_digits (s : jsstring) (ds : jsstring) :
  In ds (scanIds s) -> forallb isDigit ds = true.
Proof.
  induction s as [|c s IH]; cbn [scanIds]; [intros []|].
  destruct (N.eqb c 84 && startsWithDigit s)%bool; [|exact IH].
  intros [<-|H]; [apply forallb_takeWhile|now apply IH].
Qed.

Lemma extractParallelTasks_shape (fuel : nat) (description : jsstring)
  (ts : list jsstring) :
  extractParallelTasks fuel description = Some ts ->
  NoDup ts /\ Sorted str_le ts /\ forall x, In x ts -> isTaskId x.
Proof.
  unfold extractParallelTasks.
  destruct (rangesLoop fuel _ [] []) as [[t p]|] eqn:E; [|discriminate].
  cbv zeta. destruct (newSet _) as [entries|] eqn:S; [|discriminate].
  apply newSet_dedupe in S. subst entries.
  intros H. injection H as <-. split; [|split].
  - apply (Permutation_NoDup (l := dedupe str_eqb (idsLoop
             (matchAll TASK_ID_REGEX description) t p))).
    + symmetry. apply sort_perm.
    + apply NoDup_dedupeFrom.
  - apply sortStrings_sorted.
  - intros x Hx. unfold sortStrings in Hx.
    apply (proj1 (sort_In _ _ _ _)) in Hx. apply (proj1 (dedupe_In _ _)) in Hx.
    rewrite idsLoop_filter in Hx. apply in_app_or in Hx.
    destruct Hx as [Hx|Hx].
    + pose proof (rangesLoop_ids _ _ _ _ _ _ E (Forall_nil _)) as F.
      rewrite Forall_forall in F. now apply F.
    + apply filter_In in Hx. destruct Hx as [Hx _].
      rewrite matchAll_TASK_ID in Hx. apply in_map_iff in Hx.
      destruct Hx as [ds [<- Hd]]. apply isTaskId_taskIdOf.
      now apply (scanIds_digits description).
Qed.

(** X14. The [parallelTasks] of every record of the result are task IDs,
    each [T] and at least three digits, without duplicates and in the
    ascending order of their code units. *)
Theorem parallelTasks_sorted_distinct (fuel : nat) (content : jsstring)
  (deps : Map.t PhaseDependency) (n : number) (r : PhaseDependency) :
  parseDependencies fuel content = Some deps ->
  Map.get n deps = Some r ->
  NoDup (parallelTasks r) /\ Sorted str_le (parallelTasks r) /\
  forall x, In x (parallelTasks r) -> isTaskId x.
Proof.
  intros H Hg.
  destruct (blocks_after_reverse _ _ _ _ _ H Hg)
    as [before [r0 [Hb [E0 [Er _]]]]].
  destruct (before_records _ _ _ Hb) as [pt [Hpt Hall]].
  rewrite Er. cbn [setBlocks parallelTasks].
  assert (Empty : NoDup (@nil jsstring) /\ Sorted str_le [] /\
                  forall x, In x (@nil jsstring) -> isTaskId x).
  { split; [constructor|]. split; [constructor|]. intros x []. }
  assert (From : forall ts, In (n, ts) pt ->
            NoDup ts /\ Sorted str_le ts /\ forall x, In x ts -> isTaskId x).
  { intros ts Ht. destruct (Hpt n ts Ht) as [line [_ [m [_ [_ [X _]]]]]].
    exact (extractParallelTasks_shape _ _ _ X). }
  destruct (Hall n r0 E0) as [[line [d [Hl [E [->|[ts [Ht ->]]]]]]]|[ts [Ht ->]]].
  - unfold parsePhaseDependencyLine in E.
    destruct (exec PHASE_DEP_LINE_REGEX line); [|discriminate].
    cbv zeta in E. injection E as _ <-. exact Empty.
  - now apply From.
  - now apply From.
Qed.

Lemma parallelTasks_sorted_distinct_witness :
  exists deps r,
    parseDependencies 5 docFull = Some deps /\
    Map.get 2 deps = Some r /\
    parallelTasks r = [js "T002"; js "T004"; js "T005"] /\
    NoDup (parallelTasks r) /\ Sorted str_le (parallelTasks r).
Proof.
  destruct (parseDependencies 5 docFull) as [deps|] eqn:E;
    [|vm_compute in E; discriminate].
  destruct (Map.get 2 deps) as [r|] eqn:G;
    [|vm_compute in E; injection E as <-; vm_compute in G; discriminate].
  exists deps, r. split; [reflexivity|]. split; [exact G|].
  destruct (parallelTasks_sorted_distinct 5 docFull deps 2 r E G) as [N [S _]].
  split; [|now split].
  vm_compute in E. injection E as <-. vm_compute in G. injection G as <-.
  reflexivity.
Defined.

(** ** The blocked-by indicator of the formatter *)

Lemma find_number (phases : list Phase) (d : number) (q : Phase) :
  find (fun p => Z.eqb (number_ p) d) phases = Some q ->
  In q phases /\ number_ q = d.
Proof.
  intros H. apply find_some in H. destruct H as [Hq E].
  split; [exact Hq|]. now apply Z.eqb_eq.
Qed.

Lemma NoDup_numbers_eq (phases : list Phase) (p q : Phase) :
  NoDup (map number_ phases) -> In p phases -> In q phases ->
  number_ p = number_ q -> p = q.
Proof.
  induction phases as [|a l IH]; intros N Hp Hq E; [destruct Hp|].
  cbn [map] in N. inversion N as [|? ? Ha Hl]; subst.
  destruct Hp as [->|Hp], Hq as [->|Hq]; [reflexivity| | |now apply IH].
  - exfalso. apply Ha. rewrite E. now apply in_map.
  - exfalso. apply Ha. rewrite <- E. now apply in_map.
Qed.

Lemma depIndicator_shown (numberToString : number -> jsstring)
  (phase : Phase) (phases : list Phase) :
  Formatter.depIndicator numberToString phase phases true <> [] <->
  isComplete phase = false /\
  exists dep d q,
    dependency phase = Some dep /\ In d (dependsOn dep) /\
    find (fun p => Z.eqb (number_ p) d) phases = Some q /\
    isComplete q = false.
Proof.
  unfold Formatter.depIndicator. split.
  - intros H. destruct (dependency phase) as [dep|]; [|congruence].
    destruct (isComplete phase); [cbn in H; congruence|]. split; [reflexivity|].
    cbn [andb negb] in H.
    destruct (dependsOn dep) as [|d0 ds] eqn:D; [cbn in H; congruence|].
    cbn [isEmpty negb] in H. cbv zeta in H.
    destruct (Formatter.blockedBy dep phases) as [|d bs] eqn:B;
      [cbn in H; congruence|].
    assert (Hd : In d (Formatter.blockedBy dep phases)) by (rewrite B; now left).
    unfold Formatter.blockedBy in Hd. apply filter_In in Hd.
    destruct Hd as [Hd Hf].
    destruct (find (fun p => Z.eqb (number_ p) d) phases) as [q|] eqn:F;
      [|discriminate].
    exists dep, d, q. split; [reflexivity|]. split; [first [exact Hd|rewrite D; exact Hd]|].
    split; [exact F|]. now destruct (isComplete q).
  - intros [C [dep [d [q [E [Hd [F Q]]]]]]]. rewrite E, C. cbn [andb negb].
    destruct (dependsOn dep) as [|d0 ds] eqn:D; [destruct Hd|].
    cbn [isEmpty negb]. cbv zeta.
    assert (B : In d (Formatter.blockedBy dep phases)).
    { unfold Formatter.blockedBy. apply filter_In. rewrite D. split; [exact Hd|].
      now rewrite F, Q. }
    destruct (Formatter.blockedBy dep phases); [destruct B|].
    cbn [isEmpty negb]. discriminate.
Qed.

Lemma In_calculateAvailablePhases (phases : list Phase) (n : number) :
  In n (calculateAvailablePhases phases) <->
  exists p, In p phases /\ Spec.available phases p = true /\ number_ p = n.
Proof.
  rewrite calculateAvailablePhases_unfold. unfold sortNumbers.
  rewrite sort_In, in_map_iff. split; intros [p H]; exists p.
  - destruct H as [E H]. apply filter_In in H. tauto.
  - destruct H as [Hp [A E]]. split; [exact E|]. apply filter_In. tauto.
Qed.

(** X15. The formatter and the availability engine agree when the phase
    numbers are distinct: a phase whose status line shows a blocked-by
    indicator is not among the available numbers.  Conversely a phase that
    is not complete, has a dependency record all of whose [dependsOn]
    numbers are numbers of phases of the list, and is not available, shows
    the indicator. *)
Theorem blocked_indicator_agrees (numberToString : number -> jsstring)
  (phases : list Phase) (p : Phase) :
  In p phases ->
  (NoDup (map number_ phases) ->
   Formatter.depIndicator numberToString p phases true <> [] ->
   ~ In (number_ p) (calculateAvailablePhases phases)) /\
  (forall dep,
     isComplete p = false -> dependency p = Some dep ->
     (forall d, In d (dependsOn dep) -> In d (map number_ phases)) ->
     ~ In (number_ p) (calculateAvailablePhases phases) ->
     Formatter.depIndicator numberToString p phases true <> []).
Proof.
  intros Hp. split.
  - intros N S A. apply depIndicator_shown in S.
    destruct S as [C [dep [d [q [E [Hd [F Q]]]]]]].
    apply In_calculateAvailablePhases in A. destruct A as [p' [Hp' [A En]]].
    assert (p' = p) by (now apply (NoDup_numbers_eq phases)). subst p'.
    apply available_spec in A. destruct A as [_ A].
    destruct (A dep d E Hd) as [q' [Hq' [Cq' Eq']]].
    destruct (find_number _ _ _ F) as [Hq Eq].
    assert (q' = q) by (apply (NoDup_numbers_eq phases); congruence). subst q'.
    congruence.
  - intros dep C E K U. apply depIndicator_shown. split; [exact C|].
    assert (A : Spec.available phases p = false).
    { destruct (Spec.available phases p) eqn:A; [|reflexivity].
      exfalso. apply U. apply In_calculateAvailablePhases. now exists p. }
    unfold Spec.available in A. rewrite C, E in A. cbn [negb andb] in A.
    assert (X : exists d, In d (dependsOn dep) /\
                  Spec.isCompleteNumber phases d = false).
    { clear -A. induction (dependsOn dep) as [|d ds IH]; [discriminate|].
      cbn [forallb] in A. destruct (Spec.isCompleteNumber phases d) eqn:I.
      - destruct (IH A) as [d' [Hd' I']]. exists d'. split; [now right|exact I'].
      - exists d. split; [now left|exact I]. }
    destruct X as [d [Hd I]].
    destruct (find (fun q => Z.eqb (number_ q) d) phases) as [q|] eqn:F.
    + exists dep, d, q. repeat split; try assumption.
      destruct (isComplete q) eqn:Q; [|reflexivity].
      destruct (find_number _ _ _ F) as [Hq Eq].
      assert (Spec.isCompleteNumber phases d = true); [|congruence].
      apply isCompleteNumber_spec. now exists q.
    + exfalso. specialize (K d Hd). apply in_map_iff in K.
      destruct K as [q [Eq Hq]].
      pose proof (find_none _ _ F q Hq) as G. cbn in G.
      rewrite Eq, Z.eqb_refl in G. discriminate.
Qed.

Lemma blocked_indicator_agrees_witness :
  Formatter.depIndicator toString (mkPhase 2 false (Some [1])) phasesChain true <> [] /\
  ~ In 2 (calculateAvailablePhases phasesChain).
Proof.
  assert (Hp : In (mkPhase 2 false (Some [1])) phasesChain) by (right; now left).
  assert (N : NoDup (map number_ phasesChain)).
  { cbn. repeat constructor; cbn; intuition discriminate. }
  assert (S : Formatter.depIndicator toString (mkPhase 2 false (Some [1]))
                phasesChain true <> []) by (vm_compute; discriminate).
  split; [exact S|].
  exact (proj1 (blocked_indicator_agrees toString phasesChain _ Hp) N S).
Defined.

(** Without the two hypotheses the two computations differ: a phase can be
    shown as blocked by a number that a later, complete phase bears too,
    and a phase that waits for a number no phase bears is not available
    and not shown as blocked. *)
Lemma blocked_and_available_with_duplicates :
  Formatter.depIndicator toString (mkPhase 2 false (Some [1])) phasesTwice true <> [] /\
  In 2 (calculateAvailablePhases phasesTwice).
Proof.
  split; [vm_compute; discriminate|vm_compute; tauto].
Qed.

Lemma unavailable_not_blocked_when_missing :
  Formatter.depIndicator toString (mkPhase 2 false (Some [9])) phasesMissing true = [] /\
  ~ In 2 (calculateAvailablePhases phasesMissing).
Proof.
  split; [reflexivity|]. vm_compute. intros [].
Qed.

(** ** What the matcher finds *)

Lemma run_complete_both (ic : bool) (r : regex) (pos : nat) (w s' : jsstring)
  (c : captures) :
  matches ic r pos w s' c ->
  (forall caps k res,
     k (pos + length w)%nat s' (c ++ caps) = Some res ->
     exists res', run ic r pos (w ++ s') caps k = Some res') /\
  (forall g r1, r = Star g r1 ->
     forall fuel, (length w <= fuel)%nat ->
     forall caps k res,
       k (pos + length w)%nat s' (c ++ caps) = Some res ->
       exists res', starLoop g (run ic r1) k fuel pos (w ++ s') caps = Some res').
Proof.
  intros H.
  induction H as [pos s'|ch x pos s' E|cs x pos s' E
                 |r1 r2 pos w1 w2 s' c1 c2 H1 IH1 H2 IH2
                 |r1 r2 pos w s' c H1 IH1|r1 r2 pos w s' c H2 IH2
                 |g r pos s'|g r pos w1 w2 s' c1 c2 N H1 IH1 H2 IH2
                 |i r pos w s' c H1 IH1|s'|pos].
  - split; [|discriminate]. intros caps k res K. cbn in *.
    rewrite Nat.add_0_r in K. now exists res.
  - split; [|discriminate]. intros caps k res K. cbn in *. rewrite E.
    rewrite Nat.add_1_r in K. now exists res.
  - split; [|discriminate]. intros caps k res K. cbn in *. rewrite E.
    rewrite Nat.add_1_r in K. now exists res.
  - split; [|discriminate]. intros caps k res K. cbn [run].
    rewrite length_app, Nat.add_assoc, <- app_assoc in K.
    destruct (proj1 IH2 _ _ _ K) as [res2 K2].
    rewrite <- app_assoc. exact (proj1 IH1 _ _ _ K2).
  - split; [|discriminate]. intros caps k res K. cbn [run].
    destruct (proj1 IH1 _ _ _ K) as [res1 K1]. rewrite K1. now exists res1.
  - split; [|discriminate]. intros caps k res K. cbn [run].
    destruct (run ic r1 pos (w ++ s') caps k) as [res1|]; [now exists res1|].
    exact (proj1 IH2 _ _ _ K).
  - assert (A : forall fuel caps k res,
              k (pos + 0)%nat s' ([] ++ caps) = Some res ->
              exists res', starLoop g (run ic r) k fuel pos s' caps = Some res').
    { intros fuel caps k res K. cbn in K. rewrite Nat.add_0_r in K.
      destruct fuel as [|fuel]; cbn [starLoop]; [now exists res|].
      destruct g.
      - destruct (run ic r pos s' caps _) as [res1|]; [now exists res1|now exists res].
      - rewrite K. now exists res. }
    split.
    + intros caps k res K. cbn [run app]. now apply (A _ _ _ res).
    + intros g0 r0 E fuel _ caps k res K. injection E as <- <-.
      cbn [app]. now apply (A _ _ _ res).
  - assert (A : forall fuel, (length (w1 ++ w2) <= fuel)%nat ->
              forall caps k res,
                k (pos + length (w1 ++ w2))%nat s' ((c2 ++ c1) ++ caps) = Some res ->
                exists res',
                  starLoop g (run ic r) k fuel pos ((w1 ++ w2) ++ s') caps = Some res').
    { intros fuel L caps k res K.
      assert (L1 : (1 <= length w1)%nat) by (destruct w1; [congruence|cbn; lia]).
      rewrite length_app in L. destruct fuel as [|fuel]; [lia|].
      rewrite length_app, Nat.add_assoc, <- app_assoc in K.
      destruct (proj2 IH2 g r eq_refl fuel ltac:(lia) _ _ _ K) as [res2 K2].
      assert (K' : (fun pos' s'' caps' =>
                      if Nat.eqb pos' pos then None
                      else starLoop g (run ic r) k fuel pos' s'' caps')
                     (pos + length w1)%nat (w2 ++ s') (c1 ++ caps) = Some res2).
      { cbv beta. destruct (Nat.eqb_spec (pos + length w1) pos); [lia|exact K2]. }
      destruct (proj1 IH1 _ _ _ K') as [res1 K1].
      cbn [starLoop]. rewrite <- app_assoc. rewrite K1.
      destruct g; [now exists res1|].
      destruct (k pos (w1 ++ w2 ++ s') caps) as [res0|]; [now exists res0|now exists res1]. }
    split.
    + intros caps k res K. cbn [run].
      apply (A (length ((w1 ++ w2) ++ s'))) with (res := res);
        [rewrite !length_app; lia|exact K].
    + intros g0 r0 E fuel L caps k res K. injection E as <- <-.
      now apply (A fuel L _ _ res).
  - split; [|discriminate]. intros caps k res K. cbn [run].
    apply (proj1 IH1 caps _ res). rewrite firstn_consumed. exact K.
  - split; [|discriminate]. intros caps k res K. cbn in *. now exists res.
  - split; [|discriminate]. intros caps k res K. cbn in *.
    rewrite Nat.add_0_r in K. now exists res.
Qed.

Lemma run_complete (ic : bool) (r : regex) (pos : nat) (w s' : jsstring)
  (c caps : captures) (k : cont) (res : nat * jsstring * captures) :
  matches ic r pos w s' c ->
  k (pos + length w)%nat s' (c ++ caps) = Some res ->
  exists res', run ic r pos (w ++ s') caps k = Some res'.
Proof.
  intros H. exact (proj1 (run_complete_both _ _ _ _ _ _ H) caps k res).
Qed.

Lemma exec_complete (R : RegExp) (line : jsstring) (c : captures) :
  matches (ignoreCase R) (source R) 0 line [] c ->
  exists m, exec R line = Some m.
Proof.
  intros H.
  destruct (run_complete _ _ _ _ _ _ [] accept (length line, [], c ++ []) H)
    as [[[e s1] caps] K]; [reflexivity|].
  unfold exec. destruct line as [|x line]; cbn [search]; unfold matchAt;
    rewrite app_nil_r in K; rewrite K; eexists; reflexivity.
Qed.

Lemma matches_Cat_intro (ic : bool) (r1 r2 : regex) (pos : nat)
  (w w1 w2 s' : jsstring) (c c1 c2 : captures) :
  matches ic r1 pos w1 (w2 ++ s') c1 ->
  matches ic r2 (pos + length w1) w2 s' c2 ->
  w = w1 ++ w2 -> c = c2 ++ c1 ->
  matches ic (Cat r1 r2) pos w s' c.
Proof. intros H1 H2 -> ->. now constructor. Qed.

Lemma matches_Lit_intro (ic : bool) (l : jsstring) :
  forall pos s', matches ic (Lit l) pos l s' [].
Proof.
  induction l as [|a l IH]; intros pos s'; [constructor|].
  change (Lit (a :: l)) with (Cat (Chr a) (Lit l)).
  apply (matches_Cat_intro ic _ _ pos _ [a] l s' _ [] []);
    [|apply IH|reflexivity|reflexivity].
  constructor. unfold char_eqb. apply N.eqb_refl.
Qed.

Lemma matches_Star_Cls_intro (ic g : bool) (cs : charset) (w : jsstring) :
  forallb (cls_mem ic cs) w = true ->
  forall pos s', matches ic (Star g (Cls cs)) pos w s' [].
Proof.
  induction w as [|x w IH]; intros F pos s'; [constructor|].
  cbn [forallb] in F. apply andb_true_iff in F. destruct F as [Fx F].
  change (x :: w) with ([x] ++ w). change (@nil (nat * jsstring)) with (@nil (nat * jsstring) ++ []).
  apply M_StarCons; [discriminate|now constructor|now apply IH].
Qed.

Lemma matches_Plus_Cls_intro (ic g : bool) (cs : charset) (w : jsstring) :
  w <> [] -> forallb (cls_mem ic cs) w = true ->
  forall pos s', matches ic (Plus g (Cls cs)) pos w s' [].
Proof.
  intros N F pos s'. destruct w as [|x w]; [congruence|].
  cbn [forallb] in F. apply andb_true_iff in F. destruct F as [Fx F].
  unfold Plus.
  apply (matches_Cat_intro ic _ _ pos _ [x] w s' _ [] []);
    [now constructor|now apply matches_Star_Cls_intro|reflexivity|reflexivity].
Qed.

Lemma matches_spaces_intro (g : bool) (w : jsstring) :
  spaces w -> forall pos s', matches false (Plus g (Cls cls_space)) pos w s' [].
Proof.
  intros [N F]. apply matches_Plus_Cls_intro; [exact N|].
  now rewrite (forallb_ext_eq _ _ isWhiteSpace w cls_space_mem).
Qed.

Lemma matches_digits_intro (g : bool) (w : jsstring) :
  digits w -> forall pos s', matches false (Plus g (Cls cls_digit)) pos w s' [].
Proof.
  intros [N F]. apply matches_Plus_Cls_intro; [exact N|].
  now rewrite (forallb_ext_eq _ _ isDigit w cls_digit_mem).
Qed.

Lemma run_unique (p : char -> bool) (a a' r r' : jsstring) (x x' : char) :
  forallb p a = true -> forallb p a' = true ->
  p x = false -> p x' = false ->
  a ++ x :: r = a' ++ x' :: r' ->
  a = a' /\ x = x' /\ r = r'.
Proof.
  revert a'. induction a as [|y a IH]; intros [|y' a'] F F' X X' E;
    cbn [app forallb] in *.
  - injection E as -> ->. now repeat split.
  - injection E as -> _. apply andb_true_iff in F'. destruct F' as [F' _].
    congruence.
  - injection E as -> _. apply andb_true_iff in F. destruct F as [F _].
    congruence.
  - injection E as -> E. apply andb_true_iff in F. apply andb_true_iff in F'.
    destruct (IH a' (proj2 F) (proj2 F') X X' E) as [-> [-> ->]].
    now repeat split.
Qed.

Lemma startsWithSpace_cons (u : jsstring) :
  startsWithSpace u = true ->
  exists c u0, u = c :: u0 /\ isWhiteSpace c = true.
Proof.
  destruct u as [|c u0]; [discriminate|]. intros H. now exists c, u0.
Qed.

Lemma taskOfLine_unique (line : jsstring) (t t' : Task) :
  taskOfLine line t -> taskOfLine line t' -> t = t'.
Proof.
  intros [ws1 [box [ws2 [ds [u [E [[_ S1] [[_ S2] [[Nd D] [_ [U [_ [I [C T]]]]]]]]]]]]]]
         [ws1' [box' [ws2' [ds' [u' [E' [[_ S1'] [[_ S2'] [[Nd' D'] [_ [U' [_ [I' [C' T']]]]]]]]]]]]]].
  rewrite E in E'. cbn [js app String.list_ascii_of_string map] in E'.
  injection E' as E'.
  destruct (run_unique isWhiteSpace ws1 ws1' _ _ 91%N 91%N S1 S1'
              eq_refl eq_refl E') as [<- [_ E1]].
  injection E1 as <- E1.
  destruct (run_unique isWhiteSpace ws2 ws2' _ _ 84%N 84%N S2 S2'
              eq_refl eq_refl E1) as [<- [_ E2]].
  destruct (startsWithSpace_cons u U) as [c [u0 [-> Hc]]].
  destruct (startsWithSpace_cons u' U') as [c' [u0' [-> Hc']]].
  assert (X : isDigit c = false).
  { destruct (isDigit c) eqn:Dc; [|reflexivity].
    now rewrite (digit_not_space c Dc) in Hc. }
  assert (X' : isDigit c' = false).
  { destruct (isDigit c') eqn:Dc; [|reflexivity].
    now rewrite (digit_not_space c' Dc) in Hc'. }
  destruct (run_unique isDigit _ _ _ _ _ _ D D' X X' E2) as [<- [<- <-]].
  destruct t as [i c0 ti], t' as [i' c0' ti']. cbn in *. congruence.
Qed.

(** A line of the shape of a task line is matched, and [parseTaskLine]
    makes of the match the task that is read off the line. *)
Lemma exec_TASK_LINE_complete (line : jsstring) (t : Task) :
  taskOfLine line t ->
  exists m,
    exec Parser.TASK_LINE_REGEX line = Some m /\ Parser.parseTaskLine m = t.
Proof.
  intros T. pose proof T as T0.
  destruct T as [ws1 [box [ws2 [ds [u [E [S1 [S2 [D [B [U [L _]]]]]]]]]]]].
  destruct (startsWithSpace_cons u U) as [c [u0 [Eu Hc]]].
  assert (M : exists caps,
            matches false (source Parser.TASK_LINE_REGEX) 0 line [] caps).
  { assert (E2 : line =
              js "-" ++ ws1 ++ js "[" ++ [box] ++ js "]" ++ ws2 ++
              (js "T" ++ ds ++ []) ++
              takeWhile isWhiteSpace u ++ trimStart u ++ [] ++ []).
    { rewrite E, !app_nil_r. do 6 f_equal. rewrite <- app_assoc. do 2 f_equal.
      symmetry. apply takeWhile_dropWhile. }
    rewrite E2. eexists.
    cbn [Parser.TASK_LINE_REGEX source Seq fold_right].
    eapply matches_Cat_intro; [constructor| |reflexivity|reflexivity].
    eapply matches_Cat_intro; [apply matches_Lit_intro| |reflexivity|reflexivity].
    eapply matches_Cat_intro;
      [apply matches_spaces_intro; exact S1| |reflexivity|reflexivity].
    eapply matches_Cat_intro; [apply matches_Lit_intro| |reflexivity|reflexivity].
    eapply matches_Cat_intro; [| |reflexivity|reflexivity].
    { apply M_Grp. destruct B as [->| ->].
      - apply M_AltL. apply (matches_Lit_intro false (js "X")).
      - apply M_AltR. apply (matches_Lit_intro false (js " ")). }
    eapply matches_Cat_intro; [apply matches_Lit_intro| |reflexivity|reflexivity].
    eapply matches_Cat_intro;
      [apply matches_spaces_intro; exact S2| |reflexivity|reflexivity].
    eapply matches_Cat_intro; [| |reflexivity|reflexivity].
    { apply M_Grp.
      eapply matches_Cat_intro; [apply matches_Lit_intro| |reflexivity|reflexivity].
      eapply matches_Cat_intro;
        [apply matches_digits_intro; exact D|constructor|reflexivity|reflexivity]. }
    eapply matches_Cat_intro; [| |reflexivity|reflexivity].
    { apply matches_spaces_intro. split.
      - rewrite Eu. cbn [takeWhile]. rewrite Hc. discriminate.
      - apply forallb_takeWhile. }
    eapply matches_Cat_intro; [| |reflexivity|reflexivity].
    { apply M_Grp. apply matches_Star_Cls_intro.
      rewrite (forallb_ext_eq _ _ _ _ cls_dot_mem). exact L. }
    eapply matches_Cat_intro; [ |apply M_Eps| | ];
      [apply M_Eol|reflexivity|reflexivity]. }
  destruct M as [caps M]. destruct (exec_complete Parser.TASK_LINE_REGEX _ _ M) as [m Em].
  exists m. split; [exact Em|].
  apply (taskOfLine_unique line); [|exact T0].
  now apply exec_TASK_LINE_shape.
Qed.

Lemma headerOfLine_number (line : jsstring) (p p' : Phase) :
  headerOfLine line p -> headerOfLine line p' -> number_ p = number_ p'.
Proof.
  intros [ws1 [ws2 [ds [ws3 [g [tail [E [[_ S1] [[_ S2] [[Nd D] [_ [_ [_ [N _]]]]]]]]]]]]]]
         [ws1' [ws2' [ds' [ws3' [g' [tail' [E' [[_ S1'] [[_ S2'] [[Nd' D'] [_ [_ [_ [N' _]]]]]]]]]]]]]].
  rewrite E in E'. cbn [js app String.list_ascii_of_string map] in E'.
  injection E' as E'.
  destruct (run_unique isWhiteSpace ws1 ws1' _ _ 80%N 80%N S1 S1'
              eq_refl eq_refl E') as [<- [_ E1]].
  injection E1 as E1.
  destruct ds as [|d ds]; [congruence|]. destruct ds' as [|d' ds']; [congruence|].
  pose proof D as Dd. pose proof D' as Dd'. cbn [forallb] in Dd, Dd'.
  apply andb_true_iff in Dd. apply andb_true_iff in Dd'.
  assert (X : isWhiteSpace d = false).
  { destruct (isWhiteSpace d) eqn:W; [|reflexivity].
    now rewrite (digit_not_space d (proj1 Dd)) in W. }
  assert (X' : isWhiteSpace d' = false).
  { destruct (isWhiteSpace d') eqn:W; [|reflexivity].
    now rewrite (digit_not_space d' (proj1 Dd')) in W. }
  cbn [app] in E1.
  destruct (run_unique isWhiteSpace ws2 ws2' _ _ d d' S2 S2' X X' E1)
    as [<- [<- E2]].
  destruct (run_unique isDigit ds ds' _ _ 58%N 58%N (proj2 Dd) (proj2 Dd')
              eq_refl eq_refl E2) as [<- _].
  congruence.
Qed.

(** A line of the shape of a phase header is matched, and the phase that
    it opens has the number that is read off the line. *)
Lemma exec_PHASE_HEADER_complete (line : jsstring) (p : Phase) :
  headerOfLine line p ->
  exists m,
    exec Parser.PHASE_HEADER_REGEX line = Some m /\
    number_ (headerPhase m) = number_ p.
Proof.
  intros T. pose proof T as T0.
  destruct T as [ws1 [ws2 [ds [ws3 [g [tail [E [S1 [S2 [D [S3 [Ng [Lg [_ [_ Tl]]]]]]]]]]]]]]].
  assert (O : exists ct, forall pos,
            matches false
              (Opt (Seq [Star true (Cls cls_space); Lit (js "(Priority:");
                         Star true (Cls cls_space);
                         Grp 3 (Seq [Lit (js "P"); Cls cls_digit]);
                         Lit (js ")")]))
              pos tail ([] ++ []) ct).
  { destruct Tl as [[-> _]|[ws4 [ws5 [d [-> [S4 [S5 [Dd _]]]]]]]].
    - eexists. intros pos. apply M_AltR. constructor.
    - eexists. intros pos. apply M_AltL. cbn [Seq fold_right].
      replace (ws4 ++ js "(Priority:" ++ ws5 ++ js "P" ++ [d] ++ js ")")
        with (ws4 ++ js "(Priority:" ++ ws5 ++ (js "P" ++ [d] ++ []) ++
              js ")" ++ []) by reflexivity.
      eapply matches_Cat_intro; [| |reflexivity|reflexivity].
      { apply matches_Star_Cls_intro.
        now rewrite (forallb_ext_eq _ _ isWhiteSpace ws4 cls_space_mem). }
      eapply matches_Cat_intro; [apply matches_Lit_intro| |reflexivity|reflexivity].
      eapply matches_Cat_intro; [| |reflexivity|reflexivity].
      { apply matches_Star_Cls_intro.
        now rewrite (forallb_ext_eq _ _ isWhiteSpace ws5 cls_space_mem). }
      eapply matches_Cat_intro; [| |reflexivity|reflexivity].
      { apply M_Grp.
        eapply matches_Cat_intro; [apply matches_Lit_intro| |reflexivity|reflexivity].
        eapply matches_Cat_intro; [|constructor|reflexivity|reflexivity].
        constructor. now rewrite cls_digit_mem. }
      eapply matches_Cat_intro;
        [apply matches_Lit_intro|constructor|reflexivity|reflexivity]. }
  destruct O as [ct O].
  assert (M : exists caps,
            matches false (source Parser.PHASE_HEADER_REGEX) 0 line [] caps).
  { assert (E2 : line =
              js "##" ++ ws1 ++ js "Phase" ++ ws2 ++ ds ++ js ":" ++ ws3 ++
              g ++ tail ++ [] ++ []) by (now rewrite E, !app_nil_r).
    rewrite E2. eexists.
    cbn [Parser.PHASE_HEADER_REGEX source Seq fold_right].
    eapply matches_Cat_intro; [constructor| |reflexivity|reflexivity].
    eapply matches_Cat_intro; [apply matches_Lit_intro| |reflexivity|reflexivity].
    eapply matches_Cat_intro;
      [apply matches_spaces_intro; exact S1| |reflexivity|reflexivity].
    eapply matches_Cat_intro; [apply matches_Lit_intro| |reflexivity|reflexivity].
    eapply matches_Cat_intro;
      [apply matches_spaces_intro; exact S2| |reflexivity|reflexivity].
    eapply matches_Cat_intro;
      [apply M_Grp; apply matches_digits_intro; exact D| |reflexivity|reflexivity].
    eapply matches_Cat_intro; [apply matches_Lit_intro| |reflexivity|reflexivity].
    eapply matches_Cat_intro; [| |reflexivity|reflexivity].
    { apply matches_Star_Cls_intro.
      now rewrite (forallb_ext_eq _ _ isWhiteSpace ws3 cls_space_mem). }
    eapply matches_Cat_intro; [| |reflexivity|reflexivity].
    { apply M_Grp. apply matches_Plus_Cls_intro; [exact Ng|].
      rewrite (forallb_ext_eq _ _ _ _ cls_dot_mem). exact Lg. }
    eapply matches_Cat_intro; [apply O| |reflexivity|reflexivity].
    eapply matches_Cat_intro; [ |apply M_Eps| | ];
      [apply M_Eol|reflexivity|reflexivity]. }
  destruct M as [caps M].
  destruct (exec_complete Parser.PHASE_HEADER_REGEX _ _ M) as [m Em].
  exists m. split; [exact Em|].
  apply (headerOfLine_number line); [|exact T0].
  now apply exec_PHASE_HEADER_shape.
Qed.

Lemma taskOfLine_not_header (line : jsstring) (t : Task) :
  taskOfLine line t -> exec Parser.PHASE_HEADER_REGEX line = None.
Proof.
  intros [ws1 [box [ws2 [ds [u [E _]]]]]].
  destruct (exec Parser.PHASE_HEADER_REGEX line) as [m|] eqn:X; [|reflexivity].
  apply exec_PHASE_HEADER_shape in X.
  destruct X as [v1 [v2 [v3 [v4 [v5 [v6 [E' _]]]]]]].
  rewrite E in E'. discriminate.
Qed.

Lemma tasksFrom_true_In (line : jsstring) (m : MatchResult)
  (lines : list jsstring) :
  exec Parser.PHASE_HEADER_REGEX line = None ->
  exec Parser.TASK_LINE_REGEX line = Some m ->
  In line lines -> In (Parser.parseTaskLine m) (tasksFrom true lines).
Proof.
  intros H T. induction lines as [|l lines IH]; intros Hin; [destruct Hin|].
  cbn [tasksFrom]. destruct Hin as [->|Hin].
  - rewrite H, T. now left.
  - destruct (exec Parser.PHASE_HEADER_REGEX l); [now apply IH|].
    destruct (exec Parser.TASK_LINE_REGEX l); [right|]; now apply IH.
Qed.

Lemma tasksFrom_after_header (hdr : jsstring) (m : MatchResult)
  (rest : list jsstring) (x : Task) :
  exec Parser.PHASE_HEADER_REGEX hdr = Some m ->
  In x (tasksFrom true rest) ->
  forall pre inPhase, In x (tasksFrom inPhase (pre ++ hdr :: rest)).
Proof.
  intros H Hx. induction pre as [|l pre IH]; intros inPhase; cbn [app tasksFrom].
  - now rewrite H.
  - destruct (exec Parser.PHASE_HEADER_REGEX l); [apply IH|].
    destruct (exec Parser.TASK_LINE_REGEX l); [|apply IH].
    destruct inPhase; [right|]; apply IH.
Qed.

(** X16. Every line of the shape of a task line that comes after a line of
    the shape of a phase header gives a task of the result: a line
    [- [c] T<digits><rest>] with [c] an [X] or a space, white space after
    the dash and after the box, and [rest] beginning with white space and
    free of line terminators after it, yields the task with the ID
    [T<digits>], completed exactly when [c] is [X], and with [rest] trimmed
    as its title. *)
Theorem task_lines_give_tasks (fuel : nat) (content specFolder : jsstring)
  (r : ParseResult) (pre mid post : list jsstring) (hdr line : jsstring)
  (p : Phase) (t : Task) :
  Parser.parseTasksFile fuel content specFolder = Some r ->
  split isLF content = pre ++ hdr :: mid ++ line :: post ->
  headerOfLine hdr p -> taskOfLine line t ->
  exists q, In q (phases r) /\ In t (tasks q).
Proof.
  intros H E Hh Ht. destruct (parseTasksFile_parts _ _ _ _ H) as [deps [_ [Ep _]]].
  destruct (exec_PHASE_HEADER_complete _ _ Hh) as [mh [Eh _]].
  destruct (exec_TASK_LINE_complete _ _ Ht) as [mt [Et <-]].
  assert (A : In (Parser.parseTaskLine mt) (flat_map tasks (phases r))).
  { rewrite Ep, attachDependencies_tasks.
    rewrite (phasesFrom_tasks (split isLF content) None). cbn [currentTasks app isSome].
    rewrite E. apply (tasksFrom_after_header hdr mh); [exact Eh|].
    apply (tasksFrom_true_In line); [|exact Et|].
    - exact (taskOfLine_not_header _ _ Ht).
    - apply in_or_app. right. now left. }
  apply in_flat_map in A. exact A.
Qed.

Lemma task_lines_give_tasks_witness :
  exists r q,
    Parser.parseTasksFile 0 docPlain folder = Some r /\
    In q (phases r) /\
    In {| id := js "T001"; completed := true; title := js "Create the project" |}
       (tasks q).
Proof.
  destruct (Parser.parseTasksFile 0 docPlain folder) as [r|] eqn:E;
    [|vm_compute in E; discriminate].
  destruct (task_lines_give_tasks 0 docPlain folder r
              [js "- [ ] T000 Before any phase"] []
              [js "## Phase 2: Core"; js "- [X] T002 Write the parser";
               js "- [ ] T003 Write the tests"; js "## Phase 3: Empty"]
              (js "## Phase 1: Setup") (js "- [X] T001 Create the project")
              phaseSetup
              {| id := js "T001"; completed := true;
                 title := js "Create the project" |} E)
    as [q [Hq Ht]].
  - vm_compute. reflexivity.
  - exists (js " "), (js " "), (js "1"), (js " "), (js "Setup"), [].
    repeat split; try reflexivity; try discriminate. now left.
  - exists (js " "), 88%N, (js " "), (js "001"), (js " Create the project").
    repeat split; try reflexivity; try discriminate. now left.
  - exists r, q. now repeat split.
Defined.

(** X17. Every line of the document of the shape of a phase header,
    [## Phase <digits>:<title>] with or without a priority marker at its
    end, gives a phase of the result, numbered with the value of the
    digits. *)
Theorem header_lines_give_phases (fuel : nat) (content specFolder : jsstring)
  (r : ParseResult) (line : jsstring) (p : Phase) :
  Parser.parseTasksFile fuel content specFolder = Some r ->
  In line (split isLF content) ->
  headerOfLine line p ->
  exists q, In q (phases r) /\ number_ q = number_ p.
Proof.
  intros H Hl Hh. destruct (parseTasksFile_parts _ _ _ _ H) as [deps [_ [Ep _]]].
  destruct (exec_PHASE_HEADER_complete _ _ Hh) as [m [Em En]].
  assert (A : In (number_ p) (map number_ (phases r))).
  { rewrite Ep, attachDependencies_numbers.
    rewrite (phasesFrom_numbers (split isLF content) None). cbn [currentNumber app].
    unfold headerNumbers. apply in_flat_map. exists line. split; [exact Hl|].
    rewrite Em. left. exact En. }
  apply in_map_iff in A. destruct A as [q [Eq Hq]]. now exists q.
Qed.

Lemma header_lines_give_phases_witness :
  exists r q,
    Parser.parseTasksFile 0 docPlain folder = Some r /\
    In q (phases r) /\ number_ q = 1.
Proof.
  destruct (Parser.parseTasksFile 0 docPlain folder) as [r|] eqn:E;
    [|vm_compute in E; discriminate].
  destruct (header_lines_give_phases 0 docPlain folder r
              (js "## Phase 1: Setup") phaseSetup E) as [q [Hq En]].
  - vm_compute. tauto.
  - exists (js " "), (js " "), (js "1"), (js " "), (js "Setup"), [].
    repeat split; try reflexivity; try discriminate. now left.
  - exists r, q. now repeat split.
Defined.

(** ** The next phase and the available phases *)

(** X18. When the dependencies of the next phase point backwards, that is
    when every number in its [dependsOn] is the number of a phase that
    comes before it in the document, the next phase is one of the
    available phases. *)
Theorem nextPhase_available_when_ordered (fuel : nat)
  (content specFolder : jsstring) (r : ParseResult) (p : Phase) :
  Parser.parseTasksFile fuel content specFolder = Some r ->
  nextPhase r = Some p ->
  (forall before after dep d,
     phases r = before ++ p :: after ->
     (forall q, In q before -> isComplete q = true) ->
     dependency p = Some dep -> In d (dependsOn dep) ->
     In d (map number_ before)) ->
  In p (availablePhases r).
Proof.
  intros H N B.
  destruct (parseTasksFile_parts _ _ _ _ H) as [deps [_ [_ [_ [_ En]]]]].
  destruct (parseTasksFile_fields _ _ _ _ H) as [deps' [_ [_ [_ [_ [Ea _]]]]]].
  rewrite En in N. destruct (find_first _ _ _ _ N) as [before [after [E1 [E2 E3]]]].
  assert (C : isComplete p = false) by (now destruct (isComplete p)).
  assert (Cb : forall q, In q before -> isComplete q = true).
  { intros q Hq. specialize (E3 q Hq). cbn in E3. now destruct (isComplete q). }
  assert (Hp : In p (phases r)) by (rewrite E1; apply in_or_app; right; now left).
  assert (A : Spec.available (phases r) p = true).
  { apply available_spec. split; [exact C|]. intros dep d Ed Hd.
    specialize (B before after dep d E1 Cb Ed Hd). apply in_map_iff in B.
    destruct B as [q [Eq Hq]]. exists q. split; [|split; [now apply Cb|exact Eq]].
    rewrite E1. apply in_or_app. now left. }
  rewrite Ea. apply filter_In. split; [exact Hp|].
  rewrite C, andb_true_r. apply numIncludes_In.
  apply In_calculateAvailablePhases. now exists p.
Qed.

Lemma nextPhase_available_when_ordered_witness :
  exists r p,
    Parser.parseTasksFile 5 docFull folder = Some r /\
    nextPhase r = Some p /\ number_ p = 2 /\ In p (availablePhases r).
Proof.
  destruct (Parser.parseTasksFile 5 docFull folder) as [r|] eqn:E;
    [|vm_compute in E; discriminate].
  destruct (nextPhase r) as [p|] eqn:N;
    [|vm_compute in E; injection E as <-; vm_compute in N; discriminate].
  exists r, p. split; [reflexivity|]. split; [exact N|].
  split; [vm_compute in E; injection E as <-; vm_compute in N;
          injection N as <-; reflexivity|].
  apply (nextPhase_available_when_ordered 5 docFull folder r p E N).
  intros before after dep d E1 Cb Ed Hd.
  vm_compute in E. injection E as <-. vm_compute in N. injection N as <-.
  cbn [dependency] in Ed. injection Ed as <-. cbn [dependsOn] in Hd.
  destruct Hd as [<-|[]].
  destruct before as [|b1 before]; [cbn in E1; discriminate E1|].
  cbn [phases app] in E1. injection E1 as <- _. now left.
Defined.

(** ** The order of the two subsections *)

Lemma phaseDependencyLines_swapped (content : jsstring) (pds pos : nat) :
  phaseDepsStart content = Some pds ->
  parallelOppStart content = Some pos ->
  (pos <= pds)%nat ->
  phaseDependencyLines content = [].
Proof.
  unfold phaseDepsStart, parallelOppStart, subsectionStart, phaseDependencyLines.
  cbv zeta. destruct (findIndex _ _) as [dss|]; [|reflexivity].
  intros -> -> L. unfold slice.
  replace (pos - (pds + 1))%nat with 0%nat by lia. reflexivity.
Qed.

(** X19. When the heading of the Parallel Opportunities subsection comes
    before that of the Phase Dependencies subsection (or on the same line),
    no phase dependency line is read: every record of the result comes
    from the Parallel Opportunities lines alone, with an empty name, an
    empty description and no dependency in either direction. *)
Theorem swapped_subsections_lose_dependencies (fuel : nat) (content : jsstring)
  (deps : Map.t PhaseDependency) (pds pos : nat) :
  phaseDepsStart content = Some pds ->
  parallelOppStart content = Some pos ->
  (pos <= pds)%nat ->
  parseDependencies fuel content = Some deps ->
  forall n r,
    Map.get n deps = Some r ->
    shortName r = [] /\ description r = [] /\ dependsOn r = [] /\
    blocks r = [] /\ canRunParallelWith r = [] /\ parallelTasks r <> [].
Proof.
  intros Hd Hp L H.
  pose proof (phaseDependencyLines_swapped _ _ _ Hd Hp L) as E.
  assert (P : forall n r, Map.get n deps = Some r ->
            exists ts bs, ts <> [] /\ r = setBlocks bs (placeholder ts) /\
              forall x, In x bs <->
                exists rx, Map.get x deps = Some rx /\ In n (dependsOn rx)).
  { intros n r Hg.
    destruct (blocks_after_reverse _ _ _ _ _ H Hg)
      as [before [r0 [Hb [E0 [Er [_ Hbl]]]]]].
    destruct (before_records _ _ _ Hb) as [pt [Hpt Hall]].
    rewrite E in Hall.
    destruct (Hall n r0 E0) as [[line [d [[] _]]]|[ts [Ht ->]]].
    destruct (Hpt n ts Ht) as [line [_ [m [_ [_ [_ Nt]]]]]].
    exists ts, (blocks r). split; [exact Nt|]. split; [exact Er|].
    intros x. rewrite Hbl. cbn [placeholder blocks]. split.
    - intros [[]|Hx]. exact Hx.
    - intros Hx. now right. }
  intros n r Hg. destruct (P n r Hg) as [ts [bs [Nt [-> Hbs]]]].
  cbn [setBlocks placeholder shortName description dependsOn blocks
       canRunParallelWith parallelTasks].
  repeat (split; [reflexivity|]). split; [|split; [reflexivity|exact Nt]].
  destruct bs as [|x bs]; [reflexivity|]. exfalso.
  destruct (proj1 (Hbs x) (or_introl eq_refl)) as [rx [Hx Hn]].
  destruct (P x rx Hx) as [ts' [bs' [_ [-> _]]]]. destruct Hn.
Qed.

Lemma swapped_subsections_lose_dependencies_witness :
  exists deps r,
    parseDependencies 5 docSwapped = Some deps /\
    phaseDepsStart docSwapped = Some 3%nat /\
    parallelOppStart docSwapped = Some 1%nat /\
    Map.get 1 deps = None /\
    Map.get 2 deps = Some r /\ dependsOn r = [] /\ shortName r = [].
Proof.
  destruct (parseDependencies 5 docSwapped) as [deps|] eqn:E;
    [|vm_compute in E; discriminate].
  destruct (Map.get 2 deps) as [r|] eqn:G;
    [|vm_compute in E; injection E as <-; vm_compute in G; discriminate].
  assert (Hd : phaseDepsStart docSwapped = Some 3%nat) by (vm_compute; reflexivity).
  assert (Hp : parallelOppStart docSwapped = Some 1%nat) by (vm_compute; reflexivity).
  assert (L : (1 <= 3)%nat) by lia.
  destruct (swapped_subsections_lose_dependencies 5 docSwapped deps 3 1
              Hd Hp L E 2 r G) as [S [_ [D _]]].
  exists deps, r. repeat (split; [assumption || reflexivity|]).
  split; [|now repeat split].
  vm_compute in E. injection E as <-. reflexivity.
Defined.

(** ** The tasks of the phase chosen on the command line *)

(** X20. With the options that [main] builds, the detail view of a phase
    never shows the pending tasks alone: [showAll] is always a boolean, so
    the test [options.showAll ?? !task.completed] is [args.all]; all the
    tasks of the phase are printed with [--all], and none without. *)
Theorem detail_view_shows_all_or_none (args : Cli.ParsedArgs) (phase : Phase) :
  Formatter.detailTaskLines (Cli.buildOptions args) phase =
  if Cli.all args then map Formatter.formatTaskLine (tasks phase) else [].
Proof.
  unfold Formatter.detailTaskLines, Cli.buildOptions. cbn [Options.showAll].
  destruct (Cli.all args).
  - f_equal. induction (tasks phase) as [|t ts IH]; [reflexivity|].
    cbn [filter]. now rewrite IH.
  - induction (tasks phase) as [|t ts IH]; [reflexivity|exact IH].
Qed.

(** ** The fields of a record *)

Lemma cls_not_paren_mem (x : char) :
  cls_mem false (cls_not (js ")")) x = negb (N.eqb x 41).
Proof.
  unfold cls_mem, cls_not, inRanges, inRange.
  cbn [negated ranges js String.list_ascii_of_string map existsb fst snd].
  f_equal. rewrite orb_false_r.
  change (N_of_ascii ")") with 41%N.
  destruct (N.eqb_spec x 41) as [->|Hne]; [reflexivity|].
  destruct (N.leb_spec 41 x), (N.leb_spec x 41); cbn; try reflexivity; lia.
Qed.

Lemma exec_PHASE_DEP_LINE_shape (line : jsstring) (m : MatchResult) :
  exec PHASE_DEP_LINE_REGEX line = Some m ->
  exists ws1 ws2 ds ws3 name ws4 desc,
    line = js "-" ++ ws1 ++ js "**Phase" ++ ws2 ++ ds ++ ws3 ++ js "(" ++
           name ++ js ")**:" ++ ws4 ++ desc /\
    spaces ws1 /\ spaces ws2 /\ digits ds /\ spaces ws3 /\
    name <> [] /\ forallb (fun c => negb (N.eqb c 41)) name = true /\
    forallb isWhiteSpace ws4 = true /\
    desc <> [] /\ noLineTerminator desc /\
    groups m = [(3%nat, desc); (2%nat, name); (1%nat, ds)].
Proof.
  intros H.
  destruct (exec_Bol_matches PHASE_DEP_LINE_REGEX _ line m eq_refl H) as [E M].
  cbn [PHASE_DEP_LINE_REGEX ignoreCase] in M. clear H.
  destruct m as [ix w gs ei rs]. cbn [matched rest groups] in *.
  unfold sp, dg in M.
  repeat (apply matches_Cat_inv in M;
          let w1 := fresh "w" in let c1 := fresh "c" in let H1 := fresh "M" in
          destruct M as [w1 [? [c1 [? [-> [-> [H1 M]]]]]]]).
  apply matches_Eps_inv in M. destruct M as [-> ->].
  match goal with H : matches _ Eol _ _ _ _ |- _ =>
    apply matches_Eol_inv in H; destruct H as [-> [Er ->]]; cbn in Er; subst rs end.
  repeat match goal with H : matches _ (Lit _) _ _ _ _ |- _ =>
    apply matches_Lit_inv in H; destruct H as [-> ->] end.
  repeat match goal with H : matches _ (Plus _ (Cls cls_space)) _ _ _ _ |- _ =>
    apply matches_spaces in H; destruct H as [? ->] end.
  repeat match goal with H : matches _ (Star _ (Cls cls_space)) _ _ _ _ |- _ =>
    apply matches_star_spaces in H; destruct H as [? ->] end.
  apply matches_Grp_inv in M4. destruct M4 as [c0 [-> M4]].
  apply matches_digits in M4. destruct M4 as [D ->].
  apply matches_Grp_inv in M7. destruct M7 as [c0 [-> M7]].
  apply matches_Plus_Cls in M7. destruct M7 as [N6 [F6 ->]].
  rewrite (forallb_ext_eq _ _ _ w6 cls_not_paren_mem) in F6.
  apply matches_Grp_inv in M10. destruct M10 as [c0 [-> M10]].
  apply matches_Plus_Cls in M10. destruct M10 as [N9 [F9 ->]].
  rewrite (forallb_ext_eq _ _ _ w9 cls_dot_mem) in F9.
  rewrite !app_nil_r in *. cbn [app].
  exists w, w2, w3, w4, w6, w8, w9.
  split; [exact E|]. repeat (split; [assumption|]). reflexivity.
Qed.

(** X21. A record that [parsePhaseDependencyLine] makes is read off its
    line, [- **Phase <digits> (<name>)**:<description>]: its number is the
    value of the digits as a double (never negative), its [shortName] is
    the name between the parentheses, which is not empty and has no closing
    parenthesis, its [description] is the rest of the line, not empty and
    free of line terminators, and it has no parallel tasks yet. *)
Theorem record_read_off_line (line : jsstring) (all : list number)
  (n : number) (d : PhaseDependency) :
  parsePhaseDependencyLine line all = Some (n, d) ->
  recordOfLine line n d /\ 0 <= n /\ parallelTasks d = [].
Proof.
  unfold parsePhaseDependencyLine.
  destruct (exec PHASE_DEP_LINE_REGEX line) as [m|] eqn:E; [|discriminate].
  cbv zeta. intros H. injection H as <- <-.
  destruct (exec_PHASE_DEP_LINE_shape _ _ E)
    as [ws1 [ws2 [ds [ws3 [name [ws4 [desc [El [S1 [S2 [D [S3 [Nn [Fn [S4 [Nd [Ld G]]]]]]]]]]]]]]]]].
  unfold captureOr, capture. rewrite G. cbn [capture_get Nat.eqb].
  assert (P : parseIntDigits ds = to_double (digitsValue ds)).
  { destruct D as [Dn Df]. unfold parseIntDigits.
    now rewrite (proj1 (parseInt_digits ds Dn Df)). }
  split; [|split; [|reflexivity]].
  - exists ws1, ws2, ds, ws3, name, ws4, desc.
    cbn [shortName description].
    split; [exact El|]. repeat (split; [assumption|]).
    split; reflexivity.
  - rewrite P. apply to_double_nonneg, digitsValue_nonneg. apply D.
Qed.

Lemma record_read_off_line_witness :
  exists d,
    parsePhaseDependencyLine
      (js "- **Phase 2 (US9 Navigation)**: Depends on Phase 1") [1; 2] =
    Some (2, d) /\
    shortName d = js "US9 Navigation" /\ recordOfLine
      (js "- **Phase 2 (US9 Navigation)**: Depends on Phase 1") 2 d.
Proof.
  destruct (parsePhaseDependencyLine
              (js "- **Phase 2 (US9 Navigation)**: Depends on Phase 1") [1; 2])
    as [[n d]|] eqn:E; [|vm_compute in E; discriminate].
  assert (N : n = 2) by (vm_compute in E; injection E as <- _; reflexivity).
  subst n. exists d. split; [reflexivity|].
  destruct (record_read_off_line _ _ _ _ E) as [R _].
  split; [|exact R]. vm_compute in E. injection E as <-. reflexivity.
Defined.

(** ** Several lines for one phase in the Parallel Opportunities block *)

Lemma parseParallelOpportunities_keeps (fuel : nat) (n : number)
  (lines : list jsstring) :
  (forall l ts, In l lines -> ~ tasksOfLine fuel l n ts) ->
  forall acc pt,
    parseParallelOpportunities fuel lines acc = Some pt ->
    Map.get n pt = Map.get n acc.
Proof.
  induction lines as [|line lines IH]; intros Hn acc pt H;
    cbn [parseParallelOpportunities] in H.
  - now injection H as <-.
  - assert (Hn' : forall l ts, In l lines -> ~ tasksOfLine fuel l n ts)
      by (intros l ts Hl; apply Hn; now right).
    destruct (exec PARALLEL_OPP_LINE_REGEX line) as [m|] eqn:E;
      [|now apply IH].
    cbv zeta in H.
    destruct (extractParallelTasks fuel (captureOr m 2 [])) as [tasks|] eqn:X;
      [|discriminate].
    rewrite (IH Hn' _ _ H). destruct tasks as [|t0 tasks]; cbn [isEmpty];
      [reflexivity|].
    destruct (Z.eq_dec (parseIntDigits (captureOr m 1 (js "0"))) n) as [En|Hne].
    + exfalso. apply (Hn line (t0 :: tasks)); [now left|].
      exists m. repeat split; [exact E|exact En|exact X|discriminate].
    + now apply get_set_other.
Qed.

Lemma parseParallelOpportunities_last (fuel : nat) (n : number)
  (ts : list jsstring) (l1 l3 : list jsstring) (line : jsstring) :
  tasksOfLine fuel line n ts ->
  (forall l ts', In l l3 -> ~ tasksOfLine fuel l n ts') ->
  forall acc pt,
    parseParallelOpportunities fuel (l1 ++ line :: l3) acc = Some pt ->
    Map.get n pt = Some ts.
Proof.
  intros [m [E [En [X Nt]]]] Hn.
  induction l1 as [|l l1 IH]; intros acc pt H; cbn [app parseParallelOpportunities] in H.
  - rewrite E in H. cbv zeta in H. rewrite X in H.
    rewrite (parseParallelOpportunities_keeps _ _ _ Hn _ _ H).
    destruct ts as [|t0 ts]; [congruence|]. cbn [isEmpty].
    rewrite En. apply get_set_same.
  - destruct (exec PARALLEL_OPP_LINE_REGEX l) as [m'|]; [|now apply (IH acc)].
    cbv zeta in H.
    destruct (extractParallelTasks fuel (captureOr m' 2 [])) as [tasks|];
      [|discriminate].
    exact (IH _ _ H).
Qed.

Lemma keys_parseParallelOpportunities (fuel : nat) (lines : list jsstring) :
  forall acc pt,
    parseParallelOpportunities fuel lines acc = Some pt ->
    NoDup (map fst acc) -> NoDup (map fst pt).
Proof.
  induction lines as [|line lines IH]; intros acc pt H K;
    cbn [parseParallelOpportunities] in H.
  - now injection H as <-.
  - destruct (exec PARALLEL_OPP_LINE_REGEX line) as [m|]; [|now apply (IH acc)].
    cbv zeta in H.
    destruct (extractParallelTasks fuel (captureOr m 2 [])) as [tasks|];
      [|discriminate].
    apply (IH _ _ H). destruct (isEmpty tasks); [exact K|].
    now apply keys_set.
Qed.

Lemma mergeParallel_get_other (pt : Map.t (list jsstring)) (n : number) :
  ~ In n (map fst pt) ->
  forall m, Map.get n (mergeParallel pt m) = Map.get n m.
Proof.
  unfold mergeParallel.
  induction pt as [|[k t] pt IH]; intros Hn m; cbn [fold_left]; [reflexivity|].
  cbn [map fst] in Hn.
  rewrite IH by (intros H; apply Hn; now right).
  assert (Hne : k <> n) by (intros ->; apply Hn; now left).
  destruct (Map.get k m); [now apply get_update_other|now apply get_set_other].
Qed.

Lemma mergeParallel_tasks (pt : Map.t (list jsstring)) (n : number)
  (ts : list jsstring) :
  NoDup (map fst pt) -> In (n, ts) pt ->
  forall m, exists r,
    Map.get n (mergeParallel pt m) = Some r /\ parallelTasks r = ts.
Proof.
  induction pt as [|[k t] pt IH]; intros K Hin m; [destruct Hin|].
  cbn [map fst] in K. inversion K as [|? ? Kn Kd]; subst.
  destruct Hin as [Hin|Hin].
  - injection Hin as -> ->.
    change (mergeParallel ((n, ts) :: pt) m)
      with (mergeParallel pt
              (match Map.get n m with
               | Some _ => Map.update n (setParallelTasks ts) m
               | None => Map.set n (placeholder ts) m
               end)).
    rewrite (mergeParallel_get_other pt n Kn).
    destruct (Map.get n m) as [r0|] eqn:G.
    + exists (setParallelTasks ts r0). now rewrite get_update_same, G.
    + exists (placeholder ts). now rewrite get_set_same.
  - change (mergeParallel ((k, t) :: pt) m)
      with (mergeParallel pt
              (match Map.get k m with
               | Some _ => Map.update k (setParallelTasks t) m
               | None => Map.set k (placeholder t) m
               end)).
    now apply IH.
Qed.

(** X22. Of several lines of the Parallel Opportunities block for one
    phase, the last one that names a task gives the record its
    [parallelTasks]; a later line for the phase that names no task leaves
    them as they are. *)
Theorem last_parallel_line_wins (fuel : nat) (content : jsstring)
  (deps : Map.t PhaseDependency) (l1 l3 : list jsstring) (line : jsstring)
  (n : number) (ts : list jsstring) :
  parseDependencies fuel content = Some deps ->
  parallelOpportunityLines content = l1 ++ line :: l3 ->
  tasksOfLine fuel line n ts ->
  (forall l ts', In l l3 -> ~ tasksOfLine fuel l n ts') ->
  exists r, Map.get n deps = Some r /\ parallelTasks r = ts.
Proof.
  intros H Hl Ht Hn.
  destruct (parseDependencies_stages _ _ _ H) as [before [Hb Hd]].
  assert (B : exists r0, Map.get n before = Some r0 /\ parallelTasks r0 = ts).
  { revert Hb Hl. unfold recordsBeforeReverse, parallelOpportunityLines,
      collectRecords. cbv zeta.
    destruct (findIndex _ _) as [dss|]; [|now destruct l1].
    set (pds := findIndex (fun l i => (_ && includes PHASE_DEPENDENCIES_HEADER l)%bool) _).
    set (pos := findIndex (fun l i => (_ && includes PARALLEL_OPPORTUNITIES_HEADER l)%bool) _).
    destruct pos as [q|]; [|now destruct l1].
    intros Hb Hl. rewrite Hl in Hb.
    destruct (parseParallelOpportunities fuel _ []) as [pt|] eqn:P; [|discriminate].
    injection Hb as <-.
    pose proof (parseParallelOpportunities_last _ _ _ _ _ _ Ht Hn _ _ P) as G.
    apply mergeParallel_tasks.
    - apply (keys_parseParallelOpportunities _ _ _ _ P). constructor.
    - now apply get_In. }
  destruct B as [r0 [G0 T0]].
  pose proof (sortBlocks_buildReverse_get before n) as L. rewrite G0 in L.
  destruct L as [bs [E _]]. rewrite <- Hd in E.
  exists (setBlocks bs r0). split; [exact E|exact T0].
Qed.

Lemma last_parallel_line_wins_witness :
  exists deps r,
    parseDependencies 5 docParallelTwice = Some deps /\
    Map.get 2 deps = Some r /\ parallelTasks r = [js "T007"; js "T008"].
Proof.
  destruct (parseDependencies 5 docParallelTwice) as [deps|] eqn:E;
    [|vm_compute in E; discriminate].
  destruct (last_parallel_line_wins 5 docParallelTwice deps
              [js "**Phase 2 (Core)**: T002 first"]
              [js "**Phase 2 (Core)**: nothing to run in parallel"]
              (js "**Phase 2 (Core)**: T007-T008 later") 2
              [js "T007"; js "T008"] E) as [r [G T]].
  - vm_compute. reflexivity.
  - destruct (exec PARALLEL_OPP_LINE_REGEX
                (js "**Phase 2 (Core)**: T007-T008 later")) as [m|] eqn:X;
      [|vm_compute in X; discriminate].
    exists m. split; [exact X|].
    vm_compute in X. injection X as <-.
    split; [vm_compute; reflexivity|]. split; [vm_compute; reflexivity|discriminate].
  - intros l ts' [<-|[]] [m [X [_ [T N]]]].
    vm_compute in X. injection X as <-. vm_compute in T. injection T as <-.
    now apply N.
  - now exists deps, r.
Defined.

(** ** The priority marker of a phase header *)

Lemma exec_Bol_run (R : RegExp) (r : regex) (line : jsstring) (m : MatchResult) :
  source R = Cat Bol r ->
  exec R line = Some m ->
  run (ignoreCase R) (source R) 0 line [] accept =
  Some (endIndex m, rest m, groups m).
Proof.
  intros ER H. unfold exec in H.
  assert (M : matchAt R 0 line = Some m).
  { destruct line as [|x line]; cbn [search] in H.
    - destruct (matchAt R 0 []); [exact H|discriminate].
    - destruct (matchAt R 0 (x :: line)); [exact H|].
      now rewrite (search_Bol R r ER) in H. }
  unfold matchAt in M.
  destruct (run (ignoreCase R) (source R) 0 line [] accept) as [[[e s'] caps]|];
    [|discriminate].
  injection M as <-. reflexivity.
Qed.

Lemma run_Cat_sound (ic : bool) (r1 r2 : regex) (pos : nat) (s : jsstring)
  (caps : captures) (k : cont) (res : nat * jsstring * captures) :
  run ic (Cat r1 r2) pos s caps k = Some res ->
  exists w s' c,
    s = w ++ s' /\ matches ic r1 pos w s' c /\
    run ic r2 (pos + length w)%nat s' (c ++ caps) k = Some res.
Proof.
  cbn [run]. intros H. exact (run_sound _ _ _ _ _ _ _ H).
Qed.

(** The lazy repetition of a class hands over at the first place, from
    left to right, at which the continuation accepts. *)
Lemma starLoop_lazy_class (ic : bool) (cs : charset) (k : cont)
  (s' : jsstring) (caps : captures) (r0 : nat * jsstring * captures) :
  forall w fuel pos,
    forallb (cls_mem ic cs) w = true ->
    (length w <= fuel)%nat ->
    k (pos + length w)%nat s' caps = Some r0 ->
    exists w1 w2 res,
      w = w1 ++ w2 /\
      starLoop false (run ic (Cls cs)) k fuel pos (w ++ s') caps = Some res /\
      k (pos + length w1)%nat (w2 ++ s') caps = Some res.
Proof.
  induction w as [|x w IH]; intros fuel pos F L K.
  - cbn in K. rewrite Nat.add_0_r in K. exists [], [], r0. cbn.
    rewrite Nat.add_0_r. repeat split; [|exact K].
    destruct fuel; cbn [starLoop]; [exact K|now rewrite K].
  - destruct fuel as [|fuel]; [cbn in L; lia|].
    cbn [forallb] in F. apply andb_true_iff in F. destruct F as [Fx F].
    cbn [starLoop app].
    destruct (k pos (x :: w ++ s') caps) as [res|] eqn:K0.
    + exists [], (x :: w), res. cbn. rewrite Nat.add_0_r. now repeat split.
    + cbn [run]. rewrite Fx, eqb_succ_self.
      destruct (IH fuel (S pos) F ltac:(cbn in L; lia)) as [w1 [w2 [res [E [R K1]]]]].
      { cbn [length] in K. now rewrite Nat.add_succ_r in K. }
      exists (x :: w1), w2, res. rewrite E. cbn [app length].
      rewrite Nat.add_succ_r. repeat split; [|exact K1].
      rewrite <- E. exact R.
Qed.

Lemma priorityMarker_inv (pos : nat) (w s' : jsstring) (c : captures) :
  matches false priorityMarker pos w s' c ->
  exists ws4 ws5 d,
    w = ws4 ++ js "(Priority:" ++ ws5 ++ js "P" ++ [d] ++ js ")" /\
    forallb isWhiteSpace ws4 = true /\ forallb isWhiteSpace ws5 = true /\
    isDigit d = true /\ c = [(3%nat, js "P" ++ [d])].
Proof.
  unfold priorityMarker. cbn [Seq fold_right]. intros M8.
  repeat (apply matches_Cat_inv in M8;
          let w1 := fresh "v" in let c1 := fresh "d" in let H1 := fresh "M" in
          destruct M8 as [w1 [? [c1 [? [-> [-> [H1 M8]]]]]]]).
  apply matches_Eps_inv in M8. destruct M8 as [-> ->].
  repeat match goal with H : matches _ (Lit _) _ _ _ _ |- _ =>
    apply matches_Lit_inv in H; destruct H as [-> ->] end.
  repeat match goal with H : matches _ (Star _ (Cls cls_space)) _ _ _ _ |- _ =>
    apply matches_star_spaces in H; destruct H as [? ->] end.
  match goal with H : matches _ (Grp 3 _) _ _ _ _ |- _ =>
    apply matches_Grp_inv in H; destruct H as [c0 [-> MG]] end.
  cbn [Seq fold_right] in MG. apply matches_Cat_inv in MG.
  destruct MG as [p1 [p2 [ca [cb [-> [-> [MP MG]]]]]]].
  apply matches_Lit_inv in MP. destruct MP as [-> ->].
  apply matches_Cat_inv in MG.
  destruct MG as [p3 [p4 [cc [cd [-> [-> [MD MG]]]]]]].
  apply matches_Eps_inv in MG. destruct MG as [-> ->].
  apply matches_Cls_inv in MD. destruct MD as [d [-> [Hd ->]]].
  rewrite cls_digit_mem in Hd. rewrite !app_nil_r.
  exists v, v1, d. repeat split; assumption || reflexivity.
Qed.

Lemma priorityMarker_intro (ws4 ws5 : jsstring) (d : char) (pos : nat)
  (s' : jsstring) :
  forallb isWhiteSpace ws4 = true -> forallb isWhiteSpace ws5 = true ->
  isDigit d = true ->
  exists c,
    matches false priorityMarker pos
      (ws4 ++ js "(Priority:" ++ ws5 ++ (js "P" ++ [d] ++ []) ++ js ")" ++ [])
      s' c.
Proof.
  intros S4 S5 Dd. eexists. unfold priorityMarker. cbn [Seq fold_right].
  eapply matches_Cat_intro; [| |reflexivity|reflexivity].
  { apply matches_Star_Cls_intro.
    now rewrite (forallb_ext_eq _ _ isWhiteSpace ws4 cls_space_mem). }
  eapply matches_Cat_intro; [apply matches_Lit_intro| |reflexivity|reflexivity].
  eapply matches_Cat_intro; [| |reflexivity|reflexivity].
  { apply matches_Star_Cls_intro.
    now rewrite (forallb_ext_eq _ _ isWhiteSpace ws5 cls_space_mem). }
  eapply matches_Cat_intro; [| |reflexivity|reflexivity].
  { apply M_Grp.
    eapply matches_Cat_intro; [apply matches_Lit_intro| |reflexivity|reflexivity].
    eapply matches_Cat_intro; [|constructor|reflexivity|reflexivity].
    constructor. now rewrite cls_digit_mem. }
  eapply matches_Cat_intro;
    [apply matches_Lit_intro|constructor|reflexivity|reflexivity].
Qed.

(** What follows the title accepts a non-empty rest only as a priority
    marker. *)
Lemma afterTitle_marker (pos : nat) (s : jsstring) (caps : captures)
  (res : nat * jsstring * captures) :
  run false afterTitle pos s caps accept = Some res ->
  s <> [] ->
  exists ws4 ws5 d,
    s = ws4 ++ js "(Priority:" ++ ws5 ++ js "P" ++ [d] ++ js ")" /\
    forallb isWhiteSpace ws4 = true /\ forallb isWhiteSpace ws5 = true /\
    isDigit d = true /\
    snd res = (3%nat, js "P" ++ [d]) :: caps.
Proof.
  unfold afterTitle, Opt. cbn [Seq fold_right]. cbn [run]. intros H N.
  match type of H with
  | match ?a with _ => _ end = _ => destruct a as [res'|] eqn:A
  end.
  - injection H as ->. apply run_sound in A.
    destruct A as [w [s' [c [E [M K]]]]].
    destruct s' as [|y s']; [|discriminate]. unfold accept in K.
    injection K as <-. rewrite app_nil_r in E. subst w.
    destruct (priorityMarker_inv _ _ _ _ M) as [ws4 [ws5 [d [E [S4 [S5 [Dd ->]]]]]]].
    exists ws4, ws5, d. now repeat split.
  - destruct s as [|y s]; [congruence|discriminate].
Qed.

Lemma afterTitle_accepts (ws4 ws5 : jsstring) (d : char) (pos : nat)
  (caps : captures) :
  forallb isWhiteSpace ws4 = true -> forallb isWhiteSpace ws5 = true ->
  isDigit d = true ->
  exists res,
    run false afterTitle pos
      (ws4 ++ js "(Priority:" ++ ws5 ++ js "P" ++ [d] ++ js ")") caps accept =
    Some res.
Proof.
  intros S4 S5 Dd.
  destruct (priorityMarker_intro ws4 ws5 d pos ([] ++ []) S4 S5 Dd) as [c M].
  assert (MA : matches false afterTitle pos
                 ((ws4 ++ js "(Priority:" ++ ws5 ++ (js "P" ++ [d] ++ []) ++
                   js ")" ++ []) ++ [] ++ []) [] (([] ++ []) ++ c)).
  { unfold afterTitle. cbn [Seq fold_right].
    eapply matches_Cat_intro; [apply M_AltL; exact M| |reflexivity|reflexivity].
    eapply matches_Cat_intro; [ |apply M_Eps| | ];
      [apply M_Eol|reflexivity|reflexivity]. }
  destruct (run_complete _ _ _ _ _ _ caps accept
              (pos + length ((ws4 ++ js "(Priority:" ++ ws5 ++
                              (js "P" ++ [d] ++ []) ++ js ")" ++ []) ++ [] ++ []),
               [], (([] ++ []) ++ c) ++ caps)%nat MA eq_refl) as [res R].
  exists res. rewrite !app_nil_r in R. rewrite <- R. reflexivity.
Qed.

Lemma header_run_after_colon (line ws1 ws2 ds U : jsstring) (m : MatchResult) :
  line = js "##" ++ ws1 ++ js "Phase" ++ ws2 ++ ds ++ js ":" ++ U ->
  spaces ws1 -> spaces ws2 -> digits ds ->
  exec Parser.PHASE_HEADER_REGEX line = Some m ->
  exists pos,
    run false
      (Cat (Star true (Cls cls_space))
         (Cat (Grp 2 (Plus false (Cls cls_dot))) afterTitle))
      pos U [(1%nat, ds)] accept =
    Some (endIndex m, rest m, groups m).
Proof.
  intros E [_ S1] [_ S2] [Nd D] H.
  pose proof (exec_Bol_run Parser.PHASE_HEADER_REGEX _ line m eq_refl H) as R.
  cbn [Parser.PHASE_HEADER_REGEX source ignoreCase Seq fold_right] in R.
  clear H.
  apply run_Cat_sound in R. destruct R as [w0 [s0 [c0 [E0 [M0 R]]]]].
  apply run_Cat_sound in R. destruct R as [w1 [s1 [c1 [E1 [M1 R]]]]].
  apply run_Cat_sound in R. destruct R as [w2 [s2 [c2 [E2 [M2 R]]]]].
  apply run_Cat_sound in R. destruct R as [w3 [s3 [c3 [E3 [M3 R]]]]].
  apply run_Cat_sound in R. destruct R as [w4 [s4 [c4 [E4 [M4 R]]]]].
  apply run_Cat_sound in R. destruct R as [w5 [s5 [c5 [E5 [M5 R]]]]].
  apply run_Cat_sound in R. destruct R as [w6 [s6 [c6 [E6 [M6 R]]]]].
  inversion M0; subst w0 c0. clear M0.
  apply matches_Lit_inv in M1. destruct M1 as [-> ->].
  apply matches_spaces in M2. destruct M2 as [[_ S1'] ->].
  apply matches_Lit_inv in M3. destruct M3 as [-> ->].
  apply matches_spaces in M4. destruct M4 as [[_ S2'] ->].
  apply matches_Grp_inv in M5. destruct M5 as [c [-> M5]].
  apply matches_digits in M5. destruct M5 as [[Nd' D'] ->].
  apply matches_Lit_inv in M6. destruct M6 as [-> ->].
  subst s5 s4 s3 s2 s1 s0. cbn [app] in E0. rewrite E in E0.
  cbn [js app String.list_ascii_of_string map] in E0. injection E0 as E0.
  destruct (run_unique isWhiteSpace ws1 w2 _ _ 80%N 80%N S1 S1'
              eq_refl eq_refl E0) as [<- [_ E1]].
  injection E1 as E1.
  destruct ds as [|a ds]; [congruence|]. destruct w5 as [|a' w5]; [congruence|].
  pose proof D as Dd. pose proof D' as Dd'. cbn [forallb] in Dd, Dd'.
  apply andb_true_iff in Dd. apply andb_true_iff in Dd'.
  assert (X : isWhiteSpace a = false).
  { destruct (isWhiteSpace a) eqn:W; [|reflexivity].
    now rewrite (digit_not_space a (proj1 Dd)) in W. }
  assert (X' : isWhiteSpace a' = false).
  { destruct (isWhiteSpace a') eqn:W; [|reflexivity].
    now rewrite (digit_not_space a' (proj1 Dd')) in W. }
  cbn [app] in E1.
  destruct (run_unique isWhiteSpace ws2 w4 _ _ a a' S2 S2' X X' E1)
    as [<- [<- E2]].
  destruct (run_unique isDigit ds w5 _ _ 58%N 58%N (proj2 Dd) (proj2 Dd')
              eq_refl eq_refl E2) as [<- [_ <-]].
  eexists. exact R.
Qed.

Lemma takeWhile_stop (p : char -> bool) (ws : jsstring) (x : char) (r : jsstring) :
  forallb p ws = true -> p x = false ->
  takeWhile p (ws ++ x :: r) = ws /\ dropWhile p (ws ++ x :: r) = x :: r.
Proof.
  intros F X. induction ws as [|y ws IH]; cbn [app takeWhile dropWhile forallb] in *.
  - now rewrite X.
  - apply andb_true_iff in F. destruct F as [Fy F]. rewrite Fy.
    destruct (IH F) as [-> ->]. now split.
Qed.

Lemma title_run (pos : nat) (x : char) (g0 tail : jsstring) (caps : captures)
  (r0 : nat * jsstring * captures) :
  noLineTerminator (x :: g0) ->
  run false afterTitle (S pos + length g0)%nat tail ((2%nat, x :: g0) :: caps)
    accept = Some r0 ->
  exists w1 w2 res,
    g0 = w1 ++ w2 /\
    run false (Cat (Grp 2 (Plus false (Cls cls_dot))) afterTitle) pos
      (x :: g0 ++ tail) caps accept = Some res /\
    run false afterTitle (S pos + length w1)%nat (w2 ++ tail)
      ((2%nat, x :: w1) :: caps) accept = Some res.
Proof.
  intros L K. unfold noLineTerminator in L. cbn [forallb] in L.
  apply andb_true_iff in L. destruct L as [Lx L].
  cbn [run Plus]. rewrite cls_dot_mem, Lx.
  set (k := fun (pos' : nat) (s' : jsstring) (caps' : captures) =>
              run false afterTitle pos' s'
                ((2%nat, firstn (pos' - pos) (x :: g0 ++ tail)) :: caps') accept).
  assert (Fg : forallb (cls_mem false cls_dot) g0 = true)
    by (now rewrite (forallb_ext_eq _ _ _ g0 cls_dot_mem)).
  assert (K0 : k (S pos + length g0)%nat tail caps = Some r0).
  { unfold k. replace (S pos + length g0 - pos)%nat with (S (length g0)) by lia.
    cbn [firstn]. replace (length g0) with (length g0 + 0)%nat by lia.
    rewrite firstn_app_2. cbn [firstn]. rewrite app_nil_r.
    replace (length g0 + 0)%nat with (length g0) by lia. exact K. }
  destruct (starLoop_lazy_class false cls_dot k tail caps r0 g0
              (length (g0 ++ tail)) (S pos) Fg
              ltac:(rewrite length_app; lia) K0)
    as [w1 [w2 [res [E [R K1]]]]].
  exists w1, w2, res. split; [exact E|]. split.
  - exact R.
  - unfold k in K1. rewrite <- K1. do 2 f_equal.
    replace (S pos + length w1 - pos)%nat with (S (length w1)) by lia.
    cbn [firstn]. rewrite E, <- app_assoc.
    replace (length w1) with (length w1 + 0)%nat at 1 by lia.
    rewrite firstn_app_2. cbn [firstn]. now rewrite app_nil_r.
Qed.

Lemma count_paren_spaces (w : jsstring) :
  forallb isWhiteSpace w = true -> count_occ N.eq_dec w 40%N = 0%nat.
Proof.
  induction w as [|y w IH]; [reflexivity|]. cbn [forallb]. intros F.
  apply andb_true_iff in F. destruct F as [Fy F]. cbn [count_occ].
  destruct (N.eq_dec y 40) as [->|_]; [discriminate|now apply IH].
Qed.

Lemma count_zero_forallb (w : jsstring) :
  count_occ N.eq_dec w 40%N = 0%nat ->
  forallb (fun c => negb (N.eqb c 40)) w = true.
Proof.
  induction w as [|y w IH]; [reflexivity|]. cbn [count_occ forallb].
  destruct (N.eq_dec y 40) as [->|Hne]; [discriminate|]. intros H.
  rewrite (IH H), andb_true_r. apply negb_true_iff. now apply N.eqb_neq.
Qed.

Lemma trimEnd_spaces (a w : jsstring) :
  forallb isWhiteSpace w = true -> trimEnd (a ++ w) = trimEnd a.
Proof.
  intros F. unfold trimEnd. rewrite rev_app_distr. f_equal.
  apply (trimStart_spaces (rev w) (rev a)).
  apply forallb_forall. intros y Hy. apply in_rev in Hy.
  rewrite forallb_forall in F. now apply F.
Qed.

Lemma run_greedy_class_then (ic : bool) (cs : charset) (r : regex) (pos : nat)
  (s : jsstring) (caps : captures) (k : cont) :
  run ic (Cat (Star true (Cls cs)) r) pos s caps k =
  starClass (cls_mem ic cs)
    (fun pos' s' caps' => run ic r pos' s' caps' k) pos s caps.
Proof.
  change (run ic (Cat (Star true (Cls cs)) r) pos s caps k)
    with (starLoop true (run ic (Cls cs))
            (fun pos' s' caps' => run ic r pos' s' caps' k)
            (length s) pos s caps).
  now apply starLoop_class.
Qed.

(** A phase header with a title that begins with a visible character and
    with a priority marker at its end: the title is found up to the white
    space before the marker, and the marker gives the priority. *)
Lemma exec_PHASE_HEADER_priority (line ws1 ws2 ds ws3 g0 ws4 ws5 : jsstring)
  (x d : char) (m : MatchResult) :
  line = js "##" ++ ws1 ++ js "Phase" ++ ws2 ++ ds ++ js ":" ++ ws3 ++
         (x :: g0) ++ ws4 ++ js "(Priority:" ++ ws5 ++ js "P" ++ [d] ++ js ")" ->
  spaces ws1 -> spaces ws2 -> digits ds ->
  forallb isWhiteSpace ws3 = true ->
  isWhiteSpace x = false -> noLineTerminator (x :: g0) ->
  forallb isWhiteSpace ws4 = true -> forallb isWhiteSpace ws5 = true ->
  isDigit d = true ->
  exec Parser.PHASE_HEADER_REGEX line = Some m ->
  number_ (headerPhase m) = to_double (digitsValue ds) /\
  phaseTitle (headerPhase m) = trim (x :: g0) /\
  priority (headerPhase m) = Some (js "P" ++ [d]).
Proof.
  intros E S1 S2 D S3 X L S4 S5 Dd H.
  assert (EU : line = js "##" ++ ws1 ++ js "Phase" ++ ws2 ++ ds ++ js ":" ++
                 (ws3 ++ x :: g0 ++ ws4 ++ js "(Priority:" ++ ws5 ++ js "P" ++
                  [d] ++ js ")")) by (rewrite E; reflexivity).
  destruct (header_run_after_colon _ _ _ _ _ _ EU S1 S2 D H) as [pos R].
  rewrite run_greedy_class_then in R.
  set (tail := ws4 ++ js "(Priority:" ++ ws5 ++ js "P" ++ [d] ++ js ")") in *.
  assert (Xc : cls_mem false cls_space x = false) by (now rewrite cls_space_mem).
  assert (Sc : forallb (cls_mem false cls_space) ws3 = true)
    by (now rewrite (forallb_ext_eq _ _ isWhiteSpace ws3 cls_space_mem)).
  destruct (takeWhile_stop _ ws3 x (g0 ++ tail) Sc Xc) as [Tk Dr].
  destruct (afterTitle_accepts ws4 ws5 d (S (pos + length ws3) + length g0)
              ((2%nat, x :: g0) :: [(1%nat, ds)]) S4 S5 Dd) as [r0 K0].
  destruct (title_run (pos + length ws3) x g0 tail [(1%nat, ds)] r0 L K0)
    as [w1 [w2 [res [Eg [Rt Ka]]]]].
  assert (RL : starClass (cls_mem false cls_space)
                 (fun pos' s' caps' =>
                    run false (Cat (Grp 2 (Plus false (Cls cls_dot))) afterTitle)
                      pos' s' caps' accept)
                 pos (ws3 ++ x :: g0 ++ tail) [(1%nat, ds)] = Some res).
  { apply starClass_longest. rewrite Tk, Dr. exact Rt. }
  rewrite RL in R. injection R as R.
  assert (Nt : w2 ++ tail <> []).
  { unfold tail. destruct w2; [|discriminate]. cbn [app].
    destruct ws4; discriminate. }
  destruct (afterTitle_marker _ _ _ _ Ka Nt)
    as [ws4' [ws5' [d' [Et [S4' [S5' [Dd' Eres]]]]]]].
  assert (G : groups m = [(3%nat, js "P" ++ [d']); (2%nat, x :: w1); (1%nat, ds)]).
  { rewrite R in Eres. exact Eres. }
  unfold headerPhase, captureOr, capture. rewrite G. cbn [capture_get Nat.eqb].
  cbn [number_ phaseTitle priority].
  assert (P : parseIntDigits ds = to_double (digitsValue ds)).
  { destruct D as [Dn Df]. unfold parseIntDigits.
    now rewrite (proj1 (parseInt_digits ds Dn Df)). }
  split; [exact P|]. unfold tail in Et.
  assert (Ed : d' = d /\ forallb isWhiteSpace w2 = true).
  { assert (C : count_occ N.eq_dec w2 40%N = 0%nat).
    { apply (f_equal (fun l => count_occ N.eq_dec l 40%N)) in Et.
      rewrite !count_occ_app in Et.
      rewrite (count_paren_spaces ws4 S4), (count_paren_spaces ws5 S5),
        (count_paren_spaces ws4' S4'), (count_paren_spaces ws5' S5') in Et.
      assert (Cd : forall c, isDigit c = true -> count_occ N.eq_dec [c] 40%N = 0%nat).
      { intros c Hc. cbn [count_occ]. destruct (N.eq_dec c 40) as [->|_];
          [discriminate|reflexivity]. }
      rewrite (Cd d Dd), (Cd d' Dd') in Et.
      change (count_occ N.eq_dec (js "(Priority:") 40%N) with 1%nat in Et.
      change (count_occ N.eq_dec (js "P") 40%N) with 0%nat in Et.
      change (count_occ N.eq_dec (js ")") 40%N) with 0%nat in Et. lia. }
    assert (F : forallb (fun c => negb (N.eqb c 40)) (w2 ++ ws4) = true).
    { rewrite forallb_app, (count_zero_forallb w2 C),
        (count_zero_forallb ws4 (count_paren_spaces ws4 S4)). reflexivity. }
    assert (F' : forallb (fun c => negb (N.eqb c 40)) ws4' = true)
      by (exact (count_zero_forallb ws4' (count_paren_spaces ws4' S4'))).
    rewrite app_assoc in Et.
    destruct (run_unique (fun c => negb (N.eqb c 40)) (w2 ++ ws4) ws4'
                (js "Priority:" ++ ws5 ++ js "P" ++ [d] ++ js ")")
                (js "Priority:" ++ ws5' ++ js "P" ++ [d'] ++ js ")")
                40%N 40%N F F' eq_refl eq_refl Et) as [Ew [_ Er]].
    split.
    - apply app_inv_head in Er. rewrite !app_assoc in Er.
      change (js ")") with [41%N] in Er.
      apply app_inj_tail in Er. destruct Er as [Er _].
      apply app_inj_tail in Er. destruct Er as [_ Er]. now symmetry.
    - rewrite <- Ew in S4'. rewrite forallb_app in S4'.
      now apply andb_true_iff in S4'. }
  destruct Ed as [-> W2]. split; [|reflexivity].
  rewrite Eg. unfold trim, trimStart. cbn [dropWhile]. rewrite X.
  change (x :: w1 ++ w2) with ((x :: w1) ++ w2).
  symmetry. now apply trimEnd_spaces.
Qed.

Lemma phasesFrom_current (lines : list jsstring) :
  forall c, exists q, In q (phasesFrom (Some c) lines) /\ sameHeader q c.
Proof.
  induction lines as [|line lines IH]; intros c; cbn [phasesFrom].
  - exists (Parser.finalizePhase c). split; [now left|now repeat split].
  - destruct (exec Parser.PHASE_HEADER_REGEX line) as [m|].
    + exists (Parser.finalizePhase c). split; [now left|now repeat split].
    + destruct (exec Parser.TASK_LINE_REGEX line) as [tm|]; [|apply IH].
      destruct (IH (Parser.pushTask (Parser.parseTaskLine tm) c))
        as [q [Hq [S1 [S2 S3]]]].
      exists q. split; [exact Hq|]. now repeat split.
Qed.

Lemma phasesFrom_header_In (line : jsstring) (m : MatchResult)
  (lines : list jsstring) :
  exec Parser.PHASE_HEADER_REGEX line = Some m ->
  In line lines ->
  forall cur, exists q,
    In q (phasesFrom cur lines) /\ sameHeader q (headerPhase m).
Proof.
  intros E. induction lines as [|l lines IH]; intros Hin cur; [destruct Hin|].
  cbn [phasesFrom]. destruct Hin as [->|Hin].
  - rewrite E. destruct (phasesFrom_current lines (headerPhase m)) as [q [Hq S]].
    exists q. split; [apply in_or_app; now right|exact S].
  - destruct (exec Parser.PHASE_HEADER_REGEX l) as [m'|].
    + destruct (IH Hin (Some (headerPhase m'))) as [q [Hq S]].
      exists q. split; [apply in_or_app; now right|exact S].
    + destruct (exec Parser.TASK_LINE_REGEX l) as [tm|], cur as [c|];
        apply (IH Hin).
Qed.

Lemma trim_nonempty_head (g : jsstring) :
  trim g <> [] ->
  exists x g0,
    trimStart g = x :: g0 /\ isWhiteSpace x = false /\
    g = takeWhile isWhiteSpace g ++ x :: g0.
Proof.
  intros H. unfold trim in H. destruct (trimStart g) as [|x g0] eqn:E;
    [now destruct H|].
  exists x, g0. split; [reflexivity|]. split.
  - unfold trimStart in E. exact (dropWhile_head _ _ _ _ E).
  - unfold trimStart in E. rewrite <- E. symmetry. apply takeWhile_dropWhile.
Qed.

(** X23. A header line with a title that is not blank and with a priority
    marker at its end gives a phase of the result with the number, the
    trimmed title and the priority that are read off the line. *)
Theorem header_with_priority_gives_phase (fuel : nat)
  (content specFolder : jsstring) (r : ParseResult) (line : jsstring)
  (p : Phase) :
  Parser.parseTasksFile fuel content specFolder = Some r ->
  In line (split isLF content) ->
  headerOfLine line p -> priority p <> None -> phaseTitle p <> [] ->
  exists q, In q (phases r) /\ sameHeader q p.
Proof.
  intros H Hl Hh Hp Ht.
  destruct (exec_PHASE_HEADER_complete _ _ Hh) as [m [Em _]].
  destruct Hh as [ws1 [ws2 [ds [ws3 [g [tail [E [S1 [S2 [D [S3 [Ng [Lg [En [Et Tl]]]]]]]]]]]]]]].
  destruct Tl as [[_ Pn]|[ws4 [ws5 [d [-> [S4 [S5 [Dd Pp]]]]]]]]; [congruence|].
  rewrite Et in Ht. destruct (trim_nonempty_head g Ht) as [x [g0 [Es [X Eg]]]].
  assert (F : number_ (headerPhase m) = to_double (digitsValue ds) /\
              phaseTitle (headerPhase m) = trim (x :: g0) /\
              priority (headerPhase m) = Some (js "P" ++ [d])).
  { apply (exec_PHASE_HEADER_priority line ws1 ws2 ds
             (ws3 ++ takeWhile isWhiteSpace g) g0 ws4 ws5 x d m);
      try assumption.
    - rewrite E. rewrite Eg at 1. rewrite <- !app_assoc. reflexivity.
    - rewrite forallb_app, S3. apply forallb_takeWhile.
    - rewrite <- Es. now apply noLineTerminator_dropWhile. }
  destruct F as [F1 [F2 F3]].
  destruct (parseTasksFile_parts _ _ _ _ H) as [deps [_ [Ep _]]].
  destruct (phasesFrom_header_In line m _ Em Hl None) as [q [Hq [Q1 [Q2 Q3]]]].
  exists (match Map.get (number_ q) deps with
          | Some dep => Parser.setDependency dep q
          | None => q
          end).
  split.
  - rewrite Ep. unfold Parser.attachDependencies.
    apply (in_map (fun phase => match Map.get (number_ phase) deps with
                                | Some dep => Parser.setDependency dep phase
                                | None => phase
                                end) _ q Hq).
  - assert (T : trim (x :: g0) = trim g).
    { unfold trim. rewrite Es. unfold trimStart. cbn [dropWhile].
      now rewrite X. }
    unfold sameHeader.
    destruct (Map.get (number_ q) deps);
      cbn [Parser.setDependency number_ phaseTitle priority];
      repeat split; congruence.
Qed.

Lemma header_with_priority_gives_phase_witness :
  exists r q,
    Parser.parseTasksFile 0 docExampleOne folder = Some r /\
    In q (phases r) /\ sameHeader q phaseSetupP1.
Proof.
  destruct (Parser.parseTasksFile 0 docExampleOne folder) as [r|] eqn:E;
    [|vm_compute in E; discriminate].
  destruct (header_with_priority_gives_phase 0 docExampleOne folder r
              (js "## Phase 1: Setup (Priority: P1)") phaseSetupP1 E)
    as [q [Hq S]].
  - vm_compute. tauto.
  - exists (js " "), (js " "), (js "1"), (js " "), (js "Setup"),
      (js " (Priority: P1)").
    repeat split; try reflexivity; try discriminate.
    right. exists (js " "), (js " "), 49%N. now repeat split.
  - discriminate.
  - discriminate.
  - now exists r, q.
Defined.

(** Without a visible character in the title the marker is taken for the
    title: white space alone cannot be the title, and the lazy title then
    runs to the end of the line. *)
Lemma blank_title_swallows_marker :
  exists m,
    exec Parser.PHASE_HEADER_REGEX (js "## Phase 1:   (Priority: P1)") = Some m /\
    phaseTitle (headerPhase m) = js "(Priority: P1)" /\
    priority (headerPhase m) = None.
Proof.
  eexists. split; [vm_compute; reflexivity|]. split; reflexivity.
Qed.

(** ** The progress bar and the percentage *)

Lemma pw_pos s : 0 < pw s.
Proof. unfold pw. apply Z.pow_pos_nonneg; lia. Qed.

Lemma pw_add s t :
  pw (s + t) * pw (- s) * pw (- t) = pw (- (s + t)) * pw s * pw t.
Proof.
  unfold pw. rewrite <- !Z.pow_add_r by lia. f_equal. lia.
Qed.

Lemma pw_mono s t : s <= t -> pw s * pw (- t) <= pw t * pw (- s).
Proof.
  intros H. unfold pw. rewrite <- !Z.pow_add_r by lia.
  apply Z.pow_le_mono_r; lia.
Qed.

Lemma pw_le s t : s <= t -> pw s <= pw t.
Proof. intros H. unfold pw. apply Z.pow_le_mono_r; lia. Qed.

Lemma roundHalfEven_mono N1 D1 N2 D2 :
  0 < D1 -> 0 < D2 -> N1 * D2 <= N2 * D1 ->
  Double.roundHalfEven N1 D1 <= Double.roundHalfEven N2 D2.
Proof.
  intros H1 H2 H. unfold Double.roundHalfEven.
  pose proof (Z.div_mod N1 D1 ltac:(lia)) as E1.
  pose proof (Z.div_mod N2 D2 ltac:(lia)) as E2.
  pose proof (Z.mod_pos_bound N1 D1 H1) as B1.
  pose proof (Z.mod_pos_bound N2 D2 H2) as B2.
  set (q1 := N1 / D1) in *. set (r1 := N1 mod D1) in *.
  set (q2 := N2 / D2) in *. set (r2 := N2 mod D2) in *.
  clearbody q1 r1 q2 r2.
  assert (Q : q1 <= q2).
  { destruct (Z_le_gt_dec q1 q2) as [|G]; [assumption|exfalso].
    assert (q2 + 1 <= q1) by lia.
    assert ((q2 + 1) * (D1 * D2) <= q1 * (D1 * D2)) by (apply Z.mul_le_mono_nonneg_r; nia).
    nia. }
  destruct (Z.eq_dec q1 q2) as [Eq|Nq].
  - assert (R : r1 * D2 <= r2 * D1) by (subst N1 N2; rewrite Eq in H; nia).
    rewrite Eq.
    destruct (Z.ltb_spec (2 * r1) D1) as [A|A].
    + destruct (2 * r2 <? D2); [lia|]. destruct (D2 <? 2 * r2); [lia|].
      destruct (Z.even q2); lia.
    + assert (R2 : D2 <= 2 * r2) by nia.
      destruct (Z.ltb_spec (2 * r2) D2) as [A2|A2]; [lia|].
      destruct (Z.ltb_spec D1 (2 * r1)) as [C|C].
      * assert (D2 < 2 * r2) by nia.
        destruct (Z.ltb_spec D2 (2 * r2)); lia.
      * destruct (D2 <? 2 * r2); destruct (Z.even q2); lia.
  - assert (q1 + 1 <= q2) by lia.
    destruct (2 * r1 <? D1); destruct (D1 <? 2 * r1); destruct (Z.even q1);
    destruct (2 * r2 <? D2); destruct (D2 <? 2 * r2); destruct (Z.even q2); lia.
Qed.

Lemma roundHalfEven_exact z D : 0 < D -> Double.roundHalfEven (z * D) D = z.
Proof.
  intros H. unfold Double.roundHalfEven.
  rewrite Z.div_mul, Z.mod_mul by lia.
  destruct (Z.ltb_spec (2 * 0) D); [reflexivity|lia].
Qed.

Lemma roundHalfEven_le N D K :
  0 < D -> N <= K * D -> Double.roundHalfEven N D <= K.
Proof.
  intros H1 H2.
  pose proof (roundHalfEven_mono N D (K * 1) 1 H1 Z.lt_0_1 ltac:(lia)) as M.
  now rewrite (roundHalfEven_exact K 1 Z.lt_0_1) in M.
Qed.

Lemma roundHalfEven_ge N D K :
  0 < D -> K * D <= N -> K <= Double.roundHalfEven N D.
Proof.
  intros H1 H2.
  pose proof (roundHalfEven_mono (K * 1) 1 N D Z.lt_0_1 H1 ltac:(lia)) as M.
  now rewrite (roundHalfEven_exact K 1 Z.lt_0_1) in M.
Qed.
Lemma roundRatio_eq n d :
  0 < n ->
  Double.roundRatio n d =
  {| Double.mant :=
       Double.roundHalfEven (n * pw (52 - expOf n d)) (d * pw (- (52 - expOf n d)));
     Double.expo := - (52 - expOf n d) |}.
Proof.
  intros H. unfold Double.roundRatio.
  destruct (Z.eqb_spec n 0) as [E|_]; [lia|reflexivity].
Qed.

(** [2 ^ e <= n / d < 2 ^ (e + 1)] for the exponent [e] chosen. *)
Lemma expOf_spec n d :
  0 < n -> 0 < d ->
  d * pw (expOf n d) <= n * pw (- expOf n d) /\
  n * pw (- (expOf n d + 1)) < d * pw (expOf n d + 1).
Proof.
  intros Hn Hd.
  destruct (Z.log2_spec n Hn) as [A1 A2]. destruct (Z.log2_spec d Hd) as [B1 B2].
  pose proof (Z.log2_nonneg n) as A0. pose proof (Z.log2_nonneg d) as B0.
  unfold expOf. fold (pw (- (Z.log2 n - Z.log2 d))). fold (pw (Z.log2 n - Z.log2 d)).
  set (a := Z.log2 n) in *. set (b := Z.log2 d) in *. clearbody a b.
  destruct (Z.ltb_spec (n * pw (- (a - b))) (d * pw (a - b))) as [T|T].
  - split.
    + assert (E : 2 ^ Z.succ b * pw (a - b - 1) = 2 ^ a * pw (- (a - b - 1))).
      { unfold pw. rewrite <- !Z.pow_add_r by lia. f_equal. lia. }
      pose proof (pw_pos (a - b - 1)). pose proof (pw_pos (- (a - b - 1))).
      nia.
    + now replace (a - b - 1 + 1) with (a - b) by lia.
  - split; [assumption|].
    assert (E : 2 ^ Z.succ a * pw (- (a - b + 1)) = 2 ^ b * pw (a - b + 1)).
    { unfold pw. rewrite <- !Z.pow_add_r by lia. f_equal. lia. }
    pose proof (pw_pos (a - b + 1)). pose proof (pw_pos (- (a - b + 1))).
    nia.
Qed.

(** The scaled ratio lies in the range of the 53-bit mantissas. *)
Lemma scaled_ratio n d :
  0 < n -> 0 < d ->
  let sh := 52 - expOf n d in
  2 ^ 52 * (d * pw (- sh)) <= n * pw sh /\
  n * pw sh < 2 ^ 53 * (d * pw (- sh)).
Proof.
  intros Hn Hd sh. destruct (expOf_spec n d Hn Hd) as [L U].
  set (e := expOf n d) in *. clearbody e. subst sh.
  pose proof (pw_pos e). pose proof (pw_pos (- e)).
  pose proof (pw_pos (e + 1)). pose proof (pw_pos (- (e + 1))).
  pose proof (pw_pos (52 - e)). pose proof (pw_pos (- (52 - e))).
  split.
  - pose proof (pw_add (52 - e) e) as I.
    replace (52 - e + e) with 52 in I by lia.
    change (pw 52) with (2 ^ 52) in I. change (pw (- (52))) with 1 in I.
    (* 2^52 * pw(-(52-e)) * pw(-e) = pw (52-e) * pw e *)
    apply Z.mul_le_mono_pos_r with (p := pw e); [assumption|].
    replace (2 ^ 52 * (d * pw (- (52 - e))) * pw e)
      with (d * pw e * (2 ^ 52 * pw (- (52 - e)))) by ring.
    replace (n * pw (52 - e) * pw e) with (n * (1 * pw (52 - e) * pw e)) by ring.
    rewrite <- I.
    replace (n * (2 ^ 52 * pw (- (52 - e)) * pw (- e)))
      with (n * pw (- e) * (2 ^ 52 * pw (- (52 - e)))) by ring.
    apply Z.mul_le_mono_nonneg_r; [lia|assumption].
  - pose proof (pw_add (52 - e) (e + 1)) as I.
    replace (52 - e + (e + 1)) with 53 in I by lia.
    change (pw 53) with (2 ^ 53) in I. change (pw (- (53))) with 1 in I.
    (* 2^53 * pw(-(52-e)) * pw(-(e+1)) = pw (52-e) * pw (e+1) *)
    apply Z.mul_lt_mono_pos_r with (p := pw (- (e + 1))); [assumption|].
    replace (2 ^ 53 * (d * pw (- (52 - e))) * pw (- (e + 1)))
      with (d * (2 ^ 53 * pw (- (52 - e)) * pw (- (e + 1)))) by ring.
    rewrite I.
    replace (n * pw (52 - e) * pw (- (e + 1)))
      with (n * pw (- (e + 1)) * pw (52 - e)) by ring.
    replace (d * (1 * pw (52 - e) * pw (e + 1)))
      with (d * pw (e + 1) * pw (52 - e)) by ring.
    apply Z.mul_lt_mono_pos_r; assumption.
Qed.
Lemma roundRatio_mant n d :
  0 < n -> 0 < d ->
  2 ^ 52 <= Double.mant (Double.roundRatio n d) <= 2 ^ 53.
Proof.
  intros Hn Hd. rewrite (roundRatio_eq n d Hn). cbn [Double.mant].
  destruct (scaled_ratio n d Hn Hd) as [L U].
  pose proof (pw_pos (- (52 - expOf n d))).
  split.
  - apply roundHalfEven_ge; [nia|assumption].
  - apply roundHalfEven_le; [nia|lia].
Qed.

Lemma roundRatio_num_nonneg n d :
  0 <= n -> 0 < d -> 0 <= num (Double.roundRatio n d).
Proof.
  intros Hn Hd. destruct (Z.eq_dec n 0) as [->|N]; [discriminate|].
  pose proof (roundRatio_mant n d ltac:(lia) Hd) as [M _].
  unfold num. pose proof (pw_pos (Double.expo (Double.roundRatio n d))).
  assert (0 < 2 ^ 52) by reflexivity. nia.
Qed.

Lemma expOf_mono n1 d1 n2 d2 :
  0 < n1 -> 0 < d1 -> 0 < n2 -> 0 < d2 -> n1 * d2 <= n2 * d1 ->
  expOf n1 d1 <= expOf n2 d2.
Proof.
  intros Hn1 Hd1 Hn2 Hd2 H.
  destruct (expOf_spec n1 d1 Hn1 Hd1) as [L1 _].
  destruct (expOf_spec n2 d2 Hn2 Hd2) as [_ U2].
  set (e1 := expOf n1 d1) in *. set (e2 := expOf n2 d2) in *. clearbody e1 e2.
  destruct (Z_le_gt_dec e1 e2) as [|G]; [assumption|exfalso].
  set (s := e2 + 1) in *.
  pose proof (pw_mono s e1 ltac:(lia)) as M.
  pose proof (pw_pos s). pose proof (pw_pos (- s)).
  pose proof (pw_pos e1). pose proof (pw_pos (- e1)).
  assert (A : d1 * pw s <= n1 * pw (- s)).
  { apply Z.mul_le_mono_pos_r with (p := pw (- e1)); [assumption|].
    apply Z.le_trans with (d1 * pw e1 * pw (- s)).
    - replace (d1 * pw s * pw (- e1)) with (d1 * (pw s * pw (- e1))) by ring.
      replace (d1 * pw e1 * pw (- s)) with (d1 * (pw e1 * pw (- s))) by ring.
      apply Z.mul_le_mono_nonneg_l; lia.
    - replace (n1 * pw (- s) * pw (- e1)) with (n1 * pw (- e1) * pw (- s)) by ring.
      apply Z.mul_le_mono_nonneg_r; lia. }
  assert (B : d1 * pw s * d2 <= n2 * pw (- s) * d1).
  { apply Z.le_trans with (n1 * pw (- s) * d2).
    - apply Z.mul_le_mono_nonneg_r; lia.
    - replace (n1 * pw (- s) * d2) with (n1 * d2 * pw (- s)) by ring.
      replace (n2 * pw (- s) * d1) with (n2 * d1 * pw (- s)) by ring.
      apply Z.mul_le_mono_nonneg_r; lia. }
  assert (C : n2 * pw (- s) * d1 < d2 * pw s * d1).
  { apply Z.mul_lt_mono_pos_r; assumption. }
  lia.
Qed.

Lemma pw_step s t : t + 1 <= s -> 2 * (pw (- s) * pw t) <= pw (- t) * pw s.
Proof.
  intros H. unfold pw.
  rewrite <- !Z.pow_add_r by lia.
  rewrite <- (Z.pow_1_r 2) at 1. rewrite <- Z.pow_add_r by lia.
  apply Z.pow_le_mono_r; lia.
Qed.

(** Rounding is monotone: a smaller ratio gives a smaller double. *)
Lemma roundRatio_mono n1 d1 n2 d2 :
  0 <= n1 -> 0 < d1 -> 0 < d2 -> n1 * d2 <= n2 * d1 ->
  dle (Double.roundRatio n1 d1) (Double.roundRatio n2 d2).
Proof.
  intros Hn1 Hd1 Hd2 H.
  assert (Hn2 : 0 <= n2) by nia.
  destruct (Z.eq_dec n1 0) as [->|N1].
  { unfold dle. change (num (Double.roundRatio 0 d1)) with 0.
    change (den (Double.roundRatio 0 d1)) with 1.
    pose proof (roundRatio_num_nonneg n2 d2 Hn2 Hd2). lia. }
  assert (P1 : 0 < n1) by lia. assert (P2 : 0 < n2) by nia.
  pose proof (expOf_mono n1 d1 n2 d2 P1 Hd1 P2 Hd2 H) as E.
  pose proof (roundRatio_mant n1 d1 P1 Hd1) as [_ M1].
  pose proof (roundRatio_mant n2 d2 P2 Hd2) as [M2 _].
  revert M1 M2.
  rewrite (roundRatio_eq n1 d1 P1), (roundRatio_eq n2 d2 P2).
  unfold dle, num, den. cbn [Double.mant Double.expo].
  rewrite !Z.opp_involutive.
  set (e1 := expOf n1 d1) in *. set (e2 := expOf n2 d2) in *. clearbody e1 e2.
  intros M1 M2.
  destruct (Z.eq_dec e1 e2) as [<-|Ne].
  - pose proof (pw_pos (52 - e1)). pose proof (pw_pos (- (52 - e1))).
    apply Z.mul_le_mono_nonneg_r; [lia|].
    apply Z.mul_le_mono_nonneg_r; [lia|].
    apply roundHalfEven_mono; [nia|nia|].
    replace (n1 * pw (52 - e1) * (d2 * pw (- (52 - e1))))
      with (n1 * d2 * (pw (52 - e1) * pw (- (52 - e1)))) by ring.
    replace (n2 * pw (52 - e1) * (d1 * pw (- (52 - e1))))
      with (n2 * d1 * (pw (52 - e1) * pw (- (52 - e1)))) by ring.
    apply Z.mul_le_mono_nonneg_r; nia.
  - pose proof (pw_step (52 - e1) (52 - e2) ltac:(lia)) as S.
    set (m1 := Double.roundHalfEven (n1 * _) _) in *.
    set (m2 := Double.roundHalfEven (n2 * _) _) in *. clearbody m1 m2.
    pose proof (pw_pos (52 - e1)). pose proof (pw_pos (- (52 - e1))).
    pose proof (pw_pos (52 - e2)). pose proof (pw_pos (- (52 - e2))).
    set (A := pw (- (52 - e1)) * pw (52 - e2)) in *.
    set (B := pw (- (52 - e2)) * pw (52 - e1)) in *.
    replace (m1 * pw (- (52 - e1)) * pw (52 - e2)) with (m1 * A) by (unfold A; ring).
    replace (m2 * pw (- (52 - e2)) * pw (52 - e1)) with (m2 * B) by (unfold B; ring).
    assert (0 < A) by (unfold A; nia). assert (0 < B) by (unfold B; nia).
    clearbody A B.
    change (2 ^ 53) with (2 ^ 52 * 2) in M1.
    assert (0 < 2 ^ 52) by reflexivity.
    set (c := 2 ^ 52) in *. clearbody c.
    apply Z.le_trans with (c * 2 * A); [apply Z.mul_le_mono_nonneg_r; lia|].
    apply Z.le_trans with (c * B); [nia|apply Z.mul_le_mono_nonneg_r; lia].
Qed.
Lemma mulInt_eq x w :
  Double.mulInt x w = Double.roundRatio (num x * w) (den x).
Proof.
  unfold Double.mulInt, num, den, pw. f_equal. ring.
Qed.

Lemma den_pos x : 0 < den x.
Proof. apply pw_pos. Qed.

Lemma mulInt_mono x y w :
  0 <= num x -> 0 <= w -> dle x y ->
  dle (Double.mulInt x w) (Double.mulInt y w).
Proof.
  intros Hx Hw H. rewrite !mulInt_eq.
  apply roundRatio_mono; [nia|apply den_pos|apply den_pos|].
  unfold dle in H.
  replace (num x * w * den y) with (num x * den y * w) by ring.
  replace (num y * w * den x) with (num y * den x * w) by ring.
  now apply Z.mul_le_mono_nonneg_r.
Qed.

(** [Math.round x] is the floor of [x + 1/2]. *)
Lemma mathRound_eq x :
  Double.mathRound x = (2 * num x + den x) / (2 * den x).
Proof.
  unfold Double.mathRound, num, den, pw.
  destruct (Z.leb_spec 0 (Double.expo x)) as [P|P].
  - rewrite (Z.max_r 0 (Double.expo x)) by lia.
    rewrite (Z.max_l 0 (- Double.expo x)) by lia.
    change (2 ^ 0) with 1. change (2 * 1) with 2.
    set (a := Double.mant x * 2 ^ Double.expo x).
    replace (2 * a + 1) with (a * 2 + 1) by ring.
    rewrite Z.div_add_l by lia. change (1 / 2) with 0. ring.
  - rewrite (Z.max_l 0 (Double.expo x)) by lia.
    rewrite (Z.max_r 0 (- Double.expo x)) by lia.
    change (2 ^ 0) with 1. rewrite Z.mul_1_r.
    replace (1 - Double.expo x) with (1 + - Double.expo x) by ring.
    rewrite Z.pow_add_r by lia. reflexivity.
Qed.

Lemma div_le_cross a b c d :
  0 < b -> 0 < d -> a * d <= c * b -> a / b <= c / d.
Proof.
  intros Hb Hd H. apply Z.div_le_lower_bound; [assumption|].
  pose proof (Z.mul_div_le a b Hb) as L.
  apply Z.mul_le_mono_pos_r with (p := b); [assumption|].
  apply Z.le_trans with (a * d); [|assumption].
  replace (d * (a / b) * b) with (b * (a / b) * d) by ring.
  apply Z.mul_le_mono_nonneg_r; lia.
Qed.

Lemma mathRound_mono x y :
  dle x y -> Double.mathRound x <= Double.mathRound y.
Proof.
  intros H. rewrite !mathRound_eq.
  pose proof (den_pos x). pose proof (den_pos y). unfold dle in H.
  apply div_le_cross; [lia|lia|].
  replace ((2 * num x + den x) * (2 * den y))
    with (4 * (num x * den y) + 2 * (den x * den y)) by ring.
  replace ((2 * num y + den y) * (2 * den x))
    with (4 * (num y * den x) + 2 * (den x * den y)) by ring.
  lia.
Qed.

Lemma mathRound_nonneg x : 0 <= num x -> 0 <= Double.mathRound x.
Proof.
  intros H. rewrite mathRound_eq. pose proof (den_pos x).
  apply Z.div_pos; lia.
Qed.

Lemma div_num_nonneg c t :
  0 <= c ->
  0 <= num (if 0 <? t then Double.div c t else Double.zero).
Proof.
  intros H. destruct (Z.ltb_spec 0 t); [|discriminate].
  now apply roundRatio_num_nonneg.
Qed.

(** The number of filled cells grows with the ratio of the completed
    tasks. *)
Lemma filledCells_mono c1 t1 c2 t2 w :
  0 <= c1 -> 0 < t1 -> 0 < t2 -> 0 <= w -> c1 * t2 <= c2 * t1 ->
  filledCells c1 t1 w <= filledCells c2 t2 w.
Proof.
  intros Hc Ht1 Ht2 Hw H. unfold filledCells.
  destruct (Z.ltb_spec 0 t1); [|lia]. destruct (Z.ltb_spec 0 t2); [|lia].
  apply mathRound_mono, mulInt_mono; [now apply roundRatio_num_nonneg|assumption|].
  now apply roundRatio_mono.
Qed.

Lemma filledCells_nonneg c t w : 0 <= c -> 0 <= w -> 0 <= filledCells c t w.
Proof.
  intros Hc Hw. unfold filledCells. apply mathRound_nonneg.
  rewrite mulInt_eq. apply roundRatio_num_nonneg; [|apply den_pos].
  pose proof (div_num_nonneg c t Hc). nia.
Qed.

(** An integer below 2^53 is a double. *)
Lemma mathRound_int w :
  0 <= w < 2 ^ 53 -> Double.mathRound (Double.roundRatio w 1) = w.
Proof.
  intros [H0 H1]. destruct (Z.eq_dec w 0) as [->|N]; [reflexivity|].
  assert (P : 0 < w) by lia.
  destruct (expOf_spec w 1 P Z.lt_0_1) as [L _].
  rewrite mathRound_eq, (roundRatio_eq w 1 P).
  unfold num, den. cbn [Double.mant Double.expo]. rewrite Z.opp_involutive.
  set (e := expOf w 1) in *. clearbody e.
  assert (E : e <= 52).
  { destruct (Z_le_gt_dec e 52) as [|G]; [assumption|exfalso].
    assert (pw (- e) = 1) as Q by (unfold pw; rewrite Z.max_l by lia; reflexivity).
    pose proof (pw_le 53 e ltac:(lia)) as Q2. change (pw 53) with (2 ^ 53) in Q2.
    lia. }
  assert (Q : pw (- (52 - e)) = 1) by (unfold pw; rewrite Z.max_l by lia; reflexivity).
  rewrite Q, !Z.mul_1_r.
  pose proof (roundHalfEven_exact (w * pw (52 - e)) 1 Z.lt_0_1) as X.
  rewrite Z.mul_1_r in X. rewrite X.
  pose proof (pw_pos (52 - e)). set (p := pw (52 - e)) in *. clearbody p.
  symmetry. apply Z.div_unique with (r := p); [lia|ring].
Qed.

Lemma filledCells_all t w :
  0 < t -> 0 <= w < 2 ^ 53 -> filledCells t t w = w.
Proof.
  intros Ht Hw. unfold filledCells. destruct (Z.ltb_spec 0 t); [|lia].
  rewrite <- (mathRound_int w Hw) at 2.
  assert (N1 : 0 <= num (Double.roundRatio 1 1)) by discriminate.
  pose proof (roundRatio_num_nonneg t t ltac:(lia) Ht) as N2.
  apply Z.le_antisymm.
  - apply Z.le_trans with (Double.mathRound (Double.mulInt (Double.roundRatio 1 1) w)).
    + apply mathRound_mono, mulInt_mono; [assumption|lia|].
      apply roundRatio_mono; lia.
    + apply mathRound_mono. rewrite mulInt_eq.
      apply roundRatio_mono; [nia|reflexivity|lia|].
      change (num (Double.roundRatio 1 1)) with (2 ^ 52).
      change (den (Double.roundRatio 1 1)) with (2 ^ 52). lia.
  - apply Z.le_trans with (Double.mathRound (Double.mulInt (Double.roundRatio 1 1) w)).
    + apply mathRound_mono. rewrite mulInt_eq.
      apply roundRatio_mono; [lia|lia|reflexivity|].
      change (num (Double.roundRatio 1 1)) with (2 ^ 52).
      change (den (Double.roundRatio 1 1)) with (2 ^ 52). lia.
    + apply mathRound_mono, mulInt_mono; [assumption|lia|].
      apply roundRatio_mono; lia.
Qed.
Lemma in_range j n :
  0 <= j < Z.of_nat n -> In j (List.map Z.of_nat (seq 0 n)).
Proof.
  intros H. apply in_map_iff. exists (Z.to_nat j). split; [lia|].
  apply in_seq. lia.
Qed.

(** The bar at the ratios [(2j - 1) / 40], where the exact product with 20
    is [j - 1/2], and just below the next one. *)
Lemma bar_table :
  forallb (fun j =>
             (filledCells (2 * j - 1) 40 20 =? j) &&
             (filledCells ((2 * j + 1) * 2 ^ 32 - 1) (40 * 2 ^ 32) 20 =? j))
    (List.map Z.of_nat (seq 1 19)) = true /\
  filledCells (2 ^ 32 - 1) (40 * 2 ^ 32) 20 = 0 /\
  filledCells 39 40 20 = 20 /\
  filledCells 1 1 20 = 20.
Proof. vm_compute. repeat split. Qed.

Lemma bar_table_at j :
  1 <= j <= 19 ->
  filledCells (2 * j - 1) 40 20 = j /\
  filledCells ((2 * j + 1) * 2 ^ 32 - 1) (40 * 2 ^ 32) 20 = j.
Proof.
  intros H. destruct bar_table as [T _].
  rewrite forallb_forall in T. specialize (T j).
  assert (I : In j (List.map Z.of_nat (seq 1 19))).
  { apply in_map_iff. exists (Z.to_nat j). split; [lia|]. apply in_seq. lia. }
  apply T in I. apply andb_true_iff in I. destruct I as [I1 I2].
  split; now apply Z.eqb_eq.
Qed.

(** The quotient [(2 k c + t) / (2 t)] is the ratio [k c / t] rounded to
    the nearest integer, the greater one of two that are equally near. *)
Lemma half_up_bounds k c t :
  0 < t -> 0 <= c <= t -> 0 < k ->
  let j := (2 * k * c + t) / (2 * t) in
  0 <= j <= k /\ (2 * j - 1) * t <= 2 * k * c < (2 * j + 1) * t.
Proof.
  intros Ht Hc Hk j.
  pose proof (Z.div_mod (2 * k * c + t) (2 * t) ltac:(lia)) as E.
  pose proof (Z.mod_pos_bound (2 * k * c + t) (2 * t) ltac:(lia)) as B.
  fold j in E. set (r := (2 * k * c + t) mod (2 * t)) in *. clearbody j r.
  assert (0 <= j) by nia.
  assert (j <= k) by nia.
  split; [lia|]. split; nia.
Qed.

Lemma below_next a c t j T :
  0 < t <= T -> a * c < (2 * j + 1) * t -> 0 <= c -> 0 < a ->
  c * (a * T) <= ((2 * j + 1) * T - 1) * t.
Proof.
  intros Ht H Hc Ha.
  assert (a * c + 1 <= (2 * j + 1) * t) by lia.
  assert ((a * c + 1) * T <= (2 * j + 1) * t * T) by (apply Z.mul_le_mono_nonneg_r; lia).
  nia.
Qed.

Lemma defaultBar_cells c t :
  0 <= c <= t -> 0 < t <= 2 ^ 32 ->
  filledCells c t 20 = (40 * c + t) / (2 * t).
Proof.
  intros Hc Ht.
  destruct (half_up_bounds 20 c t ltac:(lia) Hc ltac:(lia)) as [J [L U]].
  change (2 * 20) with 40 in *.
  set (j := (40 * c + t) / (2 * t)) in *. clearbody j.
  pose proof (below_next 40 c t j (2 ^ 32) Ht U ltac:(lia) ltac:(lia)) as U'.
  destruct bar_table as [_ [T0 [T39 T1]]].
  assert (UP : forall c2 t2, 0 < t2 -> c * t2 <= c2 * t ->
                 filledCells c2 t2 20 = j -> filledCells c t 20 <= j).
  { intros c2 t2 P Q <-. apply filledCells_mono; lia. }
  assert (LO : forall c1 t1, 0 <= c1 -> 0 < t1 -> c1 * t <= c * t1 ->
                 filledCells c1 t1 20 = j -> j <= filledCells c t 20).
  { intros c1 t1 O P Q <-. apply filledCells_mono; lia. }
  apply Z.le_antisymm.
  - destruct (Z.eq_dec j 20) as [E|N].
    + apply (UP 1 1); [lia|lia|now rewrite E].
    + destruct (Z.eq_dec j 0) as [E0|N0].
      * apply (UP (2 ^ 32 - 1) (40 * 2 ^ 32)); [reflexivity|subst j; exact U'|now rewrite E0].
      * destruct (bar_table_at j ltac:(lia)) as [_ T].
        apply (UP ((2 * j + 1) * 2 ^ 32 - 1) (40 * 2 ^ 32)); [reflexivity|exact U'|exact T].
  - destruct (Z.eq_dec j 0) as [->|N0]; [apply filledCells_nonneg; lia|].
    destruct (Z.eq_dec j 20) as [E|N].
    + apply (LO 39 40); [lia|lia|subst j; lia|now rewrite E].
    + destruct (bar_table_at j ltac:(lia)) as [T _].
      apply (LO (2 * j - 1) 40); [lia|lia|lia|exact T].
Qed.
Lemma percentage_filledCells c t :
  Formatter.percentage c t = filledCells c t 100.
Proof.
  unfold Formatter.percentage, filledCells.
  destruct (0 <? t); reflexivity.
Qed.

(** The percentage at the ratios [(2j - 1) / 200], just above them and
    just below the next one. *)
Lemma percentage_table :
  forallb (fun j =>
             (filledCells (2 * j - 1) 200 100 =?
                j - (if exceptional (2 * j - 1) 200 then 1 else 0)) &&
             (filledCells ((2 * j - 1) * 2 ^ 32 + 1) (200 * 2 ^ 32) 100 =? j) &&
             (filledCells ((2 * j - 1) * 2 ^ 32 - 1) (200 * 2 ^ 32) 100 =? j - 1))
    (List.map Z.of_nat (seq 1 100)) = true /\
  filledCells 1 1 100 = 100.
Proof. vm_compute. split; reflexivity. Qed.

Lemma percentage_table_at j :
  1 <= j <= 100 ->
  filledCells (2 * j - 1) 200 100 =
    j - (if exceptional (2 * j - 1) 200 then 1 else 0) /\
  filledCells ((2 * j - 1) * 2 ^ 32 + 1) (200 * 2 ^ 32) 100 = j /\
  filledCells ((2 * j - 1) * 2 ^ 32 - 1) (200 * 2 ^ 32) 100 = j - 1.
Proof.
  intros H. destruct percentage_table as [T _].
  rewrite forallb_forall in T. specialize (T j).
  assert (I : In j (List.map Z.of_nat (seq 1 100))).
  { apply in_map_iff. exists (Z.to_nat j). split; [lia|]. apply in_seq. lia. }
  apply T in I. apply andb_true_iff in I. destruct I as [I I3].
  apply andb_true_iff in I. destruct I as [I1 I2].
  repeat split; now apply Z.eqb_eq.
Qed.

Lemma eqb_mul_r x y t : 0 < t -> (x * t =? y * t) = (x =? y).
Proof.
  intros H. destruct (Z.eqb_spec x y) as [->|N]; [apply Z.eqb_refl|].
  apply Z.eqb_neq. intros E. apply Z.mul_cancel_r in E; lia.
Qed.

Lemma exceptional_at a c t :
  0 < t -> 200 * c = a * t -> exceptional c t = exceptional a 200.
Proof.
  intros Ht E. unfold exceptional. rewrite E.
  rewrite !(eqb_mul_r _ _ t Ht).
  rewrite !(Z.mul_comm 200 a).
  now rewrite !(eqb_mul_r _ _ 200 eq_refl).
Qed.

Lemma exceptional_between j c t :
  0 < t -> (2 * j - 1) * t < 200 * c < (2 * j + 1) * t ->
  exceptional c t = false.
Proof.
  intros Ht [L U]. unfold exceptional.
  assert (X : forall a, Z.odd a = true -> (200 * c =? a * t) = false).
  { intros a O. apply Z.eqb_neq. intros E. rewrite E in L, U.
    apply Z.mul_lt_mono_pos_r in L, U; try assumption.
    assert (a = 2 * j) as -> by lia. rewrite Z.odd_mul in O. discriminate. }
  now rewrite !X.
Qed.

Lemma above_this a c t j T :
  0 < t <= T -> (2 * j - 1) * t < a * c -> 0 <= c -> 0 < a ->
  ((2 * j - 1) * T + 1) * t <= c * (a * T).
Proof.
  intros Ht H Hc Ha.
  assert ((2 * j - 1) * t + 1 <= a * c) by lia.
  assert (((2 * j - 1) * t + 1) * T <= a * c * T) by (apply Z.mul_le_mono_nonneg_r; lia).
  nia.
Qed.

Lemma percentage_value c t :
  0 <= c <= t -> 0 < t <= 2 ^ 32 ->
  Formatter.percentage c t =
  (200 * c + t) / (2 * t) - (if exceptional c t then 1 else 0).
Proof.
  intros Hc Ht. rewrite percentage_filledCells.
  destruct (half_up_bounds 100 c t ltac:(lia) Hc ltac:(lia)) as [J [L U]].
  change (2 * 100) with 200 in *.
  set (j := (200 * c + t) / (2 * t)) in *. clearbody j.
  assert (UP : forall c2 t2 v, 0 < t2 -> c * t2 <= c2 * t ->
                 filledCells c2 t2 100 = v -> filledCells c t 100 <= v).
  { intros c2 t2 v P Q <-. apply filledCells_mono; lia. }
  assert (LO : forall c1 t1 v, 0 <= c1 -> 0 < t1 -> c1 * t <= c * t1 ->
                 filledCells c1 t1 100 = v -> v <= filledCells c t 100).
  { intros c1 t1 v O P Q <-. apply filledCells_mono; lia. }
  destruct (Z.eq_dec (200 * c) ((2 * j - 1) * t)) as [E|N].
  - assert (J1 : 1 <= j) by nia.
    rewrite (exceptional_at (2 * j - 1) c t ltac:(lia) E).
    destruct (percentage_table_at j ltac:(lia)) as [T _].
    apply Z.le_antisymm.
    + apply (UP (2 * j - 1) 200); [lia|lia|exact T].
    + apply (LO (2 * j - 1) 200); [lia|lia|lia|exact T].
  - rewrite (exceptional_between j c t ltac:(lia) ltac:(lia)).
    rewrite Z.sub_0_r.
    apply Z.le_antisymm.
    + destruct (Z.eq_dec j 100) as [E|N1].
      * destruct percentage_table as [_ T]. apply (UP 1 1); [lia|lia|now rewrite E].
      * destruct (percentage_table_at (j + 1) ltac:(lia)) as [_ [_ T]].
        replace (2 * (j + 1) - 1) with (2 * j + 1) in T by ring.
        replace (j + 1 - 1) with j in T by ring.
        apply (UP ((2 * j + 1) * 2 ^ 32 - 1) (200 * 2 ^ 32)); [reflexivity| |exact T].
        apply below_next; lia.
    + destruct (Z.eq_dec j 0) as [->|N0]; [apply filledCells_nonneg; lia|].
      destruct (percentage_table_at j ltac:(lia)) as [_ [T _]].
      apply (LO ((2 * j - 1) * 2 ^ 32 + 1) (200 * 2 ^ 32)); [|reflexivity| |exact T].
      * assert (0 < 2 ^ 32) by reflexivity. nia.
      * apply above_this; lia.
Qed.
Lemma concat_repeat_single (A : Type) (a : A) n :
  List.concat (List.repeat [a] n) = List.repeat a n.
Proof. induction n as [|n IH]; cbn; [reflexivity|now rewrite IH]. Qed.

Lemma formatProgressBar_cells c t w :
  0 <= filledCells c t w <= w -> w <= Formatter.maxStringLength ->
  Formatter.formatProgressBar c t w =
  Some (List.repeat 9608%N (Z.to_nat (filledCells c t w)) ++
        List.repeat 9617%N (Z.to_nat (w - filledCells c t w))).
Proof.
  intros [L U] M. unfold Formatter.formatProgressBar.
  fold (filledCells c t w). unfold Formatter.repeat.
  destruct (Z.ltb_spec (filledCells c t w) 0); [lia|].
  destruct (Z.ltb_spec (w - filledCells c t w) 0); [lia|].
  unfold Formatter.full, Formatter.empty. cbn [length].
  destruct (Z.ltb_spec Formatter.maxStringLength
              (Z.of_nat 1 * filledCells c t w)); [lia|].
  destruct (Z.ltb_spec Formatter.maxStringLength
              (Z.of_nat 1 * (w - filledCells c t w))); [lia|].
  rewrite !concat_repeat_single. unfold Formatter.concatStrings.
  rewrite !repeat_length.
  destruct (Z.ltb_spec Formatter.maxStringLength
              (Z.of_nat (Z.to_nat (filledCells c t w) +
                         Z.to_nat (w - filledCells c t w)))); [lia|reflexivity].
Qed.

Lemma filledCells_bounds c t w :
  0 <= c <= t -> 0 <= w < 2 ^ 53 -> 0 <= filledCells c t w <= w.
Proof.
  intros Hc Hw. split; [apply filledCells_nonneg; lia|].
  destruct (Z.ltb_spec 0 t) as [P|P].
  - apply Z.le_trans with (filledCells t t w);
      [apply filledCells_mono; nia|rewrite (filledCells_all t w P Hw); lia].
  - assert (c = 0) by lia. subst c. unfold filledCells.
    destruct (Z.ltb_spec 0 t); [lia|]. rewrite mulInt_eq.
    change (num Double.zero) with 0. rewrite Z.mul_0_l. cbn. lia.
Qed.

Lemma filledCells_none t w : filledCells 0 t w = 0.
Proof.
  unfold filledCells.
  assert (E : Double.mulInt (if 0 <? t then Double.div 0 t else Double.zero) w
              = Double.zero).
  { destruct (0 <? t); rewrite mulInt_eq;
      change (num (Double.div 0 t)) with 0 || change (num Double.zero) with 0;
      now rewrite Z.mul_0_l. }
  now rewrite E.
Qed.

(** X24. [formatProgressBar] with no more completed tasks than tasks (the
    counts of a parse result) and a width that a string can have: no call
    of [repeat] gets a negative count, no string is too long, and the bar
    has [width] cells, the filled ones first; all cells are filled when
    every task is completed, none when no task is. *)
Theorem progress_bar_has_width (completed total width : Z) :
  0 <= completed <= total -> 0 <= width <= Formatter.maxStringLength ->
  exists filled,
    0 <= filled <= width /\
    Formatter.formatProgressBar completed total width =
      Some (List.repeat 9608%N (Z.to_nat filled) ++
            List.repeat 9617%N (Z.to_nat (width - filled))) /\
    (0 < total -> completed = total -> filled = width) /\
    (completed = 0 -> filled = 0).
Proof.
  intros Hc Hw. exists (filledCells completed total width).
  assert (Hw' : 0 <= width < 2 ^ 53).
  { assert (Formatter.maxStringLength < 2 ^ 53) by reflexivity. lia. }
  pose proof (filledCells_bounds completed total width Hc Hw') as B.
  split; [exact B|]. split; [apply formatProgressBar_cells; [exact B|lia]|].
  split.
  - intros P ->. now apply filledCells_all.
  - intros ->. apply filledCells_none.
Qed.

Lemma progress_bar_has_width_witness :
  exists filled,
    0 <= filled <= 20 /\
    Formatter.formatProgressBar 1 3 20 =
      Some (List.repeat 9608%N (Z.to_nat filled) ++
            List.repeat 9617%N (Z.to_nat (20 - filled))) /\
    (0 < 3 -> 1 = 3 -> filled = 20) /\
    (1 = 0 -> filled = 0).
Proof.
  apply (progress_bar_has_width 1 3 20); [lia|split; [lia|discriminate]].
Defined.

(** With more completed tasks than tasks the second [repeat] throws, and
    so does the first one when the bar is longer than a string can be. *)
Lemma progress_bar_range_error :
  Formatter.formatProgressBar 2 1 20 = None /\
  Formatter.formatProgressBar 1 1 (Formatter.maxStringLength + 1) = None.
Proof. split; reflexivity. Qed.

Lemma completed_le_total fuel content specFolder r :
  Parser.parseTasksFile fuel content specFolder = Some r ->
  (completedTasks r <= totalTasks r)%nat.
Proof.
  intros H. pose proof (parseTasksFile_countsOk _ _ _ _ H) as F.
  rewrite Forall_forall in F.
  destruct (parseTasksFile_parts _ _ _ _ H) as [deps [_ [_ [Et [Ec _]]]]].
  rewrite Et, (fold_sum_length _ _ totalCount tasks)
    by (intros p Hp; apply (F p Hp)).
  rewrite Ec,
    (fold_sum_length _ _ completedCount (fun p => filter completed (tasks p)))
    by (intros p Hp; apply (F p Hp)).
  rewrite <- filter_flat_map. apply filter_length_le.
Qed.

(** The bar that [formatOutput] prints for a parse result. *)
Lemma progress_bar_of_result fuel content specFolder r :
  Parser.parseTasksFile fuel content specFolder = Some r ->
  exists bar,
    Formatter.formatProgressBar
      (Z.of_nat (completedTasks r)) (Z.of_nat (totalTasks r)) 20 = Some bar /\
    length bar = 20%nat.
Proof.
  intros H. pose proof (completed_le_total _ _ _ _ H) as L.
  pose proof (filledCells_bounds (Z.of_nat (completedTasks r))
                (Z.of_nat (totalTasks r)) 20 ltac:(lia) ltac:(split; [lia|reflexivity])) as B.
  eexists. split; [apply formatProgressBar_cells; [exact B|discriminate]|].
  rewrite length_app, !repeat_length. lia.
Qed.

(** X25. The bar of the default width, for at most 2^32 tasks: the number
    of filled cells is [20 * completed / total] rounded to the nearest
    integer, a half upwards.  So the bar is full from 39 completed tasks
    out of 40 on, and empty below 1 out of 40. *)
Theorem default_bar_rounds_half_up (completed total : Z) :
  0 <= completed <= total -> 0 < total <= 2 ^ 32 ->
  let filled := (40 * completed + total) / (2 * total) in
  Formatter.formatProgressBar completed total 20 =
    Some (List.repeat 9608%N (Z.to_nat filled) ++
          List.repeat 9617%N (Z.to_nat (20 - filled))) /\
  (filled = 20 <-> 39 * total <= 40 * completed) /\
  (filled = 0 <-> 40 * completed < total).
Proof.
  intros Hc Ht filled.
  pose proof (defaultBar_cells completed total Hc Ht) as E. fold filled in E.
  destruct (half_up_bounds 20 completed total ltac:(lia) Hc ltac:(lia)) as [J [L U]].
  change (2 * 20) with 40 in *. fold filled in J, L, U.
  split; [|split].
  - rewrite <- E. apply formatProgressBar_cells; [|discriminate].
    rewrite E. exact J.
  - clearbody filled. split; [intros ->; lia|intros H; nia].
  - clearbody filled. split; [intros ->; lia|intros H; nia].
Qed.

Lemma default_bar_rounds_half_up_witness :
  Formatter.formatProgressBar 39 40 20 = Some (List.repeat 9608%N 20).
Proof.
  destruct (default_bar_rounds_half_up 39 40) as [E _];
    [lia|split; [lia|discriminate]|].
  rewrite E. reflexivity.
Defined.

Lemma green_not_yellow : Formatter.green <> Formatter.yellow.
Proof. discriminate. Qed.

Lemma green_not_red : Formatter.green <> Formatter.red.
Proof. discriminate. Qed.

(** X26. The percentage of [formatOutput], for at most 2^32 tasks: it is
    [100 * completed / total] rounded to the nearest integer, a half
    upwards, except at the ratios 14.5%, 28.5%, 56.5% and 57.5%, which are
    rounded downwards.  So 100% is shown, in green, from 199 completed tasks
    out of 200 on. *)
Theorem percentage_rounds_half_up (completed total : Z) :
  0 <= completed <= total -> 0 < total <= 2 ^ 32 ->
  Formatter.percentage completed total =
    (200 * completed + total) / (2 * total) -
    (if exceptional completed total then 1 else 0) /\
  (Formatter.percentage completed total = 100 <->
   199 * total <= 200 * completed) /\
  (Formatter.progressColor (Formatter.percentage completed total) =
   Formatter.green <-> 199 * total <= 200 * completed).
Proof.
  intros Hc Ht.
  pose proof (percentage_value completed total Hc Ht) as E.
  destruct (half_up_bounds 100 completed total ltac:(lia) Hc ltac:(lia)) as [J [L U]].
  change (2 * 100) with 200 in *.
  set (j := (200 * completed + total) / (2 * total)) in *. clearbody j.
  assert (P : Formatter.percentage completed total = 100 <->
              199 * total <= 200 * completed).
  { rewrite E. split.
    - intros H. assert (j = 100) as -> by (destruct (exceptional completed total); lia).
      lia.
    - intros H. assert (j = 100) as -> by nia.
      assert (X : exceptional completed total = false).
      { unfold exceptional.
        repeat (apply orb_false_iff; split); apply Z.eqb_neq; lia. }
      now rewrite X. }
  split; [exact E|]. split; [exact P|].
  rewrite <- P. unfold Formatter.progressColor.
  destruct (Z.eqb_spec (Formatter.percentage completed total) 100) as [Q|Q].
  - tauto.
  - split; [|tauto]. destruct (50 <=? Formatter.percentage completed total); intros X.
    + symmetry in X. now apply green_not_yellow in X.
    + symmetry in X. now apply green_not_red in X.
Qed.

Lemma percentage_rounds_half_up_witness :
  Formatter.percentage 29 200 = 14 /\ Formatter.percentage 199 200 = 100.
Proof.
  split.
  - destruct (percentage_rounds_half_up 29 200) as [E _];
      [lia|split; [lia|discriminate]|].
    rewrite E. reflexivity.
  - apply (percentage_rounds_half_up 199 200); [lia|split; [lia|discriminate]|lia].
Defined.
